(** * HKMJ: a shallow embedding of the Hong Kong Mahjong rules engine

    The development follows the JavaScript sources file by file:
    constants.js, tile.js, wall.js, hand.js, scoring.js, ai.js and game.js.
    Every class becomes a module, every method a function of the same name.
    Mutation of [this] is explicit state passing; a thrown [TypeError]
    (dereferencing [undefined] or [null]) is the [None] of an option result.

    Conventions used throughout:
    - a tile key, the template string [`${suit}_${value}`], is the pair
      [(suit, value)]; the encoding is injective in both directions, so
      [key.split('_')] followed by [parseInt] is the identity on pairs and
      [key.startsWith('dragon')] is a test on the first component;
    - counts and lengths are [nat], tile values, seats, fan-independent
      scores and every number that may be negative are [Z];
    - a JS object used as a counter ([groups], [counts]) is a [gmap] from
      keys to counts together with the array [Object.keys] gives for it
      (keys in insertion order). *)

From Stdlib Require Import ZArith Lia List Sorted.
From stdpp Require Import base decidable countable gmap list option numbers.

#[local] Open Scope Z_scope.

(* ================================================================== *)
(** * constants.js *)
(* ================================================================== *)

Inductive SUITS := WAN | TUNG | SOK | WIND | DRAGON | FLOWER | SEASON.

#[global] Instance SUITS_eq_dec : EqDecision SUITS.
Proof. solve_decision. Defined.

#[global] Instance SUITS_countable : Countable SUITS.
Proof.
  refine (inj_countable'
    (fun s => match s with WAN => 0%nat | TUNG => 1%nat | SOK => 2%nat
                         | WIND => 3%nat | DRAGON => 4%nat | FLOWER => 5%nat
                         | SEASON => 6%nat end)
    (fun n => match n with 0%nat => WAN | 1%nat => TUNG | 2%nat => SOK
                         | 3%nat => WIND | 4%nat => DRAGON | 5%nat => FLOWER
                         | _ => SEASON end) _).
  by intros [].
Defined.

Module WINDS.
Definition EAST : Z := 1.
Definition SOUTH : Z := 2.
Definition WEST : Z := 3.
Definition NORTH : Z := 4.
End WINDS.

Inductive MELD_TYPE := CHOW | PUNG | KONG_EXPOSED | KONG_CONCEALED | KONG_ADDED.

#[global] Instance MELD_TYPE_eq_dec : EqDecision MELD_TYPE.
Proof. solve_decision. Defined.

Inductive GAME_STATE :=
  MENU | DICE_ROLL | DEALING | PLAYER_TURN | PLAYER_DISCARD | AI_TURN
| CLAIMING | ROUND_END | GAME_END.

#[global] Instance GAME_STATE_eq_dec : EqDecision GAME_STATE.
Proof. solve_decision. Defined.

Inductive DIFFICULTY := EASY | MEDIUM | HARD.

#[global] Instance DIFFICULTY_eq_dec : EqDecision DIFFICULTY.
Proof. solve_decision. Defined.

Definition MAX_FAN : nat := 13.
Definition TOTAL_TILES : nat := 144.

(** A tile key: [`${suit}_${value}`]. *)
Abbreviation Key := (SUITS * Z)%type.

(* ================================================================== *)
(** * tile.js *)
(* ================================================================== *)

Module Tile.

Record t := mk { suit : SUITS; value : Z; id : nat }.

#[global] Instance t_eq_dec : EqDecision t.
Proof. solve_decision. Defined.

Definition suitIsNumber (s : SUITS) : bool :=
  bool_decide (s = WAN) || bool_decide (s = TUNG) || bool_decide (s = SOK).

Definition isNumberSuit (x : t) : bool := suitIsNumber (suit x).
Definition isWind (x : t) : bool := bool_decide (suit x = WIND).
Definition isDragon (x : t) : bool := bool_decide (suit x = DRAGON).
Definition isHonour (x : t) : bool := isWind x || isDragon x.
Definition isFlower (x : t) : bool := bool_decide (suit x = FLOWER).
Definition isSeason (x : t) : bool := bool_decide (suit x = SEASON).
Definition isBonus (x : t) : bool := isFlower x || isSeason x.
Definition isTerminal (x : t) : bool :=
  isNumberSuit x && (bool_decide (value x = 1) || bool_decide (value x = 9)).
Definition isTerminalOrHonour (x : t) : bool := isTerminal x || isHonour x.

(** [suitOrder] has no entry for the two bonus suits: the lookup gives
    [undefined] and the sort key is [NaN], here [None]. *)
Definition suitOrder (s : SUITS) : option Z :=
  match s with
  | WAN => Some 0 | TUNG => Some 1 | SOK => Some 2
  | WIND => Some 3 | DRAGON => Some 4
  | FLOWER | SEASON => None
  end.

Definition sortKey (x : t) : option Z :=
  o ← suitOrder (suit x); Some (o * 100 + value x).

Definition matches (x other : t) : bool :=
  bool_decide (suit x = suit other) && bool_decide (value x = value other).

Definition key (x : t) : Key := (suit x, value x).

(** [a.sortKey - b.sortKey]; [None] is [NaN]. *)
Definition compare (a b : t) : option Z :=
  ka ← sortKey a; kb ← sortKey b; Some (ka - kb).

(** [Array.prototype.sort(Tile.compare)].  The sort of ECMAScript is
    stable and reads a [NaN] from the comparator as [+0].  It is written
    here as a stable insertion sort: [x], which stood before the already
    sorted rest, is moved behind exactly the elements the comparator
    puts strictly before it.  For hands without bonus tiles the
    comparator is a total preorder and every stable sort gives this
    result; with a bonus tile the comparator is inconsistent and the
    order ECMAScript leaves to the engine is fixed by this algorithm. *)
Definition before (y x : t) : bool :=
  match compare y x with Some d => bool_decide (d < 0) | None => false end.

Fixpoint insert (x : t) (l : list t) : list t :=
  match l with
  | [] => [x]
  | y :: l' => if before y x then y :: insert x l' else x :: y :: l'
  end.

Fixpoint sort (l : list t) : list t :=
  match l with
  | [] => []
  | x :: l' => insert x (sort l')
  end.

(** The innermost loop of [createAllTiles]: [n] ids from [id0] on. *)
Definition copies (s : SUITS) (v : Z) (id0 : nat) (n : nat) : list t :=
  map (fun c => mk s v (id0 + c)%nat) (seq 0 n).

(** The values [1..n] of one suit, [per] copies of each. *)
Definition suitTiles (s : SUITS) (n per : nat) (id0 : nat) : list t :=
  flat_map (fun i => copies s (Z.of_nat (S i)) (id0 + i * per)%nat per)
           (seq 0 n).

Definition createAllTiles : list t :=
  suitTiles WAN 9 4 0 ++ suitTiles TUNG 9 4 36 ++ suitTiles SOK 9 4 72
  ++ suitTiles WIND 4 4 108 ++ suitTiles DRAGON 3 4 124
  ++ suitTiles FLOWER 4 1 136 ++ suitTiles SEASON 4 1 140.

End Tile.

(** The counter object built by
    [for (const t of tiles) groups[t.key] = (groups[t.key] || 0) + 1]. *)
Definition groupByKey (tiles : list Tile.t) : gmap Key nat :=
  foldl (fun g x => <[Tile.key x := S (g !!! Tile.key x)]> g) ∅ tiles.

(** [Object.keys] of that object: the distinct keys in first-occurrence
    order (no key is an array index, so insertion order is kept). *)
Definition keysInOrder (tiles : list Tile.t) : list Key :=
  foldl (fun ks x => if decide (Tile.key x ∈ ks) then ks else ks ++ [Tile.key x])
        [] tiles.

(** [Array.prototype.findIndex] followed by [splice(idx, 1)]: the first
    element satisfying [p] is removed; nothing happens without one. *)
Fixpoint removeFirst {A} (p : A -> bool) (l : list A) : list A :=
  match l with
  | [] => []
  | x :: l' => if p x then l' else x :: removeFirst p l'
  end.

(* ================================================================== *)
(** * hand.js *)
(* ================================================================== *)

(** A meld object [{ type, tiles }]; game.js adds [fromPlayer] to the melds
    made from a discard ([None] is the missing property). *)
Module Meld.
Record t := mk { type : MELD_TYPE; tiles : list Tile.t; fromPlayer : option Z }.

Definition set_fromPlayer (p : option Z) (m : t) : t :=
  mk (type m) (tiles m) p.

Definition isKong (m : t) : bool :=
  bool_decide (type m = KONG_EXPOSED) || bool_decide (type m = KONG_CONCEALED)
  || bool_decide (type m = KONG_ADDED).
End Meld.

(** One entry of [result.sets] / [allSets]: [{ type, key, suit, value }],
    with [exposed: true] on the entries made from melds.  The strings
    ['pung'] and ['chow'] are the values of [MELD_TYPE.PUNG] and
    [MELD_TYPE.CHOW]; [suit] and [value] are the components of [key]. *)
Module TileSet.
Record t := mk { type : MELD_TYPE; key : Key; exposed : bool }.
Definition suit (s : t) : SUITS := fst (key s).
Definition value (s : t) : Z := snd (key s).
End TileSet.

Inductive SpecialHand := seven_pairs | thirteen_orphans.

(** What [getWinDecomposition] returns (its [null] is [None]). *)
Inductive Decomposition :=
| Special (special : SpecialHand) (tiles : list Tile.t)
| Standard (pair : option Key) (sets : list TileSet.t) (melds : list Meld.t).

Module Hand.

Record t := mk {
  playerIndex : Z;
  concealed : list Tile.t;
  melds : list Meld.t;
  flowers : list Tile.t;
  discards : list Tile.t
}.

Definition new (playerIndex : Z) : t := mk playerIndex [] [] [] [].

Definition set_concealed (c : list Tile.t) (h : t) : t :=
  mk (playerIndex h) c (melds h) (flowers h) (discards h).
Definition set_melds (m : list Meld.t) (h : t) : t :=
  mk (playerIndex h) (concealed h) m (flowers h) (discards h).
Definition set_flowers (f : list Tile.t) (h : t) : t :=
  mk (playerIndex h) (concealed h) (melds h) f (discards h).
Definition set_discards (d : list Tile.t) (h : t) : t :=
  mk (playerIndex h) (concealed h) (melds h) (flowers h) d.

Definition reset (h : t) : t := mk (playerIndex h) [] [] [] [].

Definition sort (h : t) : t := set_concealed (Tile.sort (concealed h)) h.

Definition setInitial (tiles : list Tile.t) (h : t) : t :=
  sort (set_concealed tiles h).

Definition addTile (tile : Tile.t) (h : t) : t :=
  sort (set_concealed (concealed h ++ [tile]) h).

Definition addFlower (tile : Tile.t) (h : t) : t :=
  set_flowers (Tile.sort (flowers h ++ [tile])) h.

Definition removeTile (tile : Tile.t) (h : t) : t :=
  set_concealed
    (removeFirst (fun x => bool_decide (Tile.id x = Tile.id tile)) (concealed h)) h.

Definition hasKey (key : Key) (x : Tile.t) : bool := bool_decide (Tile.key x = key).

(** Returns the removed tile, or [None] for the [null] of a miss. *)
Definition removeTileByKey (key : Key) (h : t) : option Tile.t * t :=
  match List.find (hasKey key) (concealed h) with
  | Some tile => (Some tile, set_concealed (removeFirst (hasKey key) (concealed h)) h)
  | None => (None, h)
  end.

Definition discard (tile : Tile.t) (h : t) : t :=
  let h := removeTile tile h in
  set_discards (discards h ++ [tile]) h.

Definition getTilesByKey (key : Key) (h : t) : list Tile.t :=
  List.filter (hasKey key) (concealed h).

Definition countByKey (key : Key) (h : t) : nat := length (getTilesByKey key h).

(** ** Claim checks *)

Definition canPung (discardTile : Tile.t) (h : t) : bool :=
  bool_decide (2 <= countByKey (Tile.key discardTile) h)%nat.

Definition canKongFromDiscard (discardTile : Tile.t) (h : t) : bool :=
  bool_decide (3 <= countByKey (Tile.key discardTile) h)%nat.

Definition getConcealedKongs (h : t) : list Key :=
  let counts := groupByKey (concealed h) in
  List.filter (fun k => bool_decide (counts !! k = Some 4%nat))
              (keysInOrder (concealed h)).

(** [meld.tiles[0].key] throws on a pung meld without tiles. *)
Fixpoint getAddedKongs_from (h : t) (ms : list Meld.t) : option (list Key) :=
  match ms with
  | [] => Some []
  | meld :: ms' =>
    if decide (Meld.type meld = PUNG) then
      t0 ← head (Meld.tiles meld);
      rest ← getAddedKongs_from h ms';
      Some (if bool_decide (1 <= countByKey (Tile.key t0) h)%nat
            then Tile.key t0 :: rest else rest)
    else getAddedKongs_from h ms'
  end.

Definition getAddedKongs (h : t) : option (list Key) :=
  getAddedKongs_from h (melds h).

(** The combos are pairs of keys [[k1, k2]]. *)
Definition canChow (discardTile : Tile.t) (h : t) : list (list Key) :=
  if negb (Tile.isNumberSuit discardTile) then [] else
  let suit := Tile.suit discardTile in
  let val := Tile.value discardTile in
  let has k := bool_decide (0 < countByKey k h)%nat in
  (if bool_decide (val >= 3) && has (suit, val - 2) && has (suit, val - 1)
   then [[(suit, val - 2); (suit, val - 1)]] else [])
  ++ (if bool_decide (val >= 2) && bool_decide (val <= 8)
         && has (suit, val - 1) && has (suit, val + 1)
      then [[(suit, val - 1); (suit, val + 1)]] else [])
  ++ (if bool_decide (val <= 7) && has (suit, val + 1) && has (suit, val + 2)
      then [[(suit, val + 1); (suit, val + 2)]] else []).

(** The loop [for (key of keys) { t = removeTileByKey(key); if (t) tiles.push(t) }]
    shared by the five meld operations. *)
Fixpoint takeByKeys (keys : list Key) (tiles : list Tile.t) (h : t)
  : list Tile.t * t :=
  match keys with
  | [] => (tiles, h)
  | key :: keys' =>
    match removeTileByKey key h with
    | (Some x, h') => takeByKeys keys' (tiles ++ [x]) h'
    | (None, h') => takeByKeys keys' tiles h'
    end
  end.

Definition pushMeld (ty : MELD_TYPE) (tiles : list Tile.t) (h : t) : t :=
  set_melds (melds h ++ [Meld.mk ty tiles None]) h.

Definition doChow (discardTile : Tile.t) (comboKeys : list Key) (h : t) : t :=
  let '(tiles, h) := takeByKeys comboKeys [discardTile] h in
  pushMeld CHOW (Tile.sort tiles) h.

Definition doPung (discardTile : Tile.t) (h : t) : t :=
  let '(tiles, h) := takeByKeys (replicate 2 (Tile.key discardTile)) [discardTile] h in
  pushMeld PUNG tiles h.

Definition doKongExposed (discardTile : Tile.t) (h : t) : t :=
  let '(tiles, h) := takeByKeys (replicate 3 (Tile.key discardTile)) [discardTile] h in
  pushMeld KONG_EXPOSED tiles h.

Definition doKongConcealed (key : Key) (h : t) : t :=
  let '(tiles, h) := takeByKeys (replicate 4 key) [] h in
  pushMeld KONG_CONCEALED tiles h.

(** [findIndex(m => m.type === PUNG && m.tiles[0].key === key)]; the
    callback throws on a pung meld without tiles. *)
Fixpoint findPung (key : Key) (ms : list Meld.t) (i : nat) : option (option nat) :=
  match ms with
  | [] => Some None
  | m :: ms' =>
    if decide (Meld.type m = PUNG) then
      t0 ← head (Meld.tiles m);
      if decide (Tile.key t0 = key) then Some (Some i) else findPung key ms' (S i)
    else findPung key ms' (S i)
  end.

Definition doKongAdded (key : Key) (h : t) : option t :=
  meldIdx ← findPung key (melds h) 0;
  match meldIdx with
  | None => Some h
  | Some i =>
    match removeTileByKey key h with
    | (Some x, h') =>
      Some (set_melds
              (alter (fun m => Meld.mk KONG_ADDED (Meld.tiles m ++ [x]) (Meld.fromPlayer m))
                     i (melds h')) h')
    | (None, h') => Some h'
    end
  end.

(** ** Win detection *)

Definition getAllTilesForWinCheck (h : t) : list Tile.t := concealed h.

(** [while (keyIdx < keys.length && groups[keys[keyIdx]] === 0) keyIdx++].
    The array [keys] is never written and [keyIdx] only grows, so the
    pair [(keys, keyIdx)] is carried as the suffix [keys.slice(keyIdx)];
    the loop returns the suffix at the new index. *)
Fixpoint skipZero (groups : gmap Key nat) (ks : list Key) : list Key :=
  match ks with
  | [] => []
  | k :: ks' => if decide (groups !! k = Some 0%nat) then skipZero groups ks' else ks
  end.

(** [groups[key] -= n], used only under the guard [groups[key] >= n]. *)
Definition take (n : nat) (key : Key) (groups : gmap Key nat) : gmap Key nat :=
  <[key := (groups !!! key - n)%nat]> groups.

(** The chow test of both searches: a number suit, [value <= 7] and one
    tile of each of the next two values. *)
Definition chowAvailable (groups : gmap Key nat) (key : Key) : bool :=
  Tile.suitIsNumber (fst key) && bool_decide (snd key <= 7)
  && bool_decide (0 < groups !!! (fst key, (snd key + 1)%Z))%nat
  && bool_decide (0 < groups !!! (fst key, (snd key + 2)%Z))%nat.

Definition takeChow (key : Key) (groups : gmap Key nat) : gmap Key nat :=
  take 1 (fst key, snd key + 2) (take 1 (fst key, snd key + 1) (take 1 key groups)).

(** The recursion of [_tryRemoveSets].  The source mutates [groups],
    recurses and restores it on the way back, so each branch starts
    from the counts the call was entered with: the counts are passed
    by value.  Every recursive call has consumed two or three tiles;
    [fuel] bounds the depth and [S (length tiles)] is never used up
    (lemma [tryRemoveSets_fuel]). *)
Fixpoint _tryRemoveSets (fuel : nat) (groups : gmap Key nat) (ks : list Key)
    (pairUsed : bool) : bool :=
  match fuel with
  | O => false
  | S fuel =>
    match skipZero groups ks with
    | [] => pairUsed
    | (key :: _) as ks =>
      let count := groups !!! key in
      if (if negb pairUsed && bool_decide (2 <= count)%nat
          then _tryRemoveSets fuel (take 2 key groups) ks true else false)
      then true
      else if (if bool_decide (3 <= count)%nat
               then _tryRemoveSets fuel (take 3 key groups) ks pairUsed else false)
      then true
      else if chowAvailable groups key
      then _tryRemoveSets fuel (takeChow key groups) ks pairUsed
      else false
    end
  end.

Definition _checkStandardWin (tiles : list Tile.t) : bool :=
  _tryRemoveSets (S (length tiles)) (groupByKey tiles) (keysInOrder tiles) false.

(** [Object.values(counts)]. *)
Definition countValues (tiles : list Tile.t) : list nat :=
  (fun k => groupByKey tiles !!! k) <$> keysInOrder tiles.

Definition _checkSevenPairs (tiles : list Tile.t) : bool :=
  let values := countValues tiles in
  bool_decide (length values = 7%nat) && forallb (fun v => bool_decide (v = 2%nat)) values.

Definition required : list Key :=
  [(WAN, 1); (WAN, 9); (TUNG, 1); (TUNG, 9); (SOK, 1); (SOK, 9);
   (WIND, 1); (WIND, 2); (WIND, 3); (WIND, 4);
   (DRAGON, 1); (DRAGON, 2); (DRAGON, 3)].

(** The loop returns [false] at the first missing key and otherwise
    remembers whether some count was exactly two. *)
Fixpoint orphansLoop (counts : gmap Key nat) (ks : list Key) (hasPair : bool) : bool :=
  match ks with
  | [] => hasPair
  | key :: ks' =>
    if bool_decide (counts !!! key < 1)%nat then false
    else orphansLoop counts ks' (if bool_decide (counts !!! key = 2%nat) then true else hasPair)
  end.

Definition _checkThirteenOrphans (tiles : list Tile.t) : bool :=
  orphansLoop (groupByKey tiles) required false.

Definition canWin (h : t) : bool :=
  let tiles := concealed h in
  if _checkStandardWin tiles then true
  else if bool_decide (length (melds h) = 0%nat) && bool_decide (length tiles = 14%nat)
          && _checkSevenPairs tiles then true
  else if bool_decide (length (melds h) = 0%nat) && bool_decide (length tiles = 14%nat)
          && _checkThirteenOrphans tiles then true
  else false.

(** The object [result] of [_decompose]: [{ pair, sets }]. *)
Record result := mkResult { pair : option Key; sets : list TileSet.t }.

(** [_decompose] returns its boolean together with the [result] object
    as the call leaves it.  The writes are the source's: [pair] is set
    before the recursive call and reset to [null] after a failure, a set
    is pushed before and popped after. *)
Fixpoint _decompose (fuel : nat) (groups : gmap Key nat) (ks : list Key)
    (res : result) : bool * result :=
  match fuel with
  | O => (false, res)
  | S fuel =>
    match skipZero groups ks with
    | [] => (bool_decide (pair res <> None), res)
    | (key :: _) as ks =>
      let count := groups !!! key in
      let '(found, res) :=
        if bool_decide (pair res = None) && bool_decide (2 <= count)%nat then
          let '(b, res) := _decompose fuel (take 2 key groups) ks
                             (mkResult (Some key) (sets res)) in
          if b then (true, res) else (false, mkResult None (sets res))
        else (false, res) in
      if found then (true, res) else
      let '(found, res) :=
        if bool_decide (3 <= count)%nat then
          let '(b, res) := _decompose fuel (take 3 key groups) ks
                             (mkResult (pair res) (sets res ++ [TileSet.mk PUNG key false])) in
          if b then (true, res) else (false, mkResult (pair res) (removelast (sets res)))
        else (false, res) in
      if found then (true, res) else
      if chowAvailable groups key then
        let '(b, res) := _decompose fuel (takeChow key groups) ks
                           (mkResult (pair res) (sets res ++ [TileSet.mk CHOW key false])) in
        if b then (true, res) else (false, mkResult (pair res) (removelast (sets res)))
      else (false, res)
    end
  end.

Definition getWinDecomposition (h : t) : option Decomposition :=
  let tiles := concealed h in
  if bool_decide (length (melds h) = 0%nat) && bool_decide (length tiles = 14%nat)
     && _checkSevenPairs tiles
  then Some (Special seven_pairs tiles)
  else if bool_decide (length (melds h) = 0%nat) && bool_decide (length tiles = 14%nat)
          && _checkThirteenOrphans tiles
  then Some (Special thirteen_orphans tiles)
  else
    let '(b, res) := _decompose (S (length tiles)) (groupByKey tiles)
                       (keysInOrder tiles) (mkResult None []) in
    if b then Some (Standard (pair res) (sets res) (melds h)) else None.

End Hand.

(* ================================================================== *)
(** * Shared data of scoring.js and game.js *)
(* ================================================================== *)

(** The scoring context [{ seatWind, roundWind, selfDrawn, isLastTile,
    isKongDraw, minFan, allDiscards, players }] of [Game.getContext].
    [seatWind] is [seatWinds[playerIndex]], [undefined] out of range. *)
Module PlayerView.
Record t := mk {
  index : nat;
  melds : list Meld.t;
  flowers : list Tile.t;
  discardCount : nat
}.
End PlayerView.

Module Context.
Record t := mk {
  seatWind : option Z;
  roundWind : Z;
  selfDrawn : bool;
  isLastTile : bool;
  isKongDraw : bool;
  minFan : Z;
  allDiscards : list Tile.t;
  players : list PlayerView.t
}.

Definition set_selfDrawn (b : bool) (c : t) : t :=
  mk (seatWind c) (roundWind c) b (isLastTile c) (isKongDraw c) (minFan c)
     (allDiscards c) (players c).
Definition set_isKongDraw (b : bool) (c : t) : t :=
  mk (seatWind c) (roundWind c) (selfDrawn c) (isLastTile c) b (minFan c)
     (allDiscards c) (players c).
End Context.

(** The [name] of a breakdown entry; the source uses display strings. *)
Inductive FanName :=
| FThirteenOrphans      (* 十三么 *)
| FSevenPairs           (* 七對子 *)
| FAllHonours           (* 字一色 *)
| FNineGates            (* 九蓮寶燈 *)
| FAllPungs             (* 對對糊 *)
| FCleanFlush           (* 清一色 *)
| FMixedFlush           (* 混一色 *)
| FPingHu               (* 平糊 *)
| FDragonPung (val : Z) (* 番牌 中/發/白 *)
| FSeatWind             (* 門風 *)
| FRoundWind            (* 圈風 *)
| FSelfDrawn            (* 自摸 *)
| FConcealedHand        (* 門前清 *)
| FLastTile             (* 海底撈月 *)
| FKongDraw             (* 槓上自摸 *)
| FSmallThreeDragons    (* 小三元 *)
| FBigThreeDragons      (* 大三元 *)
| FSmallFourWinds       (* 小四喜 *)
| FBigFourWinds         (* 大四喜 *)
| FFlowerSet            (* 花牌: 一台 *)
| FMatchingFlower       (* 正花 *)
| FSeasonSet            (* 季牌: 一台 *)
| FMatchingSeason       (* 正季 *)
| FEightBonus.          (* 八仙過海 *)

#[global] Instance FanName_eq_dec : EqDecision FanName.
Proof. solve_decision. Defined.


(** What [Scoring.calculate] returns: [{ totalFan, breakdown }]. *)
Module ScoringResult.
Definition Breakdown := list (FanName * nat).
Record t := mk { totalFan : nat; breakdown : Breakdown }.
End ScoringResult.

(** [winInfo]: [{ scoring, selfDrawn, fromPlayer }]; the self-drawn wins
    leave [fromPlayer] out. *)
Module WinInfo.
Record t := mk {
  scoring : ScoringResult.t;
  selfDrawn : bool;
  fromPlayer : option Z
}.
End WinInfo.

(** An element of a JS array of numbers: an integer, or [None] for the
    values arithmetic cannot use ([NaN], or the [undefined] of a hole). *)
Abbreviation num := (option Z).

(** [a[i] += d] on a JS array.  Inside the array the element is updated.
    At or beyond its length the array grows: the skipped slots are holes
    and the new element is [undefined + d], [NaN].  A negative index, or
    the index [undefined] ([None]), names a property that is not an
    element: the elements stay as they are. *)
Definition addAt (i : option Z) (d : Z) (a : list num) : list num :=
  match i with
  | None => a
  | Some i =>
    if decide (i < 0) then a
    else if decide (Z.to_nat i < length a)%nat
    then alter (fun x => (fun v => v + d) <$> x) (Z.to_nat i) a
    else a ++ replicate (Z.to_nat i - length a) None ++ [None]
  end.

(** [a[i]] for a seat index [i]: [None] is [undefined]. *)
Definition at_ {A} (a : list A) (i : Z) : option A :=
  if decide (i < 0) then None else a !! Z.to_nat i.

(** [paymentInfo]: [{ deltas, details, responsible }].  The [details] are
    display strings and are left out. *)
Module PaymentInfo.
Record t := mk { deltas : list num; responsible : Z }.
End PaymentInfo.

(** The claim actions ['win'], ['kong'], ['pung'], ['chow']. *)
Inductive Action := win | kong | pung | chow.

#[global] Instance Action_eq_dec : EqDecision Action.
Proof. solve_decision. Defined.

(** What [AI.decideKong] returns: [{ action, key }] with [action] one of
    ['kong_concealed'] and ['kong_added']. *)
Module KongDecision.
Record t := mk { action : MELD_TYPE; key : Key }.
End KongDecision.

(* ================================================================== *)
(** * Math.random *)
(* ================================================================== *)

(** The pseudorandom source.  [Math.random()] returns a double in [0, 1);
    the [n]-th call returns [source n / 2^53].  The two uses of the source,
    [Math.floor(Math.random() * k)] and [Math.random() < 0.5], are computed
    on that fraction exactly: the rounding of the floating-point product is
    not modelled (for the small [k] of this program it does not reach [k]).
    Every choice the program can make is the image of some source. *)
Module RNG.
Record t := mk { source : nat -> Z; pos : nat }.

Definition DEN : Z := 2 ^ 53.

(** The numerator of the next [Math.random()]. *)
Definition random (r : t) : Z * t :=
  (source r (pos r) `mod` DEN, mk (source r) (S (pos r))).

(** [Math.floor(Math.random() * k)] *)
Definition randomInt (k : nat) (r : t) : nat * t :=
  let '(u, r) := random r in (Z.to_nat (u * Z.of_nat k / DEN), r).

(** [Math.random() < 0.5] *)
Definition randomBelowHalf (r : t) : bool * t :=
  let '(u, r) := random r in (bool_decide (2 * u < DEN), r).
End RNG.

(* ================================================================== *)
(** * wall.js *)
(* ================================================================== *)

Module Wall.

Record t := mk {
  tiles : list Tile.t;
  deadWall : list Tile.t;
  drawIndex : nat
}.

Definition new : t := mk [] [] 0.

(** [[a[i], a[j]] = [a[j], a[i]]] for two indices inside the array. *)
Definition swap (i j : nat) (a : list Tile.t) : list Tile.t :=
  match a !! i, a !! j with
  | Some x, Some y => <[i := y]> (<[j := x]> a)
  | _, _ => a
  end.

(** The Fisher-Yates loop [for (i = length - 1; i > 0; i--)], entered
    with the loop variable at [i]. *)
Fixpoint shuffleFrom (i : nat) (a : list Tile.t) (r : RNG.t) : list Tile.t * RNG.t :=
  match i with
  | O => (a, r)
  | S i' =>
    let '(j, r) := RNG.randomInt (S i) r in
    shuffleFrom i' (swap i j a) r
  end.

Definition shuffle (w : t) (r : RNG.t) : t * RNG.t :=
  let '(a, r) := shuffleFrom (length (tiles w) - 1) (tiles w) r in
  (mk a (deadWall w) (drawIndex w), r).

(** [splice(length - 14, 14)] cuts the last 14 tiles off. *)
Definition build (w : t) (r : RNG.t) : t * RNG.t :=
  let '(w, r) := shuffle (mk Tile.createAllTiles (deadWall w) (drawIndex w)) r in
  let n := (length (tiles w) - 14)%nat in
  (mk (take n (tiles w)) (drop n (tiles w)) 0, r).

(** [None] is the [null] of an exhausted wall. *)
Definition draw (w : t) : option Tile.t * t :=
  match tiles w !! drawIndex w with
  | None => (None, w)
  | Some x => (Some x, mk (tiles w) (deadWall w) (S (drawIndex w)))
  end.

Definition drawFromDeadWall (w : t) : option Tile.t * t :=
  match list.last (deadWall w) with
  | None => (None, w)
  | Some x => (Some x, mk (tiles w) (removelast (deadWall w)) (drawIndex w))
  end.

Definition remaining (w : t) : Z :=
  Z.of_nat (length (tiles w)) - Z.of_nat (drawIndex w).

(** The seats in the order [deal] pushes a drawn tile to them: three
    rounds in which each of the four seats, from the dealer on, takes
    four tiles; one more tile for each seat; one extra for the dealer. *)
Definition dealOrder (dealerIndex : Z) : list Z :=
  flat_map (fun _ : nat =>
              flat_map (fun p => replicate 4 ((dealerIndex + p) `rem` 4)) [0; 1; 2; 3])
           [0%nat; 1%nat; 2%nat]
  ++ ((fun p => (dealerIndex + p) `rem` 4) <$> [0; 1; 2; 3])
  ++ [dealerIndex].

(** [hands[idx].push(this.draw())].  [hands[idx]] outside the four
    arrays is [undefined] and the push throws; a [null] drawn from an
    exhausted wall is not a tile, and the model stops there as well
    (the hand it would be pushed to cannot be sorted). *)
Fixpoint dealTo (order : list Z) (hands : list (list Tile.t)) (w : t)
  : option (list (list Tile.t) * t) :=
  match order with
  | [] => Some (hands, w)
  | idx :: order' =>
    _ ← at_ hands idx;
    match draw w with
    | (Some x, w') => dealTo order' (alter (fun h => h ++ [x]) (Z.to_nat idx) hands) w'
    | (None, _) => None
    end
  end.

Definition deal (dealerIndex : Z) (w : t) : option (list (list Tile.t) * t) :=
  dealTo (dealOrder dealerIndex) [[]; []; []; []] w.

End Wall.

(* ================================================================== *)
(** * The fields of class Game *)
(* ================================================================== *)

(** A callback handed to [setTimeout] and not yet run, with the values
    its closure holds. *)
Inductive Timer :=
| TimerSelfWin (p : Z) (scoring : ScoringResult.t)
| TimerKong (p : Z) (kongDecision : KongDecision.t) (ctx : Context.t)
| TimerClaim (playerIdx : Z) (action : Action) (discardTile : Tile.t) (fromPlayer : Z).

(** The [gameState] argument of [AI.chooseDiscard]. *)
Module DiscardView.
Record t := mk {
  allDiscards : list Tile.t;
  roundWind : Z;
  seatWind : option Z;
  players : list PlayerView.t
}.
End DiscardView.

(** The Medium and Hard heuristics of ai.js.  They read the hand and the
    round and pick one of the legal moves; the state machine only calls
    them.  They are kept as an interface, and everything proved about the
    game holds for every implementation of it.  [_discardMedium] and the
    two claim heuristics draw from [Math.random]; a result [None] of a
    discard heuristic is the [undefined] (or the [TypeError]) of an empty
    hand.  [claimMediumRest] and [claimHardRest] are [_claimMedium] and
    [_claimHard] after their first two lines (win, kong), which are
    modelled in [AI.decideClaim]. *)
Module Heuristics.
Record t := mk {
  _discardMedium : Hand.t -> DiscardView.t -> RNG.t -> option Tile.t * RNG.t;
  _discardHard : Hand.t -> DiscardView.t -> option Tile.t;
  claimMediumRest : Hand.t -> Tile.t -> bool -> Context.t -> RNG.t -> option Action * RNG.t;
  claimHardRest : Hand.t -> Tile.t -> bool -> Context.t -> RNG.t -> option Action * RNG.t
}.
End Heuristics.

(** The object state of [Game].  Left out are the fields the rules never
    read: the callbacks [onStateChange] and [onUpdate] (notifications to the
    presentation), [characters] (expressions), [tileTheme], [actionQueue]
    and [isProcessing].  [hands] and [ai] start as arrays of [null]; a
    [null] entry and a missing one both throw when dereferenced, so they
    start empty here.  Three fields are added: [timers], the callbacks
    given to [setTimeout] that have not run yet, [rng], the state of
    [Math.random], and [heuristics], the Medium and Hard code of ai.js. *)
Module GameObj.
Record t := mk {
  wall : Wall.t;
  hands : list Hand.t;
  ai : list DIFFICULTY;
  state : option GAME_STATE;
  currentPlayer : Z;
  dealerIndex : Z;
  roundWind : Z;
  roundNumber : Z;
  seatWinds : list Z;
  lastDiscard : option Tile.t;
  lastDiscardPlayer : Z;
  turnCount : Z;
  winner : Z;
  winInfo : option WinInfo.t;
  difficulty : DIFFICULTY;
  minFan : Z;
  pendingClaims : list Action;
  _selfDrawn : bool;
  _isKongDraw : bool;
  _drawnTile : option Tile.t;
  scores : list num;
  totalRounds : Z;
  maxRounds : Z;
  paymentInfo : option PaymentInfo.t;
  diceResults : list Z;
  diceRolled : bool;
  timers : list Timer;
  rng : RNG.t;
  heuristics : Heuristics.t
}.

Definition set_wall (x : Wall.t) (g : t) : t :=
  mk x (hands g) (ai g) (state g) (currentPlayer g) (dealerIndex g)
    (roundWind g) (roundNumber g) (seatWinds g) (lastDiscard g)
    (lastDiscardPlayer g) (turnCount g) (winner g) (winInfo g) (difficulty g)
    (minFan g) (pendingClaims g) (_selfDrawn g) (_isKongDraw g) (_drawnTile g)
    (scores g) (totalRounds g) (maxRounds g) (paymentInfo g) (diceResults g)
    (diceRolled g) (timers g) (rng g) (heuristics g).
Definition set_hands (x : list Hand.t) (g : t) : t :=
  mk (wall g) x (ai g) (state g) (currentPlayer g) (dealerIndex g)
    (roundWind g) (roundNumber g) (seatWinds g) (lastDiscard g)
    (lastDiscardPlayer g) (turnCount g) (winner g) (winInfo g) (difficulty g)
    (minFan g) (pendingClaims g) (_selfDrawn g) (_isKongDraw g) (_drawnTile g)
    (scores g) (totalRounds g) (maxRounds g) (paymentInfo g) (diceResults g)
    (diceRolled g) (timers g) (rng g) (heuristics g).
Definition set_ai (x : list DIFFICULTY) (g : t) : t :=
  mk (wall g) (hands g) x (state g) (currentPlayer g) (dealerIndex g)
    (roundWind g) (roundNumber g) (seatWinds g) (lastDiscard g)
    (lastDiscardPlayer g) (turnCount g) (winner g) (winInfo g) (difficulty g)
    (minFan g) (pendingClaims g) (_selfDrawn g) (_isKongDraw g) (_drawnTile g)
    (scores g) (totalRounds g) (maxRounds g) (paymentInfo g) (diceResults g)
    (diceRolled g) (timers g) (rng g) (heuristics g).
Definition set_state (x : option GAME_STATE) (g : t) : t :=
  mk (wall g) (hands g) (ai g) x (currentPlayer g) (dealerIndex g)
    (roundWind g) (roundNumber g) (seatWinds g) (lastDiscard g)
    (lastDiscardPlayer g) (turnCount g) (winner g) (winInfo g) (difficulty g)
    (minFan g) (pendingClaims g) (_selfDrawn g) (_isKongDraw g) (_drawnTile g)
    (scores g) (totalRounds g) (maxRounds g) (paymentInfo g) (diceResults g)
    (diceRolled g) (timers g) (rng g) (heuristics g).
Definition set_currentPlayer (x : Z) (g : t) : t :=
  mk (wall g) (hands g) (ai g) (state g) x (dealerIndex g) (roundWind g)
    (roundNumber g) (seatWinds g) (lastDiscard g) (lastDiscardPlayer g)
    (turnCount g) (winner g) (winInfo g) (difficulty g) (minFan g)
    (pendingClaims g) (_selfDrawn g) (_isKongDraw g) (_drawnTile g) (scores g)
    (totalRounds g) (maxRounds g) (paymentInfo g) (diceResults g) (diceRolled
    g) (timers g) (rng g) (heuristics g).
Definition set_dealerIndex (x : Z) (g : t) : t :=
  mk (wall g) (hands g) (ai g) (state g) (currentPlayer g) x (roundWind g)
    (roundNumber g) (seatWinds g) (lastDiscard g) (lastDiscardPlayer g)
    (turnCount g) (winner g) (winInfo g) (difficulty g) (minFan g)
    (pendingClaims g) (_selfDrawn g) (_isKongDraw g) (_drawnTile g) (scores g)
    (totalRounds g) (maxRounds g) (paymentInfo g) (diceResults g) (diceRolled
    g) (timers g) (rng g) (heuristics g).
Definition set_roundWind (x : Z) (g : t) : t :=
  mk (wall g) (hands g) (ai g) (state g) (currentPlayer g) (dealerIndex g) x
    (roundNumber g) (seatWinds g) (lastDiscard g) (lastDiscardPlayer g)
    (turnCount g) (winner g) (winInfo g) (difficulty g) (minFan g)
    (pendingClaims g) (_selfDrawn g) (_isKongDraw g) (_drawnTile g) (scores g)
    (totalRounds g) (maxRounds g) (paymentInfo g) (diceResults g) (diceRolled
    g) (timers g) (rng g) (heuristics g).
Definition set_roundNumber (x : Z) (g : t) : t :=
  mk (wall g) (hands g) (ai g) (state g) (currentPlayer g) (dealerIndex g)
    (roundWind g) x (seatWinds g) (lastDiscard g) (lastDiscardPlayer g)
    (turnCount g) (winner g) (winInfo g) (difficulty g) (minFan g)
    (pendingClaims g) (_selfDrawn g) (_isKongDraw g) (_drawnTile g) (scores g)
    (totalRounds g) (maxRounds g) (paymentInfo g) (diceResults g) (diceRolled
    g) (timers g) (rng g) (heuristics g).
Definition set_seatWinds (x : list Z) (g : t) : t :=
  mk (wall g) (hands g) (ai g) (state g) (currentPlayer g) (dealerIndex g)
    (roundWind g) (roundNumber g) x (lastDiscard g) (lastDiscardPlayer g)
    (turnCount g) (winner g) (winInfo g) (difficulty g) (minFan g)
    (pendingClaims g) (_selfDrawn g) (_isKongDraw g) (_drawnTile g) (scores g)
    (totalRounds g) (maxRounds g) (paymentInfo g) (diceResults g) (diceRolled
    g) (timers g) (rng g) (heuristics g).
Definition set_lastDiscard (x : option Tile.t) (g : t) : t :=
  mk (wall g) (hands g) (ai g) (state g) (currentPlayer g) (dealerIndex g)
    (roundWind g) (roundNumber g) (seatWinds g) x (lastDiscardPlayer g)
    (turnCount g) (winner g) (winInfo g) (difficulty g) (minFan g)
    (pendingClaims g) (_selfDrawn g) (_isKongDraw g) (_drawnTile g) (scores g)
    (totalRounds g) (maxRounds g) (paymentInfo g) (diceResults g) (diceRolled
    g) (timers g) (rng g) (heuristics g).
Definition set_lastDiscardPlayer (x : Z) (g : t) : t :=
  mk (wall g) (hands g) (ai g) (state g) (currentPlayer g) (dealerIndex g)
    (roundWind g) (roundNumber g) (seatWinds g) (lastDiscard g) x (turnCount
    g) (winner g) (winInfo g) (difficulty g) (minFan g) (pendingClaims g)
    (_selfDrawn g) (_isKongDraw g) (_drawnTile g) (scores g) (totalRounds g)
    (maxRounds g) (paymentInfo g) (diceResults g) (diceRolled g) (timers g)
    (rng g) (heuristics g).
Definition set_turnCount (x : Z) (g : t) : t :=
  mk (wall g) (hands g) (ai g) (state g) (currentPlayer g) (dealerIndex g)
    (roundWind g) (roundNumber g) (seatWinds g) (lastDiscard g)
    (lastDiscardPlayer g) x (winner g) (winInfo g) (difficulty g) (minFan g)
    (pendingClaims g) (_selfDrawn g) (_isKongDraw g) (_drawnTile g) (scores g)
    (totalRounds g) (maxRounds g) (paymentInfo g) (diceResults g) (diceRolled
    g) (timers g) (rng g) (heuristics g).
Definition set_winner (x : Z) (g : t) : t :=
  mk (wall g) (hands g) (ai g) (state g) (currentPlayer g) (dealerIndex g)
    (roundWind g) (roundNumber g) (seatWinds g) (lastDiscard g)
    (lastDiscardPlayer g) (turnCount g) x (winInfo g) (difficulty g) (minFan
    g) (pendingClaims g) (_selfDrawn g) (_isKongDraw g) (_drawnTile g) (scores
    g) (totalRounds g) (maxRounds g) (paymentInfo g) (diceResults g)
    (diceRolled g) (timers g) (rng g) (heuristics g).
Definition set_winInfo (x : option WinInfo.t) (g : t) : t :=
  mk (wall g) (hands g) (ai g) (state g) (currentPlayer g) (dealerIndex g)
    (roundWind g) (roundNumber g) (seatWinds g) (lastDiscard g)
    (lastDiscardPlayer g) (turnCount g) (winner g) x (difficulty g) (minFan g)
    (pendingClaims g) (_selfDrawn g) (_isKongDraw g) (_drawnTile g) (scores g)
    (totalRounds g) (maxRounds g) (paymentInfo g) (diceResults g) (diceRolled
    g) (timers g) (rng g) (heuristics g).
Definition set_difficulty (x : DIFFICULTY) (g : t) : t :=
  mk (wall g) (hands g) (ai g) (state g) (currentPlayer g) (dealerIndex g)
    (roundWind g) (roundNumber g) (seatWinds g) (lastDiscard g)
    (lastDiscardPlayer g) (turnCount g) (winner g) (winInfo g) x (minFan g)
    (pendingClaims g) (_selfDrawn g) (_isKongDraw g) (_drawnTile g) (scores g)
    (totalRounds g) (maxRounds g) (paymentInfo g) (diceResults g) (diceRolled
    g) (timers g) (rng g) (heuristics g).
Definition set_minFan (x : Z) (g : t) : t :=
  mk (wall g) (hands g) (ai g) (state g) (currentPlayer g) (dealerIndex g)
    (roundWind g) (roundNumber g) (seatWinds g) (lastDiscard g)
    (lastDiscardPlayer g) (turnCount g) (winner g) (winInfo g) (difficulty g)
    x (pendingClaims g) (_selfDrawn g) (_isKongDraw g) (_drawnTile g) (scores
    g) (totalRounds g) (maxRounds g) (paymentInfo g) (diceResults g)
    (diceRolled g) (timers g) (rng g) (heuristics g).
Definition set_pendingClaims (x : list Action) (g : t) : t :=
  mk (wall g) (hands g) (ai g) (state g) (currentPlayer g) (dealerIndex g)
    (roundWind g) (roundNumber g) (seatWinds g) (lastDiscard g)
    (lastDiscardPlayer g) (turnCount g) (winner g) (winInfo g) (difficulty g)
    (minFan g) x (_selfDrawn g) (_isKongDraw g) (_drawnTile g) (scores g)
    (totalRounds g) (maxRounds g) (paymentInfo g) (diceResults g) (diceRolled
    g) (timers g) (rng g) (heuristics g).
Definition set__selfDrawn (x : bool) (g : t) : t :=
  mk (wall g) (hands g) (ai g) (state g) (currentPlayer g) (dealerIndex g)
    (roundWind g) (roundNumber g) (seatWinds g) (lastDiscard g)
    (lastDiscardPlayer g) (turnCount g) (winner g) (winInfo g) (difficulty g)
    (minFan g) (pendingClaims g) x (_isKongDraw g) (_drawnTile g) (scores g)
    (totalRounds g) (maxRounds g) (paymentInfo g) (diceResults g) (diceRolled
    g) (timers g) (rng g) (heuristics g).
Definition set__isKongDraw (x : bool) (g : t) : t :=
  mk (wall g) (hands g) (ai g) (state g) (currentPlayer g) (dealerIndex g)
    (roundWind g) (roundNumber g) (seatWinds g) (lastDiscard g)
    (lastDiscardPlayer g) (turnCount g) (winner g) (winInfo g) (difficulty g)
    (minFan g) (pendingClaims g) (_selfDrawn g) x (_drawnTile g) (scores g)
    (totalRounds g) (maxRounds g) (paymentInfo g) (diceResults g) (diceRolled
    g) (timers g) (rng g) (heuristics g).
Definition set__drawnTile (x : option Tile.t) (g : t) : t :=
  mk (wall g) (hands g) (ai g) (state g) (currentPlayer g) (dealerIndex g)
    (roundWind g) (roundNumber g) (seatWinds g) (lastDiscard g)
    (lastDiscardPlayer g) (turnCount g) (winner g) (winInfo g) (difficulty g)
    (minFan g) (pendingClaims g) (_selfDrawn g) (_isKongDraw g) x (scores g)
    (totalRounds g) (maxRounds g) (paymentInfo g) (diceResults g) (diceRolled
    g) (timers g) (rng g) (heuristics g).
Definition set_scores (x : list num) (g : t) : t :=
  mk (wall g) (hands g) (ai g) (state g) (currentPlayer g) (dealerIndex g)
    (roundWind g) (roundNumber g) (seatWinds g) (lastDiscard g)
    (lastDiscardPlayer g) (turnCount g) (winner g) (winInfo g) (difficulty g)
    (minFan g) (pendingClaims g) (_selfDrawn g) (_isKongDraw g) (_drawnTile g)
    x (totalRounds g) (maxRounds g) (paymentInfo g) (diceResults g)
    (diceRolled g) (timers g) (rng g) (heuristics g).
Definition set_totalRounds (x : Z) (g : t) : t :=
  mk (wall g) (hands g) (ai g) (state g) (currentPlayer g) (dealerIndex g)
    (roundWind g) (roundNumber g) (seatWinds g) (lastDiscard g)
    (lastDiscardPlayer g) (turnCount g) (winner g) (winInfo g) (difficulty g)
    (minFan g) (pendingClaims g) (_selfDrawn g) (_isKongDraw g) (_drawnTile g)
    (scores g) x (maxRounds g) (paymentInfo g) (diceResults g) (diceRolled g)
    (timers g) (rng g) (heuristics g).
Definition set_maxRounds (x : Z) (g : t) : t :=
  mk (wall g) (hands g) (ai g) (state g) (currentPlayer g) (dealerIndex g)
    (roundWind g) (roundNumber g) (seatWinds g) (lastDiscard g)
    (lastDiscardPlayer g) (turnCount g) (winner g) (winInfo g) (difficulty g)
    (minFan g) (pendingClaims g) (_selfDrawn g) (_isKongDraw g) (_drawnTile g)
    (scores g) (totalRounds g) x (paymentInfo g) (diceResults g) (diceRolled
    g) (timers g) (rng g) (heuristics g).
Definition set_paymentInfo (x : option PaymentInfo.t) (g : t) : t :=
  mk (wall g) (hands g) (ai g) (state g) (currentPlayer g) (dealerIndex g)
    (roundWind g) (roundNumber g) (seatWinds g) (lastDiscard g)
    (lastDiscardPlayer g) (turnCount g) (winner g) (winInfo g) (difficulty g)
    (minFan g) (pendingClaims g) (_selfDrawn g) (_isKongDraw g) (_drawnTile g)
    (scores g) (totalRounds g) (maxRounds g) x (diceResults g) (diceRolled g)
    (timers g) (rng g) (heuristics g).
Definition set_diceResults (x : list Z) (g : t) : t :=
  mk (wall g) (hands g) (ai g) (state g) (currentPlayer g) (dealerIndex g)
    (roundWind g) (roundNumber g) (seatWinds g) (lastDiscard g)
    (lastDiscardPlayer g) (turnCount g) (winner g) (winInfo g) (difficulty g)
    (minFan g) (pendingClaims g) (_selfDrawn g) (_isKongDraw g) (_drawnTile g)
    (scores g) (totalRounds g) (maxRounds g) (paymentInfo g) x (diceRolled g)
    (timers g) (rng g) (heuristics g).
Definition set_diceRolled (x : bool) (g : t) : t :=
  mk (wall g) (hands g) (ai g) (state g) (currentPlayer g) (dealerIndex g)
    (roundWind g) (roundNumber g) (seatWinds g) (lastDiscard g)
    (lastDiscardPlayer g) (turnCount g) (winner g) (winInfo g) (difficulty g)
    (minFan g) (pendingClaims g) (_selfDrawn g) (_isKongDraw g) (_drawnTile g)
    (scores g) (totalRounds g) (maxRounds g) (paymentInfo g) (diceResults g) x
    (timers g) (rng g) (heuristics g).
Definition set_timers (x : list Timer) (g : t) : t :=
  mk (wall g) (hands g) (ai g) (state g) (currentPlayer g) (dealerIndex g)
    (roundWind g) (roundNumber g) (seatWinds g) (lastDiscard g)
    (lastDiscardPlayer g) (turnCount g) (winner g) (winInfo g) (difficulty g)
    (minFan g) (pendingClaims g) (_selfDrawn g) (_isKongDraw g) (_drawnTile g)
    (scores g) (totalRounds g) (maxRounds g) (paymentInfo g) (diceResults g)
    (diceRolled g) x (rng g) (heuristics g).
Definition set_rng (x : RNG.t) (g : t) : t :=
  mk (wall g) (hands g) (ai g) (state g) (currentPlayer g) (dealerIndex g)
    (roundWind g) (roundNumber g) (seatWinds g) (lastDiscard g)
    (lastDiscardPlayer g) (turnCount g) (winner g) (winInfo g) (difficulty g)
    (minFan g) (pendingClaims g) (_selfDrawn g) (_isKongDraw g) (_drawnTile g)
    (scores g) (totalRounds g) (maxRounds g) (paymentInfo g) (diceResults g)
    (diceRolled g) (timers g) x (heuristics g).
Definition set_heuristics (x : Heuristics.t) (g : t) : t :=
  mk (wall g) (hands g) (ai g) (state g) (currentPlayer g) (dealerIndex g)
    (roundWind g) (roundNumber g) (seatWinds g) (lastDiscard g)
    (lastDiscardPlayer g) (turnCount g) (winner g) (winInfo g) (difficulty g)
    (minFan g) (pendingClaims g) (_selfDrawn g) (_isKongDraw g) (_drawnTile g)
    (scores g) (totalRounds g) (maxRounds g) (paymentInfo g) (diceResults g)
    (diceRolled g) (timers g) (rng g) x.
End GameObj.

Module Scoring.

Abbreviation Breakdown := ScoringResult.Breakdown.
Abbreviation result := ScoringResult.t.
Abbreviation mk := ScoringResult.mk.
Abbreviation totalFan := ScoringResult.totalFan.
Abbreviation breakdown := ScoringResult.breakdown.

(** [breakdown.reduce((s, b) => s + b.fan, 0)] *)
Definition sumFan (breakdown : Breakdown) : nat :=
  foldl (fun s b => (s + snd b)%nat) 0%nat breakdown.

(** [new Set(tiles.map(t => t.suit)).size] *)
Definition suitCount (tiles : list Tile.t) : nat :=
  length (remove_dups (Tile.suit <$> tiles)).

(** The entries [_checkFlush] pushes. *)
Definition _checkFlush (allTiles : list Tile.t) : Breakdown :=
  let numberTiles := List.filter Tile.isNumberSuit allTiles in
  let honourTiles := List.filter Tile.isHonour allTiles in
  if bool_decide (0 < length numberTiles)%nat then
    if bool_decide (suitCount numberTiles = 1%nat) then
      if bool_decide (length honourTiles = 0%nat)
      then [(FCleanFlush, 7%nat)] else [(FMixedFlush, 3%nat)]
    else []
  else [].

(** [array.find(f => f.value === seatWind)] as a truth value. *)
Definition hasValue (seatWind : option Z) (tiles : list Tile.t) : bool :=
  existsb (fun f => bool_decide (Some (Tile.value f) = seatWind)) tiles.

(** The entries [_checkFlowers] pushes. *)
Definition _checkFlowers (hand : Hand.t) (context : Context.t) : Breakdown :=
  let flowers := List.filter (fun x => bool_decide (Tile.suit x = FLOWER)) (Hand.flowers hand) in
  let seasons := List.filter (fun x => bool_decide (Tile.suit x = SEASON)) (Hand.flowers hand) in
  let seatWind := Context.seatWind context in
  (if bool_decide (length flowers = 4%nat) then [(FFlowerSet, 2%nat)] else [])
  ++ (if hasValue seatWind flowers then [(FMatchingFlower, 1%nat)] else [])
  ++ (if bool_decide (length seasons = 4%nat) then [(FSeasonSet, 2%nat)] else [])
  ++ (if hasValue seatWind seasons then [(FMatchingSeason, 1%nat)] else [])
  ++ (if bool_decide (length (Hand.flowers hand) = 8%nat) then [(FEightBonus, MAX_FAN)] else []).

(** The entry of [allSets] made from a meld; [m.tiles[0]] of a meld
    without tiles is [undefined] and reading its [key] throws. *)
Definition setOfMeld (m : Meld.t) : option TileSet.t :=
  t0 ← head (Meld.tiles m);
  Some (TileSet.mk (if decide (Meld.type m = CHOW) then CHOW else PUNG)
                   (Tile.key t0) true).

(** The test on [s.type] repeated in the three pung loops. *)
Definition pungType (s : TileSet.t) : bool :=
  bool_decide (TileSet.type s = PUNG) || bool_decide (TileSet.type s = PUNG)
  || bool_decide (TileSet.type s = KONG_EXPOSED)
  || bool_decide (TileSet.type s = KONG_CONCEALED)
  || bool_decide (TileSet.type s = KONG_ADDED).

(** [counts[v]] of the nine-gates test: tiles per value. *)
Definition countValue (allTiles : list Tile.t) (v : Z) : nat :=
  length (List.filter (fun x => bool_decide (Tile.value x = v)) allTiles).

Definition nineGates (hand : Hand.t) (allTiles : list Tile.t) : bool :=
  bool_decide (length (Hand.melds hand) = 0%nat)
  && bool_decide (suitCount allTiles = 1%nat)
  && match head allTiles with Some x => Tile.isNumberSuit x | None => false end
  && bool_decide (3 <= countValue allTiles 1)%nat
  && bool_decide (3 <= countValue allTiles 9)%nat
  && forallb (fun v => bool_decide (1 <= countValue allTiles v)%nat) [2; 3; 4; 5; 6; 7; 8].

(** [allSets.filter(s => k.startsWith(suit) && s.type !== 'chow').length] *)
Definition pungCount (suit : SUITS) (allSets : list TileSet.t) : nat :=
  length (List.filter (fun s => bool_decide (TileSet.suit s = suit)
                             && negb (bool_decide (TileSet.type s = CHOW))) allSets).

(** [decomp.pair && decomp.pair.startsWith(suit)] *)
Definition pairOf (suit : SUITS) (pair : option Key) : bool :=
  match pair with Some k => bool_decide (fst k = suit) | None => false end.

(** The branch [decomp.special === 'seven_pairs']. *)
Definition sevenPairs (tiles : list Tile.t) (context : Context.t) : result :=
  let breakdown := [(FSevenPairs, 4%nat)] in
  if forallb Tile.isHonour tiles then
    mk MAX_FAN (breakdown ++ [(FAllHonours, MAX_FAN)])
  else
    let breakdown := breakdown ++ _checkFlush tiles in
    let total := sumFan breakdown in
    if Context.selfDrawn context
    then mk (Nat.min (S total) MAX_FAN) (breakdown ++ [(FSelfDrawn, 1%nat)])
    else mk (Nat.min total MAX_FAN) breakdown.

(** The accumulating part of the standard analysis, from "All Pungs"
    to the flowers. *)
Definition accumulate (hand : Hand.t) (context : Context.t) (pair : option Key)
    (allSets : list TileSet.t) (allTiles : list Tile.t) : Breakdown :=
  let isAllPungs := forallb (fun s => negb (bool_decide (TileSet.type s = CHOW))) allSets in
  let isAllChows := forallb (fun s => bool_decide (TileSet.type s = CHOW)) allSets in
  let noMelds := bool_decide (length (Hand.melds hand) = 0%nat) in
  let dragonPungCount := pungCount DRAGON allSets in
  let windPungCount := pungCount WIND allSets in
  (if isAllPungs then [(FAllPungs, 3%nat)] else [])
  ++ _checkFlush allTiles
  ++ (if isAllChows && noMelds then [(FPingHu, 1%nat)] else [])
  ++ flat_map (fun s => if pungType s && bool_decide (TileSet.suit s = DRAGON)
                        then [(FDragonPung (TileSet.value s), 1%nat)] else []) allSets
  ++ flat_map (fun s => if bool_decide (Some (TileSet.key s)
                                         = (fun w => (WIND, w)) <$> Context.seatWind context)
                           && pungType s
                        then [(FSeatWind, 1%nat)] else []) allSets
  ++ flat_map (fun s => if bool_decide (TileSet.key s = (WIND, Context.roundWind context))
                           && pungType s
                        then [(FRoundWind, 1%nat)] else []) allSets
  ++ (if Context.selfDrawn context then [(FSelfDrawn, 1%nat)] else [])
  ++ (if noMelds && negb (Context.selfDrawn context) then [(FConcealedHand, 1%nat)] else [])
  ++ (if Context.isLastTile context then [(FLastTile, 1%nat)] else [])
  ++ (if Context.isKongDraw context then [(FKongDraw, 1%nat)] else [])
  ++ (if bool_decide (dragonPungCount = 2%nat) && pairOf DRAGON pair
      then [(FSmallThreeDragons, 4%nat)] else [])
  ++ (if bool_decide (dragonPungCount = 3%nat) then [(FBigThreeDragons, 8%nat)] else [])
  ++ (if bool_decide (windPungCount = 3%nat) && pairOf WIND pair
      then [(FSmallFourWinds, 6%nat)] else [])
  ++ (if bool_decide (windPungCount = 4%nat) then [(FBigFourWinds, MAX_FAN)] else [])
  ++ _checkFlowers hand context.

(** [allSets]: the sets of the decomposition, then one per meld. *)
Definition allSetsOf (sets : list TileSet.t) (hand : Hand.t) : option (list TileSet.t) :=
  melded ← mapM setOfMeld (Hand.melds hand); Some (sets ++ melded).

(** [allTiles]: the concealed tiles, then the tiles of every meld. *)
Definition allTilesOf (hand : Hand.t) : list Tile.t :=
  Hand.concealed hand ++ flat_map Meld.tiles (Hand.melds hand).

(** The standard hand analysis. *)
Definition standard (hand : Hand.t) (context : Context.t) (pair : option Key)
    (sets : list TileSet.t) : option result :=
  allSets ← allSetsOf sets hand;
  let allTiles := allTilesOf hand in
  if forallb Tile.isHonour allTiles then
    Some (mk MAX_FAN [(FAllHonours, MAX_FAN)])
  else if nineGates hand allTiles then
    Some (mk MAX_FAN [(FNineGates, MAX_FAN)])
  else
    let breakdown := accumulate hand context pair allSets allTiles in
    Some (mk (Nat.min (sumFan breakdown) MAX_FAN) breakdown).

Definition calculate (hand : Hand.t) (context : Context.t) : option result :=
  match Hand.getWinDecomposition hand with
  | None => Some (mk 0 [])
  | Some (Special thirteen_orphans _) =>
    Some (mk MAX_FAN [(FThirteenOrphans, MAX_FAN)])
  | Some (Special seven_pairs tiles) => Some (sevenPairs tiles context)
  | Some (Standard pair' sets _) => standard hand context pair' sets
  end.

Definition meetsMinimum (totalFan : nat) (minFan : Z) : bool :=
  bool_decide (Z.of_nat totalFan >= minFan).

Definition fanToPoints (fan : nat) : Z := 2 ^ Z.of_nat (Nat.min fan 10).

(** ** Payment *)

(** [last.fromPlayer !== undefined && last.fromPlayer !== winner], for
    the last meld of [ms]: the feeder it names, if it names one. *)
Definition feederOfLast (ms : list Meld.t) (winner : Z) : option Z :=
  m ← list.last ms;
  f ← Meld.fromPlayer m;
  if decide (f = winner) then None else Some f.

(** [m.tiles[0] && m.tiles[0].suit === suit] *)
Definition firstSuitIs (suit : SUITS) (m : Meld.t) : bool :=
  match head (Meld.tiles m) with
  | Some t0 => bool_decide (Tile.suit t0 = suit)
  | None => false
  end.

(** The clean-flush test of [checkBaoPai]; [m.tiles[0].suit] throws on a
    meld without tiles. *)
Definition flushFeeder (melds : list Meld.t) (winner : Z) : option (option Z) :=
  if bool_decide (4 <= length melds)%nat then
    let exposedTiles := foldl (fun sum m => (sum + length (Meld.tiles m))%nat) 0%nat melds in
    if bool_decide (12 <= exposedTiles)%nat then
      firsts ← mapM (fun m => head (Meld.tiles m)) melds;
      if bool_decide (length (remove_dups (Tile.suit <$> firsts)) = 1%nat)
         && match head firsts with Some t0 => Tile.isNumberSuit t0 | None => false end
      then Some (feederOfLast melds winner)
      else Some None
    else Some None
  else Some None.

(** Returns the responsible seat, or [-1]. *)
Definition checkBaoPai (game : GameObj.t) (winner : Z) : option Z :=
  hand ← at_ (GameObj.hands game) winner;
  let melds := Hand.melds hand in
  if bool_decide (length melds = 0%nat) then Some (-1) else
  let dragonMelds := List.filter (firstSuitIs DRAGON) melds in
  match (if bool_decide (3 <= length dragonMelds)%nat
         then feederOfLast dragonMelds winner else None) with
  | Some f => Some f
  | None =>
  let windMelds := List.filter (firstSuitIs WIND) melds in
  match (if bool_decide (4 <= length windMelds)%nat
         then feederOfLast windMelds winner else None) with
  | Some f => Some f
  | None =>
  flush ← flushFeeder melds winner;
  match flush with
  | Some f => Some f
  | None =>
  let kongMelds := List.filter Meld.isKong melds in
  match (if bool_decide (4 <= length kongMelds)%nat
         then feederOfLast kongMelds winner else None) with
  | Some f => Some f
  | None => Some (-1)
  end end end end.

(** One round of the loop [for (i = 0; i < 4; i++)] of a normal
    self-drawn win. *)
Definition payLoser (game : GameObj.t) (winner basePoints : Z) (isDealer : bool)
    (deltas : list num) (i : Z) : list num :=
  if decide (i = winner) then deltas else
  let pay := if isDealer then basePoints * 2
             else if decide (i = GameObj.dealerIndex game) then basePoints * 2
             else basePoints in
  addAt (Some winner) pay (addAt (Some i) (- pay) deltas).

Definition calculatePayment (game : GameObj.t) : option PaymentInfo.t :=
  let deltas : list num := [Some 0; Some 0; Some 0; Some 0] in
  if decide (GameObj.winner game < 0) then Some (PaymentInfo.mk deltas (-1)) else
  let winner := GameObj.winner game in
  info ← GameObj.winInfo game;
  let totalFan := ScoringResult.totalFan (WinInfo.scoring info) in
  let basePoints := fanToPoints totalFan in
  let isDealer := bool_decide (winner = GameObj.dealerIndex game) in
  if WinInfo.selfDrawn info then
    responsible ← checkBaoPai game winner;
    if decide (responsible >= 0) then
      let totalPay := basePoints * 3 in
      Some (PaymentInfo.mk
              (addAt (Some winner) totalPay (addAt (Some responsible) (- totalPay) deltas))
              responsible)
    else
      Some (PaymentInfo.mk
              (foldl (payLoser game winner basePoints isDealer) deltas [0; 1; 2; 3])
              (-1))
  else
    let fromPlayer := WinInfo.fromPlayer info in
    let totalPay := basePoints in
    let pay := if isDealer || bool_decide (fromPlayer = Some (GameObj.dealerIndex game))
               then totalPay * 2 else totalPay in
    Some (PaymentInfo.mk (addAt (Some winner) pay (addAt fromPlayer (- pay) deltas)) (-1)).

End Scoring.

(* ================================================================== *)
(** * ai.js *)
(* ================================================================== *)

(** An [AI] object holds its [difficulty] and nothing else. *)
Module AI.

Definition _discardEasy (hand : Hand.t) (r : RNG.t) : option Tile.t * RNG.t :=
  let '(idx, r) := RNG.randomInt (length (Hand.concealed hand)) r in
  (Hand.concealed hand !! idx, r).

Definition chooseDiscard (difficulty : DIFFICULTY) (heur : Heuristics.t)
    (hand : Hand.t) (gameState : DiscardView.t) (r : RNG.t) : option Tile.t * RNG.t :=
  match difficulty with
  | EASY => _discardEasy hand r
  | MEDIUM => Heuristics._discardMedium heur hand gameState r
  | HARD => (Heuristics._discardHard heur hand gameState, r)
  end.

(** The tile is pushed, the hand sorted, and the tile taken out again
    by its id; this happens a second time around [Scoring.calculate].
    The hand is returned as the calls leave it.  The context literal
    given to [Scoring.calculate] has the two winds and three [false]
    flags; the fields it lacks are not read there. *)
Definition _canWinWith (hand : Hand.t) (discardTile : Tile.t) (context : Context.t)
  : option (bool * Hand.t) :=
  let hand := Hand.addTile discardTile hand in
  let canWin := Hand.canWin hand in
  let hand := Hand.removeTile discardTile hand in
  if negb canWin then Some (false, hand) else
  let hand := Hand.addTile discardTile hand in
  scoring ← Scoring.calculate hand
    (Context.mk (Context.seatWind context) (Context.roundWind context)
                false false false (Context.minFan context) [] []);
  let hand := Hand.removeTile discardTile hand in
  Some (Scoring.meetsMinimum (ScoringResult.totalFan scoring) (Context.minFan context), hand).

Definition _claimEasy (hand : Hand.t) (discardTile : Tile.t) (canChow : bool)
    (context : Context.t) (r : RNG.t) : option (option Action * Hand.t * RNG.t) :=
  wh ← _canWinWith hand discardTile context;
  let '(w, hand) := wh : bool * Hand.t in
  if w then Some (Some win, hand, r) else
  if Hand.canPung discardTile hand then
    let '(b, r) := RNG.randomBelowHalf r in
    Some (if b then Some pung else None, hand, r)
  else Some (None, hand, r).

Definition _claimMedium (heur : Heuristics.t) (hand : Hand.t) (discardTile : Tile.t)
    (canChow : bool) (context : Context.t) (r : RNG.t)
  : option (option Action * Hand.t * RNG.t) :=
  wh ← _canWinWith hand discardTile context;
  let '(w, hand) := wh : bool * Hand.t in
  if w then Some (Some win, hand, r) else
  if Hand.canKongFromDiscard discardTile hand then Some (Some kong, hand, r) else
  let '(claim, r) := Heuristics.claimMediumRest heur hand discardTile canChow context r in
  Some (claim, hand, r).

Definition _claimHard (heur : Heuristics.t) (hand : Hand.t) (discardTile : Tile.t)
    (canChow : bool) (context : Context.t) (r : RNG.t)
  : option (option Action * Hand.t * RNG.t) :=
  wh ← _canWinWith hand discardTile context;
  let '(w, hand) := wh : bool * Hand.t in
  if w then Some (Some win, hand, r) else
  if Hand.canKongFromDiscard discardTile hand then Some (Some kong, hand, r) else
  let '(claim, r) := Heuristics.claimHardRest heur hand discardTile canChow context r in
  Some (claim, hand, r).

(** Returns the claim ([None] for [null]), the hand as the probing left
    it, and the random source. *)
Definition decideClaim (difficulty : DIFFICULTY) (heur : Heuristics.t)
    (hand : Hand.t) (discardTile : Tile.t) (canChow : bool) (context : Context.t)
    (r : RNG.t) : option (option Action * Hand.t * RNG.t) :=
  match difficulty with
  | EASY => _claimEasy hand discardTile canChow context r
  | MEDIUM => _claimMedium heur hand discardTile canChow context r
  | HARD => _claimHard heur hand discardTile canChow context r
  end.

Definition decideKong (hand : Hand.t) : option (option KongDecision.t) :=
  match Hand.getConcealedKongs hand with
  | key :: _ => Some (Some (KongDecision.mk KONG_CONCEALED key))
  | [] =>
    aKongs ← Hand.getAddedKongs hand;
    match aKongs with
    | key :: _ => Some (Some (KongDecision.mk KONG_ADDED key))
    | [] => Some None
    end
  end.

(** [combos[0]], [undefined] for no combo. *)
Definition chooseChowCombo (combos : list (list Key)) : option (list Key) :=
  head combos.

End AI.

(* ================================================================== *)
(** * game.js *)
(* ================================================================== *)

(** Methods that mutate [this] take the game and return the new game;
    [None] is an uncaught [TypeError].  Calls of [onStateChange],
    [onUpdate], [_setExpression] and [voiceManager] are notifications to
    the presentation and do not appear.  A callback given to [setTimeout]
    is appended to [timers]; [fireTimer] runs the oldest one. *)
Module Game.
Import GameObj.

Abbreviation t := GameObj.t.

Notation "g |> f" := (f g) (at level 68, left associativity, only parsing).

(** The [phase] argument of [_validateHandSize]. *)
Inductive Phase := before_discard | after_discard.

(** [this.hands[i] = h]; the uses are at seats that have a hand. *)
Definition setHand (i : Z) (h : Hand.t) (g : t) : t :=
  set_hands (<[Z.to_nat i := h]> (hands g)) g.

(** [for (...) { f(i) }] over the listed values, stopping at a throw. *)
Fixpoint forEach {A} (l : list A) (f : A -> t -> option t) (g : t) : option t :=
  match l with
  | [] => Some g
  | i :: l' => g ← f i g; forEach l' f g
  end.

(** The constructor; the random source and the heuristics are given. *)
Definition new (r : RNG.t) (heur : Heuristics.t) : t :=
  mk Wall.new [] [] (Some MENU) 0 0 WINDS.EAST 0
     [WINDS.EAST; WINDS.SOUTH; WINDS.WEST; WINDS.NORTH] None (-1) 0 (-1) None
     MEDIUM 1 [] false false None
     [Some 10000; Some 10000; Some 10000; Some 10000] 0 24 None
     [0; 0; 0] false [] r heur.

Definition startGame (g : t) : t :=
  g |> set_roundWind WINDS.EAST |> set_dealerIndex 0 |> set_roundNumber 0
    |> set_totalRounds 0
    |> set_scores [Some 10000; Some 10000; Some 10000; Some 10000]
    |> set_diceResults [0; 0; 0] |> set_diceRolled false
    |> set_state (Some DICE_ROLL).

(** [Math.floor(Math.random() * 6) + 1] *)
Definition rollDie (r : RNG.t) : Z * RNG.t :=
  let '(d, r) := RNG.randomInt 6 r in (Z.of_nat d + 1, r).

Definition rollDice (g : t) : t :=
  if diceRolled g then g else
  let '(d1, r) := rollDie (rng g) in
  let '(d2, r) := rollDie r in
  let '(d3, r) := rollDie r in
  g |> set_rng r |> set_diceResults [d1; d2; d3] |> set_diceRolled true.

(** ** Flower bloom *)

(** [drawFromDeadWall()], and [draw()] if that gave nothing. *)
Definition drawReplacement (w : Wall.t) : option Tile.t * Wall.t :=
  match Wall.drawFromDeadWall w with
  | (Some x, w) => (Some x, w)
  | (None, w) => Wall.draw w
  end.

(** The body of the inner [for] loop at index [i], on the loop state
    [(foundBonus, hand, wall)]. *)
Definition bloomAt (i : nat) (st : bool * Hand.t * Wall.t) : bool * Hand.t * Wall.t :=
  let '(foundBonus, hand, w) := st in
  match Hand.concealed hand !! i with
  | None => st
  | Some tile =>
    if Tile.isBonus tile then
      match drawReplacement w with
      | (None, _) => st
      | (Some replacement, w) =>
        let hand := Hand.set_concealed (delete i (Hand.concealed hand)) hand in
        let hand := Hand.addFlower tile hand in
        let hand := Hand.set_concealed (Hand.concealed hand ++ [replacement]) hand in
        (true, hand, w)
      end
    else st
  end.

(** [for (i = n - 1; i >= 0; i--)] *)
Fixpoint bloomPass (n : nat) (st : bool * Hand.t * Wall.t) : bool * Hand.t * Wall.t :=
  match n with
  | O => st
  | S i => bloomPass i (bloomAt i st)
  end.

(** Tiles left to draw, in both walls. *)
Definition tilesLeft (w : Wall.t) : nat :=
  (length (Wall.deadWall w) + (length (Wall.tiles w) - Wall.drawIndex w))%nat.

(** [while (foundBonus)].  Every pass that finds a bonus tile takes a
    tile from a wall, so there are at most [tilesLeft + 1] passes
    (lemma [bloomLoop_fuel]). *)
Fixpoint bloomLoop (fuel : nat) (hand : Hand.t) (w : Wall.t) : Hand.t * Wall.t :=
  match fuel with
  | O => (hand, w)
  | S fuel =>
    let '(foundBonus, hand, w) :=
      bloomPass (length (Hand.concealed hand)) (false, hand, w) in
    if foundBonus then bloomLoop fuel hand w else (hand, w)
  end.

Definition _handleFlowerBloom (playerIndex : Z) (g : t) : option t :=
  hand ← at_ (hands g) playerIndex;
  let '(hand, w) := bloomLoop (S (tilesLeft (wall g))) hand (wall g) in
  Some (g |> set_wall w |> setHand playerIndex (Hand.sort hand)).

(** ** Hand size repair *)

(** [while (target % 3 !== expectedMod && target > 0) target--] *)
Fixpoint lowerTarget (expectedMod target : nat) : nat :=
  match target with
  | O => O
  | S target' =>
    if decide (target `mod` 3 = expectedMod)%nat then target
    else lowerTarget expectedMod target'
  end.

(** [while (hand.concealed.length < target)]: a drawn tile is added and
    flowers bloom; the loop breaks on an exhausted wall.  A round adds
    one tile, so [target] rounds are enough (lemma [refill_fuel]). *)
Fixpoint refill (fuel target : nat) (playerIndex : Z) (g : t) : option t :=
  match fuel with
  | O => Some g
  | S fuel =>
    hand ← at_ (hands g) playerIndex;
    if decide (length (Hand.concealed hand) < target)%nat then
      match Wall.draw (wall g) with
      | (None, _) => Some g
      | (Some extra, w) =>
        g ← _handleFlowerBloom playerIndex
              (g |> set_wall w |> setHand playerIndex (Hand.addTile extra hand));
        refill fuel target playerIndex g
      end
    else Some g
  end.

(** [while (hand.concealed.length > target)]: the last tile is popped
    and pushed on the discards, at most once per tile of the hand
    (lemma [popExcess_fuel]). *)
Fixpoint popExcess (fuel target : nat) (hand : Hand.t) : Hand.t :=
  match fuel with
  | O => hand
  | S fuel =>
    if decide (target < length (Hand.concealed hand))%nat then
      match list.last (Hand.concealed hand) with
      | Some excess =>
        popExcess fuel target
          (hand |> Hand.set_concealed (removelast (Hand.concealed hand))
                |> Hand.set_discards (Hand.discards hand ++ [excess]))
      | None => hand
      end
    else hand
  end.

Definition _validateHandSize (playerIndex : Z) (phase : Phase) (g : t) : option t :=
  hand ← at_ (hands g) playerIndex;
  let actual := length (Hand.concealed hand) in
  let expectedMod := match phase with before_discard => 2%nat | after_discard => 1%nat end in
  if decide (actual `mod` 3 = expectedMod)%nat then Some g else
  let target := lowerTarget expectedMod actual in
  let target := if decide (target <= 0)%nat then expectedMod else target in
  if decide (actual < target)%nat then
    g ← refill target target playerIndex g;
    hand ← at_ (hands g) playerIndex;
    Some (setHand playerIndex (Hand.sort hand) g)
  else if decide (target < actual)%nat then
    Some (setHand playerIndex (popExcess actual target hand) g)
  else Some g.

(** ** Round start *)

Definition startRound (g : t) : option t :=
  let '(w, r) := Wall.build Wall.new (rng g) in
  let g := g |> set_rng r |> set_wall w
             |> set_hands (Hand.new <$> [0; 1; 2; 3])
             |> set_ai (replicate 3 (difficulty g))
             |> set_seatWinds ((fun i => (i - dealerIndex g + 4) `rem` 4 + 1) <$> [0; 1; 2; 3]) in
  '(dealt, w) ← Wall.deal (dealerIndex g) (wall g);
  let g := g |> set_wall w |> set_hands (zip_with Hand.setInitial dealt (hands g)) in
  g ← forEach [0; 1; 2; 3]
        (fun i => _handleFlowerBloom ((dealerIndex g + i) `rem` 4)) g;
  g ← forEach [0; 1; 2; 3]
        (fun i g => _validateHandSize i
                      (if decide (i = dealerIndex g) then before_discard else after_discard) g) g;
  let g := g |> set_currentPlayer (dealerIndex g)
             |> set_lastDiscard None |> set_lastDiscardPlayer (-1)
             |> set_turnCount 0 |> set_winner (-1) |> set_winInfo None
             |> set__selfDrawn false |> set__isKongDraw false |> set__drawnTile None
             |> set__selfDrawn true |> set__drawnTile None in
  Some (set_state (Some (if decide (currentPlayer g = 0) then PLAYER_DISCARD else AI_TURN)) g).

Definition confirmDice (g : t) : option t :=
  let sum := foldl Z.add 0 (diceResults g) in
  startRound (set_dealerIndex ((sum - 1) `rem` 4) g).

Definition getAllDiscards (g : t) : list Tile.t :=
  flat_map Hand.discards (hands g).

Definition playerViews (g : t) : list PlayerView.t :=
  imap (fun i h => PlayerView.mk i (Hand.melds h) (Hand.flowers h)
                                 (length (Hand.discards h))) (hands g).

Definition getContext (playerIndex : Z) (g : t) : Context.t :=
  Context.mk (at_ (seatWinds g) playerIndex) (roundWind g) (_selfDrawn g)
             (bool_decide (Wall.remaining (wall g) <= 0)) (_isKongDraw g) (minFan g)
             (getAllDiscards g) (playerViews g).

(** The [gameState] literal given to [ai.chooseDiscard]. *)
Definition discardView (p : Z) (g : t) : DiscardView.t :=
  DiscardView.mk (getAllDiscards g) (roundWind g) (at_ (seatWinds g) p) (playerViews g).

(** ** Round end *)

(** [a + b] on array elements. *)
Definition numAdd (a b : num) : num := x ← a; y ← b; Some (x + y).

Definition _applyPayment (g : t) : option t :=
  info ← Scoring.calculatePayment g;
  let scores' :=
    foldl (fun sc i => <[i := numAdd (mjoin (sc !! i)) (mjoin (PaymentInfo.deltas info !! i))]> sc)
          (scores g) [0%nat; 1%nat; 2%nat; 3%nat] in
  Some (g |> set_paymentInfo (Some info) |> set_scores scores'
          |> set_totalRounds (totalRounds g + 1)).

Definition _handleDraw (g : t) : option t :=
  _applyPayment (g |> set_winner (-1) |> set_winInfo None |> set_state (Some ROUND_END)).

Definition _advanceTurn (g : t) : t :=
  let g := g |> set_currentPlayer ((lastDiscardPlayer g + 1) `rem` 4)
             |> set_turnCount (turnCount g + 1) in
  set_state (Some (if decide (currentPlayer g = 0) then PLAYER_TURN else AI_TURN)) g.

(** The end of every winning branch: [winner], [winInfo], [ROUND_END],
    [_applyPayment]. *)
Definition declareWin (p : Z) (info : WinInfo.t) (g : t) : option t :=
  _applyPayment (g |> set_winner p |> set_winInfo (Some info) |> set_state (Some ROUND_END)).

(** ** Claims *)

(** [hand.melds[hand.melds.length - 1].fromPlayer = p], written right
    after a meld was pushed. *)
Definition setLastFromPlayer (p : Z) (hand : Hand.t) : Hand.t :=
  Hand.set_melds
    (alter (Meld.set_fromPlayer (Some p)) (length (Hand.melds hand) - 1)%nat (Hand.melds hand))
    hand.

(** [findIndex(t => t.id === tile.id)] and [splice] on a discard pile. *)
Definition removeDiscard (tile : Tile.t) (hand : Hand.t) : Hand.t :=
  Hand.set_discards
    (removeFirst (fun x => bool_decide (Tile.id x = Tile.id tile)) (Hand.discards hand)) hand.

Definition priorityOf (claim : Action) : Z :=
  match claim with win => 3 | kong | pung => 2 | chow => 1 end.

(** The state of the loop of [_processClaims]: [bestClaim],
    [bestPriority] and the game. *)
Definition Scan := (option (Z * Action) * Z * t)%type.

(** One round of the loop for seat [i].  [inl] is the [return] of the
    human branch, taken with the game in state [CLAIMING]. *)
Definition claimAt (discardTile : Tile.t) (fromPlayer : Z) (i : Z) (st : Scan)
  : option (t + Scan) :=
  let '(bestClaim, bestPriority, g) := st in
  if decide (i = fromPlayer) then Some (inr st) else
  hand ← at_ (hands g) i;
  let isNextPlayer := bool_decide ((fromPlayer + 1) `rem` 4 = i) in
  let ctx := getContext i g in
  if decide (i = 0) then
    let hand := Hand.addTile discardTile hand in
    canWinNow ←
      (if Hand.canWin hand then
         scoring ← Scoring.calculate hand (Context.set_selfDrawn false ctx);
         Some (Scoring.meetsMinimum (ScoringResult.totalFan scoring) (minFan g))
       else Some false);
    let hand := Hand.removeTile discardTile hand in
    let actions :=
      (if canWinNow : bool then [win] else [])
      ++ (if Hand.canKongFromDiscard discardTile hand then [kong] else [])
      ++ (if Hand.canPung discardTile hand then [pung] else [])
      ++ (if isNextPlayer && bool_decide (0 < length (Hand.canChow discardTile hand))%nat
          then [chow] else []) in
    let g := setHand i hand g in
    if bool_decide (0 < length actions)%nat
    then Some (inl (g |> set_pendingClaims actions |> set_state (Some CLAIMING)))
    else Some (inr (bestClaim, bestPriority, g))
  else
    difficulty ← at_ (ai g) (i - 1);
    decision ← AI.decideClaim difficulty (heuristics g) hand discardTile isNextPlayer ctx (rng g);
    let '(claim, hand, r) := decision : option Action * Hand.t * RNG.t in
    let g := g |> set_rng r |> setHand i hand in
    match claim with
    | Some claim =>
      let priority := priorityOf claim in
      if decide (priority > bestPriority)
      then Some (inr (Some (i, claim), priority, g))
      else Some (inr (bestClaim, bestPriority, g))
    | None => Some (inr (bestClaim, bestPriority, g))
    end.

Fixpoint claimLoop (discardTile : Tile.t) (fromPlayer : Z) (seats : list Z) (st : Scan)
  : option (t + Scan) :=
  match seats with
  | [] => Some (inr st)
  | i :: seats' =>
    step ← claimAt discardTile fromPlayer i st;
    match step with
    | inl g => Some (inl g)
    | inr st => claimLoop discardTile fromPlayer seats' st
    end
  end.

(** The callback is queued; it runs in [fireTimer]. *)
Definition _executeAIClaim (playerIdx : Z) (action : Action) (discardTile : Tile.t)
    (fromPlayer : Z) (g : t) : t :=
  set_timers (timers g ++ [TimerClaim playerIdx action discardTile fromPlayer]) g.

Definition _processClaims (discardTile : Tile.t) (fromPlayer : Z) (g : t) : option t :=
  scan ← claimLoop discardTile fromPlayer [0; 1; 2; 3] (None, -1, g);
  match scan with
  | inl g => Some g
  | inr (Some (player, action), _, g) =>
    Some (_executeAIClaim player action discardTile fromPlayer g)
  | inr (None, _, g) => Some (_advanceTurn g)
  end.

(** ** The human player *)

Definition playerDraw (g : t) : option (bool * t) :=
  if negb (bool_decide (state g = Some PLAYER_TURN)) then Some (false, g) else
  match Wall.draw (wall g) with
  | (None, _) => g ← _handleDraw g; Some (false, g)
  | (Some tile, w) =>
    hand ← at_ (hands g) 0;
    g ← _handleFlowerBloom 0 (g |> set_wall w |> setHand 0 (Hand.addTile tile hand));
    let g := g |> set__drawnTile (if Tile.isBonus tile then None else Some tile)
               |> set__selfDrawn true |> set__isKongDraw false in
    g ← _validateHandSize 0 before_discard g;
    Some (true, set_state (Some PLAYER_DISCARD) g)
  end.

Definition canPlayerSelfWin (g : t) : option bool :=
  hand ← at_ (hands g) 0;
  if Hand.canWin hand then
    let ctx := Context.set_selfDrawn true (getContext 0 g) in
    scoring ← Scoring.calculate hand ctx;
    Some (Scoring.meetsMinimum (ScoringResult.totalFan scoring) (minFan g))
  else Some false.

Definition playerSelfWin (g : t) : option t :=
  let ctx := Context.set_selfDrawn true (getContext 0 g) in
  hand ← at_ (hands g) 0;
  scoring ← Scoring.calculate hand ctx;
  declareWin 0 (WinInfo.mk scoring true None) g.

Definition playerDiscard (tile : Tile.t) (g : t) : option (bool * t) :=
  if negb (bool_decide (state g = Some PLAYER_DISCARD)) then Some (false, g) else
  let g := set_state None g in
  hand ← at_ (hands g) 0;
  let g := g |> setHand 0 (Hand.discard tile hand)
             |> set_lastDiscard (Some tile) |> set_lastDiscardPlayer 0
             |> set__selfDrawn false |> set__drawnTile None in
  g ← _processClaims tile 0 g;
  Some (true, g).

(** [replacement = drawFromDeadWall(); if (replacement) { addTile;
    _handleFlowerBloom; _isKongDraw = true; _selfDrawn = true }], the
    same lines in [playerClaim] and [playerKong]. *)
Definition kongReplacement (g : t) : option t :=
  match Wall.drawFromDeadWall (wall g) with
  | (Some replacement, w) =>
    hand ← at_ (hands g) 0;
    g ← _handleFlowerBloom 0 (g |> set_wall w |> setHand 0 (Hand.addTile replacement hand));
    Some (g |> set__isKongDraw true |> set__selfDrawn true)
  | (None, _) => Some g
  end.

(** The three melding branches of [playerClaim]; the branch ['win']
    has returned before. *)
Definition claimMeld (action : Action) (tile : Tile.t) (chowCombo : list Key)
    (hand : Hand.t) (g : t) : option t :=
  match action with
  | win => Some g
  | kong =>
    let hand := setLastFromPlayer (lastDiscardPlayer g) (Hand.doKongExposed tile hand) in
    g ← kongReplacement (setHand 0 hand g);
    Some (set_state (Some PLAYER_DISCARD) g)
  | pung =>
    let hand := setLastFromPlayer (lastDiscardPlayer g) (Hand.doPung tile hand) in
    Some (g |> setHand 0 hand |> set_state (Some PLAYER_DISCARD))
  | chow =>
    let hand := setLastFromPlayer (lastDiscardPlayer g) (Hand.doChow tile chowCombo hand) in
    Some (g |> setHand 0 hand |> set_state (Some PLAYER_DISCARD))
  end.

(** [lastDiscard] is [null] before the first discard of a round: the
    methods called with it dereference it, which is a [None] here. *)
Definition playerClaim (action : Action) (chowCombo : list Key) (g : t) : option t :=
  tile ← lastDiscard g;
  hand ← at_ (hands g) 0;
  if decide (action = win) then
    let hand := Hand.addTile tile hand in
    let g := setHand 0 hand g in
    let ctx := Context.set_selfDrawn false (getContext 0 g) in
    scoring ← Scoring.calculate hand ctx;
    declareWin 0 (WinInfo.mk scoring false (Some (lastDiscardPlayer g))) g
  else
    g ← claimMeld action tile chowCombo hand g;
    discardHand ← at_ (hands g) (lastDiscardPlayer g);
    let g := setHand (lastDiscardPlayer g) (removeDiscard tile discardHand) g in
    _validateHandSize 0 before_discard g.

(** [type] is ['kong_concealed'] or ['kong_added']; any other string
    melds nothing and still draws the replacement. *)
Definition playerKong (type : MELD_TYPE) (key : Key) (g : t) : option t :=
  hand ← at_ (hands g) 0;
  hand ← match type with
         | KONG_CONCEALED => Some (Hand.doKongConcealed key hand)
         | KONG_ADDED => Hand.doKongAdded key hand
         | _ => Some hand
         end;
  g ← kongReplacement (setHand 0 hand g);
  g ← _validateHandSize 0 before_discard g;
  Some (set_state (Some PLAYER_DISCARD) g).

Definition playerPass (g : t) : t := _advanceTurn g.

(** ** The AI seats *)

(** [discard = ai.chooseDiscard(hand, {...}); hand.discard(discard);
    lastDiscard = discard; lastDiscardPlayer = p]: the lines every AI
    discard shares.  [ai] is [this.ai[p - 1]]; a discard [undefined]
    (empty hand) is not a tile and the model stops. *)
Definition aiDiscard (p : Z) (g : t) : option (Tile.t * t) :=
  hand ← at_ (hands g) p;
  difficulty ← at_ (ai g) (p - 1);
  let '(chosen, r) := AI.chooseDiscard difficulty (heuristics g) hand (discardView p g) (rng g) in
  discard ← chosen;
  Some (discard, g |> set_rng r |> setHand p (Hand.discard discard hand)
                   |> set_lastDiscard (Some discard) |> set_lastDiscardPlayer p).

Definition _finishAITurn (p : Z) (g : t) : option t :=
  '(discard, g) ← aiDiscard p g;
  _processClaims discard p (g |> set__selfDrawn false |> set__drawnTile None).

Definition processAITurn (g : t) : option t :=
  if negb (bool_decide (state g = Some AI_TURN)) then Some g else
  let p := currentPlayer g in
  hand ← at_ (hands g) p;
  let ctx := getContext p g in
  let alreadyHas14 := bool_decide (length (Hand.concealed hand) = 14%nat) in
  drawn ←
    (if alreadyHas14 then Some (inr g) else
     match Wall.draw (wall g) with
     | (None, _) => g ← _handleDraw g; Some (inl g)
     | (Some tile, w) =>
       g ← _handleFlowerBloom p (g |> set_wall w |> setHand p (Hand.addTile tile hand));
       Some (inr (g |> set__selfDrawn true |> set__isKongDraw false))
     end) : option (t + t);
  match drawn with
  | inl g => Some g
  | inr g =>
    g ← _validateHandSize p before_discard g;
    hand ← at_ (hands g) p;
    won ←
      (if Hand.canWin hand then
         scoring ← Scoring.calculate hand (Context.set_selfDrawn true ctx);
         if Scoring.meetsMinimum (ScoringResult.totalFan scoring) (minFan g)
         then Some (Some scoring) else Some None
       else Some None) : option (option ScoringResult.t);
    match won with
    | Some scoring => Some (set_timers (timers g ++ [TimerSelfWin p scoring]) g)
    | None =>
      let ctx := if Hand.canWin hand then Context.set_selfDrawn true ctx else ctx in
      difficulty ← at_ (ai g) (p - 1);
      kongDecision ← AI.decideKong hand;
      match kongDecision with
      | Some kongDecision =>
        Some (set_timers (timers g ++ [TimerKong p kongDecision ctx]) g)
      | None => _finishAITurn p g
      end
    end
  end.

(** ** The callbacks given to setTimeout *)

(** The closures hold the [hand] object of the seat.  The hands are
    replaced only by [startRound], which is not called while a callback
    is pending, so the closure's hand is [this.hands[p]]. *)

Definition selfWinCallback (p : Z) (scoring : ScoringResult.t) (g : t) : option t :=
  declareWin p (WinInfo.mk scoring true None) g.

Definition kongCallback (p : Z) (kongDecision : KongDecision.t) (ctx : Context.t) (g : t)
  : option t :=
  hand ← at_ (hands g) p;
  hand ← (if decide (KongDecision.action kongDecision = KONG_CONCEALED)
          then Some (Hand.doKongConcealed (KongDecision.key kongDecision) hand)
          else Hand.doKongAdded (KongDecision.key kongDecision) hand);
  let g := setHand p hand g in
  match Wall.drawFromDeadWall (wall g) with
  | (Some replacement, w) =>
    g ← _handleFlowerBloom p (g |> set_wall w |> setHand p (Hand.addTile replacement hand));
    let g := set__isKongDraw true g in
    hand ← at_ (hands g) p;
    won ←
      (if Hand.canWin hand then
         scoring ← Scoring.calculate hand
                     (Context.set_isKongDraw true (Context.set_selfDrawn true ctx));
         if Scoring.meetsMinimum (ScoringResult.totalFan scoring) (minFan g)
         then Some (Some scoring) else Some None
       else Some None) : option (option ScoringResult.t);
    match won with
    | Some scoring => declareWin p (WinInfo.mk scoring true None) g
    | None => _finishAITurn p g
    end
  | (None, _) => _finishAITurn p g
  end.

(** The discard that ends the pung, chow and kong branches. *)
Definition discardAfterClaim (playerIdx : Z) (g : t) : option t :=
  '(discard, g) ← aiDiscard playerIdx g;
  _processClaims discard playerIdx g.

Definition claimCallback (playerIdx : Z) (action : Action) (discardTile : Tile.t)
    (fromPlayer : Z) (g : t) : option t :=
  match at_ (hands g) playerIdx with
  | None => Some g
  | Some _ =>
    discardHand ← at_ (hands g) fromPlayer;
    let g := setHand fromPlayer (removeDiscard discardTile discardHand) g in
    hand ← at_ (hands g) playerIdx;
    match action with
    | win =>
      let hand := Hand.addTile discardTile hand in
      let g := setHand playerIdx hand g in
      let ctx := Context.set_selfDrawn false (getContext playerIdx g) in
      scoring ← Scoring.calculate hand ctx;
      declareWin playerIdx (WinInfo.mk scoring false (Some fromPlayer)) g
    | pung =>
      let hand := setLastFromPlayer fromPlayer (Hand.doPung discardTile hand) in
      discardAfterClaim playerIdx (setHand playerIdx hand g)
    | chow =>
      _ ← at_ (ai g) (playerIdx - 1);
      combo ← AI.chooseChowCombo (Hand.canChow discardTile hand);
      let hand := setLastFromPlayer fromPlayer (Hand.doChow discardTile combo hand) in
      discardAfterClaim playerIdx (setHand playerIdx hand g)
    | kong =>
      let hand := setLastFromPlayer fromPlayer (Hand.doKongExposed discardTile hand) in
      let g := setHand playerIdx hand g in
      won ←
        match Wall.drawFromDeadWall (wall g) with
        | (Some replacement, w) =>
          g ← _handleFlowerBloom playerIdx
                (g |> set_wall w |> setHand playerIdx (Hand.addTile replacement hand));
          hand ← at_ (hands g) playerIdx;
          if Hand.canWin hand then
            let ctx := Context.set_isKongDraw true
                         (Context.set_selfDrawn true (getContext playerIdx g)) in
            scoring ← Scoring.calculate hand ctx;
            if Scoring.meetsMinimum (ScoringResult.totalFan scoring) (minFan g)
            then Some (Some scoring, g) else Some (None, g)
          else Some (None, g)
        | (None, _) => Some (None, g)
        end;
      match won : option ScoringResult.t * t with
      | (Some scoring, g) => declareWin playerIdx (WinInfo.mk scoring true None) g
      | (None, g) =>
        g ← _validateHandSize playerIdx before_discard g;
        discardAfterClaim playerIdx g
      end
    end
  end.

Definition runTimer (timer : Timer) (g : t) : option t :=
  match timer with
  | TimerSelfWin p scoring => selfWinCallback p scoring g
  | TimerKong p kongDecision ctx => kongCallback p kongDecision ctx g
  | TimerClaim playerIdx action discardTile fromPlayer =>
    claimCallback playerIdx action discardTile fromPlayer g
  end.

(** The oldest pending callback runs. *)
Definition fireTimer (g : t) : option t :=
  match timers g with
  | [] => Some g
  | timer :: rest => runTimer timer (set_timers rest g)
  end.

(** ** Round advance *)

Definition nextRound (g : t) : option t :=
  if existsb (fun s => match s with Some s => bool_decide (s <= 0) | None => false end) (scores g)
     || bool_decide (totalRounds g >= maxRounds g)
  then Some (set_state (Some GAME_END) g)
  else if decide (winner g = dealerIndex g) then startRound g
  else
    let g := g |> set_dealerIndex ((dealerIndex g + 1) `rem` 4)
               |> set_roundNumber (roundNumber g + 1) in
    if decide (roundNumber g >= 4) then
      let g := set_roundNumber 0 g in
      if decide (roundWind g < WINDS.NORTH)
      then startRound (set_roundWind (roundWind g + 1) g)
      else Some (set_state (Some GAME_END) g)
    else startRound g.

End Game.

(* ================================================================== *)
(** * Specification vocabulary and example data *)
(* ================================================================== *)

(** ** Tile keys and their counts *)

(** The number of tiles of [tiles] with key [k]. *)
Definition keyCount (k : Key) (tiles : list Tile.t) : nat :=
  length (List.filter (Hand.hasKey k) tiles).

Definition countStep (g : gmap Key nat) (x : Tile.t) : gmap Key nat :=
  <[Tile.key x := S (g !!! Tile.key x)]> g.

Definition keyStep (ks : list Key) (x : Tile.t) : list Key :=
  if decide (Tile.key x ∈ ks) then ks else ks ++ [Tile.key x].

(** The keys a set stands for. *)
Definition setKeys (s : TileSet.t) : list Key :=
  match TileSet.type s with
  | CHOW => [TileSet.key s; (TileSet.suit s, TileSet.value s + 1);
             (TileSet.suit s, TileSet.value s + 2)]
  | _ => [TileSet.key s; TileSet.key s; TileSet.key s]
  end.

Definition pairKeys (p : option Key) : list Key :=
  match p with Some k => [k; k] | None => [] end.

(** The keys of the pair and of the sets of a [result]. *)
Definition resultKeys (r : Hand.result) : list Key :=
  pairKeys (Hand.pair r) ++ flat_map setKeys (Hand.sets r).

(** Occurrences of a key in a list of keys. *)
Definition occ (k : Key) (l : list Key) : nat := count_occ (decide_rel (=)) l k.

(** Tiles still counted at the keys of [ks]. *)
Definition tilesAt (groups : gmap Key nat) (ks : list Key) : nat :=
  sum_list_with (fun k => groups !!! k) ks.

Definition meldKeys (m : Meld.t) : list Key := Tile.key <$> Meld.tiles m.

(** The keys a standard decomposition stands for: the pair twice, the
    three keys of every set, the tiles of the exposed melds. *)
Definition reassemble (pair : option Key) (sets : list TileSet.t) (melds : list Meld.t)
  : list Key :=
  pairKeys pair ++ flat_map setKeys sets ++ flat_map meldKeys melds.

(** The keys of all tiles of a hand, concealed and melded. *)
Definition handKeys (h : Hand.t) : list Key := Tile.key <$> Scoring.allTilesOf h.

Definition tl_ (l : list (SUITS * Z)) : list Tile.t := imap (fun i '(s, v) => Tile.mk s v i) l.

(** A hand of four chows and a dragon pair, won on a discard. *)
Definition chowHand : Hand.t :=
  Hand.mk 0 (tl_ [(WAN,1);(WAN,2);(WAN,3);(WAN,4);(WAN,5);(WAN,6);(WAN,7);(WAN,8);(WAN,9);
                  (TUNG,1);(TUNG,2);(TUNG,3);(DRAGON,1);(DRAGON,1)]) [] [] [].

(** ** Shapes of hands *)

(** The tiles are seven distinct keys, two tiles of each. *)
Definition sevenPairsShape (tiles : list Tile.t) : Prop :=
  exists ks : list Key,
    NoDup ks /\ length ks = 7%nat /\ Tile.key <$> tiles ≡ₚ ks ++ ks.

(** The names the seven-pairs branch can put behind its first entry. *)
Definition sevenPairsExtras : list FanName :=
  [FAllHonours; FCleanFlush; FMixedFlush; FSelfDrawn].

(** Every meld holds a tile (the data model gives a meld 3 or 4). *)
Definition wellFormedMelds (h : Hand.t) : Prop :=
  Forall (fun m => Meld.tiles m <> []) (Hand.melds h).

(** One tile of each of the thirteen orphans, and one of them twice. *)
Definition thirteenOrphansShape (tiles : list Tile.t) : Prop :=
  exists k, k ∈ Hand.required /\ Tile.key <$> tiles ≡ₚ k :: Hand.required.

(** All tiles, concealed and melded, are winds or dragons. *)
Definition allHonours (h : Hand.t) : Prop :=
  Forall (fun x => Tile.isHonour x = true) (Scoring.allTilesOf h).

(** A pung or kong of the wind of value [v]: a meld that is not a chow
    and whose tiles are all that wind. *)
Definition windPung (v : Z) (m : Meld.t) : Prop :=
  Meld.type m <> CHOW /\ Meld.tiles m <> []
  /\ Forall (fun x => Tile.key x = (WIND, v)) (Meld.tiles m).

(** Big four winds, by the tiles: of the four winds, those of [ws] are
    held as concealed triplets and those of [ms] are laid out as pungs or
    kongs, one meld each; the concealed tiles are the triplets and a
    pair. *)
Definition bigFourWindsShape (h : Hand.t) : Prop :=
  exists (p : Key) (ws ms : list Z),
    ws ++ ms ≡ₚ [1; 2; 3; 4]
    /\ Tile.key <$> Hand.concealed h
       ≡ₚ [p; p] ++ flat_map (fun v => replicate 3 (WIND, v)) ws
    /\ Forall2 windPung ms (Hand.melds h).

(** The pungs of [sets] with the key [k]. *)
Definition pungsAt (k : Key) (sets : list TileSet.t) : list TileSet.t :=
  List.filter (fun s => bool_decide (TileSet.key s = k)
                        && negb (bool_decide (TileSet.type s = CHOW))) sets.

(** A pair of 5-wan and the four wind pungs, the north one melded. *)
Definition fourWindsHand : Hand.t :=
  Hand.mk 0 (tl_ [(WAN,5);(WAN,5);(WIND,1);(WIND,1);(WIND,1);(WIND,2);(WIND,2);(WIND,2);
                  (WIND,3);(WIND,3);(WIND,3)])
          [Meld.mk PUNG [Tile.mk WIND 4 120; Tile.mk WIND 4 121; Tile.mk WIND 4 122] (Some 2)]
          [] [].

(** No melds, one number suit, at least three 1s and three 9s and one
    tile of each value between. *)
Definition nineGatesShape (h : Hand.t) : Prop :=
  Hand.melds h = []
  /\ (exists s, Tile.suitIsNumber s = true
                /\ Forall (fun x => Tile.suit x = s) (Hand.concealed h))
  /\ (3 <= Scoring.countValue (Hand.concealed h) 1)%nat
  /\ (3 <= Scoring.countValue (Hand.concealed h) 9)%nat
  /\ Forall (fun v => 1 <= Scoring.countValue (Hand.concealed h) v)%nat [2; 3; 4; 5; 6; 7; 8].

Definition eightBonus (h : Hand.t) : Prop := length (Hand.flowers h) = 8%nat.

Definition discardContext : Context.t := Context.mk (Some 1) 1 false false false 1 [] [].

(** 1112345678999 of one suit and a fifth 5: nine gates. *)
Definition nineGatesHand : Hand.t :=
  Hand.mk 0 (tl_ [(WAN,1);(WAN,1);(WAN,1);(WAN,2);(WAN,3);(WAN,4);(WAN,5);(WAN,5);
                  (WAN,6);(WAN,7);(WAN,8);(WAN,9);(WAN,9);(WAN,9)]) [] [] [].

(** Seven pairs of mixed number tiles and a wind pair, with all eight
    bonus tiles laid out. *)
Definition pairsWithAllBonus : Hand.t :=
  Hand.mk 0 (tl_ [(WAN,1);(WAN,1);(WAN,3);(WAN,3);(TUNG,5);(TUNG,5);(TUNG,7);(TUNG,7);
                  (SOK,2);(SOK,2);(SOK,9);(SOK,9);(WIND,1);(WIND,1)])
          []
          [Tile.mk FLOWER 1 136; Tile.mk FLOWER 2 137; Tile.mk FLOWER 3 138;
           Tile.mk FLOWER 4 139; Tile.mk SEASON 1 140; Tile.mk SEASON 2 141;
           Tile.mk SEASON 3 142; Tile.mk SEASON 4 143]
          [].

(** ** Payment *)

(** One of the four seats. *)
Definition seat (i : Z) : Prop := 0 <= i < 4.

(** The feeders recorded in the melds of a hand are seats. *)
Definition feedersAreSeats (hand : Hand.t) : Prop :=
  Forall (fun m => forall f, Meld.fromPlayer m = Some f -> seat f) (Hand.melds hand).

(** What the state machine leaves behind when a round has ended: no
    winner ([winner < 0]), or a winner at one of the four seats with its
    [winInfo]; after a self-drawn win the winner's hand, whose melds hold
    tiles and name seats as feeders; after a win on a discard the seat of
    the discarder. *)
Definition completedRound (game : GameObj.t) : Prop :=
  GameObj.winner game < 0
  \/ (seat (GameObj.winner game)
      /\ exists info, GameObj.winInfo game = Some info
           /\ if WinInfo.selfDrawn info
              then exists hand,
                     at_ (GameObj.hands game) (GameObj.winner game) = Some hand
                     /\ wellFormedMelds hand /\ feedersAreSeats hand
              else exists f, WinInfo.fromPlayer info = Some f /\ seat f).

(** The four deltas are numbers that sum to zero. *)
Definition zeroSum (deltas : list num) : Prop :=
  exists a b c d : Z, deltas = [Some a; Some b; Some c; Some d] /\ a + b + c + d = 0.

(** The points the seats other than [winner] have lost. *)
Definition lost (winner : Z) (deltas : list num) : Z :=
  foldr Z.add 0
    (imap (fun i x => if decide (Z.of_nat i = winner) then 0 else - default 0 x) deltas).

(** The points move to [winner] only: no other seat gains, and the
    delta of [winner] is what the other seats have lost. *)
Definition paidTo (winner : Z) (deltas : list num) : Prop :=
  (forall i x, i <> winner -> at_ deltas i = Some (Some x) -> x <= 0)
  /\ at_ deltas winner = Some (Some (lost winner deltas)).

(** The melds [checkBaoPai] counts as dragon melds. *)
Definition dragonMelds (hand : Hand.t) : list Meld.t :=
  List.filter (Scoring.firstSuitIs DRAGON) (Hand.melds hand).

(** ** The wall and the round *)

(** The wall positions dealt to the seat [p] places after the dealer:
    four tiles in each of three rounds, then one, and for the dealer
    one more. *)
Definition dealtPositions (p : nat) : list nat :=
  flat_map (fun round => seq (16 * round + 4 * p) 4) [0; 1; 2]%nat
  ++ [48 + p]%nat
  ++ (if decide (p = 0%nat) then [52%nat] else []).

(** [g'] differs from [g] in the wall and in the contents of the four
    hands at most. *)
Definition onlyTiles (g g' : Game.t) : Prop :=
  g' = GameObj.set_wall (GameObj.wall g') (GameObj.set_hands (GameObj.hands g') g)
  /\ length (GameObj.hands g') = length (GameObj.hands g).

(** ** Example games *)

(** A game to run examples on: [new Game()] with a constant random source
    and Medium/Hard heuristics that never choose anything. *)
Definition noHeuristics : Heuristics.t :=
  Heuristics.mk (fun _ _ r => (None, r)) (fun _ _ => None)
                (fun _ _ _ _ r => (None, r)) (fun _ _ _ _ r => (None, r)).

Definition freshGame : Game.t := Game.new (RNG.mk (fun _ => 0) 0) noHeuristics.

(** Seat 0 holds four 1-wan among fourteen tiles; the dead wall is used up
    and three tiles are left in the live wall. *)
Definition kongHand : Hand.t :=
  Hand.mk 0
    [Tile.mk WAN 1 0; Tile.mk WAN 1 1; Tile.mk WAN 1 2; Tile.mk WAN 1 3;
     Tile.mk WAN 2 4; Tile.mk WAN 3 8; Tile.mk WAN 4 12;
     Tile.mk TUNG 2 40; Tile.mk TUNG 3 44; Tile.mk TUNG 4 48;
     Tile.mk SOK 5 88; Tile.mk SOK 6 92; Tile.mk SOK 7 96;
     Tile.mk WIND 1 108]
    [] [] [].

Definition kongGame : Game.t :=
  GameObj.set_state (Some PLAYER_DISCARD)
    (GameObj.set_wall
       (Wall.mk [Tile.mk TUNG 9 68; Tile.mk SOK 1 72; Tile.mk DRAGON 1 124] [] 0)
       (GameObj.set_hands [kongHand; Hand.new 1; Hand.new 2; Hand.new 3] freshGame)).

(** ** The tile count and the moves of a round *)

(** The tiles a hand holds: concealed tiles, meld tiles, bonus tiles and
    its discard pile. *)
Definition handTiles (h : Hand.t) : nat :=
  (length (Hand.concealed h) + length (flat_map Meld.tiles (Hand.melds h))
   + length (Hand.flowers h) + length (Hand.discards h))%nat.

(** All hands, plus [wall.remaining], plus [wall.deadWall.length]. *)
Definition totalTiles (g : Game.t) : nat :=
  (sum_list (handTiles <$> GameObj.hands g)
   + Z.to_nat (Wall.remaining (GameObj.wall g))
   + length (Wall.deadWall (GameObj.wall g)))%nat.

(** The operations that move a round on, each under the condition the
    interface offers it under: the draw button in PLAYER_TURN; a click on a
    concealed tile, the self-win button and the kong buttons in
    PLAYER_DISCARD; the claim buttons of [pendingClaims] and the pass button
    in CLAIMING; [processAITurn] in AI_TURN; a pending timer callback. *)
Inductive step : Game.t -> Game.t -> Prop :=
| step_processAITurn g g' :
    GameObj.state g = Some AI_TURN ->
    Game.processAITurn g = Some g' -> step g g'
| step_fireTimer g g' :
    GameObj.timers g <> [] ->
    Game.fireTimer g = Some g' -> step g g'
| step_playerDraw g b g' :
    GameObj.state g = Some PLAYER_TURN ->
    Game.playerDraw g = Some (b, g') -> step g g'
| step_playerDiscard g hand tile b g' :
    GameObj.state g = Some PLAYER_DISCARD ->
    at_ (GameObj.hands g) 0 = Some hand -> tile ∈ Hand.concealed hand ->
    Game.playerDiscard tile g = Some (b, g') -> step g g'
| step_playerSelfWin g g' :
    GameObj.state g = Some PLAYER_DISCARD ->
    Game.canPlayerSelfWin g = Some true ->
    Game.playerSelfWin g = Some g' -> step g g'
| step_playerKongConcealed g hand key g' :
    GameObj.state g = Some PLAYER_DISCARD ->
    at_ (GameObj.hands g) 0 = Some hand -> key ∈ Hand.getConcealedKongs hand ->
    Game.playerKong KONG_CONCEALED key g = Some g' -> step g g'
| step_playerKongAdded g hand keys key g' :
    GameObj.state g = Some PLAYER_DISCARD ->
    at_ (GameObj.hands g) 0 = Some hand ->
    Hand.getAddedKongs hand = Some keys -> key ∈ keys ->
    Game.playerKong KONG_ADDED key g = Some g' -> step g g'
| step_playerClaim g action chowCombo g' :
    GameObj.state g = Some CLAIMING ->
    action ∈ GameObj.pendingClaims g ->
    (action = chow ->
       exists tile hand, GameObj.lastDiscard g = Some tile
         /\ at_ (GameObj.hands g) 0 = Some hand
         /\ chowCombo ∈ Hand.canChow tile hand) ->
    Game.playerClaim action chowCombo g = Some g' -> step g g'
| step_playerPass g :
    GameObj.state g = Some CLAIMING -> step g (Game.playerPass g).

(** The states of a round: what [startRound] leaves, called with no
    callback pending and the dealer at one of the four seats, and what the
    operations make of it. *)
Inductive reachable : Game.t -> Prop :=
| reach_startRound g0 g :
    GameObj.timers g0 = [] -> seat (GameObj.dealerIndex g0) ->
    Game.startRound g0 = Some g -> reachable g
| reach_step g g' : reachable g -> step g g' -> reachable g'.

(** [Math.random()] values that make [Math.floor(Math.random() * k)] come
    out as [j]. *)
Definition pick (j k : Z) : Z := (j * RNG.DEN + k - 1) / k.

(** Three dice, the 143 swaps of the shuffle, and the discard the Easy AI
    picks among its fourteen tiles. *)
Definition choices : list (Z * Z) :=
  [(0, 6); (0, 6); (1, 6)]
  ++ imap (fun n j => (j, 144 - Z.of_nat n))
        [143; 142; 141; 140; 139; 138; 137; 136; 135; 134; 133; 132; 131;
         130; 129; 128; 127; 126; 123; 122; 121; 120; 119; 118; 117; 116;
         115; 114; 113; 112; 111; 110; 109; 108; 107; 106; 105; 104; 103;
         102; 101; 100; 99; 98; 97; 96; 95; 94; 93; 92; 91; 90; 89; 87;
         86; 85; 84; 83; 82; 81; 79; 78; 77; 76; 75; 74; 73; 71; 70; 69;
         67; 66; 65; 64; 63; 62; 61; 59; 58; 57; 56; 55; 54; 53; 51; 50;
         49; 48; 47; 46; 43; 49; 42; 41; 46; 48; 39; 38; 35; 34; 31; 30;
         29; 27; 34; 27; 36; 32; 29; 30; 30; 31; 26; 23; 22; 21; 19; 18;
         15; 14; 21; 14; 20; 16; 19; 14; 14; 16; 13; 11; 10; 7; 6; 5; 3;
         2; 7; 2; 4; 0; 0; 2; 0]
  ++ [(13, 14)].

Definition source (n : nat) : Z :=
  match choices !! n with Some (j, k) => pick j k | None => 0 end.

(** Difficulty Easy chosen on the menu, the game started, the dice rolled
    (1, 1 and 2: seat 3 deals). *)
Definition dicedGame : Game.t :=
  Game.rollDice (Game.startGame
    (GameObj.set_difficulty EASY (Game.new (RNG.mk source 0) noHeuristics))).

(** The state [confirmDice] leaves: [startRound] has dealt. *)
Definition dealtGame : Game.t := Eval vm_compute in
    match Game.confirmDice dicedGame with Some g => g | None => dicedGame end.

(** The dealer's turn played: seat 3 discards the tile seat 0 is waiting
    for, and seat 0 is asked. *)
Definition claimingGame : Game.t := Eval vm_compute in
    match Game.processAITurn dealtGame with Some g => g | None => dealtGame end.

(** Seat 0 has pressed the win button. *)
Definition wonGame : Game.t := Eval vm_compute in
    match Game.playerClaim win [] claimingGame with Some g => g | None => claimingGame end.

(** 11223344556677 of one suit: seven pairs, and also three chows, a chow
    and a pair. *)
Definition pairsHand : Hand.t :=
  Hand.mk 0 (tl_ [(WAN,1);(WAN,1);(WAN,2);(WAN,2);(WAN,3);(WAN,3);(WAN,4);(WAN,4);
                  (WAN,5);(WAN,5);(WAN,6);(WAN,6);(WAN,7);(WAN,7)]) [] [] [].

(** Seat 0 with three exposed dragon pungs, fed by seats 1, 3 and 2 in
    that order, about to declare a self-drawn win. *)
Definition dragonHand : Hand.t :=
  Hand.mk 0
    [Tile.mk WAN 1 0; Tile.mk WAN 2 4; Tile.mk WAN 3 8; Tile.mk TUNG 5 52; Tile.mk TUNG 5 53]
    [Meld.mk PUNG [Tile.mk DRAGON 1 124; Tile.mk DRAGON 1 125; Tile.mk DRAGON 1 126] (Some 1);
     Meld.mk PUNG [Tile.mk DRAGON 2 128; Tile.mk DRAGON 2 129; Tile.mk DRAGON 2 130] (Some 3);
     Meld.mk PUNG [Tile.mk DRAGON 3 132; Tile.mk DRAGON 3 133; Tile.mk DRAGON 3 134] (Some 2)]
    [] [].

Definition dragonTurn : Game.t :=
  GameObj.set_state (Some PLAYER_DISCARD)
    (GameObj.set_wall
       (Wall.mk [Tile.mk TUNG 9 68; Tile.mk SOK 1 72; Tile.mk WIND 2 112] [] 0)
       (GameObj.set_hands [dragonHand; Hand.new 1; Hand.new 2; Hand.new 3] freshGame)).

(** The state [playerSelfWin] leaves. *)
Definition dragonWin : Game.t := Eval vm_compute in
    match Game.playerSelfWin dragonTurn with Some g => g | None => dragonTurn end.

(** ** Further vocabulary *)

(** ** Order of tiles *)

(** [a] does not come after [b]: both have a sort key, and the key of [a]
    is not the larger one. *)
Definition notAfter (a b : Tile.t) : Prop :=
  exists ka kb, Tile.sortKey a = Some ka /\ Tile.sortKey b = Some kb /\ ka <= kb.

(** The tiles of [l] with the sort key of [x], in the order of [l]. *)
Definition sameRank (x : Tile.t) (l : list Tile.t) : list Tile.t :=
  List.filter (fun y => bool_decide (Tile.sortKey y = Tile.sortKey x)) l.

(** No flower and no season among the tiles. *)
Definition noBonus (l : list Tile.t) : Prop :=
  Forall (fun x => Tile.isBonus x = false) l.

(** ** Hands *)

(** [h'] is [h] but for its concealed tiles and its melds. *)
Definition sameRest (h h' : Hand.t) : Prop :=
  Hand.playerIndex h' = Hand.playerIndex h
  /\ Hand.flowers h' = Hand.flowers h
  /\ Hand.discards h' = Hand.discards h.

(** No two concealed tiles of the hand have the same [id]. *)
Definition distinctIds (l : list Tile.t) : Prop := NoDup (Tile.id <$> l).

(** [h'] is [h] after a meld of type [ty] was made of the tiles [first]
    and of the first [n] concealed tiles with the key [key] (all of them,
    if there are fewer): the meld is pushed behind the others, the taken
    tiles have left the concealed ones, nothing else has changed. *)
Definition meldMade (ty : MELD_TYPE) (first : list Tile.t) (n : nat) (key : Key)
    (h h' : Hand.t) : Prop :=
  let taken := take n (Hand.getTilesByKey key h) in
  Hand.melds h' = Hand.melds h ++ [Meld.mk ty (first ++ taken) None]
  /\ Hand.concealed h ≡ₚ taken ++ Hand.concealed h'
  /\ sameRest h h'.

(** The two keys that complete [tile] to the run of its suit starting at
    the value [lo]. *)
Definition comboOf (tile : Tile.t) (lo : Z) : list Key :=
  List.filter (fun k => negb (bool_decide (k = Tile.key tile)))
    [(Tile.suit tile, lo); (Tile.suit tile, lo + 1); (Tile.suit tile, lo + 2)].

(** ** Winning shapes *)

(** A set the search can build: a pung of any key, or a chow starting at
    a value up to 7 of a number suit. *)
Definition validSet (s : TileSet.t) : Prop :=
  TileSet.type s = PUNG
  \/ (TileSet.type s = CHOW /\ Tile.suitIsNumber (TileSet.suit s) = true
      /\ TileSet.value s <= 7).

(** The tiles are a pair and any number of pungs and chows. *)
Definition decomposes (tiles : list Tile.t) : Prop :=
  exists p sets,
    Forall validSet sets
    /\ pairKeys (Some p) ++ flat_map setKeys sets ≡ₚ Tile.key <$> tiles.

(** Inside every suit the keys come in ascending order of value. *)
Definition ascending (k1 k2 : Key) : Prop := fst k1 = fst k2 -> snd k1 < snd k2.

Definition suitsAscend (ks : list Key) : Prop := StronglySorted ascending ks.

(** What the search keeps true from call to call: every key with tiles
    left is among the keys still to visit, and every such key has an entry
    in the counter object. *)
Definition searchState (groups : gmap Key nat) (ks : list Key) : Prop :=
  (forall k, (0 < groups !!! k)%nat -> k ∈ ks)
  /\ (forall k, k ∈ ks -> is_Some (groups !! k)).

(** The counts are those of a pair (if [p] names one) and of the sets. *)
Definition covers (p : option Key) (sets : list TileSet.t) (groups : gmap Key nat) : Prop :=
  forall k, groups !!! k = occ k (pairKeys p ++ flat_map setKeys sets).

(** Inside every suit the tiles come in ascending order of value (equal
    values allowed). *)
Definition valuesAscend (tiles : list Tile.t) : Prop :=
  StronglySorted (fun a b => Tile.suit a = Tile.suit b -> Tile.value a <= Tile.value b) tiles.

(** 2-wan, 1-wan, 3-wan and a pair of east winds, in this order. *)
Definition unsortedRun : list Tile.t :=
  [Tile.mk WAN 2 4; Tile.mk WAN 1 0; Tile.mk WAN 3 8; Tile.mk WIND 1 108; Tile.mk WIND 1 109].

(** ** The tiles of a game *)

(** Every tile a hand holds: concealed tiles, meld tiles, bonus tiles and
    the discard pile. *)
Definition handAll (h : Hand.t) : list Tile.t :=
  Hand.concealed h ++ flat_map Meld.tiles (Hand.melds h) ++ Hand.flowers h ++ Hand.discards h.

(** The tiles still to be drawn: the live wall from [drawIndex] on, and
    the dead wall. *)
Definition wallLeft (w : Wall.t) : list Tile.t :=
  drop (Wall.drawIndex w) (Wall.tiles w) ++ Wall.deadWall w.

Definition allTiles (g : Game.t) : list Tile.t :=
  flat_map handAll (GameObj.hands g) ++ wallLeft (GameObj.wall g).

(** How many tiles of the set have the key [(s, v)]: four of every suited
    tile, wind and dragon, one of every flower and season. *)
Definition copiesOf (k : Key) : nat :=
  let '(s, v) := k in
  match s with
  | WAN | TUNG | SOK => if decide (1 <= v <= 9) then 4%nat else 0%nat
  | WIND => if decide (1 <= v <= 4) then 4%nat else 0%nat
  | DRAGON => if decide (1 <= v <= 3) then 4%nat else 0%nat
  | FLOWER | SEASON => if decide (1 <= v <= 4) then 1%nat else 0%nat
  end.

(** [h'] is [h] but for its concealed tiles and its bonus tiles. *)
Definition sameMelds (h h' : Hand.t) : Prop :=
  Hand.playerIndex h' = Hand.playerIndex h
  /\ Hand.melds h' = Hand.melds h
  /\ Hand.discards h' = Hand.discards h.

(** What a flower bloom does to a hand and the walls: the tiles [extra],
    all of them flowers or seasons, have joined the bonus tiles of the
    hand; as many tiles have been drawn, so the hand holds as many
    concealed tiles as before. *)
Definition bloomed (hand : Hand.t) (w : Wall.t) (hand' : Hand.t) (w' : Wall.t) : Prop :=
  sameMelds hand hand'
  /\ length (Hand.concealed hand') = length (Hand.concealed hand)
  /\ exists extra,
       Forall (fun x => Tile.isBonus x = true) extra
       /\ Hand.flowers hand' ≡ₚ Hand.flowers hand ++ extra
       /\ Hand.concealed hand ++ wallLeft w ≡ₚ Hand.concealed hand' ++ extra ++ wallLeft w'.

(** ** The start of a round *)

(** The state between the deal and the first move of a round dealt by
    seat [d]: four hands that hold, with the walls, the 144 tiles of the
    set; every hand knows its seat; the dealer holds 14 concealed tiles
    and every other seat 13; no melds and no discards yet, and only flowers and seasons among the
    bonus tiles. *)
Definition roundStart (d : Z) (g : Game.t) : Prop :=
  length (GameObj.hands g) = 4%nat
  /\ allTiles g ≡ₚ Tile.createAllTiles
  /\ forall q h, at_ (GameObj.hands g) q = Some h ->
       Hand.playerIndex h = q
       /\ length (Hand.concealed h) = (if decide (q = d) then 14%nat else 13%nat)
       /\ Hand.melds h = [] /\ Hand.discards h = []
       /\ Forall (fun x => Tile.isBonus x = true) (Hand.flowers h).

(** The concealed tiles of the hand are in order and hold no flower and
    no season. *)
Definition tidy (h : Hand.t) : Prop :=
  noBonus (Hand.concealed h) /\ StronglySorted notAfter (Hand.concealed h).

(** The game is over: a score has fallen to zero or below, or the last
    round has been played. *)
Definition gameOver (g : Game.t) : Prop :=
  (exists s, Some s ∈ GameObj.scores g /\ s <= 0)
  \/ GameObj.totalRounds g >= GameObj.maxRounds g.

(** ** Claims *)

(** The context [_canWinWith] scores a probed hand in: the two winds and
    the minimum of the caller, and no special circumstance. *)
Definition probeContext (ctx : Context.t) : Context.t :=
  Context.mk (Context.seatWind ctx) (Context.roundWind ctx) false false false
             (Context.minFan ctx) [] [].

(** The test of [_canWinWith]: the hand completed by [tile] wins, and
    reaches the minimum fan of [ctx] when it is scored in [probeContext
    ctx], not in [ctx] itself. *)
Definition probeWins (hand : Hand.t) (tile : Tile.t) (ctx : Context.t) : Prop :=
  Hand.canWin (Hand.addTile tile hand) = true
  /\ exists scoring,
       Scoring.calculate (Hand.addTile tile hand) (probeContext ctx) = Some scoring
       /\ Z.of_nat (ScoringResult.totalFan scoring) >= Context.minFan ctx.

(** What seat 0 may do with the discard [tile] of seat [from]: the
    buttons [_processClaims] offers, in its order. *)
Definition offers (g : Game.t) (hand : Hand.t) (tile : Tile.t) (from : Z) : list Action :=
  let ctx := Context.set_selfDrawn false (Game.getContext 0 g) in
  let wins :=
    Hand.canWin (Hand.addTile tile hand)
    && match Scoring.calculate (Hand.addTile tile hand) ctx with
       | Some scoring => Scoring.meetsMinimum (ScoringResult.totalFan scoring) (GameObj.minFan g)
       | None => false
       end in
  (if wins then [win] else [])
  ++ (if Hand.canKongFromDiscard tile hand then [kong] else [])
  ++ (if Hand.canPung tile hand then [pung] else [])
  ++ (if bool_decide (from = 3) && bool_decide (Hand.canChow tile hand <> []) then [chow] else []).

(** ** More example data *)

(** Five tiles out of order, two of them alike. *)
Definition sortExample : list Tile.t :=
  [Tile.mk SOK 3 80; Tile.mk WAN 9 32; Tile.mk WIND 2 112; Tile.mk WAN 9 33; Tile.mk TUNG 1 36].

(** A second 2-wan, discarded by seat 3 onto its pile. *)
Definition wan2 : Tile.t := Tile.mk WAN 2 5.

Definition claimGame : Game.t :=
  GameObj.set_lastDiscard (Some wan2)
    (GameObj.set_lastDiscardPlayer 3
       (GameObj.set_hands [kongHand; Hand.new 1; Hand.new 2; Hand.mk 3 [] [] [] [wan2]]
          freshGame)).

(** What [Scoring.calculate] makes of the seven pairs of [pairsHand]. *)
Definition pairsScore : ScoringResult.t := Eval vm_compute in
    match Scoring.calculate pairsHand discardContext with
    | Some r => r
    | None => ScoringResult.mk 0 []
    end.

(** Seat 0, dealer, about to declare a self-drawn win on seven pairs. *)
Definition pairsTurn : Game.t :=
  GameObj.set_state (Some PLAYER_DISCARD)
    (GameObj.set_hands [pairsHand; Hand.new 1; Hand.new 2; Hand.new 3] freshGame).

Definition pairsWin : Game.t := Eval vm_compute in
    match Game.playerSelfWin pairsTurn with Some g => g | None => pairsTurn end.

(** The [winInfo] of [pairsWin]. *)
Definition pairsInfo : WinInfo.t := Eval vm_compute in
    match GameObj.winInfo pairsWin with
    | Some info => info
    | None => WinInfo.mk (ScoringResult.mk 0 []) false None
    end.

(** The state before [_applyPayment] has run on that win. *)
Definition pairsUnpaid : Game.t :=
  GameObj.set_state (Some ROUND_END)
    (GameObj.set_winInfo (Some pairsInfo) (GameObj.set_winner 0 pairsTurn)).

(** The [winInfo] of [wonGame]. *)
Definition wonInfo : WinInfo.t := Eval vm_compute in
    match GameObj.winInfo wonGame with
    | Some info => info
    | None => WinInfo.mk (ScoringResult.mk 0 []) false None
    end.

(** Seat 0 holds a flower and a season among five tiles; the dead wall
    holds a season and a 7-sok. *)
Definition flowerHand : Hand.t :=
  Hand.mk 0 [Tile.mk WAN 1 0; Tile.mk FLOWER 2 137; Tile.mk WAN 3 8; Tile.mk SEASON 1 140;
             Tile.mk TUNG 5 52] [] [] [].

Definition flowerGame : Game.t :=
  GameObj.set_wall
    (Wall.mk [Tile.mk TUNG 9 68; Tile.mk SOK 1 72] [Tile.mk SOK 7 96; Tile.mk SEASON 3 142] 0)
    (GameObj.set_hands [flowerHand; Hand.new 1; Hand.new 2; Hand.new 3] freshGame).

(** Three Easy seats; seat 1 holds the tiles of [kongHand]. *)
Definition easyGame : Game.t :=
  GameObj.set_ai [EASY; EASY; EASY]
    (GameObj.set_hands
       [Hand.new 0; Hand.mk 1 (Hand.concealed kongHand) [] [] []; Hand.new 2; Hand.new 3]
       freshGame).

(** ** Taking tiles from the walls *)

(** The seat has taken the tiles [drawn] from the walls: they have left
    the walls [w], which are [w'] now, and are among the tiles of the
    hand.  The hand has kept its melds, and the bonus tiles it has gained
    are flowers and seasons. *)
Definition drewInto (drawn : list Tile.t) (h : Hand.t) (w : Wall.t)
    (h' : Hand.t) (w' : Wall.t) : Prop :=
  wallLeft w ≡ₚ drawn ++ wallLeft w'
  /\ handAll h' ≡ₚ drawn ++ handAll h
  /\ Hand.melds h' = Hand.melds h
  /\ exists extra,
       Forall (fun x => Tile.isBonus x = true) extra
       /\ Hand.flowers h' ≡ₚ Hand.flowers h ++ extra.

(** The flowers have bloomed: no flower and no season is left among the
    concealed tiles, unless both walls are used up. *)
Definition bloomDone (h : Hand.t) (w : Wall.t) : Prop :=
  noBonus (Hand.concealed h) \/ wallLeft w = [].

(** The wall after one draw from the live wall. *)
Definition afterDraw (w : Wall.t) : Wall.t :=
  Wall.mk (Wall.tiles w) (Wall.deadWall w) (S (Wall.drawIndex w)).

(** Seat 0 is to draw with four tiles in hand, and the next tile of the
    live wall is a flower. *)
Definition fourTiles : Hand.t :=
  Hand.mk 0 (tl_ [(WAN,1);(WAN,2);(WAN,3);(WAN,4)]) [] [] [].

Definition flowerDrawGame : Game.t :=
  GameObj.set_wall
    (Wall.mk [Tile.mk FLOWER 1 136; Tile.mk WAN 5 16; Tile.mk WAN 6 20]
             [Tile.mk TUNG 1 36; Tile.mk TUNG 2 40] 0)
    (GameObj.set_hands [fourTiles; Hand.new 1; Hand.new 2; Hand.new 3]
       (GameObj.set_state (Some PLAYER_TURN) freshGame)).

(** The game after that draw. *)
Definition flowerDrawn : Game.t := Eval vm_compute in
    match Game.playerDraw flowerDrawGame with
    | Some (_, g) => g
    | None => flowerDrawGame
    end.

(** ** Claims for a meld and for a win *)

(** The type of the meld a claim for a kong, a pung or a chow makes of
    the discard.  A claim for a win makes no meld; it is listed with the
    chow to have a value. *)
Definition claimType (action : Action) : MELD_TYPE :=
  match action with kong => KONG_EXPOSED | pung => PUNG | chow | win => CHOW end.

(** Seat 1 with a melded pung of 2-wan, three concealed chows and a
    single 2-sok: the second 2-sok completes a hand without any fan of
    its own. *)
Definition plainHand : Hand.t :=
  Hand.mk 1
    [Tile.mk WAN 4 12; Tile.mk WAN 5 16; Tile.mk WAN 6 20;
     Tile.mk TUNG 3 44; Tile.mk TUNG 4 48; Tile.mk TUNG 5 52;
     Tile.mk SOK 2 76; Tile.mk SOK 6 92; Tile.mk SOK 7 96; Tile.mk SOK 8 100]
    [Meld.mk PUNG [Tile.mk WAN 2 4; Tile.mk WAN 2 5; Tile.mk WAN 2 6] (Some 0)]
    [] [].

Definition sok2 : Tile.t := Tile.mk SOK 2 77.

(** The context of a discard of the last tile of the wall, minimum 1 fan. *)
Definition lastTileContext : Context.t := Context.mk (Some 2) 1 false true false 1 [] [].

(* ================================================================== *)
(** * Proofs *)
(* ================================================================== *)

(* ================================================================== *)
(** * Facts on the counter objects *)
(* ================================================================== *)

Lemma keyCount_cons k x tiles :
  keyCount k (x :: tiles)
  = ((if decide (Tile.key x = k) then 1 else 0) + keyCount k tiles)%nat.
Proof.
  unfold keyCount, Hand.hasKey. simpl.
  destruct (decide (Tile.key x = k)) as [e|n].
  - rewrite bool_decide_eq_true_2 by done. reflexivity.
  - rewrite bool_decide_eq_false_2 by done. reflexivity.
Qed.

Lemma keyCount_count_occ k tiles :
  keyCount k tiles = count_occ (decide_rel (=)) (Tile.key <$> tiles) k.
Proof.
  induction tiles as [|x tiles IH]; [reflexivity|].
  rewrite keyCount_cons, IH. simpl.
  destruct (decide (Tile.key x = k)) as [e|n].
  - rewrite e. destruct (decide_rel eq k k); [reflexivity|congruence].
  - destruct (decide_rel eq (Tile.key x) k); [congruence|reflexivity].
Qed.

Lemma countStep_total g x k :
  countStep g x !!! k = ((if decide (Tile.key x = k) then 1 else 0) + g !!! k)%nat.
Proof.
  unfold countStep. destruct (decide (Tile.key x = k)) as [<-|n].
  - rewrite lookup_total_insert_eq. reflexivity.
  - rewrite lookup_total_insert_ne by done. reflexivity.
Qed.

Lemma foldl_countStep_total tiles : forall g k,
  foldl countStep g tiles !!! k = (g !!! k + keyCount k tiles)%nat.
Proof.
  induction tiles as [|x tiles IH]; intros g k; simpl.
  - unfold keyCount. simpl. lia.
  - rewrite IH, countStep_total, keyCount_cons. lia.
Qed.

Lemma groupByKey_total tiles k : groupByKey tiles !!! k = keyCount k tiles.
Proof.
  unfold groupByKey. change (fun g x => <[Tile.key x:=S (g !!! Tile.key x)]> g) with countStep.
  rewrite foldl_countStep_total. rewrite lookup_total_empty. reflexivity.
Qed.

Lemma foldl_countStep_dom tiles : forall g k,
  is_Some (foldl countStep g tiles !! k) <-> is_Some (g !! k) \/ k ∈ (Tile.key <$> tiles).
Proof.
  induction tiles as [|x tiles IH]; intros g k; simpl.
  - rewrite list_elem_of_In. simpl. tauto.
  - rewrite IH. unfold countStep at 1.
    rewrite lookup_insert_is_Some, elem_of_cons.
    destruct (decide (Tile.key x = k)) as [e|n]; [subst k|].
    + split; intros _; [right; left|left; left]; reflexivity.
    + split.
      * intros [[?|[_ ?]]|?]; [congruence|left; assumption|right; right; assumption].
      * intros [?|[?|?]]; [left; right; split; assumption|congruence|right; assumption].
Qed.

Lemma groupByKey_dom tiles k :
  is_Some (groupByKey tiles !! k) <-> k ∈ (Tile.key <$> tiles).
Proof.
  unfold groupByKey. change (fun g x => <[Tile.key x:=S (g !!! Tile.key x)]> g) with countStep.
  rewrite foldl_countStep_dom, lookup_empty. split; [intros [[? [=]]|]; done | auto].
Qed.

Lemma foldl_keyStep tiles : forall ks,
  NoDup ks ->
  NoDup (foldl keyStep ks tiles)
  /\ forall k, k ∈ foldl keyStep ks tiles <-> k ∈ ks \/ k ∈ (Tile.key <$> tiles).
Proof.
  induction tiles as [|x tiles IH]; intros ks Hks; simpl.
  - split; [done|]. intros k. rewrite elem_of_nil. tauto.
  - assert (NoDup (keyStep ks x)) as Hnd.
    { unfold keyStep. destruct (decide _); [done|].
      apply list.NoDup_app. repeat split; [done| |apply NoDup_singleton].
      intros y Hy Hy'. apply list_elem_of_singleton in Hy'. congruence. }
    destruct (IH _ Hnd) as [H1 H2]. split; [done|].
    intros k. rewrite H2, elem_of_cons. unfold keyStep.
    destruct (decide (Tile.key x ∈ ks)) as [Hin|Hin].
    + split; [tauto|]. intros [?|[->|?]]; auto.
    + rewrite elem_of_app, list_elem_of_singleton. split; [tauto|]. intros [?|[->|?]]; auto.
Qed.

Lemma keysInOrder_NoDup tiles : NoDup (keysInOrder tiles).
Proof. apply (foldl_keyStep tiles []), NoDup_nil_2. Qed.

Lemma keysInOrder_elem tiles k : k ∈ keysInOrder tiles <-> k ∈ (Tile.key <$> tiles).
Proof.
  unfold keysInOrder.
  destruct (foldl_keyStep tiles [] (NoDup_nil_2)) as [_ H].
  change (fun ks x => if decide (Tile.key x ∈ ks) then ks else ks ++ [Tile.key x]) with keyStep.
  rewrite H, elem_of_nil. tauto.
Qed.

Lemma keyCount_pos k tiles : (0 < keyCount k tiles)%nat <-> k ∈ (Tile.key <$> tiles).
Proof.
  induction tiles as [|x tiles IH]; simpl.
  - unfold keyCount. simpl. rewrite elem_of_nil. lia.
  - rewrite keyCount_cons, elem_of_cons. destruct (decide (Tile.key x = k)) as [e|n].
    + split; [auto|lia].
    + rewrite <- IH. split; [intros; right; lia|intros [?|?]; [congruence|lia]].
Qed.

Lemma occ_app k l1 l2 : occ k (l1 ++ l2) = (occ k l1 + occ k l2)%nat.
Proof. apply count_occ_app. Qed.

Lemma occ_cons k x l : occ k (x :: l) = ((if decide (x = k) then 1 else 0) + occ k l)%nat.
Proof.
  unfold occ. simpl. destruct (decide_rel eq x k), (decide (x = k)); congruence || reflexivity.
Qed.

Lemma occ_nil k : occ k [] = 0%nat.
Proof. reflexivity. Qed.

Lemma flat_map_snoc {A B} (f : A -> list B) l x :
  flat_map f (l ++ [x]) = flat_map f l ++ f x.
Proof. rewrite flat_map_app. simpl. rewrite app_nil_r. reflexivity. Qed.

(** ** The skipping loop *)

Lemma skipZero_spec g ks :
  exists pre, ks = pre ++ Hand.skipZero g ks /\ Forall (fun k => g !! k = Some 0%nat) pre.
Proof.
  induction ks as [|k ks IH]; simpl.
  - exists []. split; [reflexivity|constructor].
  - destruct (decide (g !! k = Some 0%nat)) as [e|n].
    + destruct IH as (pre & E & F). exists (k :: pre). split.
      * simpl. congruence.
      * constructor; assumption.
    + exists []. split; [reflexivity|constructor].
Qed.

Lemma skipZero_head g ks key rest :
  Hand.skipZero g ks = key :: rest -> g !! key <> Some 0%nat.
Proof.
  induction ks as [|k ks IH]; simpl; [discriminate|].
  destruct (decide (g !! k = Some 0%nat)); [assumption|].
  intros [= -> _]. assumption.
Qed.

Lemma skipZero_idem g ks key rest :
  Hand.skipZero g ks = key :: rest -> Hand.skipZero g (key :: rest) = key :: rest.
Proof.
  intros H. simpl. destruct (decide (g !! key = Some 0%nat)) as [e|n]; [|reflexivity].
  exfalso. exact (skipZero_head _ _ _ _ H e).
Qed.

(** Keys with tiles left are never skipped. *)
Lemma skipZero_keeps g ks k :
  (0 < g !!! k)%nat -> k ∈ ks -> k ∈ Hand.skipZero g ks.
Proof.
  intros Hpos Hin. destruct (skipZero_spec g ks) as (pre & E & F).
  rewrite E in Hin. apply elem_of_app in Hin as [Hin|Hin]; [|assumption].
  rewrite Forall_forall in F. apply list_elem_of_In in Hin. apply F in Hin.
  rewrite lookup_total_alt, Hin in Hpos. simpl in Hpos. lia.
Qed.

Lemma skipZero_sub g ks k : k ∈ Hand.skipZero g ks -> k ∈ ks.
Proof.
  destruct (skipZero_spec g ks) as (pre & E & _). intros H.
  rewrite E. apply elem_of_app. right. assumption.
Qed.

(** ** Taking tiles out of the counts *)

Lemma take_total n key g k :
  Hand.take n key g !!! k = if decide (key = k) then (g !!! key - n)%nat else g !!! k.
Proof.
  unfold Hand.take. destruct (decide (key = k)) as [<-|ne].
  - apply lookup_total_insert_eq.
  - apply lookup_total_insert_ne. assumption.
Qed.

Lemma take_is_Some n key g k : is_Some (g !! k) -> is_Some (Hand.take n key g !! k).
Proof.
  intros H. unfold Hand.take. rewrite lookup_insert_is_Some.
  destruct (decide (key = k)); [left|right]; auto.
Qed.

Lemma take_le n key g k : (Hand.take n key g !!! k <= g !!! k)%nat.
Proof. rewrite take_total. destruct (decide (key = k)) as [<-|]; lia. Qed.

Lemma takeChow_is_Some key g k : is_Some (g !! k) -> is_Some (Hand.takeChow key g !! k).
Proof. intros H. unfold Hand.takeChow. do 3 apply take_is_Some. assumption. Qed.

Lemma takeChow_le key g k : (Hand.takeChow key g !!! k <= g !!! k)%nat.
Proof.
  unfold Hand.takeChow.
  etransitivity; [apply take_le|]. etransitivity; [apply take_le|]. apply take_le.
Qed.

Lemma takeChow_total key g k :
  (0 < g !!! key)%nat -> Hand.chowAvailable g key = true ->
  (Hand.takeChow key g !!! k
   + occ k [key; (fst key, (snd key + 1)%Z); (fst key, (snd key + 2)%Z)]
   = g !!! k)%nat.
Proof.
  intros Hpos Hav. unfold Hand.chowAvailable in Hav.
  repeat (apply andb_prop in Hav as [Hav ?]).
  repeat match goal with H : bool_decide _ = true |- _ => apply bool_decide_eq_true_1 in H end.
  destruct key as [s v]. cbn [fst snd] in *.
  unfold Hand.takeChow. cbn [fst snd]. rewrite !take_total, !occ_cons, occ_nil.
  repeat (rewrite ?take_total; destruct (decide _) as [?|?]);
    simplify_eq; try lia.
Qed.

(** ** The two searches *)

(** A failed [_decompose] leaves [result] as it found it. *)
Lemma decompose_false fuel : forall groups ks r r',
  Hand._decompose fuel groups ks r = (false, r') -> r' = r.
Proof.
  induction fuel as [|fuel IH]; intros groups ks r r'; simpl.
  - intros [= <-]. reflexivity.
  - destruct (Hand.skipZero groups ks) as [|key rest] eqn:Hskip.
    + intros [= _ <-]. reflexivity.
    + destruct r as [p sets].
      cbn [Hand.pair Hand.sets].
      destruct (bool_decide (p = None) && bool_decide (2 ≤ groups !!! key)%nat) eqn:Hpair.
      * destruct (Hand._decompose fuel (Hand.take 2 key groups) (key :: rest)
                    (Hand.mkResult (Some key) sets)) as [[] r1] eqn:E1; [discriminate|].
        apply IH in E1. subst r1. cbn [Hand.pair Hand.sets].
        apply andb_prop in Hpair as [Hp _]. apply bool_decide_eq_true_1 in Hp. subst p.
        destruct (bool_decide (3 ≤ groups !!! key)%nat).
        -- destruct (Hand._decompose fuel (Hand.take 3 key groups) (key :: rest) _)
             as [[] r2] eqn:E2; [discriminate|].
           apply IH in E2. subst r2. cbn [Hand.pair Hand.sets]. rewrite removelast_last.
           destruct (Hand.chowAvailable groups key).
           ++ destruct (Hand._decompose fuel (Hand.takeChow key groups) (key :: rest) _)
                as [[] r3] eqn:E3; [discriminate|].
              apply IH in E3. subst r3. cbn [Hand.pair Hand.sets]. rewrite removelast_last.
              intros [= <-]. reflexivity.
           ++ intros [= <-]. reflexivity.
        -- destruct (Hand.chowAvailable groups key).
           ++ destruct (Hand._decompose fuel (Hand.takeChow key groups) (key :: rest) _)
                as [[] r3] eqn:E3; [discriminate|].
              apply IH in E3. subst r3. cbn [Hand.pair Hand.sets]. rewrite removelast_last.
              intros [= <-]. reflexivity.
           ++ intros [= <-]. reflexivity.
      * destruct (bool_decide (3 ≤ groups !!! key)%nat).
        -- destruct (Hand._decompose fuel (Hand.take 3 key groups) (key :: rest) _)
             as [[] r2] eqn:E2; [discriminate|].
           apply IH in E2. subst r2. cbn [Hand.pair Hand.sets]. rewrite removelast_last.
           destruct (Hand.chowAvailable groups key).
           ++ destruct (Hand._decompose fuel (Hand.takeChow key groups) (key :: rest) _)
                as [[] r3] eqn:E3; [discriminate|].
              apply IH in E3. subst r3. cbn [Hand.pair Hand.sets]. rewrite removelast_last.
              intros [= <-]. reflexivity.
           ++ intros [= <-]. reflexivity.
        -- destruct (Hand.chowAvailable groups key).
           ++ destruct (Hand._decompose fuel (Hand.takeChow key groups) (key :: rest) _)
                as [[] r3] eqn:E3; [discriminate|].
              apply IH in E3. subst r3. cbn [Hand.pair Hand.sets]. rewrite removelast_last.
              intros [= <-]. reflexivity.
           ++ intros [= <-]. reflexivity.
Qed.

(** One recursive call of [_decompose] in the goal: name its outcome,
    relate it to [_tryRemoveSets] by the induction hypothesis, and in the
    failing case put [result] back. *)
Ltac decompose_call IH :=
  match goal with
  | |- context [Hand._decompose ?f ?g ?k ?r] =>
    let E := fresh "E" in
    let b := fresh "b" in
    let r1 := fresh "r" in
    let H := fresh "H" in
    pose proof (IH g k r) as H;
    destruct (Hand._decompose f g k r) as [b r1] eqn:E;
    cbn [fst Hand.pair Hand.sets] in H;
    rewrite ?bool_decide_eq_true_2 in H by discriminate;
    rewrite ?bool_decide_eq_false_2 in H by (intros ?; congruence);
    rewrite <- H; clear H;
    destruct b;
    [ try reflexivity
    | apply decompose_false in E; subst r1;
      cbn [Hand.pair Hand.sets]; rewrite ?removelast_last ]
  end.

(** [_decompose] finds a decomposition exactly when [_tryRemoveSets]
    says there is one. *)
Lemma decompose_tryRemoveSets fuel : forall groups ks r,
  fst (Hand._decompose fuel groups ks r)
  = Hand._tryRemoveSets fuel groups ks (bool_decide (Hand.pair r <> None)).
Proof.
  induction fuel as [|fuel IH]; intros groups ks r; simpl; [reflexivity|].
  destruct (Hand.skipZero groups ks) as [|key rest] eqn:Hskip; [reflexivity|].
  destruct r as [[p|] sets]; cbn [Hand.pair Hand.sets].
  - rewrite (bool_decide_eq_false_2 (Some p = None)) by discriminate.
    rewrite (bool_decide_eq_true_2 (Some p <> None)) by discriminate.
    cbn [negb andb].
    destruct (bool_decide (3 ≤ groups !!! key)%nat).
    + decompose_call IH.
      destruct (Hand.chowAvailable groups key); [|reflexivity].
      decompose_call IH. reflexivity.
    + destruct (Hand.chowAvailable groups key); [|reflexivity].
      decompose_call IH. reflexivity.
  - rewrite (bool_decide_eq_true_2 (None = None)) by reflexivity.
    rewrite (bool_decide_eq_false_2 (@None Key <> None)) by (intros H; apply H; reflexivity).
    cbn [negb andb].
    destruct (bool_decide (2 ≤ groups !!! key)%nat).
    + decompose_call IH.
      destruct (bool_decide (3 ≤ groups !!! key)%nat).
      * decompose_call IH.
        destruct (Hand.chowAvailable groups key); [|reflexivity].
        decompose_call IH. reflexivity.
      * destruct (Hand.chowAvailable groups key); [|reflexivity].
        decompose_call IH. reflexivity.
    + destruct (bool_decide (3 ≤ groups !!! key)%nat).
      * decompose_call IH.
        destruct (Hand.chowAvailable groups key); [|reflexivity].
        decompose_call IH. reflexivity.
      * destruct (Hand.chowAvailable groups key); [|reflexivity].
        decompose_call IH. reflexivity.
Qed.

Lemma resultKeys_pair key sets k :
  occ k (resultKeys (Hand.mkResult (Some key) sets))
  = (occ k (resultKeys (Hand.mkResult None sets)) + occ k [key; key])%nat.
Proof.
  unfold resultKeys. cbn [Hand.pair Hand.sets pairKeys app].
  rewrite !occ_cons, occ_nil. lia.
Qed.

Lemma resultKeys_set p sets s k :
  occ k (resultKeys (Hand.mkResult p (sets ++ [s])))
  = (occ k (resultKeys (Hand.mkResult p sets)) + occ k (setKeys s))%nat.
Proof.
  unfold resultKeys. cbn [Hand.pair Hand.sets].
  rewrite flat_map_snoc, !occ_app. lia.
Qed.

Lemma take_occ n key g k :
  (n <= g !!! key)%nat ->
  (Hand.take n key g !!! k + occ k (replicate n key) = g !!! k)%nat.
Proof.
  intros Hn. rewrite take_total.
  assert (occ k (replicate n key) = if decide (key = k) then n else 0%nat) as ->.
  { clear Hn. induction n as [|n IH]; cbn [replicate].
    - rewrite occ_nil. destruct (decide _); reflexivity.
    - rewrite occ_cons, IH. destruct (decide _); reflexivity. }
  destruct (decide (key = k)) as [<-|]; lia.
Qed.

(** A successful [_decompose] has chosen a pair and has consumed every
    tile of [groups]: the keys it added to [result] are, with their
    multiplicities, the counts in [groups]. *)
Lemma decompose_sound fuel : forall groups ks r r',
  (forall k, (0 < groups !!! k)%nat -> k ∈ ks) ->
  (forall k, k ∈ ks -> is_Some (groups !! k)) ->
  Hand._decompose fuel groups ks r = (true, r') ->
  Hand.pair r' <> None
  /\ forall k, occ k (resultKeys r') = (occ k (resultKeys r) + groups !!! k)%nat.
Proof.
  induction fuel as [|fuel IH]; intros groups ks r r' Hpos Hdom; simpl; [discriminate|].
  destruct (Hand.skipZero groups ks) as [|key rest] eqn:Hskip.
  - intros [= Hp <-]. apply bool_decide_eq_true_1 in Hp. split; [assumption|].
    intros k. destruct (decide (0 < groups !!! k)%nat) as [Hk|Hk]; [|lia].
    apply Hpos in Hk as Hin. apply (skipZero_keeps groups ks k Hk) in Hin.
    rewrite Hskip in Hin. apply elem_of_nil in Hin. contradiction.
  - assert (forall k, (0 < groups !!! k)%nat -> k ∈ key :: rest) as Hpos'.
    { intros k Hk. rewrite <- Hskip. apply skipZero_keeps; auto. }
    assert (forall k, k ∈ key :: rest -> is_Some (groups !! k)) as Hdom'.
    { intros k Hk. rewrite <- Hskip in Hk. apply skipZero_sub in Hk. auto. }
    assert (0 < groups !!! key)%nat as Hkey.
    { destruct (Hdom' key) as [n Hn]; [left|].
      pose proof (skipZero_head _ _ _ _ Hskip) as Hne.
      rewrite lookup_total_alt, Hn. simpl.
      destruct n; [congruence|lia]. }
    destruct r as [p sets]. cbn [Hand.pair Hand.sets].
    set (done_ := fun (p : option Key) (r1 : Hand.result) =>
           Hand.pair r1 <> None
           /\ forall k, occ k (resultKeys r1)
                        = (occ k (resultKeys (Hand.mkResult p sets)) + groups !!! k)%nat).
    assert (forall groups',
              (forall k, groups' !!! k <= groups !!! k)%nat ->
              (forall k, is_Some (groups !! k) -> is_Some (groups' !! k)) ->
              forall r0 r1,
              Hand._decompose fuel groups' (key :: rest) r0 = (true, r1) ->
              Hand.pair r1 <> None
              /\ forall k, occ k (resultKeys r1)
                           = (occ k (resultKeys r0) + groups' !!! k)%nat) as IH'.
    { intros groups' Hle Hsome r0 r1 E. apply IH in E; [assumption| |].
      - intros k Hk. apply Hpos'. specialize (Hle k). lia.
      - intros k Hk. apply Hsome, Hdom', Hk. }
    clear IH.
    assert (forall r1, (2 <= groups !!! key)%nat ->
              Hand._decompose fuel (Hand.take 2 key groups) (key :: rest)
                (Hand.mkResult (Some key) sets) = (true, r1) ->
              done_ None r1) as Spair.
    { intros r1 Hn E. apply IH' in E as [E1 E2];
        [|intros k; apply take_le|intros k; apply take_is_Some].
      split; [assumption|]. intros k.
      rewrite E2, resultKeys_pair. pose proof (take_occ 2 key groups k Hn) as Ht.
      cbn [replicate] in Ht. lia. }
    assert (forall p r1, (3 <= groups !!! key)%nat ->
              Hand._decompose fuel (Hand.take 3 key groups) (key :: rest)
                (Hand.mkResult p (sets ++ [TileSet.mk PUNG key false])) = (true, r1) ->
              done_ p r1) as Spung.
    { intros q r1 Hn E. apply IH' in E as [E1 E2];
        [|intros k; apply take_le|intros k; apply take_is_Some].
      split; [assumption|]. intros k.
      rewrite E2, resultKeys_set. pose proof (take_occ 3 key groups k Hn) as Ht.
      cbn [replicate] in Ht. unfold setKeys. cbn [TileSet.type TileSet.key]. lia. }
    assert (forall p r1, Hand.chowAvailable groups key = true ->
              Hand._decompose fuel (Hand.takeChow key groups) (key :: rest)
                (Hand.mkResult p (sets ++ [TileSet.mk CHOW key false])) = (true, r1) ->
              done_ p r1) as Schow.
    { intros q r1 Hav E. apply IH' in E as [E1 E2];
        [|intros k; apply takeChow_le|intros k; apply takeChow_is_Some].
      split; [assumption|]. intros k.
      rewrite E2, resultKeys_set. pose proof (takeChow_total key groups k Hkey Hav) as Ht.
      unfold setKeys, TileSet.suit, TileSet.value. cbn [TileSet.type TileSet.key]. lia. }
    clear IH'. fold (done_ p r').
    destruct (bool_decide (p = None) && bool_decide (2 ≤ groups !!! key)%nat) eqn:Hpair.
    + apply andb_prop in Hpair as [Hp Hn].
      apply bool_decide_eq_true_1 in Hp, Hn. subst p.
      destruct (Hand._decompose fuel (Hand.take 2 key groups) _ _) as [[] r1] eqn:E1.
      { intros [= <-]. apply Spair; solve [assumption|reflexivity]. }
      apply decompose_false in E1. subst r1. cbn [Hand.pair Hand.sets].
      destruct (bool_decide (3 ≤ groups !!! key)%nat) eqn:H3.
      * apply bool_decide_eq_true_1 in H3.
        destruct (Hand._decompose fuel (Hand.take 3 key groups) _ _) as [[] r2] eqn:E2.
        { intros [= <-]. apply Spung; solve [assumption|reflexivity]. }
        apply decompose_false in E2. subst r2. cbn [Hand.pair Hand.sets].
        rewrite removelast_last.
        destruct (Hand.chowAvailable groups key) eqn:Hav; [|discriminate].
        destruct (Hand._decompose fuel (Hand.takeChow key groups) _ _) as [[] r3] eqn:E3;
          [|discriminate].
        intros [= <-]. apply Schow; solve [assumption|reflexivity].
      * destruct (Hand.chowAvailable groups key) eqn:Hav; [|discriminate].
        destruct (Hand._decompose fuel (Hand.takeChow key groups) _ _) as [[] r3] eqn:E3;
          [|discriminate].
        intros [= <-]. apply Schow; solve [assumption|reflexivity].
    + destruct (bool_decide (3 ≤ groups !!! key)%nat) eqn:H3.
      * apply bool_decide_eq_true_1 in H3.
        destruct (Hand._decompose fuel (Hand.take 3 key groups) _ _) as [[] r2] eqn:E2.
        { intros [= <-]. apply Spung; solve [assumption|reflexivity]. }
        apply decompose_false in E2. subst r2. cbn [Hand.pair Hand.sets].
        rewrite removelast_last.
        destruct (Hand.chowAvailable groups key) eqn:Hav; [|discriminate].
        destruct (Hand._decompose fuel (Hand.takeChow key groups) _ _) as [[] r3] eqn:E3;
          [|discriminate].
        intros [= <-]. apply Schow; solve [assumption|reflexivity].
      * destruct (Hand.chowAvailable groups key) eqn:Hav; [|discriminate].
        destruct (Hand._decompose fuel (Hand.takeChow key groups) _ _) as [[] r3] eqn:E3;
          [|discriminate].
        intros [= <-]. apply Schow; solve [assumption|reflexivity].
Qed.

(** ** The fuel is never used up *)

Lemma tilesAt_skipZero groups ks :
  (tilesAt groups (Hand.skipZero groups ks) <= tilesAt groups ks)%nat.
Proof.
  induction ks as [|k ks IH]; simpl; [lia|].
  destruct (decide (groups !! k = Some 0%nat)); [|reflexivity].
  unfold tilesAt in *. simpl. lia.
Qed.

Lemma tilesAt_le groups groups' ks :
  (forall k, groups' !!! k <= groups !!! k)%nat ->
  (tilesAt groups' ks <= tilesAt groups ks)%nat.
Proof.
  intros H. induction ks as [|k ks IH]; unfold tilesAt in *; simpl; [lia|].
  specialize (H k). lia.
Qed.

Lemma tilesAt_lt groups groups' key rest :
  (forall k, groups' !!! k <= groups !!! k)%nat ->
  (groups' !!! key < groups !!! key)%nat ->
  (tilesAt groups' (key :: rest) < tilesAt groups (key :: rest))%nat.
Proof.
  intros H Hkey. pose proof (tilesAt_le groups groups' rest H).
  unfold tilesAt in *. simpl. lia.
Qed.

Lemma tilesAt_keysInOrder tiles :
  tilesAt (groupByKey tiles) (keysInOrder tiles) = length tiles.
Proof.
  unfold tilesAt.
  assert (forall ks, NoDup ks ->
            sum_list_with (fun k => groupByKey tiles !!! k) ks
            = length (List.filter (fun x => bool_decide (Tile.key x ∈ ks)) tiles)) as H.
  { intros ks. induction 1 as [|k ks Hk Hnd IH]; simpl.
    - induction tiles as [|x tiles IHt]; [reflexivity|]. simpl. exact IHt.
    - rewrite IH, groupByKey_total. clear IH. unfold keyCount, Hand.hasKey.
      induction tiles as [|x tiles IHt]; [reflexivity|]. simpl.
      destruct (decide (Tile.key x = k)) as [e|ne].
      + rewrite (bool_decide_eq_true_2 (Tile.key x = k)) by assumption.
        rewrite (bool_decide_eq_true_2 (Tile.key x ∈ k :: ks)) by (subst k; left).
        rewrite (bool_decide_eq_false_2 (Tile.key x ∈ ks)) by (subst k; assumption).
        simpl. lia.
      + rewrite (bool_decide_eq_false_2 (Tile.key x = k)) by assumption.
        destruct (decide (Tile.key x ∈ ks)) as [i|ni].
        * rewrite (bool_decide_eq_true_2 (Tile.key x ∈ ks)) by assumption.
          rewrite (bool_decide_eq_true_2 (Tile.key x ∈ k :: ks)) by (right; assumption).
          simpl. lia.
        * rewrite (bool_decide_eq_false_2 (Tile.key x ∈ ks)) by assumption.
          rewrite (bool_decide_eq_false_2 (Tile.key x ∈ k :: ks)).
          -- assumption.
          -- intros [?|?]%elem_of_cons; congruence. }
  rewrite H by apply keysInOrder_NoDup.
  f_equal. induction tiles as [|x tiles IHt]; [reflexivity|].
  assert (forall l, (forall y, y ∈ l -> Tile.key y ∈ keysInOrder (x :: tiles)) ->
            List.filter (fun y => bool_decide (Tile.key y ∈ keysInOrder (x :: tiles))) l = l) as Hall.
  { intros l. induction l as [|y l IHl]; intros Hl; [reflexivity|]. simpl.
    rewrite bool_decide_eq_true_2 by (apply Hl; left).
    f_equal. apply IHl. intros z Hz. apply Hl. right. assumption. }
  apply Hall. intros y Hy. apply keysInOrder_elem. apply list_elem_of_fmap. eauto.
Qed.

(** With more fuel than tiles left, [_decompose] does not depend on the
    fuel: the bound of the recursion is never the reason for a [false]. *)
Lemma decompose_fuel f1 : forall f2 groups ks r,
  (forall k, k ∈ ks -> is_Some (groups !! k)) ->
  (tilesAt groups ks < f1)%nat -> (tilesAt groups ks < f2)%nat ->
  Hand._decompose f1 groups ks r = Hand._decompose f2 groups ks r.
Proof.
  induction f1 as [|f1 IH]; intros f2 groups ks r Hdom H1 H2; [lia|].
  destruct f2 as [|f2]; [lia|]. simpl.
  destruct (Hand.skipZero groups ks) as [|key rest] eqn:Hskip; [reflexivity|].
  pose proof (tilesAt_skipZero groups ks) as Hle. rewrite Hskip in Hle.
  assert (forall k, k ∈ key :: rest -> is_Some (groups !! k)) as Hdom'.
  { intros k Hk. rewrite <- Hskip in Hk. apply skipZero_sub in Hk. auto. }
  assert (0 < groups !!! key)%nat as Hkey.
  { destruct (Hdom' key) as [n Hn]; [left|].
    pose proof (skipZero_head _ _ _ _ Hskip) as Hne.
    rewrite lookup_total_alt, Hn. simpl. destruct n; [congruence|lia]. }
  assert (forall groups' r0,
            (forall k, groups' !!! k <= groups !!! k)%nat ->
            (groups' !!! key < groups !!! key)%nat ->
            (forall k, is_Some (groups !! k) -> is_Some (groups' !! k)) ->
            Hand._decompose f1 groups' (key :: rest) r0
            = Hand._decompose f2 groups' (key :: rest) r0) as IH'.
  { intros groups' r0 Hall Hlt Hsome.
    pose proof (tilesAt_lt groups groups' key rest Hall Hlt).
    apply IH; [|lia|lia]. intros k Hk. apply Hsome, Hdom', Hk. }
  clear IH.
  assert (forall n r0, (0 < n <= groups !!! key)%nat ->
            Hand._decompose f1 (Hand.take n key groups) (key :: rest) r0
            = Hand._decompose f2 (Hand.take n key groups) (key :: rest) r0) as Htake.
  { intros n r0 Hn. apply IH'.
    - intros k. apply take_le.
    - rewrite take_total. destruct (decide (key = key)); [lia|congruence].
    - intros k. apply take_is_Some. }
  assert (forall r0,
            Hand._decompose f1 (Hand.takeChow key groups) (key :: rest) r0
            = Hand._decompose f2 (Hand.takeChow key groups) (key :: rest) r0) as Hchow.
  { intros r0. apply IH'.
    - intros k. apply takeChow_le.
    - unfold Hand.takeChow.
      eapply Nat.le_lt_trans; [apply take_le|].
      eapply Nat.le_lt_trans; [apply take_le|].
      rewrite take_total. destruct (decide (key = key)); [lia|congruence].
    - intros k. apply takeChow_is_Some. }
  clear IH'.
  destruct (bool_decide (Hand.pair r = None) && bool_decide (2 ≤ groups !!! key)%nat) eqn:Hpair.
  - apply andb_prop in Hpair as [_ Hn]. apply bool_decide_eq_true_1 in Hn.
    rewrite Htake by lia.
    destruct (Hand._decompose f2 (Hand.take 2 key groups) _ _) as [[] r1]; [reflexivity|].
    destruct (bool_decide (3 ≤ groups !!! key)%nat) eqn:H3.
    + apply bool_decide_eq_true_1 in H3. rewrite Htake by lia.
      destruct (Hand._decompose f2 (Hand.take 3 key groups) _ _) as [[] r2]; [reflexivity|].
      destruct (Hand.chowAvailable groups key); [|reflexivity].
      rewrite Hchow. reflexivity.
    + destruct (Hand.chowAvailable groups key); [|reflexivity].
      rewrite Hchow. reflexivity.
  - destruct (bool_decide (3 ≤ groups !!! key)%nat) eqn:H3.
    + apply bool_decide_eq_true_1 in H3. rewrite Htake by lia.
      destruct (Hand._decompose f2 (Hand.take 3 key groups) _ _) as [[] r2]; [reflexivity|].
      destruct (Hand.chowAvailable groups key); [|reflexivity].
      rewrite Hchow. reflexivity.
    + destruct (Hand.chowAvailable groups key); [|reflexivity].
      rewrite Hchow. reflexivity.
Qed.

Lemma groupByKey_invariants tiles :
  (forall k, (0 < groupByKey tiles !!! k)%nat -> k ∈ keysInOrder tiles)
  /\ (forall k, k ∈ keysInOrder tiles -> is_Some (groupByKey tiles !! k)).
Proof.
  split; intros k Hk.
  - rewrite groupByKey_total in Hk. apply keysInOrder_elem, keyCount_pos, Hk.
  - apply groupByKey_dom, keysInOrder_elem, Hk.
Qed.

Lemma tryRemoveSets_fuel f1 f2 groups ks b :
  (forall k, k ∈ ks -> is_Some (groups !! k)) ->
  (tilesAt groups ks < f1)%nat -> (tilesAt groups ks < f2)%nat ->
  Hand._tryRemoveSets f1 groups ks b = Hand._tryRemoveSets f2 groups ks b.
Proof.
  intros Hdom H1 H2.
  set (r := Hand.mkResult (if b then Some (WAN, 0) else None) []).
  assert (b = bool_decide (Hand.pair r <> None)) as Hb.
  { destruct b; reflexivity. }
  rewrite Hb, <- !decompose_tryRemoveSets. f_equal. apply decompose_fuel; assumption.
Qed.

(** [_checkStandardWin] is the search run without a bound. *)
Lemma checkStandardWin_fuel tiles fuel :
  (length tiles < fuel)%nat ->
  Hand._tryRemoveSets fuel (groupByKey tiles) (keysInOrder tiles) false
  = Hand._checkStandardWin tiles.
Proof.
  intros H. unfold Hand._checkStandardWin. apply tryRemoveSets_fuel.
  - apply groupByKey_invariants.
  - rewrite tilesAt_keysInOrder. assumption.
  - rewrite tilesAt_keysInOrder. lia.
Qed.

Lemma standard_decomposition tiles :
  Hand._checkStandardWin tiles = true ->
  exists p sets,
    Hand._decompose (S (length tiles)) (groupByKey tiles) (keysInOrder tiles)
                    (Hand.mkResult None []) = (true, Hand.mkResult (Some p) sets)
    /\ pairKeys (Some p) ++ flat_map setKeys sets ≡ₚ Tile.key <$> tiles.
Proof.
  intros Hwin. unfold Hand._checkStandardWin in Hwin.
  pose proof (decompose_tryRemoveSets (S (length tiles)) (groupByKey tiles)
                (keysInOrder tiles) (Hand.mkResult None [])) as Heq.
  cbn [Hand.pair] in Heq.
  rewrite bool_decide_eq_false_2 in Heq by (intros H; apply H; reflexivity).
  rewrite Hwin in Heq.
  destruct (Hand._decompose _ _ _ _) as [b r'] eqn:E. cbn [fst] in Heq. subst b.
  destruct (groupByKey_invariants tiles) as [Hpos Hdom].
  destruct (decompose_sound _ _ _ _ _ Hpos Hdom E) as [Hp Hocc].
  destruct r' as [[p|] sets]; [|exfalso; apply Hp; reflexivity].
  exists p, sets. split; [reflexivity|].
  apply (Permutation_count_occ (decide_rel (=))). intros k.
  specialize (Hocc k). unfold occ, resultKeys in Hocc. cbn [Hand.pair Hand.sets pairKeys] in Hocc.
  cbn [pairKeys]. rewrite Hocc. cbn [app flat_map count_occ].
  rewrite groupByKey_total, keyCount_count_occ. reflexivity.
Qed.

(** A hand that [canWin] accepts has a decomposition. *)
Lemma canWin_decomposes (h : Hand.t) :
  Hand.canWin h = true -> exists d, Hand.getWinDecomposition h = Some d.
Proof.
  unfold Hand.canWin, Hand.getWinDecomposition. intros Hwin.
  destruct (_ && Hand._checkSevenPairs _); [eauto|].
  destruct (_ && Hand._checkThirteenOrphans _); [eauto|].
  destruct (Hand._checkStandardWin (Hand.concealed h)) eqn:Hstd; [|discriminate].
  destruct (standard_decomposition _ Hstd) as (p & sets & -> & _). eauto.
Qed.

(** C2.  Whenever [canWin()] is true, [getWinDecomposition()] is not
    [null]; and when it is a standard decomposition, it has a pair, and the
    pair taken twice, the three tiles of every set and the tiles of the
    exposed melds are, as a multiset of tile keys, exactly the tiles of
    the hand (concealed and melded). *)
Theorem win_decomposition_sound (h : Hand.t) :
  Hand.canWin h = true ->
  exists d, Hand.getWinDecomposition h = Some d
    /\ forall pair' sets melds, d = Standard pair' sets melds ->
         is_Some pair' /\ melds = Hand.melds h
         /\ reassemble pair' sets melds ≡ₚ handKeys h.
Proof.
  unfold Hand.canWin, Hand.getWinDecomposition. intros Hwin.
  destruct (bool_decide (length (Hand.melds h) = 0%nat)
            && bool_decide (length (Hand.concealed h) = 14%nat)
            && Hand._checkSevenPairs (Hand.concealed h)) eqn:H7.
  { eexists. split; [reflexivity|]. intros ? ? ? [=]. }
  destruct (bool_decide (length (Hand.melds h) = 0%nat)
            && bool_decide (length (Hand.concealed h) = 14%nat)
            && Hand._checkThirteenOrphans (Hand.concealed h)) eqn:H13.
  { eexists. split; [reflexivity|]. intros ? ? ? [=]. }
  destruct (Hand._checkStandardWin (Hand.concealed h)) eqn:Hstd; [|discriminate].
  destruct (standard_decomposition _ Hstd) as (p & sets & E & Hperm).
  rewrite E. cbn [Hand.pair Hand.sets].
  eexists. split; [reflexivity|]. intros ? ? ? [= <- <- <-].
  split; [eexists; reflexivity|]. split; [reflexivity|].
  unfold reassemble, handKeys, Scoring.allTilesOf.
  rewrite fmap_app, app_assoc. apply Permutation_app; [exact Hperm|].
  clear. induction (Hand.melds h) as [|m ms IH]; [reflexivity|].
  cbn [flat_map]. rewrite fmap_app. unfold meldKeys at 1. rewrite IH. reflexivity.
Qed.

Lemma win_decomposition_sound_witness :
  Hand.canWin chowHand = true
  /\ exists d, Hand.getWinDecomposition chowHand = Some d
       /\ forall pair' sets melds, d = Standard pair' sets melds ->
            is_Some pair' /\ melds = Hand.melds chowHand
            /\ reassemble pair' sets melds ≡ₚ handKeys chowHand.
Proof.
  split; [vm_compute; reflexivity|].
  apply (win_decomposition_sound chowHand). vm_compute. reflexivity.
Defined.

(* ================================================================== *)
(** * Facts used by the scoring theorems *)
(* ================================================================== *)

Lemma sumFan_from (b : Scoring.Breakdown) : forall n,
  foldl (fun s e => (s + snd e)%nat) n b = (n + Scoring.sumFan b)%nat.
Proof.
  unfold Scoring.sumFan. induction b as [|e b IH]; intros n; simpl; [lia|].
  rewrite (IH (n + snd e)%nat), (IH (snd e)). lia.
Qed.

Lemma sumFan_cons e b : Scoring.sumFan (e :: b) = (snd e + Scoring.sumFan b)%nat.
Proof. unfold Scoring.sumFan at 1. simpl. apply sumFan_from. Qed.

Lemma sumFan_app b1 b2 :
  Scoring.sumFan (b1 ++ b2) = (Scoring.sumFan b1 + Scoring.sumFan b2)%nat.
Proof.
  induction b1 as [|e b1 IH]; [reflexivity|].
  simpl. rewrite !sumFan_cons, IH. lia.
Qed.

Lemma sumFan_elem e b : e ∈ b -> (snd e <= Scoring.sumFan b)%nat.
Proof.
  induction 1 as [e b|e e' b _ IH]; rewrite sumFan_cons; lia.
Qed.

(** Key counts depend on the multiset of keys only. *)
Lemma keyCount_perm tiles (l : list Key) k :
  Tile.key <$> tiles ≡ₚ l -> keyCount k tiles = occ k l.
Proof.
  intros H. rewrite keyCount_count_occ.
  apply (Permutation_count_occ (decide_rel (=))). exact H.
Qed.

(** So does the number of distinct keys. *)
Lemma keysInOrder_length tiles (ks : list Key) :
  NoDup ks -> (forall k, k ∈ ks <-> k ∈ (Tile.key <$> tiles)) ->
  length (keysInOrder tiles) = length ks.
Proof.
  intros Hnd Hel. apply Permutation_length, NoDup_Permutation.
  - apply keysInOrder_NoDup.
  - exact Hnd.
  - intros k. rewrite keysInOrder_elem, Hel. reflexivity.
Qed.

Lemma occ_NoDup (ks : list Key) k :
  NoDup ks -> occ k ks = if decide (k ∈ ks) then 1%nat else 0%nat.
Proof.
  induction 1 as [|x ks Hx Hnd IH].
  - rewrite occ_nil. destruct (decide _) as [H|]; [|reflexivity].
    apply elem_of_nil in H. contradiction.
  - rewrite occ_cons, IH. destruct (decide (x = k)) as [->|ne].
    + rewrite decide_False by assumption. rewrite decide_True by left. reflexivity.
    + destruct (decide (k ∈ ks)) as [i|ni].
      * rewrite decide_True by (right; assumption). reflexivity.
      * rewrite decide_False; [reflexivity|].
        intros [?|?]%elem_of_cons; congruence.
Qed.

Lemma countValues_length tiles :
  length (Hand.countValues tiles) = length (keysInOrder tiles).
Proof. unfold Hand.countValues. apply length_fmap. Qed.

(** ** Seven pairs *)

Lemma sevenPairsShape_check tiles :
  sevenPairsShape tiles ->
  length tiles = 14%nat /\ Hand._checkSevenPairs tiles = true.
Proof.
  intros (ks & Hnd & Hlen & Hperm).
  assert (forall k, k ∈ ks <-> k ∈ (Tile.key <$> tiles)) as Hel.
  { intros k. rewrite Hperm, elem_of_app. tauto. }
  split.
  - apply Permutation_length in Hperm.
    rewrite length_fmap, length_app in Hperm. lia.
  - unfold Hand._checkSevenPairs. apply andb_true_intro. split.
    + apply bool_decide_eq_true_2.
      rewrite countValues_length, (keysInOrder_length tiles ks Hnd Hel). exact Hlen.
    + apply forallb_forall. intros v Hv. apply bool_decide_eq_true_2.
      unfold Hand.countValues in Hv. apply list_elem_of_In, list_elem_of_fmap in Hv.
      destruct Hv as (k & -> & Hk).
      rewrite groupByKey_total, (keyCount_perm tiles (ks ++ ks) k Hperm), occ_app.
      rewrite (occ_NoDup ks k Hnd).
      apply keysInOrder_elem, Hel in Hk. rewrite decide_True by assumption. reflexivity.
Qed.

Lemma checkFlush_cases tiles :
  Scoring._checkFlush tiles = []
  \/ Scoring._checkFlush tiles = [(FCleanFlush, 7%nat)]
  \/ Scoring._checkFlush tiles = [(FMixedFlush, 3%nat)].
Proof.
  unfold Scoring._checkFlush. repeat destruct (bool_decide _); auto.
Qed.

Ltac extras :=
  repeat (apply List.Forall_cons;
          [unfold sevenPairsExtras; cbn [fst]; set_solver|]);
  apply List.Forall_nil.

(** C10.  A meld-free concealed hand of seven distinct keys, two tiles
    of each, is given the [seven_pairs] tag by [getWinDecomposition],
    whatever else the tiles could form, and [Scoring.calculate] scores it
    in the seven-pairs branch: the breakdown opens with seven pairs at 4
    fan and holds nothing but all-honours, a flush and self-drawn behind
    it; the total is the maximum when all tiles are honours, and
    otherwise 4 plus the flush fan plus one for a self-drawn win, capped
    at the maximum. *)
Theorem seven_pairs_branch (h : Hand.t) (ctx : Context.t) :
  Hand.melds h = [] ->
  sevenPairsShape (Hand.concealed h) ->
  Hand.getWinDecomposition h = Some (Special seven_pairs (Hand.concealed h))
  /\ exists r, Scoring.calculate h ctx = Some r
       /\ r = Scoring.sevenPairs (Hand.concealed h) ctx
       /\ ScoringResult.totalFan r
          = (if forallb Tile.isHonour (Hand.concealed h) then MAX_FAN
             else Nat.min (4 + Scoring.sumFan (Scoring._checkFlush (Hand.concealed h))
                           + (if Context.selfDrawn ctx then 1 else 0)) MAX_FAN)
       /\ exists rest, ScoringResult.breakdown r = (FSevenPairs, 4%nat) :: rest
            /\ Forall (fun e => fst e ∈ sevenPairsExtras) rest.
Proof.
  intros Hmelds Hshape. apply sevenPairsShape_check in Hshape as [Hlen Hchk].
  assert (Hand.getWinDecomposition h = Some (Special seven_pairs (Hand.concealed h))) as Hd.
  { unfold Hand.getWinDecomposition. rewrite Hmelds, Hlen, Hchk. reflexivity. }
  split; [exact Hd|].
  unfold Scoring.calculate. rewrite Hd. eexists. split; [reflexivity|]. split; [reflexivity|].
  unfold Scoring.sevenPairs.
  destruct (forallb Tile.isHonour (Hand.concealed h)).
  - split; [reflexivity|]. eexists. split; [reflexivity|].
    extras.
  - assert (Forall (fun e : FanName * nat => fst e ∈ sevenPairsExtras)
                   (Scoring._checkFlush (Hand.concealed h))) as Hfl.
    { destruct (checkFlush_cases (Hand.concealed h)) as [->|[->| ->]]; extras. }
    destruct (Context.selfDrawn ctx); cbn [ScoringResult.totalFan ScoringResult.breakdown].
    + split.
      * rewrite sumFan_app. change (Scoring.sumFan [(FSevenPairs, 4%nat)]) with 4%nat. f_equal. lia.
      * eexists. split; [reflexivity|]. apply Forall_app. split; [exact Hfl|].
        extras.
    + split.
      * rewrite sumFan_app. change (Scoring.sumFan [(FSevenPairs, 4%nat)]) with 4%nat. f_equal. lia.
      * eexists. split; [reflexivity|]. exact Hfl.
Qed.

Lemma seven_pairs_branch_witness :
  Hand._checkStandardWin (Hand.concealed pairsHand) = true
  /\ Hand.getWinDecomposition pairsHand = Some (Special seven_pairs (Hand.concealed pairsHand))
  /\ exists r, Scoring.calculate pairsHand discardContext = Some r
       /\ ScoringResult.totalFan r = 11%nat
       /\ ScoringResult.breakdown r = [(FSevenPairs, 4%nat); (FCleanFlush, 7%nat)].
Proof.
  split; [vm_compute; reflexivity|].
  destruct (seven_pairs_branch pairsHand discardContext) as (Hd & r & Hr & -> & _).
  - reflexivity.
  - exists [(WAN,1); (WAN,2); (WAN,3); (WAN,4); (WAN,5); (WAN,6); (WAN,7)].
    split; [|split; [reflexivity|]]; apply (bool_decide_unpack _); vm_compute; exact I.
  - split; [exact Hd|]. eexists. split; [exact Hr|].
    split; vm_compute; reflexivity.
Defined.

(** ** Thirteen orphans *)

Lemma orphansLoop_true counts ks : forall b,
  Forall (fun k => 1 <= counts !!! k)%nat ks ->
  (b = true \/ Exists (fun k => counts !!! k = 2%nat) ks) ->
  Hand.orphansLoop counts ks b = true.
Proof.
  induction ks as [|k ks IH]; intros b Hall Hpair; simpl.
  - destruct Hpair as [?|H]; [assumption|inversion H].
  - inversion Hall as [|? ? Hk Hall']; subst.
    rewrite bool_decide_eq_false_2 by lia.
    apply IH; [assumption|].
    destruct (bool_decide (counts !!! k = 2%nat)) eqn:E; [left; reflexivity|].
    apply bool_decide_eq_false_1 in E.
    destruct Hpair as [?|H]; [left; assumption|].
    inversion H; subst; [contradiction|right; assumption].
Qed.

Lemma orphansLoop_all counts ks : forall b,
  Hand.orphansLoop counts ks b = true ->
  Forall (fun k => 1 <= counts !!! k)%nat ks.
Proof.
  induction ks as [|k ks IH]; intros b H; simpl in H; [constructor|].
  destruct (bool_decide (counts !!! k < 1)%nat) eqn:E; [discriminate|].
  apply bool_decide_eq_false_1 in E. constructor; [lia|]. eapply IH, H.
Qed.

Lemma required_NoDup : NoDup Hand.required.
Proof. compute_done. Qed.

Lemma thirteenOrphans_check tiles :
  thirteenOrphansShape tiles ->
  length tiles = 14%nat
  /\ Hand._checkSevenPairs tiles = false
  /\ Hand._checkThirteenOrphans tiles = true.
Proof.
  intros (k0 & Hk0 & Hperm).
  assert (forall k, k ∈ Hand.required <-> k ∈ (Tile.key <$> tiles)) as Hel.
  { intros k. rewrite Hperm, elem_of_cons. split; [auto|]. intros [->|?]; assumption. }
  assert (forall k, groupByKey tiles !!! k
                    = ((if decide (k0 = k) then 1 else 0)
                       + (if decide (k ∈ Hand.required) then 1 else 0))%nat) as Hcount.
  { intros k. rewrite groupByKey_total, (keyCount_perm tiles _ k Hperm), occ_cons.
    rewrite (occ_NoDup _ k required_NoDup). reflexivity. }
  split; [|split].
  - apply Permutation_length in Hperm. rewrite length_fmap in Hperm. exact Hperm.
  - unfold Hand._checkSevenPairs.
    rewrite countValues_length, (keysInOrder_length tiles _ required_NoDup Hel).
    reflexivity.
  - unfold Hand._checkThirteenOrphans. apply orphansLoop_true.
    + apply Forall_forall. intros k Hk. rewrite Hcount.
      rewrite (decide_True (P := k ∈ Hand.required)) by (apply list_elem_of_In; exact Hk). lia.
    + right. apply Exists_exists. exists k0. split; [apply list_elem_of_In; exact Hk0|].
      rewrite Hcount. rewrite decide_True by reflexivity.
      rewrite decide_True by assumption. reflexivity.
Qed.

Lemma thirteen_orphans_max h ctx :
  Hand.melds h = [] -> thirteenOrphansShape (Hand.concealed h) ->
  Scoring.calculate h ctx = Some (ScoringResult.mk MAX_FAN [(FThirteenOrphans, MAX_FAN)]).
Proof.
  intros Hmelds Hshape. apply thirteenOrphans_check in Hshape as (Hlen & H7 & H13).
  unfold Scoring.calculate, Hand.getWinDecomposition.
  rewrite Hmelds, Hlen, H7, H13. reflexivity.
Qed.

(** ** The cap *)

Lemma sevenPairs_bound tiles ctx :
  (ScoringResult.totalFan (Scoring.sevenPairs tiles ctx) <= MAX_FAN)%nat.
Proof.
  unfold Scoring.sevenPairs.
  destruct (forallb _ _); [reflexivity|].
  destruct (Context.selfDrawn ctx); apply Nat.le_min_r.
Qed.

Lemma standard_bound h ctx p sets r :
  Scoring.standard h ctx p sets = Some r -> (ScoringResult.totalFan r <= MAX_FAN)%nat.
Proof.
  unfold Scoring.standard. destruct (Scoring.allSetsOf sets h) as [allSets|]; [|discriminate].
  cbn [mbind option_bind].
  destruct (forallb _ _); [intros [= <-]; reflexivity|].
  destruct (Scoring.nineGates _ _); [intros [= <-]; reflexivity|].
  intros [= <-]. apply Nat.le_min_r.
Qed.

Lemma calculate_bound h ctx r :
  Scoring.calculate h ctx = Some r -> (ScoringResult.totalFan r <= MAX_FAN)%nat.
Proof.
  unfold Scoring.calculate.
  destruct (Hand.getWinDecomposition h) as [[[] tiles|p sets melds]|].
  - intros [= <-]. apply sevenPairs_bound.
  - intros [= <-]. reflexivity.
  - apply standard_bound.
  - intros [= <-]. unfold MAX_FAN. cbn. lia.
Qed.

Lemma allSetsOf_wf sets h :
  wellFormedMelds h -> is_Some (Scoring.allSetsOf sets h).
Proof.
  intros Hwf. unfold Scoring.allSetsOf.
  assert (is_Some (mapM Scoring.setOfMeld (Hand.melds h))) as [melded ->].
  { apply mapM_is_Some. eapply List.Forall_impl; [|exact Hwf].
    intros m Hm. cbv beta in Hm. unfold compose, Scoring.setOfMeld.
    destruct (Meld.tiles m) as [|t0 ?]; [exfalso; apply Hm; reflexivity|].
    eexists. reflexivity. }
  eexists. reflexivity.
Qed.

Lemma calculate_total h ctx :
  wellFormedMelds h -> is_Some (Scoring.calculate h ctx).
Proof.
  intros Hwf. unfold Scoring.calculate.
  destruct (Hand.getWinDecomposition h) as [[[] tiles|p sets melds]|];
    try (eexists; reflexivity).
  unfold Scoring.standard. destruct (allSetsOf_wf sets h Hwf) as [allSets ->].
  cbn [mbind option_bind].
  destruct (forallb _ _); [eexists; reflexivity|].
  destruct (Scoring.nineGates _ _); eexists; reflexivity.
Qed.

(** ** The limit hands of the standard analysis *)

(** A 13-fan entry in the accumulated breakdown caps the total. *)
Lemma standard_limit_entry h ctx p sets allSets name :
  Scoring.allSetsOf sets h = Some allSets ->
  (name, MAX_FAN) ∈ Scoring.accumulate h ctx p allSets (Scoring.allTilesOf h) ->
  ScoringResult.totalFan <$> Scoring.standard h ctx p sets = Some MAX_FAN.
Proof.
  intros Hsets Hin. unfold Scoring.standard. rewrite Hsets. cbn [mbind option_bind].
  destruct (forallb _ _); [reflexivity|].
  destruct (Scoring.nineGates _ _); [reflexivity|].
  cbn [fmap option_fmap option_map ScoringResult.totalFan]. f_equal.
  apply sumFan_elem in Hin. cbn [snd] in Hin. apply Nat.min_r. exact Hin.
Qed.

Lemma eight_bonus_standard h ctx p sets :
  wellFormedMelds h -> eightBonus h ->
  ScoringResult.totalFan <$> Scoring.standard h ctx p sets = Some MAX_FAN.
Proof.
  intros Hwf H8. destruct (allSetsOf_wf sets h Hwf) as [allSets Hsets].
  apply (standard_limit_entry h ctx p sets allSets FEightBonus Hsets).
  unfold Scoring.accumulate, Scoring._checkFlowers. rewrite H8.
  rewrite (bool_decide_eq_true_2 (8%nat = 8%nat)) by reflexivity.
  rewrite !elem_of_app. do 14 right. do 4 right. left.
Qed.

Lemma seven_pairs_inv h tiles :
  Hand.getWinDecomposition h = Some (Special seven_pairs tiles) ->
  tiles = Hand.concealed h /\ Hand.melds h = []
  /\ Hand._checkSevenPairs (Hand.concealed h) = true.
Proof.
  unfold Hand.getWinDecomposition.
  destruct (bool_decide (length (Hand.melds h) = 0%nat)) eqn:Hm; cbn [andb].
  - apply bool_decide_eq_true_1 in Hm.
    destruct (bool_decide (length (Hand.concealed h) = 14%nat)); cbn [andb].
    + destruct (Hand._checkSevenPairs (Hand.concealed h)).
      * intros [= <-]. split; [reflexivity|]. split; [|reflexivity].
        destruct (Hand.melds h); [reflexivity|discriminate].
      * destruct (Hand._checkThirteenOrphans _); [discriminate|].
        destruct (Hand._decompose _ _ _ _) as [[] ?]; discriminate.
    + destruct (Hand._decompose _ _ _ _) as [[] ?]; discriminate.
  - destruct (Hand._decompose _ _ _ _) as [[] ?]; discriminate.
Qed.

(** The test of the code and the shape say the same. *)
Lemma checkSevenPairs_shape tiles :
  Hand._checkSevenPairs tiles = true -> sevenPairsShape tiles.
Proof.
  unfold Hand._checkSevenPairs. intros [Hlen Hall]%andb_prop.
  apply bool_decide_eq_true_1 in Hlen. rewrite countValues_length in Hlen.
  exists (keysInOrder tiles). split; [apply keysInOrder_NoDup|]. split; [exact Hlen|].
  apply (Permutation_count_occ (decide_rel (=))). intros k.
  rewrite <- keyCount_count_occ, <- groupByKey_total.
  change (count_occ (decide_rel eq) (keysInOrder tiles ++ keysInOrder tiles) k)
    with (occ k (keysInOrder tiles ++ keysInOrder tiles)).
  rewrite occ_app, (occ_NoDup _ k (keysInOrder_NoDup tiles)).
  destruct (decide (k ∈ keysInOrder tiles)) as [Hin|Hnin].
  - rewrite forallb_forall in Hall.
    specialize (Hall (groupByKey tiles !!! k)).
    apply bool_decide_eq_true_1 in Hall; [exact Hall|].
    unfold Hand.countValues. apply list_elem_of_In, list_elem_of_fmap. eauto.
  - rewrite groupByKey_total.
    destruct (decide (0 < keyCount k tiles)%nat) as [Hpos|]; [|lia].
    exfalso. apply Hnin, keysInOrder_elem, keyCount_pos, Hpos.
Qed.

Lemma allHonours_concealed h :
  allHonours h -> forallb Tile.isHonour (Hand.concealed h) = true.
Proof.
  unfold allHonours, Scoring.allTilesOf. intros [H _]%Forall_app.
  apply forallb_forall. intros x Hx. rewrite Forall_forall in H. apply H, Hx.
Qed.

Lemma all_honours_max h ctx :
  wellFormedMelds h -> Hand.canWin h = true -> allHonours h ->
  ScoringResult.totalFan <$> Scoring.calculate h ctx = Some MAX_FAN.
Proof.
  intros Hwf Hwin Hall.
  destruct (canWin_decomposes h Hwin) as [d Hd].
  unfold Scoring.calculate. rewrite Hd.
  destruct d as [[] tiles|p sets melds].
  - apply seven_pairs_inv in Hd as (-> & _ & _).
    unfold Scoring.sevenPairs. rewrite (allHonours_concealed h Hall). reflexivity.
  - reflexivity.
  - unfold Scoring.standard. destruct (allSetsOf_wf sets h Hwf) as [allSets ->].
    cbn [mbind option_bind].
    assert (forallb Tile.isHonour (Scoring.allTilesOf h) = true) as ->; [|reflexivity].
    apply forallb_forall. intros x Hx. unfold allHonours in Hall.
    rewrite Forall_forall in Hall. apply Hall, Hx.
Qed.

Lemma eight_bonus_max h ctx :
  wellFormedMelds h -> Hand.canWin h = true -> eightBonus h ->
  ~ (Hand.melds h = [] /\ sevenPairsShape (Hand.concealed h)) ->
  ScoringResult.totalFan <$> Scoring.calculate h ctx = Some MAX_FAN.
Proof.
  intros Hwf Hwin H8 Hn7.
  destruct (canWin_decomposes h Hwin) as [d Hd].
  unfold Scoring.calculate. rewrite Hd.
  destruct d as [[] tiles|p sets melds].
  - exfalso. apply seven_pairs_inv in Hd as (_ & Hm & Hc).
    apply Hn7. split; [exact Hm|]. apply checkSevenPairs_shape, Hc.
  - reflexivity.
  - apply eight_bonus_standard; assumption.
Qed.

(** ** Nine gates *)

Lemma remove_dups_constant (s : SUITS) (l : list SUITS) :
  l <> [] -> Forall (fun x => x = s) l -> remove_dups l = [s].
Proof.
  induction l as [|x l IH]; [congruence|]. intros _ Hall.
  inversion Hall as [|? ? Hx Hl]; subst. simpl.
  destruct l as [|y l].
  - destruct (decide_rel elem_of s []) as [H|_]; [|reflexivity].
    apply elem_of_nil in H. contradiction.
  - destruct (decide_rel elem_of s (y :: l)) as [_|H].
    + apply IH; [discriminate|assumption].
    + exfalso. apply H. inversion Hl; subst. left.
Qed.

Lemma countValue_keyCount s tiles v :
  Forall (fun x => Tile.suit x = s) tiles ->
  Scoring.countValue tiles v = keyCount (s, v) tiles.
Proof.
  unfold Scoring.countValue, keyCount, Hand.hasKey, Tile.key.
  induction 1 as [|x tiles Hx _ IH]; [reflexivity|]. simpl.
  destruct (decide (Tile.value x = v)) as [e|ne].
  - rewrite bool_decide_eq_true_2 by assumption.
    rewrite bool_decide_eq_true_2 by congruence. simpl. f_equal. exact IH.
  - rewrite bool_decide_eq_false_2 by assumption.
    rewrite bool_decide_eq_false_2 by congruence. exact IH.
Qed.

Lemma nine_gates_max h ctx :
  Hand.canWin h = true -> nineGatesShape h ->
  ScoringResult.totalFan <$> Scoring.calculate h ctx = Some MAX_FAN.
Proof.
  intros Hwin (Hmelds & (s & Hs & Hsuit) & H1 & H9 & Hmid).
  assert (exists x rest, Hand.concealed h = x :: rest) as (x0 & rest & Hcons).
  { destruct (Hand.concealed h) as [|x rest]; [|eauto].
    unfold Scoring.countValue in H1. simpl in H1. lia. }
  assert (Tile.suit x0 = s) as Hx0.
  { rewrite Hcons in Hsuit. inversion Hsuit; assumption. }
  destruct (canWin_decomposes h Hwin) as [d Hd].
  unfold Scoring.calculate. rewrite Hd.
  destruct d as [[] tiles|p sets melds].
  - exfalso. apply seven_pairs_inv in Hd as (_ & _ & Hc).
    unfold Hand._checkSevenPairs in Hc. apply andb_prop in Hc as [_ Hall].
    rewrite forallb_forall in Hall.
    specialize (Hall (groupByKey (Hand.concealed h) !!! (s, 1))).
    rewrite (countValue_keyCount s _ _ Hsuit), <- groupByKey_total in H1.
    assert (In (groupByKey (Hand.concealed h) !!! (s, 1))
               (Hand.countValues (Hand.concealed h))) as Hin.
    { unfold Hand.countValues. apply list_elem_of_In, list_elem_of_fmap.
      exists (s, 1). split; [reflexivity|].
      apply keysInOrder_elem, keyCount_pos. rewrite <- groupByKey_total. lia. }
    apply Hall, bool_decide_eq_true_1 in Hin. lia.
  - reflexivity.
  - unfold Scoring.standard, Scoring.allSetsOf. rewrite Hmelds.
    cbn [mapM mbind option_bind mret option_ret].
    unfold Scoring.allTilesOf. rewrite Hmelds. cbn [flat_map]. rewrite app_nil_r.
    assert (forallb Tile.isHonour (Hand.concealed h) = false) as ->.
    { rewrite Hcons. cbn [forallb]. unfold Tile.isHonour, Tile.isWind, Tile.isDragon.
      rewrite Hx0. destruct s; try discriminate Hs; reflexivity. }
    assert (Scoring.nineGates h (Hand.concealed h) = true) as ->; [|reflexivity].
    unfold Scoring.nineGates. rewrite Hmelds.
    unfold Scoring.suitCount.
    rewrite (remove_dups_constant s).
    + rewrite Hcons at 1. cbn [head]. unfold Tile.isNumberSuit. rewrite Hx0, Hs.
      rewrite !bool_decide_eq_true_2 by (reflexivity || assumption).
      cbn [andb]. apply forallb_forall. intros v Hv.
      apply bool_decide_eq_true_2. rewrite Forall_forall in Hmid. apply Hmid, Hv.
    + rewrite Hcons. discriminate.
    + apply Forall_fmap. exact Hsuit.
Qed.

(** ** Big four winds *)

(** Every set [_decompose] pushes is a pung, or a chow of a number suit
    that starts at a value up to 7. *)
Lemma decompose_valid fuel : forall groups ks r r',
  Forall validSet (Hand.sets r) ->
  Hand._decompose fuel groups ks r = (true, r') ->
  Forall validSet (Hand.sets r').
Proof.
  induction fuel as [|fuel IH]; intros groups ks r r' Hv; simpl; [discriminate|].
  destruct (Hand.skipZero groups ks) as [|key rest] eqn:Hskip.
  { intros [= _ <-]. exact Hv. }
  destruct r as [p sets]. cbn [Hand.pair Hand.sets] in *.
  assert (Forall validSet (sets ++ [TileSet.mk PUNG key false])) as Hpung.
  { apply Forall_app. split; [exact Hv|]. constructor; [|constructor]. left. reflexivity. }
  assert (Hand.chowAvailable groups key = true ->
          Forall validSet (sets ++ [TileSet.mk CHOW key false])) as Hchow.
  { intros Hav. apply Forall_app. split; [exact Hv|]. constructor; [|constructor].
    unfold Hand.chowAvailable in Hav.
    repeat (apply andb_prop in Hav as [Hav ?]).
    right. split; [reflexivity|]. split; [exact Hav|].
    unfold TileSet.value. cbn [TileSet.key].
    match goal with H : bool_decide (snd key <= 7) = true |- _ =>
      apply bool_decide_eq_true_1 in H; exact H end. }
  assert (forall g q r1, Hand._decompose fuel g (key :: rest)
                            (Hand.mkResult q sets) = (true, r1) ->
                         Forall validSet (Hand.sets r1)) as Spair.
  { intros g q r1 E. eapply IH; [|exact E]. exact Hv. }
  assert (forall g q r1, Hand._decompose fuel g (key :: rest)
                            (Hand.mkResult q (sets ++ [TileSet.mk PUNG key false])) = (true, r1) ->
                         Forall validSet (Hand.sets r1)) as Spung.
  { intros g q r1 E. eapply IH; [|exact E]. exact Hpung. }
  assert (forall g q r1, Hand.chowAvailable groups key = true ->
                         Hand._decompose fuel g (key :: rest)
                            (Hand.mkResult q (sets ++ [TileSet.mk CHOW key false])) = (true, r1) ->
                         Forall validSet (Hand.sets r1)) as Schow.
  { intros g q r1 Hav E. eapply IH; [|exact E]. exact (Hchow Hav). }
  clear IH.
  destruct (bool_decide (p = None) && bool_decide (2 ≤ groups !!! key)%nat) eqn:Hpair.
  - destruct (Hand._decompose fuel (Hand.take 2 key groups) _ _) as [[] r1] eqn:E1.
    { intros [= <-]. eapply Spair, E1. }
    apply decompose_false in E1. subst r1. cbn [Hand.pair Hand.sets].
    destruct (bool_decide (3 ≤ groups !!! key)%nat) eqn:H3.
    + destruct (Hand._decompose fuel (Hand.take 3 key groups) _ _) as [[] r2] eqn:E2.
      { intros [= <-]. eapply Spung, E2. }
      apply decompose_false in E2. subst r2. cbn [Hand.pair Hand.sets].
      rewrite removelast_last.
      destruct (Hand.chowAvailable groups key) eqn:Hav; [|discriminate].
      destruct (Hand._decompose fuel (Hand.takeChow key groups) _ _) as [[] r3] eqn:E3;
        [|discriminate].
      intros [= <-]. eapply Schow, E3. reflexivity.
    + destruct (Hand.chowAvailable groups key) eqn:Hav; [|discriminate].
      destruct (Hand._decompose fuel (Hand.takeChow key groups) _ _) as [[] r3] eqn:E3;
        [|discriminate].
      intros [= <-]. eapply Schow, E3. reflexivity.
  - destruct (bool_decide (3 ≤ groups !!! key)%nat) eqn:H3.
    + destruct (Hand._decompose fuel (Hand.take 3 key groups) _ _) as [[] r2] eqn:E2.
      { intros [= <-]. eapply Spung, E2. }
      apply decompose_false in E2. subst r2. cbn [Hand.pair Hand.sets].
      rewrite removelast_last.
      destruct (Hand.chowAvailable groups key) eqn:Hav; [|discriminate].
      destruct (Hand._decompose fuel (Hand.takeChow key groups) _ _) as [[] r3] eqn:E3;
        [|discriminate].
      intros [= <-]. eapply Schow, E3. reflexivity.
    + destruct (Hand.chowAvailable groups key) eqn:Hav; [|discriminate].
      destruct (Hand._decompose fuel (Hand.takeChow key groups) _ _) as [[] r3] eqn:E3;
        [|discriminate].
      intros [= <-]. eapply Schow, E3. reflexivity.
Qed.

(** What a standard decomposition of [getWinDecomposition] is made of:
    valid sets and a pair that use up the concealed tiles, and the melds
    of the hand. *)
Lemma standard_inv h p sets melds :
  Hand.getWinDecomposition h = Some (Standard p sets melds) ->
  melds = Hand.melds h /\ Forall validSet sets
  /\ exists q, p = Some q
       /\ forall k, occ k (pairKeys (Some q) ++ flat_map setKeys sets)
                    = keyCount k (Hand.concealed h).
Proof.
  unfold Hand.getWinDecomposition.
  destruct (_ && Hand._checkSevenPairs _); [discriminate|].
  destruct (_ && Hand._checkThirteenOrphans _); [discriminate|].
  destruct (Hand._decompose _ _ _ _) as [[] r'] eqn:E; [|discriminate].
  intros [= <- <- <-]. split; [reflexivity|].
  split; [eapply decompose_valid; [|exact E]; constructor|].
  destruct (groupByKey_invariants (Hand.concealed h)) as [Hpos Hdom].
  destruct (decompose_sound _ _ _ _ _ Hpos Hdom E) as [Hp Hocc].
  destruct r' as [[q|] sets]; [|exfalso; apply Hp; reflexivity].
  exists q. split; [reflexivity|]. intros k.
  specialize (Hocc k). unfold resultKeys in Hocc.
  cbn [Hand.pair Hand.sets pairKeys app flat_map] in Hocc.
  rewrite occ_nil, groupByKey_total in Hocc. exact Hocc.
Qed.

(** A wind is never part of a chow, so the sets use the tiles of a wind
    three at a time. *)
Lemma occ_wind_sets v sets :
  Forall validSet sets ->
  occ (WIND, v) (flat_map setKeys sets) = (3 * length (pungsAt (WIND, v) sets))%nat.
Proof.
  induction 1 as [|s sets Hs _ IH]; [reflexivity|].
  cbn [flat_map]. rewrite occ_app, IH. unfold pungsAt. cbn [List.filter].
  unfold setKeys, TileSet.suit, TileSet.value.
  destruct s as [ty [su va] ex]. cbn [TileSet.type TileSet.key fst snd].
  unfold validSet, TileSet.suit in Hs. cbn [TileSet.type TileSet.key fst] in Hs.
  destruct Hs as [Hs|(Hs & Hnum & _)]; subst ty.
  - rewrite !occ_cons, occ_nil. cbn [negb bool_decide decide_rel].
    rewrite (bool_decide_eq_false_2 (PUNG = CHOW)) by discriminate.
    cbn [negb]. rewrite andb_true_r.
    destruct (decide ((su, va) = (WIND, v))) as [e|ne].
    + rewrite (bool_decide_eq_true_2 _ e). cbn [length]. lia.
    + rewrite (bool_decide_eq_false_2 _ ne). lia.
  - rewrite (bool_decide_eq_true_2 (CHOW = CHOW)) by reflexivity.
    cbn [negb]. rewrite andb_false_r.
    rewrite !occ_cons, occ_nil.
    repeat (destruct (decide _) as [e|_];
            [injection e as -> _; discriminate Hnum|]).
    lia.
Qed.

(** The wind pungs counted by key. *)
Lemma occ_wind_pungs k sets :
  occ k (TileSet.key <$> List.filter
           (fun s => bool_decide (TileSet.suit s = WIND)
                     && negb (bool_decide (TileSet.type s = CHOW))) sets)
  = if decide (fst k = WIND) then length (pungsAt k sets) else 0%nat.
Proof.
  unfold pungsAt, TileSet.suit.
  induction sets as [|s sets IH]; [destruct (decide _); reflexivity|].
  cbn [List.filter].
  destruct (bool_decide (TileSet.type s = CHOW)); cbn [negb];
    rewrite ?andb_false_r, ?andb_true_r; [exact IH|].
  repeat case_bool_decide; cbn [fmap list_fmap length];
    fold (fmap (M := list) TileSet.key); rewrite ?occ_cons, IH;
    repeat case_decide; simplify_eq; try reflexivity; congruence.
Qed.

Lemma occ_triplets k ws :
  occ k (flat_map (fun v => replicate 3 (WIND, v)) ws)
  = (3 * occ k ((fun v => (WIND, v)) <$> ws))%nat.
Proof.
  induction ws as [|v ws IH]; [reflexivity|].
  change (occ k (replicate 3 (WIND, v) ++ flat_map (fun v => replicate 3 (WIND, v)) ws)
          = (3 * occ k ((WIND, v) :: ((fun v => (WIND, v)) <$> ws)))%nat).
  rewrite occ_app, IH. cbn [replicate]. rewrite !occ_cons, occ_nil.
  destruct (decide _); lia.
Qed.

Lemma occ_winds_other k ws :
  fst k <> WIND -> occ k ((fun v => (WIND, v)) <$> ws) = 0%nat.
Proof.
  intros Hk. induction ws as [|v ws IH]; [reflexivity|].
  rewrite fmap_cons, occ_cons, IH.
  destruct (decide _) as [e|_]; [|reflexivity].
  exfalso. apply Hk. rewrite <- e. reflexivity.
Qed.

Lemma occ_winds_elem v ws :
  v ∈ ws -> (0 < occ (WIND, v) ((fun v => (WIND, v)) <$> ws))%nat.
Proof.
  induction 1 as [v ws|v w ws _ IH]; rewrite fmap_cons, occ_cons.
  - rewrite decide_True by reflexivity. lia.
  - lia.
Qed.

(** The concealed part of a big-four-winds hand decomposes into one wind
    pung for each of its concealed triplets. *)
Lemma concealed_wind_pungs tiles p q ws sets :
  Tile.key <$> tiles ≡ₚ [p; p] ++ flat_map (fun v => replicate 3 (WIND, v)) ws ->
  Forall validSet sets ->
  (forall k, occ k (pairKeys (Some q) ++ flat_map setKeys sets) = keyCount k tiles) ->
  Scoring.pungCount WIND sets = length ws.
Proof.
  intros Hperm Hvalid Hocc. unfold Scoring.pungCount.
  rewrite <- (length_fmap TileSet.key), <- (length_fmap (fun v => (WIND, v)) ws).
  apply Permutation_length, (Permutation_count_occ (decide_rel (=))). intros k.
  change (occ k (TileSet.key <$> List.filter
            (fun s => bool_decide (TileSet.suit s = WIND)
                      && negb (bool_decide (TileSet.type s = CHOW))) sets)
          = occ k ((fun v => (WIND, v)) <$> ws)).
  rewrite occ_wind_pungs.
  destruct (decide (fst k = WIND)) as [e|ne]; [|rewrite occ_winds_other; auto].
  destruct k as [s v]. cbn [fst] in e. subst s.
  specialize (Hocc (WIND, v)).
  rewrite (keyCount_perm _ _ _ Hperm), !occ_app, occ_wind_sets, occ_triplets in Hocc
    by exact Hvalid.
  cbn [pairKeys] in Hocc. rewrite !occ_cons, !occ_nil in Hocc.
  destruct (decide (q = (WIND, v))), (decide (p = (WIND, v))); lia.
Qed.

(** Each meld of a big-four-winds hand is counted as a wind pung. *)
Lemma melded_wind_pungs ms melds :
  Forall2 windPung ms melds ->
  exists melded, mapM Scoring.setOfMeld melds = Some melded
    /\ Scoring.pungCount WIND melded = length ms.
Proof.
  induction 1 as [|v m ms melds (Hty & Hne & Hall) _ (melded & Hm & Hcount)].
  - exists []. split; reflexivity.
  - destruct (Meld.tiles m) as [|t0 rest] eqn:Ht; [congruence|].
    inversion Hall as [|? ? Hk _]; subst.
    exists (TileSet.mk PUNG (Tile.key t0) true :: melded). split.
    + apply mapM_Some. constructor; [|apply mapM_Some, Hm].
      unfold Scoring.setOfMeld. rewrite Ht. cbn [head mbind option_bind].
      rewrite decide_False by exact Hty. reflexivity.
    + unfold Scoring.pungCount in *. cbn [List.filter]. unfold TileSet.suit at 1.
      cbn [TileSet.key TileSet.type]. rewrite Hk. cbn [fst].
      rewrite (bool_decide_eq_true_2 (WIND = WIND)) by reflexivity.
      rewrite (bool_decide_eq_false_2 (PUNG = CHOW)) by discriminate.
      cbn [andb negb length]. rewrite Hcount. reflexivity.
Qed.

Lemma pungCount_app suit l1 l2 :
  Scoring.pungCount suit (l1 ++ l2)
  = (Scoring.pungCount suit l1 + Scoring.pungCount suit l2)%nat.
Proof. unfold Scoring.pungCount. rewrite List.filter_app, length_app. reflexivity. Qed.

(** A seven-pairs hand holds no key three times. *)
Lemma sevenPairsShape_count tiles k :
  sevenPairsShape tiles -> (keyCount k tiles <= 2)%nat.
Proof.
  intros (ks & Hnd & _ & Hperm).
  rewrite (keyCount_perm _ _ _ Hperm), occ_app, (occ_NoDup _ _ Hnd).
  destruct (decide _); lia.
Qed.

Lemma big_four_winds_max h ctx :
  Hand.canWin h = true -> bigFourWindsShape h ->
  ScoringResult.totalFan <$> Scoring.calculate h ctx = Some MAX_FAN.
Proof.
  intros Hwin (p & ws & ms & Hfour & Hperm & Hmelds).
  destruct (canWin_decomposes h Hwin) as [d Hd].
  unfold Scoring.calculate. rewrite Hd.
  destruct d as [[] tiles|q sets melds].
  - exfalso. apply seven_pairs_inv in Hd as (_ & Hm & Hc).
    rewrite Hm in Hmelds. inversion Hmelds; subst. rewrite app_nil_r in Hfour.
    apply checkSevenPairs_shape in Hc.
    pose proof (sevenPairsShape_count _ (WIND, 1) Hc) as Hle.
    rewrite (keyCount_perm _ _ _ Hperm), occ_app, occ_triplets in Hle.
    assert (0 < occ (WIND, 1%Z) ((fun v => (WIND, v)) <$> ws))%nat as Hpos.
    { apply occ_winds_elem. rewrite Hfour. left. }
    lia.
  - reflexivity.
  - apply standard_inv in Hd as (_ & Hvalid & q' & -> & Hocc).
    destruct (melded_wind_pungs _ _ Hmelds) as (melded & Hm & Hcount).
    apply (standard_limit_entry h ctx (Some q') sets (sets ++ melded) FBigFourWinds).
    { unfold Scoring.allSetsOf. rewrite Hm. reflexivity. }
    assert (Scoring.pungCount WIND (sets ++ melded) = 4%nat) as H4.
    { rewrite pungCount_app, (concealed_wind_pungs _ _ _ _ _ Hperm Hvalid Hocc), Hcount.
      rewrite <- length_app, (Permutation_length Hfour). reflexivity. }
    unfold Scoring.accumulate. rewrite H4.
    rewrite (bool_decide_eq_true_2 (4%nat = 4%nat)) by reflexivity.
    rewrite !elem_of_app. do 13 right. left. left.
Qed.

(** C3, amended.  [Scoring.calculate] never returns more than 13 fan, and
    returns a result for every hand whose melds hold tiles.  For a
    winning hand it returns exactly 13 when the hand is thirteen orphans,
    all honours, big four winds or nine gates, each told by its tiles,
    and when it holds all eight bonus tiles and is not a seven-pairs hand
    (the seven-pairs branch returns before the bonus tiles are looked
    at). *)
Theorem calculate_cap (h : Hand.t) (ctx : Context.t) :
  (forall r, Scoring.calculate h ctx = Some r -> (ScoringResult.totalFan r <= MAX_FAN)%nat)
  /\ (wellFormedMelds h ->
      exists r, Scoring.calculate h ctx = Some r
        /\ (ScoringResult.totalFan r <= MAX_FAN)%nat
        /\ (Hand.canWin h = true ->
            (Hand.melds h = [] /\ thirteenOrphansShape (Hand.concealed h))
            \/ allHonours h \/ bigFourWindsShape h \/ nineGatesShape h
            \/ (eightBonus h /\ ~ (Hand.melds h = [] /\ sevenPairsShape (Hand.concealed h))) ->
            ScoringResult.totalFan r = MAX_FAN)).
Proof.
  split; [intros r; apply calculate_bound|].
  intros Hwf. destruct (calculate_total h ctx Hwf) as [r Hr].
  exists r. split; [exact Hr|]. split; [apply (calculate_bound h ctx r Hr)|].
  intros Hwin Hshape.
  assert (ScoringResult.totalFan <$> Scoring.calculate h ctx = Some MAX_FAN) as Hmax.
  { destruct Hshape as [[Hm H13]|[Hall|[H4|[H9|[H8 Hn7]]]]].
    - rewrite (thirteen_orphans_max h ctx Hm H13). reflexivity.
    - apply all_honours_max; assumption.
    - apply big_four_winds_max; assumption.
    - apply nine_gates_max; assumption.
    - apply eight_bonus_max; assumption. }
  rewrite Hr in Hmax. injection Hmax as Hmax. exact Hmax.
Qed.

Lemma calculate_cap_witness :
  wellFormedMelds fourWindsHand /\ Hand.canWin fourWindsHand = true
  /\ bigFourWindsShape fourWindsHand
  /\ exists r, Scoring.calculate fourWindsHand discardContext = Some r
       /\ ScoringResult.totalFan r = MAX_FAN.
Proof.
  assert (wellFormedMelds fourWindsHand) as Hwf by (repeat constructor; discriminate).
  assert (Hand.canWin fourWindsHand = true) as Hwin by (vm_compute; reflexivity).
  assert (bigFourWindsShape fourWindsHand) as H4.
  { exists (WAN, 5), [1; 2; 3], [4]. split; [reflexivity|]. split.
    - reflexivity.
    - repeat constructor; discriminate. }
  split; [exact Hwf|]. split; [exact Hwin|]. split; [exact H4|].
  destruct (proj2 (calculate_cap fourWindsHand discardContext) Hwf) as (r & Hr & _ & Hmax).
  exists r. split; [exact Hr|]. apply Hmax; [exact Hwin|]. right. right. left. exact H4.
Defined.

(** C3 as stated fails: a winning hand with all eight bonus tiles that
    is scored at 4 fan. *)
Lemma eight_bonus_seven_pairs_scores_4 :
  Hand.canWin pairsWithAllBonus = true
  /\ length (Hand.flowers pairsWithAllBonus) = 8%nat
  /\ ScoringResult.totalFan <$> Scoring.calculate pairsWithAllBonus discardContext = Some 4%nat
  /\ 4%nat <> MAX_FAN.
Proof. vm_compute. repeat split; discriminate. Qed.

(* ================================================================== *)
(** * Payment *)
(* ================================================================== *)

Lemma seat_cases i : seat i -> i = 0 \/ i = 1 \/ i = 2 \/ i = 3.
Proof. unfold seat. lia. Qed.

Ltac seats :=
  repeat match goal with
  | H : seat ?i |- _ =>
    apply seat_cases in H; destruct H as [H|[H|[H|H]]]; try subst i
  end.

(** A payment from one seat to another is zero-sum. *)
Lemma transfer_zeroSum (from to : Z) (pay : Z) (deltas : list num) :
  seat from -> seat to -> zeroSum deltas ->
  zeroSum (addAt (Some to) pay (addAt (Some from) (- pay) deltas)).
Proof.
  intros Hf Ht (a & b & c & d & -> & Hsum). unfold zeroSum.
  seats; subst; cbn; do 4 eexists; (split; [reflexivity|]); lia.
Qed.

Lemma feederOfLast_elem ms winner f :
  Scoring.feederOfLast ms winner = Some f ->
  f <> winner /\ exists m, m ∈ ms /\ Meld.fromPlayer m = Some f.
Proof.
  unfold Scoring.feederOfLast.
  destruct (list.last ms) as [m|] eqn:Hlast; [|discriminate]. cbn [mbind option_bind].
  destruct (Meld.fromPlayer m) as [f'|] eqn:Hf; [|discriminate]. cbn [mbind option_bind].
  destruct (decide (f' = winner)); [discriminate|]. intros [= <-].
  split; [assumption|]. exists m. split; [|assumption].
  apply last_Some in Hlast as [l' ->]. apply elem_of_app. right. left.
Qed.

Lemma feederOfLast_seat hand ms winner f :
  feedersAreSeats hand -> (forall m, m ∈ ms -> m ∈ Hand.melds hand) ->
  Scoring.feederOfLast ms winner = Some f -> seat f /\ f <> winner.
Proof.
  intros Hseats Hsub Hf. apply feederOfLast_elem in Hf as (Hne & m & Hm & Hfrom).
  split; [|assumption]. unfold feedersAreSeats in Hseats. rewrite Forall_forall in Hseats.
  apply (Hseats m); [|assumption]. apply list_elem_of_In, Hsub, Hm.
Qed.

Lemma filter_sub {A} (p : A -> bool) (l : list A) x : x ∈ List.filter p l -> x ∈ l.
Proof. rewrite !list_elem_of_In, filter_In. tauto. Qed.

Lemma flushFeeder_wf melds winner :
  Forall (fun m => Meld.tiles m <> []) melds ->
  exists flush, Scoring.flushFeeder melds winner = Some flush
    /\ (flush = None \/ flush = Scoring.feederOfLast melds winner).
Proof.
  intros Hwf. unfold Scoring.flushFeeder.
  destruct (bool_decide (4 ≤ length melds)%nat); [|eauto].
  destruct (bool_decide (12 ≤ _)%nat); [|eauto].
  assert (is_Some (mapM (fun m => head (Meld.tiles m)) melds)) as [firsts ->].
  { apply mapM_is_Some. eapply List.Forall_impl; [|exact Hwf].
    intros m Hm. cbv beta in Hm. unfold compose.
    destruct (Meld.tiles m); [exfalso; apply Hm; reflexivity|]. eexists. reflexivity. }
  cbn [mbind option_bind].
  destruct (_ && _); eauto.
Qed.

(** One test of [checkBaoPai] of the form
    [if (ms.length >= n) { ... return last.fromPlayer }]. *)
Ltac bao_stage Hok :=
  match goal with
  | |- context [if ?c then Scoring.feederOfLast ?ms ?w else None] =>
    let E := fresh "E" in
    destruct (if c then Scoring.feederOfLast ms w else None) as [?|] eqn:E;
    [ destruct c; [|discriminate E];
      eapply Hok; [|exact E]; intros ?; apply filter_sub
    | clear E ]
  end.

(** [checkBaoPai] names nobody, or a seat other than the winner. *)
Lemma checkBaoPai_seat game winner hand :
  at_ (GameObj.hands game) winner = Some hand ->
  wellFormedMelds hand -> feedersAreSeats hand ->
  exists responsible, Scoring.checkBaoPai game winner = Some responsible
    /\ (responsible = -1 \/ (seat responsible /\ responsible <> winner)).
Proof.
  intros Hhand Hwf Hseats. unfold Scoring.checkBaoPai. rewrite Hhand.
  cbn [mbind option_bind].
  destruct (bool_decide (length (Hand.melds hand) = 0%nat)); [eauto|].
  assert (forall ms, (forall m, m ∈ ms -> m ∈ Hand.melds hand) ->
            forall f, Scoring.feederOfLast ms winner = Some f ->
            exists responsible, Some f = Some responsible
              /\ (responsible = -1 \/ (seat responsible /\ responsible <> winner))) as Hok.
  { intros ms Hsub f Hf. exists f. split; [reflexivity|]. right.
    eapply feederOfLast_seat; eassumption. }
  bao_stage Hok. bao_stage Hok.
  destruct (flushFeeder_wf (Hand.melds hand) winner Hwf) as (flush & -> & Hflush).
  cbn [mbind option_bind].
  destruct flush as [f|].
  { destruct Hflush as [|Hflush]; [discriminate|].
    eapply Hok; [|symmetry; exact Hflush]. auto. }
  bao_stage Hok. eauto.
Qed.

(** The loop of a normal self-drawn win is zero-sum. *)
Lemma payLosers_zeroSum game winner basePoints isDealer :
  seat winner ->
  zeroSum (foldl (Scoring.payLoser game winner basePoints isDealer)
                 [Some 0; Some 0; Some 0; Some 0] [0; 1; 2; 3]).
Proof.
  intros Hw.
  assert (forall i deltas, seat i -> zeroSum deltas ->
            zeroSum (Scoring.payLoser game winner basePoints isDealer deltas i)) as Hstep.
  { intros i deltas Hi Hz. unfold Scoring.payLoser.
    destruct (decide (i = winner)); [assumption|].
    apply transfer_zeroSum; assumption. }
  cbn [foldl]. repeat (apply Hstep; [unfold seat; lia|]).
  exists 0, 0, 0, 0. split; [reflexivity|lia].
Qed.

Lemma fanToPoints_pos fan : 0 < Scoring.fanToPoints fan.
Proof. unfold Scoring.fanToPoints. apply Z.pow_pos_nonneg; lia. Qed.

Lemma at_four {A} (a b c d : A) i x :
  at_ [a; b; c; d] i = Some x ->
  (i = 0 /\ x = a) \/ (i = 1 /\ x = b) \/ (i = 2 /\ x = c) \/ (i = 3 /\ x = d).
Proof.
  unfold at_. destruct (decide (i < 0)); [discriminate|].
  destruct (Z.to_nat i) as [|[|[|[|n']]]] eqn:E; cbn; intros [= <-];
    [left|right; left|do 2 right; left|do 3 right]; (split; [lia|reflexivity]).
Qed.

(** What [paidTo] says of four numbers. *)
Lemma paidTo_four winner a b c d :
  seat winner -> a + b + c + d = 0 ->
  (winner <> 0 -> a <= 0) -> (winner <> 1 -> b <= 0) ->
  (winner <> 2 -> c <= 0) -> (winner <> 3 -> d <= 0) ->
  paidTo winner [Some a; Some b; Some c; Some d].
Proof.
  intros Hw Hsum Ha Hb Hc Hd. split.
  - intros i x Hi Hat. apply at_four in Hat as [[-> E]|[[-> E]|[[-> E]|[-> E]]]];
      injection E as ->; auto.
  - unfold lost, at_. seats; cbv -[Z.add Z.opp]; do 2 f_equal; lia.
Qed.

Lemma paidTo_inv winner a b c d :
  paidTo winner [Some a; Some b; Some c; Some d] ->
  (winner <> 0 -> a <= 0) /\ (winner <> 1 -> b <= 0)
  /\ (winner <> 2 -> c <= 0) /\ (winner <> 3 -> d <= 0).
Proof.
  intros [H _]. repeat split; intros Hne.
  - apply (H 0); [congruence|reflexivity].
  - apply (H 1); [congruence|reflexivity].
  - apply (H 2); [congruence|reflexivity].
  - apply (H 3); [congruence|reflexivity].
Qed.

(** A payment to the winner keeps the deltas zero-sum and paid to the
    winner. *)
Lemma transfer_paidTo (from winner pay : Z) (deltas : list num) :
  seat from -> seat winner -> 0 <= pay ->
  zeroSum deltas /\ paidTo winner deltas ->
  zeroSum (addAt (Some winner) pay (addAt (Some from) (- pay) deltas))
  /\ paidTo winner (addAt (Some winner) pay (addAt (Some from) (- pay) deltas)).
Proof.
  intros Hf Hw Hpay [Hz Hp]. split; [apply transfer_zeroSum; assumption|].
  destruct Hz as (a & b & c & d & -> & Hsum).
  apply paidTo_inv in Hp as (Ha & Hb & Hc & Hd).
  seats; cbn; (apply paidTo_four; [unfold seat; lia|lia|..]); intros Hne; lia.
Qed.

Lemma zeros_paidTo winner :
  seat winner ->
  zeroSum [Some 0; Some 0; Some 0; Some 0] /\ paidTo winner [Some 0; Some 0; Some 0; Some 0].
Proof.
  intros Hw. split; [exists 0, 0, 0, 0; split; [reflexivity|lia]|].
  apply paidTo_four; solve [assumption|lia].
Qed.

(** The loop of a normal self-drawn win pays the winner only. *)
Lemma payLosers_paidTo game winner basePoints isDealer :
  seat winner -> 0 <= basePoints ->
  let deltas := foldl (Scoring.payLoser game winner basePoints isDealer)
                      [Some 0; Some 0; Some 0; Some 0] [0; 1; 2; 3] in
  zeroSum deltas /\ paidTo winner deltas.
Proof.
  intros Hw Hbase.
  assert (forall i deltas, seat i -> zeroSum deltas /\ paidTo winner deltas ->
            zeroSum (Scoring.payLoser game winner basePoints isDealer deltas i)
            /\ paidTo winner (Scoring.payLoser game winner basePoints isDealer deltas i))
    as Hstep.
  { intros i deltas Hi Hz. unfold Scoring.payLoser.
    destruct (decide (i = winner)); [assumption|].
    apply transfer_paidTo; try assumption.
    destruct isDealer; [lia|]. destruct (decide _); lia. }
  cbn [foldl]. repeat (apply Hstep; [unfold seat; lia|]).
  apply zeros_paidTo, Hw.
Qed.

(** C4.  For every completed round the four payment deltas are numbers
    that sum to zero.  When there is a winner the points move to the
    winner only: no other seat gains, and the winner's delta is the sum
    of what the other seats have lost.  On a drawn round ([winner < 0])
    all four deltas are zero. *)
Theorem payment_zero_sum (game : GameObj.t) :
  completedRound game ->
  exists info, Scoring.calculatePayment game = Some info
    /\ zeroSum (PaymentInfo.deltas info)
    /\ (0 <= GameObj.winner game ->
        paidTo (GameObj.winner game) (PaymentInfo.deltas info))
    /\ (GameObj.winner game < 0 ->
        PaymentInfo.deltas info = [Some 0; Some 0; Some 0; Some 0]).
Proof.
  intros Hround. unfold Scoring.calculatePayment.
  destruct (decide (GameObj.winner game < 0)) as [Hdraw|Hwon].
  { eexists. split; [reflexivity|]. split; [|split; [intros; lia|reflexivity]].
    exists 0, 0, 0, 0. split; [reflexivity|lia]. }
  destruct Hround as [?|(Hw & info & -> & Hinfo)]; [contradiction|].
  cbn [mbind option_bind].
  pose proof (zeros_paidTo _ Hw) as Hz0.
  pose proof (fanToPoints_pos (ScoringResult.totalFan (WinInfo.scoring info))) as Hbase.
  assert (forall deltas resp,
            zeroSum deltas /\ paidTo (GameObj.winner game) deltas ->
            exists p, Some (PaymentInfo.mk deltas resp) = Some p
              /\ zeroSum (PaymentInfo.deltas p)
              /\ (0 <= GameObj.winner game ->
                  paidTo (GameObj.winner game) (PaymentInfo.deltas p))
              /\ (GameObj.winner game < 0 ->
                  PaymentInfo.deltas p = [Some 0; Some 0; Some 0; Some 0])) as Hdone.
  { intros deltas resp [Hz Hp]. eexists. split; [reflexivity|].
    split; [exact Hz|]. split; [intros _; exact Hp|intros; lia]. }
  destruct (WinInfo.selfDrawn info).
  - destruct Hinfo as (hand & Hhand & Hwf & Hseats).
    destruct (checkBaoPai_seat game _ hand Hhand Hwf Hseats) as (resp & -> & Hresp).
    cbn [mbind option_bind].
    destruct (decide (resp >= 0)) as [Hbao|Hnone].
    + destruct Hresp as [->|[Hseat _]]; [lia|].
      apply Hdone, transfer_paidTo; solve [assumption|lia].
    + apply Hdone, payLosers_paidTo; [assumption|lia].
  - destruct Hinfo as (f & -> & Hf).
    apply Hdone, transfer_paidTo; try assumption.
    destruct (_ || _); lia.
Qed.

Lemma payment_zero_sum_witness :
  exists info, Scoring.calculatePayment wonGame = Some info
    /\ zeroSum (PaymentInfo.deltas info)
    /\ paidTo 0 (PaymentInfo.deltas info)
    /\ PaymentInfo.deltas info = [Some 8; Some 0; Some 0; Some (-8)].
Proof.
  destruct (payment_zero_sum wonGame) as (info & Hinfo & Hzero & Hpaid & _).
  - right. split; [vm_compute; split; [discriminate|reflexivity]|].
    eexists. split; [vm_compute; reflexivity|].
    cbn [WinInfo.selfDrawn]. exists 3.
    split; [reflexivity|vm_compute; split; [discriminate|reflexivity]].
  - exists info. split; [exact Hinfo|]. split; [exact Hzero|].
    split; [apply Hpaid; vm_compute; discriminate|].
    assert (Scoring.calculatePayment wonGame
            = Some (PaymentInfo.mk [Some 8; Some 0; Some 0; Some (-8)] (-1))) as E
      by (vm_compute; reflexivity).
    rewrite E in Hinfo. injection Hinfo as <-. reflexivity.
Defined.

Lemma checkBaoPai_dragons game winner hand m f :
  at_ (GameObj.hands game) winner = Some hand ->
  (3 <= length (dragonMelds hand))%nat ->
  list.last (dragonMelds hand) = Some m -> Meld.fromPlayer m = Some f -> f <> winner ->
  Scoring.checkBaoPai game winner = Some f.
Proof.
  intros Hhand H3 Hlast Hfrom Hne. unfold Scoring.checkBaoPai. rewrite Hhand.
  cbn [mbind option_bind]. fold (dragonMelds hand).
  rewrite bool_decide_eq_false_2.
  - rewrite (bool_decide_eq_true_2 _ H3).
    unfold Scoring.feederOfLast. rewrite Hlast. cbn [mbind option_bind].
    rewrite Hfrom. cbn [mbind option_bind].
    rewrite decide_False by assumption. reflexivity.
  - intros Hnil. apply nil_length_inv in Hnil. unfold dragonMelds in H3.
    rewrite Hnil in H3. simpl in H3. lia.
Qed.

(** C5.  After a self-drawn win by a hand with at least three dragon
    melds of which the last was fed by another seat, that seat alone
    pays: its delta is minus three times the base points, the winner's
    is plus three times the base points, the other two are zero. *)
Theorem bao_dragon_feeder_pays_all (game : GameObj.t) (info : WinInfo.t)
    (hand : Hand.t) (m : Meld.t) (f : Z) :
  seat (GameObj.winner game) ->
  GameObj.winInfo game = Some info -> WinInfo.selfDrawn info = true ->
  at_ (GameObj.hands game) (GameObj.winner game) = Some hand ->
  (3 <= length (dragonMelds hand))%nat ->
  list.last (dragonMelds hand) = Some m -> Meld.fromPlayer m = Some f ->
  seat f -> f <> GameObj.winner game ->
  let base := Scoring.fanToPoints (ScoringResult.totalFan (WinInfo.scoring info)) in
  exists p, Scoring.calculatePayment game = Some p
    /\ PaymentInfo.responsible p = f
    /\ at_ (PaymentInfo.deltas p) f = Some (Some (- (3 * base)))
    /\ at_ (PaymentInfo.deltas p) (GameObj.winner game) = Some (Some (3 * base))
    /\ forall i, seat i -> i <> f -> i <> GameObj.winner game ->
         at_ (PaymentInfo.deltas p) i = Some (Some 0).
Proof.
  intros Hw Hinfo Hself Hhand H3 Hlast Hfrom Hf Hne base.
  unfold Scoring.calculatePayment.
  rewrite decide_False by (unfold seat in Hw; lia).
  rewrite Hinfo. cbn [mbind option_bind]. rewrite Hself.
  rewrite (checkBaoPai_dragons game _ hand m f Hhand H3 Hlast Hfrom Hne).
  cbn [mbind option_bind].
  rewrite decide_True by (unfold seat in Hf; lia).
  eexists. split; [reflexivity|]. split; [reflexivity|].
  cbn [PaymentInfo.deltas]. fold base.
  clearbody base. replace (3 * base) with (base * 3) by lia.
  generalize dependent (GameObj.winner game). intros w Hw _ Hne.
  repeat split.
  - seats; try congruence; reflexivity.
  - seats; try congruence; reflexivity.
  - intros i Hi Hif Hiw. seats; try congruence; reflexivity.
Qed.

Lemma bao_dragon_feeder_pays_all_witness :
  Game.playerSelfWin dragonTurn = Some dragonWin
  /\ exists p, Scoring.calculatePayment dragonWin = Some p
       /\ PaymentInfo.responsible p = 2
       /\ at_ (PaymentInfo.deltas p) 2 = Some (Some (- (3 * Scoring.fanToPoints 12)))
       /\ at_ (PaymentInfo.deltas p) 0 = Some (Some (3 * Scoring.fanToPoints 12))
       /\ forall i, seat i -> i <> 2 -> i <> 0 -> at_ (PaymentInfo.deltas p) i = Some (Some 0).
Proof.
  split; [vm_compute; reflexivity|].
  apply (bao_dragon_feeder_pays_all dragonWin
           (WinInfo.mk (ScoringResult.mk 12
              [(FDragonPung 1, 1%nat); (FDragonPung 2, 1%nat); (FDragonPung 3, 1%nat);
               (FSelfDrawn, 1%nat); (FBigThreeDragons, 8%nat)]) true None)
           dragonHand
           (Meld.mk PUNG [Tile.mk DRAGON 3 132; Tile.mk DRAGON 3 133; Tile.mk DRAGON 3 134]
                    (Some 2))
           2).
  - vm_compute. split; [discriminate|reflexivity].
  - vm_compute. reflexivity.
  - reflexivity.
  - vm_compute. reflexivity.
  - vm_compute. lia.
  - vm_compute. reflexivity.
  - reflexivity.
  - vm_compute. split; [discriminate|reflexivity].
  - vm_compute. discriminate.
Defined.

(* ================================================================== *)
(** * The wall *)
(* ================================================================== *)

Lemma swap_length i j a : length (Wall.swap i j a) = length a.
Proof.
  unfold Wall.swap. destruct (a !! i), (a !! j); try reflexivity.
  rewrite !length_insert. reflexivity.
Qed.

Lemma swap_Permutation i j a : Wall.swap i j a ≡ₚ a.
Proof.
  unfold Wall.swap.
  destruct (a !! i) as [x|] eqn:Hi; [|reflexivity].
  destruct (a !! j) as [y|] eqn:Hj; [|reflexivity].
  destruct (decide (i = j)) as [->|Hne].
  - rewrite list_insert_insert_eq. rewrite Hi in Hj. injection Hj as <-.
    rewrite list_insert_id by assumption. reflexivity.
  - symmetry. apply Permutation_inj. split.
    + rewrite !length_insert. reflexivity.
    + exists (fun k => if decide (k = i) then j else if decide (k = j) then i else k).
      split.
      * intros k1 k2. repeat destruct (decide _); intros; subst; congruence.
      * pose proof (lookup_lt_Some _ _ _ Hi) as Hli.
        pose proof (lookup_lt_Some _ _ _ Hj) as Hlj.
        intros k. destruct (decide (k = i)) as [->|Hki].
        -- rewrite list_lookup_insert_ne by congruence.
           rewrite list_lookup_insert_eq by assumption. exact Hi.
        -- destruct (decide (k = j)) as [->|Hkj].
           ++ rewrite list_lookup_insert_eq by (rewrite length_insert; assumption).
              exact Hj.
           ++ rewrite !list_lookup_insert_ne by congruence. reflexivity.
Qed.

Lemma shuffleFrom_Permutation i : forall a r, fst (Wall.shuffleFrom i a r) ≡ₚ a.
Proof.
  induction i as [|i IH]; intros a r; [reflexivity|].
  cbn [Wall.shuffleFrom]. destruct (RNG.randomInt (S (S i)) r) as [j r'].
  rewrite IH. apply swap_Permutation.
Qed.

(** [build] lays out the 144 tiles of [createAllTiles], each once: 130
    in the live wall, 14 in the dead wall, nothing drawn. *)
Lemma build_spec w0 r :
  let w := fst (Wall.build w0 r) in
  Wall.tiles w ++ Wall.deadWall w ≡ₚ Tile.createAllTiles
  /\ length (Wall.tiles w) = 130%nat /\ length (Wall.deadWall w) = 14%nat
  /\ Wall.drawIndex w = 0%nat.
Proof.
  unfold Wall.build, Wall.shuffle. cbn [Wall.tiles Wall.deadWall Wall.drawIndex].
  pose proof (shuffleFrom_Permutation (length Tile.createAllTiles - 1) Tile.createAllTiles r) as Hp.
  destruct (Wall.shuffleFrom _ _ r) as [a r']. cbn [fst] in Hp.
  cbn [fst Wall.tiles Wall.deadWall Wall.drawIndex].
  assert (length a = 144%nat) as Hlen.
  { rewrite (Permutation_length Hp). vm_compute. reflexivity. }
  rewrite take_drop, length_take, length_drop, Hlen.
  split; [exact Hp|]. repeat split.
Qed.

(** From a freshly built wall [deal] returns, with four hands. *)
Lemma deal_ok (w0 : Wall.t) (r : RNG.t) (dealerIndex : Z) :
  seat dealerIndex ->
  exists hands w',
    Wall.deal dealerIndex (fst (Wall.build w0 r)) = Some (hands, w')
    /\ length hands = 4%nat.
Proof.
  intros Hseat. destruct (build_spec w0 r) as (_ & Hlen & _ & Hidx).
  destruct (fst (Wall.build w0 r)) as [tiles deadWall drawIndex].
  cbn [Wall.tiles Wall.deadWall Wall.drawIndex] in *. subst drawIndex.
  do 53 (destruct tiles as [|? tiles]; [simpl in Hlen; lia|]). clear Hlen.
  seats; (eexists; eexists; split; [vm_compute; reflexivity|reflexivity]).
Qed.

(** C9.  From a freshly built wall, [deal(dealerIndex)] gives the seat
    [p] places after the dealer, in seating order, the tiles at the wall
    positions [16 r + 4 p .. 16 r + 4 p + 3] for the rounds [r = 0, 1, 2],
    then the tile at [48 + p], and the dealer the tile at 52 as well:
    14 tiles for the dealer and 13 for each of the others, 53 tiles drawn
    in all. *)
Theorem deal_round_robin (w0 : Wall.t) (r : RNG.t) (dealerIndex : Z) :
  seat dealerIndex ->
  let w := fst (Wall.build w0 r) in
  exists hands w',
    Wall.deal dealerIndex w = Some (hands, w')
    /\ length hands = 4%nat
    /\ w' = Wall.mk (Wall.tiles w) (Wall.deadWall w) 53
    /\ forall p : nat, (p < 4)%nat ->
         exists hand,
           at_ hands ((dealerIndex + Z.of_nat p) `mod` 4) = Some hand
           /\ mapM (fun i => Wall.tiles w !! i) (dealtPositions p) = Some hand
           /\ length hand = (if decide (p = 0%nat) then 14 else 13)%nat.
Proof.
  intros Hseat w. destruct (build_spec w0 r) as (_ & Hlen & _ & Hidx). fold w in Hlen, Hidx.
  destruct w as [tiles deadWall drawIndex]. cbn [Wall.tiles Wall.deadWall Wall.drawIndex] in *.
  subst drawIndex.
  do 53 (destruct tiles as [|? tiles]; [simpl in Hlen; lia|]). clear Hlen.
  seats; (eexists; eexists; split; [vm_compute; reflexivity|]);
    (split; [reflexivity|]); (split; [reflexivity|]);
    intros p Hp;
    (destruct p as [|[|[|[|p]]]]; [| | | |lia]);
    (eexists; split; [vm_compute; reflexivity|]); split; reflexivity.
Qed.

Lemma deal_round_robin_witness :
  let w := fst (Wall.build Wall.new (RNG.mk source 0)) in
  exists hands w',
    Wall.deal 3 w = Some (hands, w')
    /\ length hands = 4%nat
    /\ w' = Wall.mk (Wall.tiles w) (Wall.deadWall w) 53
    /\ forall p : nat, (p < 4)%nat ->
         exists hand,
           at_ hands ((3 + Z.of_nat p) `mod` 4) = Some hand
           /\ mapM (fun i => Wall.tiles w !! i) (dealtPositions p) = Some hand
           /\ length hand = (if decide (p = 0%nat) then 14 else 13)%nat.
Proof.
  apply (deal_round_robin Wall.new (RNG.mk source 0) 3). unfold seat. lia.
Defined.

(* ================================================================== *)
(** * The state machine: what the tile-moving helpers leave alone *)
(* ================================================================== *)

Lemma onlyTiles_refl g : onlyTiles g g.
Proof. split; [destruct g; reflexivity|reflexivity]. Qed.

Lemma onlyTiles_trans g1 g2 g3 : onlyTiles g1 g2 -> onlyTiles g2 g3 -> onlyTiles g1 g3.
Proof.
  intros [E1 L1] [E2 L2]. split; [|congruence].
  rewrite E2 at 1. rewrite E1. destruct g1; reflexivity.
Qed.

Lemma onlyTiles_wall w g : onlyTiles g (GameObj.set_wall w g).
Proof. split; [destruct g; reflexivity|reflexivity]. Qed.

Lemma onlyTiles_setHand i h g : onlyTiles g (Game.setHand i h g).
Proof.
  split; [destruct g; reflexivity|].
  unfold Game.setHand. destruct g. cbn. apply length_insert.
Qed.

Lemma at_is_Some {A} (l : list A) (i : Z) :
  0 <= i < Z.of_nat (length l) -> is_Some (at_ l i).
Proof.
  intros H. unfold at_. rewrite decide_False by lia.
  apply lookup_lt_is_Some. lia.
Qed.

Lemma at_Some_range {A} (l : list A) (i : Z) x :
  at_ l i = Some x -> 0 <= i < Z.of_nat (length l).
Proof.
  unfold at_. destruct (decide (i < 0)); [discriminate|].
  intros H%lookup_lt_Some. lia.
Qed.

(** A seat that has a hand keeps having one. *)
Lemma onlyTiles_hand g g' i :
  onlyTiles g g' -> is_Some (at_ (GameObj.hands g) i) -> is_Some (at_ (GameObj.hands g') i).
Proof.
  intros [_ L] [x Hx]. apply at_Some_range in Hx. apply at_is_Some. lia.
Qed.

Lemma handleFlowerBloom_ok p g :
  is_Some (at_ (GameObj.hands g) p) ->
  exists g', Game._handleFlowerBloom p g = Some g' /\ onlyTiles g g'.
Proof.
  intros [hand Hhand]. unfold Game._handleFlowerBloom. rewrite Hhand.
  cbn [mbind option_bind].
  destruct (Game.bloomLoop _ hand (GameObj.wall g)) as [hand' w'].
  eexists. split; [reflexivity|].
  eapply onlyTiles_trans; [apply onlyTiles_wall|apply onlyTiles_setHand].
Qed.

Lemma refill_ok fuel : forall target p g,
  is_Some (at_ (GameObj.hands g) p) ->
  exists g', Game.refill fuel target p g = Some g' /\ onlyTiles g g'.
Proof.
  induction fuel as [|fuel IH]; intros target p g Hp; cbn [Game.refill].
  - eexists. split; [reflexivity|apply onlyTiles_refl].
  - destruct Hp as [hand Hhand]. rewrite Hhand. cbn [mbind option_bind].
    destruct (decide _); [|eexists; split; [reflexivity|apply onlyTiles_refl]].
    destruct (Wall.draw (GameObj.wall g)) as [[extra|] w];
      [|eexists; split; [reflexivity|apply onlyTiles_refl]].
    set (g1 := Game.setHand p (Hand.addTile extra hand) (GameObj.set_wall w g)).
    assert (onlyTiles g g1) as H1.
    { eapply onlyTiles_trans; [apply onlyTiles_wall|apply onlyTiles_setHand]. }
    assert (is_Some (at_ (GameObj.hands g) p)) as Hp by (rewrite Hhand; eauto).
    destruct (handleFlowerBloom_ok p g1 (onlyTiles_hand _ _ _ H1 Hp)) as (g2 & -> & H2).
    cbn [mbind option_bind].
    assert (onlyTiles g g2) as H12 by (eapply onlyTiles_trans; eassumption).
    destruct (IH target p g2 (onlyTiles_hand _ _ _ H12 Hp)) as (g3 & -> & H3).
    eexists. split; [reflexivity|]. eapply onlyTiles_trans; eassumption.
Qed.

Lemma validateHandSize_ok p phase g :
  is_Some (at_ (GameObj.hands g) p) ->
  exists g', Game._validateHandSize p phase g = Some g' /\ onlyTiles g g'.
Proof.
  intros Hp. unfold Game._validateHandSize.
  destruct Hp as [hand Hhand]. rewrite Hhand. cbn [mbind option_bind].
  assert (is_Some (at_ (GameObj.hands g) p)) as Hp by (rewrite Hhand; eauto).
  destruct (decide _); [eexists; split; [reflexivity|apply onlyTiles_refl]|].
  set (target := if decide (_ <= 0)%nat then _ else _).
  destruct (decide (length (Hand.concealed hand) < target)%nat).
  - destruct (refill_ok target target p g Hp) as (g1 & -> & H1).
    cbn [mbind option_bind].
    destruct (onlyTiles_hand _ _ _ H1 Hp) as [hand1 ->]. cbn [mbind option_bind].
    eexists. split; [reflexivity|].
    eapply onlyTiles_trans; [exact H1|apply onlyTiles_setHand].
  - destruct (decide (target < _)%nat); eexists; (split; [reflexivity|]);
      [apply onlyTiles_setHand|apply onlyTiles_refl].
Qed.

Lemma forEach_ok {A} (l : list A) (f : A -> Game.t -> option Game.t) : forall g0 g,
  onlyTiles g0 g ->
  (forall i g1, i ∈ l -> onlyTiles g0 g1 -> exists g2, f i g1 = Some g2 /\ onlyTiles g1 g2) ->
  exists g', Game.forEach l f g = Some g' /\ onlyTiles g0 g'.
Proof.
  induction l as [|i l IH]; intros g0 g Hg Hf; cbn [Game.forEach].
  - eauto.
  - destruct (Hf i g (list_elem_of_here _ _) Hg) as (g2 & -> & H2). cbn [mbind option_bind].
    apply IH.
    + eapply onlyTiles_trans; eassumption.
    + intros j g1 Hj H1. apply Hf; [right; exact Hj|exact H1].
Qed.

Lemma onlyTiles_dealer g g' : onlyTiles g g' -> GameObj.dealerIndex g' = GameObj.dealerIndex g.
Proof. intros [-> _]. destruct g; reflexivity. Qed.

(** With the dealer at one of the four seats, [startRound] runs to its
    end, and the dealer stays who it was. *)
Lemma startRound_ok g :
  seat (GameObj.dealerIndex g) ->
  exists g', Game.startRound g = Some g'
    /\ GameObj.dealerIndex g' = GameObj.dealerIndex g
    /\ length (GameObj.hands g') = 4%nat
    /\ GameObj.currentPlayer g' = GameObj.dealerIndex g
    /\ GameObj.state g'
       = Some (if decide (GameObj.dealerIndex g = 0) then PLAYER_DISCARD else AI_TURN).
Proof.
  intros Hseat. unfold Game.startRound.
  destruct (deal_ok Wall.new (GameObj.rng g) _ Hseat) as (dealt & w' & Hdeal & Hlen).
  destruct (Wall.build Wall.new (GameObj.rng g)) as [w r]. cbn [fst] in Hdeal.
  destruct g. cbn [GameObj.dealerIndex] in *.
  cbn [GameObj.set_rng GameObj.set_wall GameObj.set_hands GameObj.set_ai
       GameObj.set_seatWinds GameObj.wall GameObj.hands GameObj.dealerIndex
       GameObj.ai GameObj.state GameObj.currentPlayer GameObj.roundWind
       GameObj.roundNumber GameObj.seatWinds GameObj.lastDiscard
       GameObj.lastDiscardPlayer GameObj.turnCount GameObj.winner GameObj.winInfo
       GameObj.difficulty GameObj.minFan GameObj.pendingClaims GameObj._selfDrawn
       GameObj._isKongDraw GameObj._drawnTile GameObj.scores GameObj.totalRounds
       GameObj.maxRounds GameObj.paymentInfo GameObj.diceResults GameObj.diceRolled
       GameObj.timers GameObj.rng GameObj.heuristics].
  rewrite Hdeal. cbn [mbind option_bind].
  match goal with
  | |- context [Game.forEach _ _ ?g1] => set (g0 := g1)
  end.
  assert (length (GameObj.hands g0) = 4%nat) as Hh.
  { subst g0. cbn. destruct dealt as [|? [|? [|? [|? [|]]]]]; try discriminate Hlen. reflexivity. }
  assert (forall g1 i, onlyTiles g0 g1 -> seat i -> is_Some (at_ (GameObj.hands g1) i)) as Hhand.
  { intros g1 i [_ L] Hi. apply at_is_Some. unfold seat in Hi. lia. }
  assert (GameObj.dealerIndex g0 = dealerIndex) as Hd0 by reflexivity.
  destruct (forEach_ok [0; 1; 2; 3]
              (fun i => Game._handleFlowerBloom ((dealerIndex + i) `rem` 4)) g0 g0
              (onlyTiles_refl g0)) as (g1 & E1 & H1).
  { intros i g1 Hi H1. apply handleFlowerBloom_ok, Hhand; [exact H1|].
    unfold seat in *.
    repeat (apply elem_of_cons in Hi as [->|Hi]);
      [| | | |apply elem_of_nil in Hi; contradiction];
      (split; [apply Z.rem_nonneg; lia|apply Z.rem_bound_pos; lia]). }
  rewrite E1. cbn [mbind option_bind].
  destruct (forEach_ok [0; 1; 2; 3]
              (fun i g => Game._validateHandSize i
                 (if decide (i = GameObj.dealerIndex g)
                  then Game.before_discard else Game.after_discard) g) g0 g1 H1)
    as (g2 & E2' & H2).
  { intros i g3 Hi H3. apply validateHandSize_ok, Hhand; [exact H3|].
    unfold seat.
    repeat (apply elem_of_cons in Hi as [->|Hi]);
      [| | | |apply elem_of_nil in Hi; contradiction]; lia. }
  rewrite E2'. cbn [mbind option_bind].
  pose proof (onlyTiles_dealer _ _ H2) as Hd2. rewrite Hd0 in Hd2.
  destruct H2 as [E2 L2]. rewrite Hh in L2.
  eexists. split; [reflexivity|].
  destruct g2. cbn in Hd2, L2 |- *.
  rewrite !Hd2. repeat split; first [assumption|reflexivity].
Qed.

(** * Dice *)

Lemma rollDie_range r : 1 <= fst (Game.rollDie r) <= 6.
Proof.
  unfold Game.rollDie, RNG.randomInt, RNG.random. cbn [fst].
  set (u := RNG.source r (RNG.pos r) `mod` RNG.DEN).
  assert (0 <= u < RNG.DEN) as Hu by (apply Z.mod_pos_bound; reflexivity).
  assert (0 <= u * Z.of_nat 6 / RNG.DEN < 6) as Hq.
  { split.
    - apply Z.div_pos; [lia|reflexivity].
    - apply Z.div_lt_upper_bound; [reflexivity|lia]. }
  lia.
Qed.

(** [rollDice] leaves three values between 1 and 6. *)
Lemma rollDice_range g :
  GameObj.diceRolled g = false ->
  exists d1 d2 d3, GameObj.diceResults (Game.rollDice g) = [d1; d2; d3]
    /\ 1 <= d1 <= 6 /\ 1 <= d2 <= 6 /\ 1 <= d3 <= 6.
Proof.
  intros H. unfold Game.rollDice. rewrite H.
  pose proof (rollDie_range (GameObj.rng g)) as H1.
  destruct (Game.rollDie (GameObj.rng g)) as [d1 r1].
  pose proof (rollDie_range r1) as H2.
  destruct (Game.rollDie r1) as [d2 r2].
  pose proof (rollDie_range r2) as H3.
  destruct (Game.rollDie r2) as [d3 r3].
  exists d1, d2, d3. destruct g. cbn in *. auto.
Qed.

(** C7.  For three dice values, each from 1 to 6, [confirmDice] runs to its
    end and leaves [dealerIndex] at (sum - 1) mod 4: a sum of 7 gives seat 2,
    a sum of 3 gives seat 2 and a sum of 18 gives seat 1. *)
Theorem confirmDice_dealer (g : Game.t) (d1 d2 d3 : Z) :
  GameObj.diceResults g = [d1; d2; d3] ->
  1 <= d1 <= 6 -> 1 <= d2 <= 6 -> 1 <= d3 <= 6 ->
  exists g', Game.confirmDice g = Some g'
    /\ GameObj.dealerIndex g' = (d1 + d2 + d3 - 1) mod 4
    /\ (d1 + d2 + d3 = 7 -> GameObj.dealerIndex g' = 2)
    /\ (d1 + d2 + d3 = 3 -> GameObj.dealerIndex g' = 2)
    /\ (d1 + d2 + d3 = 18 -> GameObj.dealerIndex g' = 1).
Proof.
  intros Hd H1 H2 H3. unfold Game.confirmDice. rewrite Hd. cbn [foldl].
  replace (0 + d1 + d2 + d3 - 1) with (d1 + d2 + d3 - 1) by lia.
  rewrite Z.rem_mod_nonneg by lia.
  set (k := (d1 + d2 + d3 - 1) mod 4).
  assert (seat k) as Hk by (apply Z.mod_pos_bound; lia).
  destruct (startRound_ok (GameObj.set_dealerIndex k g)) as (g' & E & D & _).
  { destruct g; exact Hk. }
  exists g'. split; [exact E|].
  assert (GameObj.dealerIndex g' = k) as -> by (rewrite D; destruct g; reflexivity).
  subst k. repeat split; intros ->; reflexivity.
Qed.

Lemma confirmDice_dealer_witness :
  exists g', Game.confirmDice (GameObj.set_diceResults [3; 2; 2] freshGame) = Some g'
    /\ GameObj.dealerIndex g' = 2.
Proof.
  destruct (confirmDice_dealer (GameObj.set_diceResults [3; 2; 2] freshGame) 3 2 2
              eq_refl ltac:(lia) ltac:(lia) ltac:(lia)) as (g' & E & _ & H7 & _).
  exists g'. split; [exact E|apply H7; reflexivity].
Defined.

(** * Operations out of turn *)

(** C8.  Outside the state PLAYER_DISCARD, [playerDiscard] answers false and
    the game it leaves is the game it was given, field by field; outside
    PLAYER_TURN the same holds of [playerDraw].  Both return: neither
    throws. *)
Theorem out_of_turn_rejected (g : Game.t) (tile : Tile.t) :
  (GameObj.state g <> Some PLAYER_DISCARD ->
     Game.playerDiscard tile g = Some (false, g))
  /\ (GameObj.state g <> Some PLAYER_TURN ->
     Game.playerDraw g = Some (false, g)).
Proof.
  split; intros H.
  - unfold Game.playerDiscard. rewrite bool_decide_eq_false_2 by exact H. reflexivity.
  - unfold Game.playerDraw. rewrite bool_decide_eq_false_2 by exact H. reflexivity.
Qed.

Lemma out_of_turn_rejected_witness :
  Game.playerDiscard (Tile.mk WAN 1 0) freshGame = Some (false, freshGame)
  /\ Game.playerDraw freshGame = Some (false, freshGame).
Proof.
  destruct (out_of_turn_rejected freshGame (Tile.mk WAN 1 0)) as [Hd Hp].
  split; [apply Hd|apply Hp]; discriminate.
Defined.

(** * Kong with the dead wall empty *)

Lemma at_0 {A} (a : list A) : at_ a 0 = a !! 0%nat.
Proof. unfold at_. destruct (decide (0 < 0)); [lia|reflexivity]. Qed.

Lemma lowerTarget_le m : forall t, (Game.lowerTarget m t <= t)%nat.
Proof.
  induction t as [|t IH]; cbn [Game.lowerTarget]; [lia|].
  destruct (decide _); lia.
Qed.

Lemma lowerTarget_before t : (2 <= t)%nat -> (2 <= Game.lowerTarget 2 t)%nat.
Proof.
  induction t as [|t IH]; intros Ht; [lia|]. cbn [Game.lowerTarget].
  destruct (decide _) as [|Hm]; [lia|].
  apply IH. destruct (decide (t = 1%nat)) as [->|]; [|lia].
  exfalso. apply Hm. reflexivity.
Qed.

Lemma popExcess_prefix fuel target : forall hand,
  Hand.concealed (Game.popExcess fuel target hand) `prefix_of` Hand.concealed hand
  /\ Hand.melds (Game.popExcess fuel target hand) = Hand.melds hand.
Proof.
  induction fuel as [|fuel IH]; intros hand; cbn [Game.popExcess]; [done|].
  destruct (decide _); [|done].
  destruct (list.last _) as [excess|] eqn:E; [|done].
  apply last_Some in E as [l' El].
  match goal with |- context [Game.popExcess fuel target ?h] => destruct (IH h) as [P M] end.
  split.
  - etrans; [exact P|]. destruct hand; cbn in *. subst.
    rewrite removelast_last. by apply prefix_app_r.
  - rewrite M. destruct hand; reflexivity.
Qed.

(** C6 asks for a fall-back to the live wall.  What the kong paths do with
    an empty dead wall: the replacement step changes nothing, and a
    concealed kong declared by seat 0 leaves the wall as it was, no tile
    from the live wall taken, with a concealed hand that is a prefix of the
    one left by the kong (the size repair only moves tiles to the discards).
    The hand left by the kong has at least two tiles: with fewer, the size
    repair refills from the live wall. *)
Theorem kong_no_live_wall_fallback (g : Game.t) :
  Wall.deadWall (GameObj.wall g) = [] ->
  Game.kongReplacement g = Some g
  /\ forall key hand,
       at_ (GameObj.hands g) 0 = Some hand ->
       (2 <= length (Hand.concealed (Hand.doKongConcealed key hand)))%nat ->
       exists g' hand',
         Game.playerKong KONG_CONCEALED key g = Some g'
         /\ GameObj.wall g' = GameObj.wall g
         /\ at_ (GameObj.hands g') 0 = Some hand'
         /\ Hand.concealed hand' `prefix_of` Hand.concealed (Hand.doKongConcealed key hand)
         /\ Hand.melds hand' = Hand.melds (Hand.doKongConcealed key hand).
Proof.
  intros Hdead.
  assert (forall g0, GameObj.wall g0 = GameObj.wall g -> Game.kongReplacement g0 = Some g0) as Hrep.
  { intros g0 E. unfold Game.kongReplacement, Wall.drawFromDeadWall.
    rewrite E, Hdead. reflexivity. }
  split; [apply Hrep; reflexivity|].
  intros key hand Hhand Hlen. unfold Game.playerKong.
  rewrite Hhand. cbn [mbind option_bind].
  set (melded := Hand.doKongConcealed key hand) in *.
  rewrite Hrep by (destruct g; reflexivity). cbn [mbind option_bind].
  rewrite at_0 in Hhand.
  assert (at_ (GameObj.hands (Game.setHand 0 melded g)) 0 = Some melded) as Hm.
  { rewrite at_0. destruct g. cbn in *. destruct hands; [discriminate|reflexivity]. }
  unfold Game._validateHandSize. rewrite Hm. cbn [mbind option_bind].
  destruct (decide _).
  { exists (GameObj.set_state (Some PLAYER_DISCARD) (Game.setHand 0 melded g)), melded.
    split; [reflexivity|]. split; [destruct g; reflexivity|].
    split; [destruct g; exact Hm|]. done. }
  pose proof (lowerTarget_le 2 (length (Hand.concealed melded))) as Hle.
  pose proof (lowerTarget_before _ Hlen) as Hge.
  destruct (decide (Game.lowerTarget 2 _ <= 0)%nat); [lia|].
  destruct (decide (_ < _)%nat); [lia|].
  destruct (decide (_ < _)%nat).
  - destruct (popExcess_prefix (length (Hand.concealed melded))
                (Game.lowerTarget 2 (length (Hand.concealed melded))) melded) as [P M].
    eexists _, _. split; [reflexivity|]. split; [destruct g; reflexivity|].
    split; [|split; [exact P|exact M]].
    rewrite at_0. destruct g. cbn in *. destruct hands; [discriminate|reflexivity].
  - exists (GameObj.set_state (Some PLAYER_DISCARD) (Game.setHand 0 melded g)), melded.
    split; [reflexivity|]. split; [destruct g; reflexivity|].
    split; [destruct g; exact Hm|]. done.
Qed.

Lemma kong_no_live_wall_fallback_witness :
  Game.kongReplacement kongGame = Some kongGame
  /\ exists g' hand',
       Game.playerKong KONG_CONCEALED (WAN, 1) kongGame = Some g'
       /\ GameObj.wall g' = GameObj.wall kongGame
       /\ at_ (GameObj.hands g') 0 = Some hand'
       /\ Hand.concealed hand' `prefix_of` Hand.concealed (Hand.doKongConcealed (WAN, 1) kongHand)
       /\ Hand.melds hand' = Hand.melds (Hand.doKongConcealed (WAN, 1) kongHand).
Proof.
  destruct (kong_no_live_wall_fallback kongGame eq_refl) as [Hrep Hkong].
  split; [exact Hrep|].
  apply (Hkong (WAN, 1) kongHand eq_refl). vm_compute. lia.
Defined.

(** The same kong, run: the live wall still has its three tiles, and seat 0
    is left with eight concealed tiles, two of its own tiles having gone to
    its discards. *)
Lemma kong_dead_wall_empty_run :
  exists g' hand',
    Game.playerKong KONG_CONCEALED (WAN, 1) kongGame = Some g'
    /\ Wall.remaining (GameObj.wall kongGame) = 3
    /\ Wall.remaining (GameObj.wall g') = 3
    /\ at_ (GameObj.hands g') 0 = Some hand'
    /\ length (Hand.concealed hand') = 8%nat
    /\ Hand.discards hand' = [Tile.mk WIND 1 108; Tile.mk SOK 7 96]
    /\ GameObj.state g' = Some PLAYER_DISCARD.
Proof. vm_compute. eexists _, _. repeat split. Qed.

(** * The tile count of a round *)

Lemma insert_length x l : length (Tile.insert x l) = S (length l).
Proof.
  induction l as [|y l IH]; cbn [Tile.insert length]; [reflexivity|].
  destruct (Tile.before y x); cbn [length]; [rewrite IH|]; reflexivity.
Qed.

Lemma sort_length l : length (Tile.sort l) = length l.
Proof.
  induction l as [|x l IH]; cbn [Tile.sort length]; [reflexivity|].
  rewrite insert_length, IH. reflexivity.
Qed.

Lemma handTiles_addTile tile hand :
  handTiles (Hand.addTile tile hand) = S (handTiles hand).
Proof.
  unfold handTiles, Hand.addTile, Hand.sort. destruct hand. cbn.
  rewrite sort_length, length_app. cbn. lia.
Qed.

(** C1 asks for 144 tiles in every state of a round.  The win branch of
    [playerClaim] adds the claimed discard to the hand of seat 0 and
    returns with the tile still on the discarder's pile: whenever it runs to
    its end, the count it leaves is one more than the count it found. *)
Theorem player_win_claim_counts_discard_twice (g g' : Game.t) (chowCombo : list Key) :
  Game.playerClaim win chowCombo g = Some g' ->
  totalTiles g' = S (totalTiles g).
Proof.
  unfold Game.playerClaim. intros H.
  destruct (GameObj.lastDiscard g) as [tile|]; [|discriminate].
  cbn [mbind option_bind] in H.
  destruct (at_ (GameObj.hands g) 0) as [hand|] eqn:Hhand; [|discriminate].
  cbn [mbind option_bind] in H.
  destruct (decide (win = win)) as [_|N]; [|contradiction].
  destruct (Scoring.calculate _ _) as [scoring|]; [|discriminate].
  cbn [mbind option_bind] in H.
  unfold Game.declareWin, Game._applyPayment in H.
  destruct (Scoring.calculatePayment _) as [info|]; [|discriminate].
  cbn [mbind option_bind] in H. injection H as <-.
  rewrite at_0 in Hhand. unfold totalTiles.
  destruct g. cbn -[handTiles Hand.addTile Wall.remaining] in *.
  destruct hands as [|h0 rest]; [discriminate|].
  injection Hhand as ->. change (Z.to_nat 0) with 0%nat.
  cbn [list_insert insert fmap list_fmap sum_list sum_list_with].
  rewrite handTiles_addTile. unfold id. lia.
Qed.

Lemma confirmDice_startRound g :
  Game.confirmDice g
  = Game.startRound
      (GameObj.set_dealerIndex ((foldl Z.add 0 (GameObj.diceResults g) - 1) `rem` 4) g).
Proof. reflexivity. Qed.

(** The round played above: from [startRound], seat 3 takes its turn, seat 0
    is offered the win and takes it.  There are 144 tiles before the claim
    and 145 after. *)
Lemma player_win_claim_counts_discard_twice_witness :
  reachable claimingGame /\ step claimingGame wonGame /\ reachable wonGame
  /\ GameObj.state claimingGame = Some CLAIMING
  /\ Game.playerClaim win [] claimingGame = Some wonGame
  /\ totalTiles claimingGame = 144%nat /\ totalTiles wonGame = 145%nat
  /\ GameObj.state wonGame = Some ROUND_END.
Proof.
  assert (Game.playerClaim win [] claimingGame = Some wonGame) as Hclaim
    by (vm_compute; reflexivity).
  assert (totalTiles claimingGame = 144%nat) as Hcount by (vm_compute; reflexivity).
  assert (reachable dealtGame) as Hdealt.
  { apply (reach_startRound
             (GameObj.set_dealerIndex
                ((foldl Z.add 0 (GameObj.diceResults dicedGame) - 1) `rem` 4) dicedGame));
      [vm_compute; reflexivity|vm_compute; split; [discriminate|reflexivity]|].
    rewrite <- confirmDice_startRound. vm_compute. reflexivity. }
  assert (reachable claimingGame) as Hclaiming.
  { apply (reach_step dealtGame); [exact Hdealt|].
    apply step_processAITurn; vm_compute; reflexivity. }
  assert (step claimingGame wonGame) as Hstep.
  { apply (step_playerClaim claimingGame win []);
      [vm_compute; reflexivity| |discriminate|exact Hclaim].
    vm_compute. apply list_elem_of_here. }
  split; [exact Hclaiming|]. split; [exact Hstep|].
  split; [exact (reach_step _ _ Hclaiming Hstep)|].
  split; [vm_compute; reflexivity|]. split; [exact Hclaim|]. split; [exact Hcount|].
  split; [|vm_compute; reflexivity].
  rewrite (player_win_claim_counts_discard_twice claimingGame wonGame [] Hclaim), Hcount.
  reflexivity.
Defined.

(** * The loops of game.js end within their fuel *)

Lemma drawReplacement_tilesLeft w x w' :
  Game.drawReplacement w = (Some x, w') ->
  S (Game.tilesLeft w') = Game.tilesLeft w.
Proof.
  unfold Game.drawReplacement, Wall.drawFromDeadWall, Wall.draw, Game.tilesLeft.
  destruct (list.last (Wall.deadWall w)) as [y|] eqn:Hlast.
  - intros [= <- <-]. apply last_Some in Hlast as [l' El]. cbn. rewrite El.
    rewrite removelast_last, length_app. cbn. lia.
  - destruct (Wall.tiles w !! Wall.drawIndex w) as [y|] eqn:Hdraw; [|discriminate].
    intros [= <- <-]. apply lookup_lt_Some in Hdraw. cbn. lia.
Qed.

Lemma bloomAt_tilesLeft i b hand w b' hand' w' :
  Game.bloomAt i (b, hand, w) = (b', hand', w') ->
  (Game.tilesLeft w' <= Game.tilesLeft w)%nat
  /\ (b' = true -> b = true \/ (Game.tilesLeft w' < Game.tilesLeft w)%nat).
Proof.
  unfold Game.bloomAt.
  destruct (Hand.concealed hand !! i) as [tile|]; [|intros [= <- <- <-]; auto].
  destruct (Tile.isBonus tile); [|intros [= <- <- <-]; auto].
  destruct (Game.drawReplacement w) as [[x|] w1] eqn:Hdraw; [|intros [= <- <- <-]; auto].
  intros [= <- <- <-]. apply drawReplacement_tilesLeft in Hdraw. lia.
Qed.

Lemma bloomPass_tilesLeft n : forall b hand w b' hand' w',
  Game.bloomPass n (b, hand, w) = (b', hand', w') ->
  (Game.tilesLeft w' <= Game.tilesLeft w)%nat
  /\ (b' = true -> b = true \/ (Game.tilesLeft w' < Game.tilesLeft w)%nat).
Proof.
  induction n as [|n IH]; intros b hand w b' hand' w'; cbn [Game.bloomPass].
  - intros [= <- <- <-]. auto.
  - destruct (Game.bloomAt n (b, hand, w)) as [[b1 hand1] w1] eqn:Hat.
    intros Hpass. apply bloomAt_tilesLeft in Hat as [Hle Hb].
    apply IH in Hpass as [Hle' Hb']. split; [lia|].
    intros ->. destruct (Hb' eq_refl) as [->|]; [|lia].
    destruct (Hb eq_refl); [auto|lia].
Qed.

(** [bloomLoop] with more passes allowed than tiles are left to draw stops
    on a pass that found no bonus tile: one more unit of fuel changes
    nothing. *)
Lemma bloomLoop_fuel fuel : forall hand w,
  (Game.tilesLeft w < fuel)%nat ->
  Game.bloomLoop (S fuel) hand w = Game.bloomLoop fuel hand w.
Proof.
  induction fuel as [|fuel IH]; intros hand w Hlt; [lia|].
  cbn [Game.bloomLoop].
  destruct (Game.bloomPass (length (Hand.concealed hand)) (false, hand, w))
    as [[b hand'] w'] eqn:Hpass.
  destruct b; [|reflexivity].
  apply bloomPass_tilesLeft in Hpass as [_ Hb].
  destruct (Hb eq_refl) as [|Hlt']; [discriminate|].
  apply (IH hand' w'). lia.
Qed.

(** [popExcess], allowed as many rounds as the hand has tiles, stops with
    the loop condition false. *)
Lemma popExcess_fuel fuel target : forall hand,
  (length (Hand.concealed hand) - target <= fuel)%nat ->
  (length (Hand.concealed (Game.popExcess fuel target hand)) <= target)%nat.
Proof.
  induction fuel as [|fuel IH]; intros hand Hfuel; cbn [Game.popExcess]; [lia|].
  destruct (decide _) as [Hgt|]; [|lia].
  destruct (list.last _) as [excess|] eqn:E.
  - apply last_Some in E as [l' El]. apply IH.
    destruct hand; cbn in *. subst. rewrite removelast_last.
    rewrite length_app in Hfuel. cbn in Hfuel. lia.
  - apply last_None in E. rewrite E in Hgt. cbn in Hgt. lia.
Qed.

Lemma hands_set_wall w g : GameObj.hands (GameObj.set_wall w g) = GameObj.hands g.
Proof. destruct g; reflexivity. Qed.

Lemma at_setHand p h g :
  is_Some (at_ (GameObj.hands g) p) ->
  at_ (GameObj.hands (Game.setHand p h g)) p = Some h.
Proof.
  intros [x Hx]. pose proof (at_Some_range _ _ _ Hx) as Hr.
  unfold at_, Game.setHand. rewrite decide_False by lia.
  destruct g. cbn in *. apply list_lookup_insert_eq. lia.
Qed.

Lemma bloomAt_length i b hand w b' hand' w' :
  Game.bloomAt i (b, hand, w) = (b', hand', w') ->
  length (Hand.concealed hand') = length (Hand.concealed hand).
Proof.
  unfold Game.bloomAt.
  destruct (Hand.concealed hand !! i) as [tile|] eqn:Hi; [|intros [= <- <- <-]; auto].
  destruct (Tile.isBonus tile); [|intros [= <- <- <-]; auto].
  destruct (Game.drawReplacement w) as [[x|] w1]; [|intros [= <- <- <-]; auto].
  intros [= <- <- <-]. pose proof (lookup_lt_Some _ _ _ Hi) as Hlt.
  destruct hand. cbn in *. rewrite length_app, length_delete by eauto. cbn. lia.
Qed.

Lemma bloomPass_length n : forall b hand w b' hand' w',
  Game.bloomPass n (b, hand, w) = (b', hand', w') ->
  length (Hand.concealed hand') = length (Hand.concealed hand).
Proof.
  induction n as [|n IH]; intros b hand w b' hand' w'; cbn [Game.bloomPass].
  - intros [= <- <- <-]. reflexivity.
  - destruct (Game.bloomAt n (b, hand, w)) as [[b1 hand1] w1] eqn:Hat.
    intros Hpass. apply bloomAt_length in Hat. apply IH in Hpass. congruence.
Qed.

Lemma bloomLoop_length fuel : forall hand w,
  length (Hand.concealed (fst (Game.bloomLoop fuel hand w))) = length (Hand.concealed hand).
Proof.
  induction fuel as [|fuel IH]; intros hand w; cbn [Game.bloomLoop]; [reflexivity|].
  destruct (Game.bloomPass _ _) as [[b hand'] w'] eqn:Hpass.
  apply bloomPass_length in Hpass.
  destruct b; [rewrite IH|]; exact Hpass.
Qed.

(** [refill], allowed [target] rounds, stops with the hand at [target]
    tiles or with the live wall exhausted. *)
Lemma refill_fuel fuel target p : forall g hand g',
  at_ (GameObj.hands g) p = Some hand ->
  (target - length (Hand.concealed hand) <= fuel)%nat ->
  Game.refill fuel target p g = Some g' ->
  exists hand', at_ (GameObj.hands g') p = Some hand'
    /\ ((target <= length (Hand.concealed hand'))%nat
        \/ fst (Wall.draw (GameObj.wall g')) = None).
Proof.
  induction fuel as [|fuel IH]; intros g hand g' Hhand Hfuel; cbn [Game.refill].
  - intros [= <-]. exists hand. split; [exact Hhand|left; lia].
  - rewrite Hhand. cbn [mbind option_bind].
    destruct (decide _) as [Hlt|]; [|intros [= <-]; exists hand; split; [exact Hhand|left; lia]].
    destruct (Wall.draw (GameObj.wall g)) as [[extra|] w] eqn:Hdraw.
    2:{ intros [= <-]. exists hand. split; [exact Hhand|right]. rewrite Hdraw. reflexivity. }
    set (g1 := Game.setHand p (Hand.addTile extra hand) (GameObj.set_wall w g)).
    assert (at_ (GameObj.hands g1) p = Some (Hand.addTile extra hand)) as H1.
    { apply at_setHand. rewrite hands_set_wall, Hhand. eauto. }
    unfold Game._handleFlowerBloom. rewrite H1. cbn [mbind option_bind].
    pose proof (bloomLoop_length (S (Game.tilesLeft (GameObj.wall g1)))
                  (Hand.addTile extra hand) (GameObj.wall g1)) as Hlen.
    destruct (Game.bloomLoop _ _ _) as [hand2 w2]. cbn [fst] in Hlen.
    apply (IH _ (Hand.sort hand2)).
    + apply at_setHand. rewrite hands_set_wall, H1. eauto.
    + assert (length (Hand.concealed (Hand.sort hand2)) = S (length (Hand.concealed hand))) as ->.
      { transitivity (length (Hand.concealed hand2)).
        - destruct hand2; cbn. apply sort_length.
        - rewrite Hlen. unfold Hand.addTile, Hand.sort. destruct hand; cbn.
          rewrite sort_length, length_app. cbn. lia. }
      lia.
Qed.

(* ================================================================== *)
(** * Further properties of the code *)
(* ================================================================== *)

(** Tiles without flowers and seasons, checked one by one. *)
Ltac no_bonus := unfold noBonus; repeat (apply List.Forall_cons; [reflexivity|]); apply List.Forall_nil.

(** Tiles in order, checked pair by pair. *)
Ltac in_order :=
  repeat first
    [ apply SSorted_nil
    | apply SSorted_cons
    | apply List.Forall_nil
    | apply List.Forall_cons
    | (unfold notAfter; eexists _, _; split; [reflexivity|]; split; [reflexivity|]; cbn; lia) ].

(** * Sorting a hand *)

Lemma insert_Permutation x l : Tile.insert x l ≡ₚ x :: l.
Proof.
  induction l as [|y l IH]; cbn [Tile.insert]; [reflexivity|].
  destruct (Tile.before y x); [|reflexivity].
  rewrite IH. apply Permutation_swap.
Qed.

Lemma sort_Permutation l : Tile.sort l ≡ₚ l.
Proof.
  induction l as [|x l IH]; cbn [Tile.sort]; [reflexivity|].
  rewrite insert_Permutation, IH. reflexivity.
Qed.

Lemma noBonus_sortKey x : Tile.isBonus x = false -> is_Some (Tile.sortKey x).
Proof.
  unfold Tile.isBonus, Tile.isFlower, Tile.isSeason, Tile.sortKey.
  destruct x as [[] v i]; cbn; intros H; try discriminate; eauto.
Qed.

Lemma before_false y x ka kb :
  Tile.sortKey y = Some kb -> Tile.sortKey x = Some ka ->
  Tile.before y x = bool_decide (kb < ka).
Proof.
  intros Hy Hx. unfold Tile.before, Tile.compare. rewrite Hy, Hx. cbn.
  apply bool_decide_ext. lia.
Qed.

Lemma insert_sorted x l :
  Tile.isBonus x = false -> noBonus l ->
  StronglySorted notAfter l -> StronglySorted notAfter (Tile.insert x l).
Proof.
  intros Hx Hl Hs. destruct (noBonus_sortKey x Hx) as [ka Hka].
  induction l as [|y l IH]; cbn [Tile.insert].
  - repeat constructor.
  - apply list.Forall_cons in Hl as [Hy Hl]. destruct (noBonus_sortKey y Hy) as [kb Hkb].
    apply StronglySorted_inv in Hs as [Hs Hall].
    rewrite (before_false y x ka kb Hkb Hka).
    destruct (bool_decide_reflect (kb < ka)) as [Hlt|Hge].
    + constructor; [apply IH; assumption|].
      rewrite insert_Permutation. constructor; [|exact Hall].
      exists kb, ka. repeat split; [assumption..|lia].
    + constructor; [constructor; assumption|].
      constructor; [exists ka, kb; repeat split; [assumption..|lia]|].
      eapply List.Forall_impl; [|exact Hall].
      intros z (kb' & kz & E1 & E2 & Hle). rewrite Hkb in E1. injection E1 as <-.
      exists ka, kz. repeat split; [assumption..|lia].
Qed.

Lemma sameRank_insert_other x y l :
  Tile.sortKey y <> Tile.sortKey x ->
  sameRank x (Tile.insert y l) = sameRank x l.
Proof.
  intros Hne. unfold sameRank.
  induction l as [|z l IH]; cbn [Tile.insert List.filter].
  - rewrite bool_decide_eq_false_2 by assumption. reflexivity.
  - destruct (Tile.before z y); cbn [List.filter].
    + rewrite IH. reflexivity.
    + rewrite (bool_decide_eq_false_2 _ Hne). reflexivity.
Qed.

Lemma sameRank_insert_same x y l :
  Tile.isBonus y = false -> noBonus l -> StronglySorted notAfter l ->
  Tile.sortKey y = Tile.sortKey x ->
  sameRank x (Tile.insert y l) = y :: sameRank x l.
Proof.
  intros Hy Hl Hs Heq. unfold sameRank.
  destruct (noBonus_sortKey y Hy) as [ka Hka].
  induction l as [|z l IH]; cbn [Tile.insert List.filter].
  - rewrite bool_decide_eq_true_2 by assumption. reflexivity.
  - apply list.Forall_cons in Hl as [Hz Hl]. destruct (noBonus_sortKey z Hz) as [kb Hkb].
    apply StronglySorted_inv in Hs as [Hs Hall].
    rewrite (before_false z y ka kb Hkb Hka).
    destruct (bool_decide_reflect (kb < ka)) as [Hlt|Hge]; cbn [List.filter].
    + rewrite (IH Hl Hs).
      rewrite bool_decide_eq_false_2; [reflexivity|].
      rewrite <- Heq, Hkb, Hka. intros [= ->]. lia.
    + rewrite (bool_decide_eq_true_2 _ Heq). reflexivity.
Qed.

Lemma sort_sorted l : noBonus l -> StronglySorted notAfter (Tile.sort l).
Proof.
  induction l as [|y l IH]; intros Hl; cbn [Tile.sort]; [constructor|].
  apply list.Forall_cons in Hl as [Hy Hl].
  apply insert_sorted; [exact Hy| |apply IH, Hl].
  unfold noBonus. rewrite sort_Permutation. exact Hl.
Qed.

(** X1.  [sort()] keeps the tiles it is given.  On tiles without flowers
    and seasons it leaves them in ascending order of [sortKey], the tiles
    of equal key in the order they had. *)
Theorem sort_sorts (l : list Tile.t) :
  Tile.sort l ≡ₚ l
  /\ (noBonus l ->
      StronglySorted notAfter (Tile.sort l)
      /\ forall x, sameRank x (Tile.sort l) = sameRank x l).
Proof.
  split; [apply sort_Permutation|].
  induction l as [|y l IH]; intros Hl; cbn [Tile.sort].
  - split; [constructor|reflexivity].
  - apply list.Forall_cons in Hl as [Hy Hl]. destruct (IH Hl) as [Hs Hst].
    assert (noBonus (Tile.sort l)) as Hl'.
    { unfold noBonus. rewrite sort_Permutation. exact Hl. }
    split; [apply insert_sorted; assumption|].
    intros x. destruct (decide (Tile.sortKey y = Tile.sortKey x)) as [Heq|Hne].
    + rewrite sameRank_insert_same by assumption. rewrite Hst.
      unfold sameRank. cbn [List.filter]. rewrite (bool_decide_eq_true_2 _ Heq). reflexivity.
    + rewrite sameRank_insert_other by assumption. rewrite Hst.
      unfold sameRank. cbn [List.filter]. rewrite (bool_decide_eq_false_2 _ Hne). reflexivity.
Qed.

Lemma sort_sorts_witness :
  Tile.sort sortExample
  = [Tile.mk WAN 9 32; Tile.mk WAN 9 33; Tile.mk TUNG 1 36; Tile.mk SOK 3 80; Tile.mk WIND 2 112]
  /\ StronglySorted notAfter (Tile.sort sortExample)
  /\ sameRank (Tile.mk WAN 9 0) (Tile.sort sortExample) = [Tile.mk WAN 9 32; Tile.mk WAN 9 33].
Proof.
  destruct (sort_sorts sortExample) as [_ H].
  destruct H as [Hs Hr]; [no_bonus|].
  split; [reflexivity|]. split; [exact Hs|]. rewrite Hr. reflexivity.
Defined.

(** * The operations of a hand *)

Lemma find_removeFirst {A} (p : A -> bool) (l : list A) x :
  List.find p l = Some x -> p x = true /\ l ≡ₚ x :: removeFirst p l.
Proof.
  induction l as [|y l IH]; cbn [List.find removeFirst]; [discriminate|].
  destruct (p y) eqn:Hy.
  - intros [= ->]. auto.
  - intros H. destruct (IH H) as [Hp Hperm]. split; [exact Hp|].
    rewrite Hperm at 1. apply Permutation_swap.
Qed.

Lemma find_none_removeFirst {A} (p : A -> bool) (l : list A) :
  List.find p l = None -> removeFirst p l = l.
Proof.
  induction l as [|y l IH]; cbn [List.find removeFirst]; [reflexivity|].
  destruct (p y); [discriminate|]. intros H. rewrite (IH H). reflexivity.
Qed.

Lemma find_none_filter {A} (p : A -> bool) (l : list A) :
  List.find p l = None <-> List.filter p l = [].
Proof.
  induction l as [|y l IH]; cbn [List.find List.filter]; [tauto|].
  destruct (p y); [split; discriminate|exact IH].
Qed.

Lemma filter_removeFirst {A} (p : A -> bool) (l : list A) :
  List.filter p (removeFirst p l) = tail (List.filter p l).
Proof.
  induction l as [|y l IH]; cbn [removeFirst List.filter]; [reflexivity|].
  destruct (p y) eqn:Hy; cbn [tail List.filter]; [reflexivity|].
  rewrite Hy. exact IH.
Qed.

Lemma filter_removeFirst_other {A} (p q : A -> bool) (l : list A) :
  (forall x, p x = true -> q x = false) ->
  List.filter q (removeFirst p l) = List.filter q l.
Proof.
  intros Hpq. induction l as [|y l IH]; cbn [removeFirst List.filter]; [reflexivity|].
  destruct (p y) eqn:Hy.
  - rewrite (Hpq y Hy). reflexivity.
  - cbn [List.filter]. rewrite IH. reflexivity.
Qed.

(** ** Discarding *)

Lemma removeFirst_id (tile : Tile.t) (l : list Tile.t) :
  tile ∈ l -> distinctIds l ->
  l ≡ₚ tile :: removeFirst (fun x => bool_decide (Tile.id x = Tile.id tile)) l.
Proof.
  intros Hin Hnd.
  destruct (List.find (fun x => bool_decide (Tile.id x = Tile.id tile)) l) as [x|] eqn:Hf.
  - apply find_removeFirst in Hf as [Hp Hperm].
    apply bool_decide_eq_true_1 in Hp.
    assert (x = tile) as ->; [|exact Hperm].
    assert (x ∈ l) as Hx by (rewrite Hperm; left).
    apply list_elem_of_lookup in Hx as [i Hi]. apply list_elem_of_lookup in Hin as [j Hj].
    assert (i = j) as ->.
    { eapply NoDup_lookup; [exact Hnd| |]; rewrite list_lookup_fmap.
      - rewrite Hi. reflexivity.
      - rewrite Hj. cbn. rewrite Hp. reflexivity. }
    congruence.
  - apply find_none_filter in Hf.
    assert (tile ∈ List.filter (fun x => bool_decide (Tile.id x = Tile.id tile)) l) as Hc.
    { apply list_elem_of_In, filter_In. split; [apply list_elem_of_In, Hin|].
      apply bool_decide_eq_true_2. reflexivity. }
    rewrite Hf in Hc. apply elem_of_nil in Hc. contradiction.
Qed.

(** X2.  [discard(tile)] puts the tile on the discard pile whether the hand
    holds it or not.  A tile of the hand (ids distinct) leaves the
    concealed tiles; with no concealed tile of that id the concealed tiles
    stay as they are. *)
Theorem discard_moves_tile (tile : Tile.t) (h : Hand.t) :
  Hand.discards (Hand.discard tile h) = Hand.discards h ++ [tile]
  /\ Hand.melds (Hand.discard tile h) = Hand.melds h
  /\ Hand.flowers (Hand.discard tile h) = Hand.flowers h
  /\ (tile ∈ Hand.concealed h -> distinctIds (Hand.concealed h) ->
      Hand.concealed h ≡ₚ tile :: Hand.concealed (Hand.discard tile h))
  /\ (Tile.id tile ∉ Tile.id <$> Hand.concealed h ->
      Hand.concealed (Hand.discard tile h) = Hand.concealed h).
Proof.
  unfold Hand.discard, Hand.removeTile. destruct h as [p c m f d]. cbn.
  repeat split.
  - apply removeFirst_id.
  - intros Hnot. apply find_none_removeFirst, find_none_filter.
    destruct (List.filter _ c) as [|x l] eqn:E; [reflexivity|].
    assert (x ∈ List.filter (fun x => bool_decide (Tile.id x = Tile.id tile)) c) as Hx
      by (rewrite E; left).
    apply list_elem_of_In, filter_In in Hx as [Hx Hid].
    apply bool_decide_eq_true_1 in Hid. exfalso. apply Hnot.
    rewrite <- Hid. apply list_elem_of_fmap_2, list_elem_of_In, Hx.
Qed.

Lemma discard_moves_tile_witness :
  Hand.concealed kongHand
  ≡ₚ Tile.mk WAN 2 4 :: Hand.concealed (Hand.discard (Tile.mk WAN 2 4) kongHand).
Proof.
  destruct (discard_moves_tile (Tile.mk WAN 2 4) kongHand) as (_ & _ & _ & H & _).
  apply H.
  - apply (bool_decide_unpack _). vm_compute. exact I.
  - apply (bool_decide_unpack _). vm_compute. exact I.
Defined.

(** ** Melding *)

Lemma removeTileByKey_Some key h x h' :
  Hand.removeTileByKey key h = (Some x, h') ->
  Hand.getTilesByKey key h = x :: Hand.getTilesByKey key h'
  /\ Hand.concealed h ≡ₚ x :: Hand.concealed h'
  /\ (forall k, k <> key -> Hand.getTilesByKey k h' = Hand.getTilesByKey k h)
  /\ Hand.melds h' = Hand.melds h /\ sameRest h h'.
Proof.
  unfold Hand.removeTileByKey, Hand.getTilesByKey.
  destruct (List.find (Hand.hasKey key) (Hand.concealed h)) as [y|] eqn:Hf; [|discriminate].
  intros [= -> <-]. destruct h as [p c m f d]. cbn in *.
  pose proof (find_removeFirst _ _ _ Hf) as [Hp Hperm].
  repeat split; try assumption.
  - rewrite filter_removeFirst.
    clear Hperm. induction c as [|z c IH]; [discriminate|].
    cbn [List.find List.filter] in *. destruct (Hand.hasKey key z).
    + injection Hf as ->. reflexivity.
    + apply IH, Hf.
  - intros k Hk. apply filter_removeFirst_other. intros z Hz.
    unfold Hand.hasKey in *. apply bool_decide_eq_true_1 in Hz.
    apply bool_decide_eq_false_2. congruence.
Qed.

Lemma removeTileByKey_None key h h' :
  Hand.removeTileByKey key h = (None, h') ->
  h' = h /\ Hand.getTilesByKey key h = [].
Proof.
  unfold Hand.removeTileByKey, Hand.getTilesByKey.
  destruct (List.find (Hand.hasKey key) (Hand.concealed h)) as [y|] eqn:Hf; [discriminate|].
  intros [= <-]. split; [reflexivity|]. apply find_none_filter, Hf.
Qed.

Lemma sameRest_refl h : sameRest h h.
Proof. repeat split. Qed.

Lemma sameRest_trans h1 h2 h3 : sameRest h1 h2 -> sameRest h2 h3 -> sameRest h1 h3.
Proof. unfold sameRest. intros (? & ? & ?) (? & ? & ?). repeat split; congruence. Qed.

Lemma takeByKeys_replicate n key : forall acc h,
  let taken := take n (Hand.getTilesByKey key h) in
  let r := Hand.takeByKeys (replicate n key) acc h in
  fst r = acc ++ taken
  /\ Hand.concealed h ≡ₚ taken ++ Hand.concealed (snd r)
  /\ Hand.melds (snd r) = Hand.melds h /\ sameRest h (snd r).
Proof.
  induction n as [|n IH]; intros acc h; cbn [replicate Hand.takeByKeys].
  - cbn. rewrite app_nil_r. repeat split; reflexivity.
  - destruct (Hand.removeTileByKey key h) as [[x|] h'] eqn:Hr.
    + apply removeTileByKey_Some in Hr as (Hk & Hperm & _ & Hm & Hrest).
      destruct (IH (acc ++ [x]) h') as (E1 & E2 & E3 & E4).
      rewrite Hk. cbn [take]. rewrite E1, <- app_assoc. cbn [app].
      repeat split; try (destruct Hrest as (?&?&?), E4 as (?&?&?); congruence).
      rewrite Hperm, E2. reflexivity.
    + apply removeTileByKey_None in Hr as [-> Hk].
      destruct (IH acc h) as (E1 & E2 & E3 & E4).
      rewrite Hk in *. rewrite take_nil in *. auto.
Qed.

Lemma pushMeld_made ty first n key h :
  let r := Hand.takeByKeys (replicate n key) first h in
  meldMade ty first n key h (Hand.pushMeld ty (fst r) (snd r)).
Proof.
  intros r. destruct (takeByKeys_replicate n key first h) as (E1 & E2 & E3 & E4).
  fold r in E1, E2, E3, E4. unfold meldMade, Hand.pushMeld.
  destruct (snd r) as [p c m f d] eqn:Es. cbn in *. rewrite E1, E3.
  repeat split; try assumption; apply E4.
Qed.

(** X3.  [doPung], [doKongExposed] and [doKongConcealed] make their meld of
    the claimed discard (none for the concealed kong) and of the first 2, 3
    and 4 concealed tiles of the key, and of fewer when the hand has fewer:
    nothing checks the count.  The tiles taken leave the hand, so no tile
    is lost or made; the meld has its 3 or 4 tiles exactly when [canPung],
    [canKongFromDiscard], or four tiles of the key, allow it. *)
Theorem melds_take_from_hand (tile : Tile.t) (key : Key) (h : Hand.t) :
  (meldMade PUNG [tile] 2 (Tile.key tile) h (Hand.doPung tile h)
   /\ (Hand.canPung tile h = true <->
       length (take 2 (Hand.getTilesByKey (Tile.key tile) h)) = 2%nat))
  /\ (meldMade KONG_EXPOSED [tile] 3 (Tile.key tile) h (Hand.doKongExposed tile h)
      /\ (Hand.canKongFromDiscard tile h = true <->
          length (take 3 (Hand.getTilesByKey (Tile.key tile) h)) = 3%nat))
  /\ (meldMade KONG_CONCEALED [] 4 key h (Hand.doKongConcealed key h)
      /\ (key ∈ Hand.getConcealedKongs h ->
          length (take 4 (Hand.getTilesByKey key h)) = 4%nat)).
Proof.
  unfold Hand.doPung, Hand.doKongExposed, Hand.doKongConcealed,
    Hand.canPung, Hand.canKongFromDiscard, Hand.countByKey.
  split; [|split]; (split; [
    match goal with
    | |- meldMade ?ty ?first ?n ?k _ _ =>
        pose proof (pushMeld_made ty first n k h) as H; cbv zeta in H;
        destruct (Hand.takeByKeys (replicate n k) first h); exact H
    end|]).
  - rewrite bool_decide_eq_true, length_take. lia.
  - rewrite bool_decide_eq_true, length_take. lia.
  - unfold Hand.getConcealedKongs. intros Hk.
    apply list_elem_of_In, filter_In in Hk as [_ Hk]. apply bool_decide_eq_true_1 in Hk.
    rewrite length_take.
    pose proof (groupByKey_total (Hand.concealed h) key) as Ht.
    rewrite lookup_total_alt, Hk in Ht. cbn in Ht.
    unfold Hand.getTilesByKey. unfold keyCount in Ht. rewrite <- Ht. reflexivity.
Qed.

Lemma melds_take_from_hand_witness :
  length (take 4 (Hand.getTilesByKey (WAN, 1) kongHand)) = 4%nat
  /\ Hand.melds (Hand.doKongConcealed (WAN, 1) kongHand)
     = [Meld.mk KONG_CONCEALED
          [Tile.mk WAN 1 0; Tile.mk WAN 1 1; Tile.mk WAN 1 2; Tile.mk WAN 1 3] None].
Proof.
  destruct (melds_take_from_hand (Tile.mk WAN 1 0) (WAN, 1) kongHand) as (_ & _ & [Hm] & H).
  split; [|exact Hm]. apply H.
  apply (bool_decide_unpack _). vm_compute. exact I.
Defined.

(** ** Chows *)

Lemma before_same_suit y x :
  Tile.suit y = Tile.suit x -> Tile.isNumberSuit x = true ->
  Tile.before y x = bool_decide (Tile.value y < Tile.value x).
Proof.
  intros Hs Hn. unfold Tile.before, Tile.compare, Tile.sortKey. rewrite Hs.
  unfold Tile.isNumberSuit, Tile.suitIsNumber in Hn.
  destruct (Tile.suit x); try discriminate Hn; cbn; apply bool_decide_ext; lia.
Qed.

Lemma removeTileByKey_found key h :
  (0 < Hand.countByKey key h)%nat ->
  exists x h', Hand.removeTileByKey key h = (Some x, h') /\ Tile.key x = key.
Proof.
  unfold Hand.countByKey, Hand.getTilesByKey, Hand.removeTileByKey. intros Hc.
  destruct (List.find (Hand.hasKey key) (Hand.concealed h)) as [x|] eqn:Hf.
  - eexists _, _. split; [reflexivity|].
    apply find_removeFirst in Hf as [Hp _]. apply bool_decide_eq_true_1 in Hp. exact Hp.
  - apply find_none_filter in Hf. rewrite Hf in Hc. cbn in Hc. lia.
Qed.

Lemma takeByKeys_pair k1 k2 tile h :
  k1 <> k2 -> (0 < Hand.countByKey k1 h)%nat -> (0 < Hand.countByKey k2 h)%nat ->
  exists a b h',
    Hand.takeByKeys [k1; k2] [tile] h = ([tile; a; b], h')
    /\ Tile.key a = k1 /\ Tile.key b = k2
    /\ Hand.concealed h ≡ₚ a :: b :: Hand.concealed h'
    /\ Hand.melds h' = Hand.melds h /\ sameRest h h'.
Proof.
  intros Hne H1 H2. cbn [Hand.takeByKeys].
  destruct (removeTileByKey_found k1 h H1) as (a & h1 & E1 & Ka). rewrite E1.
  apply removeTileByKey_Some in E1 as (_ & P1 & O1 & M1 & R1).
  assert (0 < Hand.countByKey k2 h1)%nat as H2'.
  { unfold Hand.countByKey. rewrite O1 by congruence. exact H2. }
  destruct (removeTileByKey_found k2 h1 H2') as (b & h2 & E2 & Kb). rewrite E2.
  apply removeTileByKey_Some in E2 as (_ & P2 & _ & M2 & R2).
  exists a, b, h2. repeat split; try (destruct R1 as (?&?&?), R2 as (?&?&?); congruence).
  rewrite P1, P2. reflexivity.
Qed.

Lemma sort_run (tile a b : Tile.t) (lo : Z) :
  Tile.isNumberSuit tile = true ->
  Tile.suit a = Tile.suit tile -> Tile.suit b = Tile.suit tile ->
  (Tile.value a = lo /\ Tile.value b = lo + 1 /\ Tile.value tile = lo + 2)
  \/ (Tile.value a = lo /\ Tile.value b = lo + 2 /\ Tile.value tile = lo + 1)
  \/ (Tile.value a = lo + 1 /\ Tile.value b = lo + 2 /\ Tile.value tile = lo) ->
  Tile.key <$> Tile.sort [tile; a; b]
  = [(Tile.suit tile, lo); (Tile.suit tile, lo + 1); (Tile.suit tile, lo + 2)].
Proof.
  intros Hn Sa Sb Hv.
  assert (Tile.isNumberSuit a = true) as Hna by (unfold Tile.isNumberSuit; rewrite Sa; exact Hn).
  assert (Tile.isNumberSuit b = true) as Hnb by (unfold Tile.isNumberSuit; rewrite Sb; exact Hn).
  cbn [Tile.sort Tile.insert].
  rewrite (before_same_suit b a) by congruence.
  destruct Hv as [(Va & Vb & Vt)|[(Va & Vb & Vt)|(Va & Vb & Vt)]];
    rewrite (bool_decide_eq_false_2 (Tile.value b < Tile.value a)) by lia;
    cbn [Tile.insert];
    rewrite (before_same_suit a tile) by congruence.
  - rewrite (bool_decide_eq_true_2 (Tile.value a < Tile.value tile)) by lia.
    cbn [Tile.insert]. rewrite (before_same_suit b tile) by congruence.
    rewrite (bool_decide_eq_true_2 (Tile.value b < Tile.value tile)) by lia.
    cbn [Tile.insert fmap list_fmap]. unfold Tile.key. rewrite Sa, Sb, Va, Vb, Vt. reflexivity.
  - rewrite (bool_decide_eq_true_2 (Tile.value a < Tile.value tile)) by lia.
    cbn [Tile.insert]. rewrite (before_same_suit b tile) by congruence.
    rewrite (bool_decide_eq_false_2 (Tile.value b < Tile.value tile)) by lia.
    cbn [Tile.insert fmap list_fmap]. unfold Tile.key. rewrite Sa, Sb, Va, Vb, Vt. reflexivity.
  - rewrite (bool_decide_eq_false_2 (Tile.value a < Tile.value tile)) by lia.
    cbn [Tile.insert fmap list_fmap]. unfold Tile.key. rewrite Sa, Sb, Va, Vb, Vt. reflexivity.
Qed.

(** X4.  A combo offered by [canChow] makes [doChow] build a run: the new
    meld holds the claimed tile and one concealed tile for each key of the
    combo, sorted, and their keys are three consecutive values of the
    tile's suit, so that [tiles[0]] is the lowest tile of the run.  The two
    tiles leave the hand and nothing else changes. *)
Theorem doChow_makes_run (tile : Tile.t) (combo : list Key) (h : Hand.t) :
  combo ∈ Hand.canChow tile h ->
  exists a b lo,
    Hand.melds (Hand.doChow tile combo h)
    = Hand.melds h ++ [Meld.mk CHOW (Tile.sort [tile; a; b]) None]
    /\ Tile.key <$> Tile.sort [tile; a; b]
       = [(Tile.suit tile, lo); (Tile.suit tile, lo + 1); (Tile.suit tile, lo + 2)]
    /\ Tile.value tile - 2 <= lo <= Tile.value tile
    /\ Hand.concealed h ≡ₚ a :: b :: Hand.concealed (Hand.doChow tile combo h)
    /\ sameRest h (Hand.doChow tile combo h).
Proof.
  unfold Hand.canChow. destruct (Tile.isNumberSuit tile) eqn:Hn; cbn [negb];
    [|intros H; apply elem_of_nil in H; contradiction].
  set (s := Tile.suit tile). set (v := Tile.value tile).
  assert (forall k1 k2 lo,
            (0 < Hand.countByKey (s, k1) h)%nat -> (0 < Hand.countByKey (s, k2) h)%nat ->
            v - 2 <= lo <= v ->
            (k1 = lo /\ k2 = lo + 1 /\ v = lo + 2)
            \/ (k1 = lo /\ k2 = lo + 2 /\ v = lo + 1)
            \/ (k1 = lo + 1 /\ k2 = lo + 2 /\ v = lo) ->
            combo = [(s, k1); (s, k2)] ->
            exists a b lo,
              Hand.melds (Hand.doChow tile combo h)
              = Hand.melds h ++ [Meld.mk CHOW (Tile.sort [tile; a; b]) None]
              /\ Tile.key <$> Tile.sort [tile; a; b] = [(s, lo); (s, lo + 1); (s, lo + 2)]
              /\ v - 2 <= lo <= v
              /\ Hand.concealed h ≡ₚ a :: b :: Hand.concealed (Hand.doChow tile combo h)
              /\ sameRest h (Hand.doChow tile combo h)) as Hcase.
  { intros k1 k2 lo H1 H2 Hlo Hrun ->.
    destruct (takeByKeys_pair (s, k1) (s, k2) tile h) as (a & b & h' & E & Ka & Kb & P & M & R);
      [intros [=]; lia|assumption..|].
    exists a, b, lo. unfold Hand.doChow. rewrite E.
    unfold Hand.pushMeld. destruct h' as [p c m f d]. cbn in M, P, R |- *. subst m.
    split; [reflexivity|]. split; [|auto].
    unfold Tile.key in Ka, Kb. injection Ka as Sa Va. injection Kb as Sb Vb.
    apply sort_run; [exact Hn|exact Sa|exact Sb|]. rewrite Va, Vb. exact Hrun. }
  rewrite !elem_of_app. intros [H|[H|H]];
    match type of H with
    | _ ∈ (if ?c then _ else _) => destruct c eqn:Hc; [|apply elem_of_nil in H; contradiction]
    end;
    apply list_elem_of_singleton in H;
    repeat (apply andb_prop in Hc as [Hc ?]);
    repeat match goal with
           | H : bool_decide _ = true |- _ => apply bool_decide_eq_true_1 in H
           end.
  - apply (Hcase (v - 2) (v - 1) (v - 2)); [assumption..|lia|left; lia|exact H].
  - apply (Hcase (v - 1) (v + 1) (v - 1)); [assumption..|lia|right; left; lia|exact H].
  - apply (Hcase (v + 1) (v + 2) v); [assumption..|lia|right; right; lia|exact H].
Qed.

Lemma doChow_makes_run_witness :
  exists a b lo,
    Hand.melds (Hand.doChow wan2 [(WAN, 1); (WAN, 3)] kongHand)
    = Hand.melds kongHand ++ [Meld.mk CHOW (Tile.sort [wan2; a; b]) None]
    /\ Tile.key <$> Tile.sort [wan2; a; b]
       = [(Tile.suit wan2, lo); (Tile.suit wan2, lo + 1); (Tile.suit wan2, lo + 2)]
    /\ Tile.value wan2 - 2 <= lo <= Tile.value wan2
    /\ Hand.concealed kongHand
       ≡ₚ a :: b :: Hand.concealed (Hand.doChow wan2 [(WAN, 1); (WAN, 3)] kongHand)
    /\ sameRest kongHand (Hand.doChow wan2 [(WAN, 1); (WAN, 3)] kongHand).
Proof.
  apply (doChow_makes_run wan2 [(WAN, 1); (WAN, 3)] kongHand).
  apply (bool_decide_unpack _). vm_compute. exact I.
Defined.

Lemma comboOf_cases tile lo :
  lo <= Tile.value tile <= lo + 2 ->
  let s := Tile.suit tile in let v := Tile.value tile in
  (lo = v - 2 /\ comboOf tile lo = [(s, v - 2); (s, v - 1)])
  \/ (lo = v - 1 /\ comboOf tile lo = [(s, v - 1); (s, v + 1)])
  \/ (lo = v /\ comboOf tile lo = [(s, v + 1); (s, v + 2)]).
Proof.
  intros Hlo s v. unfold comboOf, Tile.key. fold s v.
  assert (lo = v - 2 \/ lo = v - 1 \/ lo = v) as Hc by lia.
  cbn [List.filter].
  destruct (bool_decide_reflect ((s, lo) = (s, v))) as [E1|N1];
    destruct (bool_decide_reflect ((s, lo + 1) = (s, v))) as [E2|N2];
    destruct (bool_decide_reflect ((s, lo + 2) = (s, v))) as [E3|N3];
    try (injection E1 as E1); try (injection E2 as E2); try (injection E3 as E3);
    try lia; cbn [negb].
  - right. right. split; [lia|]. replace lo with v by lia. reflexivity.
  - right. left. split; [lia|].
    replace (lo + 2) with (v + 1) by lia. replace lo with (v - 1) by lia. reflexivity.
  - left. split; [lia|].
    replace (lo + 1) with (v - 1) by lia. replace lo with (v - 2) by lia. reflexivity.
  - exfalso. destruct Hc as [Hc|[Hc|Hc]].
    + apply N3. f_equal. lia.
    + apply N2. f_equal. lia.
    + apply N1. f_equal. lia.
Qed.

(** X5.  For a number tile of value 1 to 9, [canChow] offers exactly the
    runs of three consecutive values between 1 and 9 that contain the tile
    and whose two other tiles the hand holds, each as the pair of the two
    other keys; for any other tile it offers nothing. *)
Theorem canChow_offers_runs (tile : Tile.t) (h : Hand.t) (combo : list Key) :
  (Tile.isNumberSuit tile = false -> Hand.canChow tile h = [])
  /\ (Tile.isNumberSuit tile = true -> 1 <= Tile.value tile <= 9 ->
      (combo ∈ Hand.canChow tile h <->
       exists lo, 1 <= lo <= 7 /\ lo <= Tile.value tile <= lo + 2
         /\ combo = comboOf tile lo
         /\ Forall (fun k => (0 < Hand.countByKey k h)%nat) combo)).
Proof.
  unfold Hand.canChow. split; [intros ->; reflexivity|].
  intros -> Hv. cbn [negb].
  set (s := Tile.suit tile). set (v := Tile.value tile). fold v in Hv.
  rewrite !elem_of_app. split.
  - intros [H|[H|H]];
      match type of H with
      | _ ∈ (if ?c then _ else _) => destruct c eqn:Hc; [|apply elem_of_nil in H; contradiction]
      end;
      apply list_elem_of_singleton in H; subst combo;
      repeat (apply andb_prop in Hc as [Hc ?]);
      repeat match goal with
             | H : bool_decide _ = true |- _ => apply bool_decide_eq_true_1 in H
             end.
    + exists (v - 2). destruct (comboOf_cases tile (v - 2)) as [[_ E]|[[? _]|[? _]]]; try lia.
      split; [lia|]. split; [lia|]. split; [symmetry; exact E|]. repeat constructor; assumption.
    + exists (v - 1). destruct (comboOf_cases tile (v - 1)) as [[? _]|[[_ E]|[? _]]]; try lia.
      split; [lia|]. split; [lia|]. split; [symmetry; exact E|]. repeat constructor; assumption.
    + exists v. destruct (comboOf_cases tile v) as [[? _]|[[? _]|[_ E]]]; try lia.
      split; [lia|]. split; [lia|]. split; [symmetry; exact E|]. repeat constructor; assumption.
  - intros (lo & Hlo & Hin & -> & Hheld).
    destruct (comboOf_cases tile lo Hin) as [[Hl E]|[[Hl E]|[Hl E]]];
      fold s v in E; rewrite E in Hheld |- *;
      apply list.Forall_cons in Hheld as [H1 Hheld];
      apply list.Forall_cons in Hheld as [H2 _];
      [left|right; left|right; right];
      rewrite !(bool_decide_eq_true_2 _ H1), !(bool_decide_eq_true_2 _ H2);
      rewrite ?bool_decide_eq_true_2 by lia; cbn [andb]; apply list_elem_of_singleton; reflexivity.
Qed.

Lemma canChow_offers_runs_witness :
  Hand.canChow (Tile.mk WIND 1 109) kongHand = []
  /\ [(WAN, 1); (WAN, 3)] ∈ Hand.canChow wan2 kongHand.
Proof.
  split.
  - destruct (canChow_offers_runs (Tile.mk WIND 1 109) kongHand []) as [H _].
    apply H. reflexivity.
  - destruct (canChow_offers_runs wan2 kongHand [(WAN, 1); (WAN, 3)]) as [_ H].
    apply H; [reflexivity|cbn; lia|].
    exists 1. split; [lia|]. split; [cbn; lia|]. split; [reflexivity|].
    repeat (apply List.Forall_cons; [vm_compute; lia|]). apply List.Forall_nil.
Defined.

(** * What [canWin] accepts *)

Lemma occ_pairKeys k p : occ k (pairKeys (Some p)) = if decide (p = k) then 2%nat else 0%nat.
Proof.
  unfold pairKeys. rewrite !occ_cons, occ_nil. destruct (decide (p = k)); reflexivity.
Qed.

Lemma occ_pos k l : (0 < occ k l)%nat <-> k ∈ l.
Proof.
  unfold occ. rewrite list_elem_of_In, (count_occ_In (decide_rel (=))). unfold gt. reflexivity.
Qed.

Lemma occ_flat_map_split {A} (f : A -> list Key) k l :
  (0 < occ k (flat_map f l))%nat ->
  exists l1 s l2, l = l1 ++ s :: l2 /\ k ∈ f s.
Proof.
  rewrite occ_pos. intros H. apply list_elem_of_In, in_flat_map in H as (s & Hs & Hk).
  apply in_split in Hs as (l1 & l2 & ->). exists l1, s, l2.
  split; [reflexivity|apply list_elem_of_In, Hk].
Qed.

Lemma occ_without {A} (f : A -> list Key) k l1 s l2 :
  occ k (flat_map f (l1 ++ s :: l2)) = (occ k (f s) + occ k (flat_map f (l1 ++ l2)))%nat.
Proof. rewrite !flat_map_app. cbn [flat_map]. rewrite !occ_app. lia. Qed.

Lemma suffix_sorted (pre ks : list Key) :
  suitsAscend (pre ++ ks) -> suitsAscend ks.
Proof.
  unfold suitsAscend. induction pre as [|k pre IH]; [auto|].
  cbn [app]. intros H. apply StronglySorted_inv in H as [H _]. auto.
Qed.

(** All counts are zero once the skipping loop has run off the keys. *)
Lemma skipZero_nil groups ks :
  Hand.skipZero groups ks = [] ->
  (forall k, (0 < groups !!! k)%nat -> k ∈ ks) ->
  forall k, groups !!! k = 0%nat.
Proof.
  intros Hskip Hdom k. destruct (skipZero_spec groups ks) as (pre & E & F).
  rewrite Hskip, app_nil_r in E. subst pre.
  destruct (groups !!! k) as [|n] eqn:Hk; [reflexivity|].
  assert (k ∈ ks) as Hin by (apply Hdom; lia).
  rewrite Forall_forall in F. apply list_elem_of_In, F in Hin.
  rewrite lookup_total_alt, Hin in Hk. discriminate.
Qed.

(** The first key with tiles left has a positive count. *)
Lemma skipZero_pos groups ks key rest :
  Hand.skipZero groups ks = key :: rest ->
  (forall k, k ∈ ks -> is_Some (groups !! k)) ->
  (0 < groups !!! key)%nat.
Proof.
  intros Hskip Hsome. pose proof (skipZero_head _ _ _ _ Hskip) as Hne.
  destruct (Hsome key) as [n Hn].
  { apply (skipZero_sub groups). rewrite Hskip. left. }
  rewrite lookup_total_alt, Hn. cbn. destruct n; [congruence|lia].
Qed.

Lemma searchState_step groups groups' ks key rest :
  searchState groups ks ->
  Hand.skipZero groups ks = key :: rest ->
  (forall k, groups' !!! k <= groups !!! k)%nat ->
  (forall k, is_Some (groups !! k) -> is_Some (groups' !! k)) ->
  searchState groups' (key :: rest).
Proof.
  intros [Hdom Hsome] Hskip Hle Hkeep. split.
  - intros k Hk. rewrite <- Hskip. apply skipZero_keeps.
    + specialize (Hle k). lia.
    + apply Hdom. specialize (Hle k). lia.
  - intros k Hk. apply Hkeep, Hsome, (skipZero_sub groups). rewrite Hskip. exact Hk.
Qed.

Lemma search_fuel groups groups' ks key rest fuel :
  Hand.skipZero groups ks = key :: rest ->
  (forall k, groups' !!! k <= groups !!! k)%nat ->
  (groups' !!! key < groups !!! key)%nat ->
  (tilesAt groups ks < S fuel)%nat ->
  (tilesAt groups' (key :: rest) < fuel)%nat.
Proof.
  intros Hskip Hle Hlt Hfuel.
  pose proof (tilesAt_skipZero groups ks) as H1. rewrite Hskip in H1.
  pose proof (tilesAt_lt groups groups' key rest Hle Hlt). lia.
Qed.

Lemma setKeys_valid s key :
  validSet s -> key ∈ setKeys s ->
  (TileSet.key s = key /\ setKeys s = [key; key; key])
  \/ (Tile.suitIsNumber (fst (TileSet.key s)) = true /\ snd (TileSet.key s) <= 7
      /\ fst key = fst (TileSet.key s)
      /\ snd (TileSet.key s) <= snd key <= snd (TileSet.key s) + 2
      /\ setKeys s = [TileSet.key s; (fst (TileSet.key s), snd (TileSet.key s) + 1);
                      (fst (TileSet.key s), snd (TileSet.key s) + 2)]).
Proof.
  unfold validSet, setKeys, TileSet.suit, TileSet.value.
  intros [Ht|(Ht & Hn & Hv)]; rewrite Ht; intros Hin.
  - left. repeat (apply elem_of_cons in Hin as [Hin|Hin]; [subst key; auto|]).
    apply elem_of_nil in Hin. contradiction.
  - right. split; [exact Hn|]. split; [exact Hv|].
    repeat (apply elem_of_cons in Hin as [Hin|Hin];
            [subst key; cbn [fst snd]; repeat split; lia|]).
    apply elem_of_nil in Hin. contradiction.
Qed.

Lemma covers_pair key sets groups :
  covers (Some key) sets groups -> covers None sets (Hand.take 2 key groups).
Proof.
  unfold covers. intros Hc k. rewrite take_total. specialize (Hc k).
  pose proof (Hc' := Hc). rewrite occ_app, occ_pairKeys in Hc. cbn [pairKeys app].
  destruct (decide (key = k)) as [->|]; lia.
Qed.

Lemma covers_remove p l1 s l2 groups groups' :
  covers p (l1 ++ s :: l2) groups ->
  (forall k, (groups' !!! k + occ k (setKeys s))%nat = groups !!! k) ->
  covers p (l1 ++ l2) groups'.
Proof.
  unfold covers. intros Hc H k. specialize (Hc k). specialize (H k).
  rewrite occ_app, occ_without in Hc. rewrite occ_app. lia.
Qed.

Lemma take3_total key groups k :
  (3 <= groups !!! key)%nat ->
  (Hand.take 3 key groups !!! k + occ k [key; key; key])%nat = groups !!! k.
Proof.
  intros H3. rewrite take_total, !occ_cons, occ_nil.
  destruct (decide (key = k)) as [->|]; lia.
Qed.

(** The search finds every decomposition: if the counts are those of a
    pair still to be placed (or none) and of sets, the keys still to visit
    hold every key with tiles left and ascend inside each suit, then the
    search succeeds. *)
Lemma search_complete fuel : forall groups ks pairUsed p sets,
  covers p sets groups -> Forall validSet sets ->
  pairUsed = bool_decide (p = None) ->
  searchState groups ks -> suitsAscend ks ->
  (tilesAt groups ks < fuel)%nat ->
  Hand._tryRemoveSets fuel groups ks pairUsed = true.
Proof.
  induction fuel as [|fuel IH]; intros groups ks pairUsed p sets Hcov Hvalid Hpair Hst Hasc Hfuel;
    [lia|].
  cbn [Hand._tryRemoveSets].
  destruct (Hand.skipZero groups ks) as [|key rest] eqn:Hskip.
  - pose proof (skipZero_nil groups ks Hskip (proj1 Hst)) as Hzero.
    destruct p as [q|]; [|subst pairUsed; reflexivity].
    specialize (Hcov q). rewrite Hzero, occ_app, occ_pairKeys, decide_True in Hcov by reflexivity.
    lia.
  - pose proof (skipZero_pos groups ks key rest Hskip (proj2 Hst)) as Hpos.
    assert (suitsAscend (key :: rest)) as Hasc'.
    { destruct (skipZero_spec groups ks) as (pre & E & _). rewrite Hskip in E.
      rewrite E in Hasc. exact (suffix_sorted _ _ Hasc). }
    assert (forall groups' pairUsed' p' sets',
              covers p' sets' groups' -> Forall validSet sets' ->
              pairUsed' = bool_decide (p' = None) ->
              (forall k, groups' !!! k <= groups !!! k)%nat ->
              (forall k, is_Some (groups !! k) -> is_Some (groups' !! k)) ->
              (groups' !!! key < groups !!! key)%nat ->
              Hand._tryRemoveSets fuel groups' (key :: rest) pairUsed' = true) as Hrec.
    { intros groups' pairUsed' p' sets' Hc Hv Hp Hle Hkeep Hlt.
      apply (IH groups' (key :: rest) pairUsed' p' sets' Hc Hv Hp).
      - eapply searchState_step; eassumption.
      - exact Hasc'.
      - eapply search_fuel; eassumption. }
    pose proof (Hcov key) as Hkey. rewrite occ_app in Hkey.
    destruct (decide (p = Some key)) as [->|Hnp].
    + (* the pair *)
      rewrite occ_pairKeys, decide_True in Hkey by reflexivity.
      subst pairUsed. rewrite bool_decide_eq_false_2 by discriminate. cbn [negb andb].
      rewrite bool_decide_eq_true_2 by lia.
      rewrite (Hrec (Hand.take 2 key groups) true None sets); [reflexivity| | | | | |].
      * apply covers_pair, Hcov.
      * exact Hvalid.
      * reflexivity.
      * intros k. apply take_le.
      * intros k. apply take_is_Some.
      * rewrite take_total, decide_True by reflexivity. lia.
    + (* a set *)
      assert (occ key (pairKeys p) = 0%nat) as Hp0.
      { destruct p as [q|]; [|reflexivity]. rewrite occ_pairKeys.
        rewrite decide_False by congruence. reflexivity. }
      rewrite Hp0 in Hkey. cbn [Nat.add] in Hkey.
      destruct (occ_flat_map_split setKeys key sets) as (l1 & s & l2 & -> & Hin); [lia|].
      assert (validSet s /\ Forall validSet (l1 ++ l2)) as [Hs Hvalid'].
      { apply Forall_app in Hvalid as [H1 H2]. apply list.Forall_cons in H2 as [H2 H3].
        split; [exact H2|]. apply Forall_app. split; assumption. }
      destruct (setKeys_valid s key Hs Hin) as [[Hk Hkeys]|(Hn & H7 & Hsuit & Hval & Hkeys)].
      * (* a pung *)
        assert (3 <= groups !!! key)%nat as H3.
        { rewrite occ_without, Hkeys, !occ_cons, occ_nil, decide_True in Hkey by reflexivity.
          lia. }
        assert (Hand._tryRemoveSets fuel (Hand.take 3 key groups) (key :: rest) pairUsed = true)
          as Hr.
        { apply (Hrec _ _ p (l1 ++ l2)); try assumption.
          - eapply covers_remove; [exact Hcov|]. rewrite Hkeys. intros k.
            apply take3_total, H3.
          - intros k. apply take_le.
          - intros k. apply take_is_Some.
          - rewrite take_total, decide_True by reflexivity. lia. }
        destruct (if negb pairUsed && _ then _ else false); [reflexivity|].
        rewrite bool_decide_eq_true_2 by exact H3. rewrite Hr. reflexivity.
      * (* a chow: it starts at [key] *)
        set (k0 := TileSet.key s) in *.
        assert (forall k, k ∈ setKeys s -> (0 < groups !!! k)%nat) as Hheld.
        { intros k Hk. rewrite (Hcov k), occ_app, occ_without.
          apply occ_pos in Hk. lia. }
        assert (k0 = key) as Hk0.
        { assert (k0 ∈ key :: rest) as Hin0.
          { rewrite <- Hskip. apply skipZero_keeps.
            - apply Hheld. rewrite Hkeys. left.
            - apply (proj1 Hst), Hheld. rewrite Hkeys. left. }
          apply elem_of_cons in Hin0 as [E|Hin0]; [exact E|].
          apply StronglySorted_inv in Hasc' as [_ Hall].
          rewrite Forall_forall in Hall. apply list_elem_of_In, Hall in Hin0.
          unfold ascending in Hin0. specialize (Hin0 Hsuit). lia. }
        assert (Hand.chowAvailable groups key = true) as Hav.
        { unfold Hand.chowAvailable. rewrite <- Hk0.
          rewrite Hn. rewrite !bool_decide_eq_true_2; [reflexivity| | |exact H7];
            apply Hheld; rewrite Hkeys; [right; right; left|right; left]. }
        assert (Hand._tryRemoveSets fuel (Hand.takeChow key groups) (key :: rest) pairUsed = true)
          as Hr.
        { apply (Hrec _ _ p (l1 ++ l2)); try assumption.
          - eapply covers_remove; [exact Hcov|]. rewrite Hkeys, Hk0. intros k.
            apply takeChow_total; assumption.
          - intros k. apply takeChow_le.
          - intros k. apply takeChow_is_Some.
          - pose proof (takeChow_total key groups key Hpos Hav) as Ht.
            rewrite occ_cons, decide_True in Ht by reflexivity. lia. }
        destruct (if negb pairUsed && _ then _ else false); [reflexivity|].
        destruct (if bool_decide (3 <= _)%nat then _ else false); [reflexivity|].
        rewrite Hav. exact Hr.
Qed.

Lemma covers_add p s sets groups groups' :
  covers p sets groups' ->
  (forall k, (groups' !!! k + occ k (setKeys s))%nat = groups !!! k) ->
  covers p (s :: sets) groups.
Proof.
  unfold covers. intros Hc H k. specialize (Hc k). specialize (H k).
  rewrite occ_app in Hc. rewrite occ_app. cbn [flat_map]. rewrite occ_app. lia.
Qed.

(** What the search accepts is a pair and sets. *)
Lemma search_sound fuel : forall groups ks pairUsed,
  searchState groups ks ->
  Hand._tryRemoveSets fuel groups ks pairUsed = true ->
  exists p sets,
    Forall validSet sets /\ pairUsed = bool_decide (p = None) /\ covers p sets groups.
Proof.
  induction fuel as [|fuel IH]; intros groups ks pairUsed Hst; [discriminate|].
  cbn [Hand._tryRemoveSets].
  destruct (Hand.skipZero groups ks) as [|key rest] eqn:Hskip.
  - intros ->. exists None, []. split; [constructor|]. split; [reflexivity|].
    intros k. rewrite (skipZero_nil groups ks Hskip (proj1 Hst)). reflexivity.
  - pose proof (skipZero_pos groups ks key rest Hskip (proj2 Hst)) as Hpos.
    assert (forall groups' pairUsed',
              (forall k, groups' !!! k <= groups !!! k)%nat ->
              (forall k, is_Some (groups !! k) -> is_Some (groups' !! k)) ->
              Hand._tryRemoveSets fuel groups' (key :: rest) pairUsed' = true ->
              exists p sets,
                Forall validSet sets /\ pairUsed' = bool_decide (p = None)
                /\ covers p sets groups') as Hrec.
    { intros groups' pairUsed' Hle Hkeep. apply IH.
      eapply searchState_step; eassumption. }
    assert ((if (if bool_decide (3 <= groups !!! key)%nat
                 then Hand._tryRemoveSets fuel (Hand.take 3 key groups) (key :: rest) pairUsed
                 else false)
             then true
             else if Hand.chowAvailable groups key
                  then Hand._tryRemoveSets fuel (Hand.takeChow key groups) (key :: rest) pairUsed
                  else false) = true ->
            exists p sets,
              Forall validSet sets /\ pairUsed = bool_decide (p = None)
              /\ covers p sets groups) as Hrest.
    { destruct (bool_decide_reflect (3 <= groups !!! key)%nat) as [H3|_].
      - destruct (Hand._tryRemoveSets fuel (Hand.take 3 key groups) (key :: rest) pairUsed) eqn:R2.
        + intros _.
          destruct (Hrec _ _ (fun k => take_le 3 key groups k)
                      (fun k => take_is_Some 3 key groups k) R2) as (p & sets & Hv & Hp & Hc).
          exists p, (TileSet.mk PUNG key false :: sets).
          split; [constructor; [left; reflexivity|exact Hv]|]. split; [exact Hp|].
          eapply covers_add; [exact Hc|]. intros k. apply take3_total, H3.
        + destruct (Hand.chowAvailable groups key) eqn:Hav; [|discriminate]. intros R3.
          destruct (Hrec _ _ (fun k => takeChow_le key groups k)
                      (fun k => takeChow_is_Some key groups k) R3) as (p & sets & Hv & Hp & Hc).
          exists p, (TileSet.mk CHOW key false :: sets).
          split; [|split; [exact Hp|]].
          * constructor; [|exact Hv]. right. unfold Hand.chowAvailable in Hav.
            repeat (apply andb_prop in Hav as [Hav ?]).
            apply bool_decide_eq_true_1 in H1. auto.
          * eapply covers_add; [exact Hc|]. intros k. apply takeChow_total; assumption.
      - destruct (Hand.chowAvailable groups key) eqn:Hav; [|discriminate]. intros R3.
        destruct (Hrec _ _ (fun k => takeChow_le key groups k)
                    (fun k => takeChow_is_Some key groups k) R3) as (p & sets & Hv & Hp & Hc).
        exists p, (TileSet.mk CHOW key false :: sets).
        split; [|split; [exact Hp|]].
        * constructor; [|exact Hv]. right. unfold Hand.chowAvailable in Hav.
          repeat (apply andb_prop in Hav as [Hav ?]).
          apply bool_decide_eq_true_1 in H1. auto.
        * eapply covers_add; [exact Hc|]. intros k. apply takeChow_total; assumption. }
    destruct (negb pairUsed && bool_decide (2 <= groups !!! key)%nat) eqn:G1; [|exact Hrest].
    destruct (Hand._tryRemoveSets fuel (Hand.take 2 key groups) (key :: rest) true) eqn:R1;
      [|exact Hrest].
    intros _. apply andb_prop in G1 as [Hnp H2].
    apply bool_decide_eq_true_1 in H2. destruct pairUsed; [discriminate|].
    destruct (Hrec _ _ (fun k => take_le 2 key groups k)
                (fun k => take_is_Some 2 key groups k) R1) as (p & sets & Hv & Hp & Hc).
    symmetry in Hp. apply bool_decide_eq_true_1 in Hp. subst p.
    exists (Some key), sets. split; [exact Hv|]. split; [reflexivity|].
    intros k. specialize (Hc k). rewrite take_total in Hc.
    rewrite occ_app, occ_pairKeys. cbn [pairKeys app] in Hc.
    destruct (decide (key = k)) as [->|]; lia.
Qed.

(** ** The keys of a sorted hand *)

Lemma suitsAscend_snoc ks k :
  suitsAscend ks -> Forall (fun k' => ascending k' k) ks -> suitsAscend (ks ++ [k]).
Proof.
  unfold suitsAscend. induction 1 as [|k' ks Hs IH Hall]; intros Hk; cbn [app].
  - repeat constructor.
  - apply list.Forall_cons in Hk as [Hk' Hk]. constructor; [apply IH, Hk|].
    apply Forall_app. split; [exact Hall|]. constructor; [exact Hk'|constructor].
Qed.

Lemma foldl_keyStep_ascend tiles : forall ks,
  suitsAscend ks ->
  (forall k x, k ∈ ks -> x ∈ tiles -> fst k = Tile.suit x -> snd k <= Tile.value x) ->
  valuesAscend tiles ->
  suitsAscend (foldl keyStep ks tiles).
Proof.
  induction tiles as [|x tiles IH]; intros ks Hks Hle Hs; cbn [foldl]; [exact Hks|].
  apply StronglySorted_inv in Hs as [Hs Hall]. rewrite Forall_forall in Hall.
  unfold keyStep at 2. destruct (decide (Tile.key x ∈ ks)) as [Hin|Hnin].
  - apply IH; [exact Hks| |exact Hs].
    intros k y Hk Hy. apply Hle; [exact Hk|right; exact Hy].
  - apply IH; [| |exact Hs].
    + apply suitsAscend_snoc; [exact Hks|]. apply Forall_forall. intros k Hk Hsuit.
      apply list_elem_of_In in Hk.
      pose proof (Hle k x Hk (list_elem_of_here _ _) Hsuit) as Hv.
      cbn [Tile.key fst snd] in *.
      destruct (decide (snd k = Tile.value x)) as [E|]; [|lia].
      exfalso. apply Hnin. replace (Tile.key x) with k; [exact Hk|].
      destruct k; unfold Tile.key; cbn in *; congruence.
    + intros k y Hk Hy Hsuit. apply elem_of_app in Hk as [Hk|Hk].
      * apply Hle; [exact Hk|right; exact Hy|exact Hsuit].
      * apply list_elem_of_singleton in Hk. subst k. cbn [Tile.key fst snd] in *.
        apply Hall; [apply list_elem_of_In, Hy|exact Hsuit].
Qed.

Lemma keysInOrder_ascend tiles : valuesAscend tiles -> suitsAscend (keysInOrder tiles).
Proof.
  intros Hs. apply (foldl_keyStep_ascend tiles []); [constructor| |exact Hs].
  intros k x Hk. apply elem_of_nil in Hk. contradiction.
Qed.

Lemma StronglySorted_impl {A} (R S : A -> A -> Prop) l :
  (forall a b, R a b -> S a b) -> StronglySorted R l -> StronglySorted S l.
Proof.
  intros HRS. induction 1 as [|a l Hs IH Hall]; constructor; [exact IH|].
  eapply List.Forall_impl; [|exact Hall]. intros b. apply HRS.
Qed.

Lemma sort_valuesAscend tiles : noBonus tiles -> valuesAscend (Tile.sort tiles).
Proof.
  intros Hn. pose proof (sort_sorted tiles Hn) as Hs.
  eapply StronglySorted_impl; [|exact Hs].
  intros a b (ka & kb & Ha & Hb & Hle) Hsuit.
  unfold Tile.sortKey in Ha, Hb. rewrite Hsuit in Ha.
  destruct (Tile.suitOrder (Tile.suit b)); [|discriminate].
  cbn in Ha, Hb. injection Ha as <-. injection Hb as <-. lia.
Qed.

Lemma covers_Permutation p sets tiles :
  covers p sets (groupByKey tiles)
  <-> pairKeys p ++ flat_map setKeys sets ≡ₚ Tile.key <$> tiles.
Proof.
  unfold covers. rewrite (Permutation_count_occ (decide_rel (=))).
  split; intros H k; specialize (H k);
    rewrite groupByKey_total, keyCount_count_occ in *; unfold occ in *; congruence.
Qed.

Lemma checkStandardWin_sound l : Hand._checkStandardWin l = true -> decomposes l.
Proof.
  intros Hwin. unfold Hand._checkStandardWin in Hwin.
  destruct (search_sound _ _ _ _ (groupByKey_invariants l) Hwin)
    as (p & sets & Hv & Hp & Hc).
  symmetry in Hp. apply bool_decide_eq_false_1 in Hp.
  destruct p as [p|]; [|exfalso; apply Hp; reflexivity].
  exists p, sets. split; [exact Hv|]. apply covers_Permutation, Hc.
Qed.

Lemma checkStandardWin_complete l :
  valuesAscend l -> decomposes l -> Hand._checkStandardWin l = true.
Proof.
  intros Hasc (p & sets & Hv & Hperm). unfold Hand._checkStandardWin.
  apply (search_complete _ _ _ _ (Some p) sets).
  - apply covers_Permutation, Hperm.
  - exact Hv.
  - reflexivity.
  - apply groupByKey_invariants.
  - apply keysInOrder_ascend, Hasc.
  - rewrite tilesAt_keysInOrder. lia.
Qed.

Lemma decomposes_Permutation l l' : l ≡ₚ l' -> decomposes l -> decomposes l'.
Proof.
  intros Hp (p & sets & Hv & H). exists p, sets. split; [exact Hv|].
  rewrite H. apply fmap_Permutation, Hp.
Qed.

(** X6.  [_checkStandardWin] accepts only tiles that are a pair and a number
    of pungs and chows.  It accepts all such tiles when, inside every
    suit, the tiles it is given come in ascending order of value, which is
    how [sort()] leaves a hand without flowers and seasons: the search
    looks for a chow only upwards from the first key with tiles left. *)
Theorem standard_win_iff (tiles : list Tile.t) :
  (Hand._checkStandardWin tiles = true -> decomposes tiles)
  /\ (valuesAscend tiles -> decomposes tiles -> Hand._checkStandardWin tiles = true)
  /\ (noBonus tiles ->
      (Hand._checkStandardWin (Tile.sort tiles) = true <-> decomposes tiles)).
Proof.
  split; [apply checkStandardWin_sound|]. split; [apply checkStandardWin_complete|].
  intros Hn. split.
  - intros Hwin. apply (decomposes_Permutation (Tile.sort tiles)); [apply sort_Permutation|].
    apply checkStandardWin_sound, Hwin.
  - intros Hd. apply checkStandardWin_complete; [apply sort_valuesAscend, Hn|].
    apply (decomposes_Permutation tiles); [symmetry; apply sort_Permutation|exact Hd].
Qed.

Lemma standard_win_iff_witness :
  Hand._checkStandardWin (Tile.sort unsortedRun) = true <-> decomposes unsortedRun.
Proof.
  destruct (standard_win_iff unsortedRun) as (_ & _ & H). apply H. no_bonus.
Defined.

(** The order of the tiles matters: a run given as 2, 1, 3 is not found. *)
Lemma unsorted_run_not_found :
  decomposes unsortedRun /\ Hand._checkStandardWin unsortedRun = false
  /\ Hand._checkStandardWin (Tile.sort unsortedRun) = true.
Proof.
  split; [|split; vm_compute; reflexivity].
  exists (WIND, 1), [TileSet.mk CHOW (WAN, 1) false].
  split.
  - apply List.Forall_cons; [|apply List.Forall_nil].
    right. split; [reflexivity|]. split; [reflexivity|]. cbn. lia.
  - apply (bool_decide_unpack _). vm_compute. exact I.
Qed.

(** ** The two special hands *)

(** X7.  [_checkSevenPairs] is true exactly for seven different keys with
    two tiles each: four tiles of one key do not count as two pairs. *)
Theorem seven_pairs_iff (tiles : list Tile.t) :
  Hand._checkSevenPairs tiles = true <-> sevenPairsShape tiles.
Proof.
  split; [apply checkSevenPairs_shape|]. intros H. apply sevenPairsShape_check, H.
Qed.

Lemma orphansLoop_pair counts ks : forall b,
  Hand.orphansLoop counts ks b = true ->
  b = true \/ Exists (fun k => counts !!! k = 2%nat) ks.
Proof.
  induction ks as [|k ks IH]; intros b; cbn [Hand.orphansLoop]; [auto|].
  destruct (bool_decide (counts !!! k < 1)%nat); [discriminate|].
  intros H. apply IH in H as [H|H]; [|right; right; exact H].
  destruct (bool_decide_reflect (counts !!! k = 2%nat)) as [E|_]; [|left; exact H].
  right. left. exact E.
Qed.

Lemma checkThirteenOrphans_shape tiles :
  length tiles = 14%nat -> Hand._checkThirteenOrphans tiles = true ->
  thirteenOrphansShape tiles.
Proof.
  intros Hlen.
  unfold Hand._checkThirteenOrphans. intros Hchk.
  pose proof (orphansLoop_all _ _ _ Hchk) as Hall.
  apply orphansLoop_pair in Hchk as [Hchk|Hex]; [discriminate|].
  apply Exists_exists in Hex as (k0 & Hk0 & H2). apply list_elem_of_In in Hk0.
  rewrite Forall_forall in Hall.
  assert (Hand.required ⊆+ Tile.key <$> tiles) as Hsub.
  { apply NoDup_submseteq; [apply required_NoDup|]. intros k Hk.
    apply keyCount_pos. rewrite <- groupByKey_total.
    apply list_elem_of_In, Hall in Hk. lia. }
  apply submseteq_Permutation in Hsub as [rest Hperm].
  assert (length rest = 1%nat) as Hrest.
  { apply Permutation_length in Hperm. rewrite length_fmap, length_app, Hlen in Hperm.
    change (length Hand.required) with 13%nat in Hperm. lia. }
  destruct rest as [|x [|? ?]]; try discriminate Hrest.
  exists k0. split; [exact Hk0|]. rewrite Hperm.
  rewrite groupByKey_total, (keyCount_perm tiles _ k0 Hperm), occ_app in H2.
  rewrite (occ_NoDup _ k0 required_NoDup), decide_True, occ_cons, occ_nil in H2 by exact Hk0.
  destruct (decide (x = k0)) as [->|]; [|lia].
  symmetry. apply Permutation_cons_append.
Qed.

(** X8.  Among 14 tiles [_checkThirteenOrphans] is true exactly for one
    tile of each of the thirteen terminals and honours and a second tile
    of one of them. *)
Theorem thirteen_orphans_iff (tiles : list Tile.t) :
  length tiles = 14%nat ->
  (Hand._checkThirteenOrphans tiles = true <-> thirteenOrphansShape tiles).
Proof.
  intros Hlen. split.
  - apply checkThirteenOrphans_shape, Hlen.
  - intros H. apply thirteenOrphans_check, H.
Qed.

Lemma thirteen_orphans_iff_witness :
  Hand._checkThirteenOrphans (Hand.concealed pairsHand) = true
  <-> thirteenOrphansShape (Hand.concealed pairsHand).
Proof. apply (thirteen_orphans_iff (Hand.concealed pairsHand)). reflexivity. Defined.

(** ** [canWin] and [getWinDecomposition] *)

Lemma sevenPairsShape_Permutation l l' :
  l ≡ₚ l' -> sevenPairsShape l -> sevenPairsShape l'.
Proof.
  intros Hp (ks & Hnd & Hlen & H). exists ks. split; [exact Hnd|]. split; [exact Hlen|].
  rewrite <- H. apply fmap_Permutation. symmetry. exact Hp.
Qed.

Lemma thirteenOrphansShape_Permutation l l' :
  l ≡ₚ l' -> thirteenOrphansShape l -> thirteenOrphansShape l'.
Proof.
  intros Hp (k & Hk & H). exists k. split; [exact Hk|].
  rewrite <- H. apply fmap_Permutation. symmetry. exact Hp.
Qed.

Lemma thirteenOrphansShape_length l : thirteenOrphansShape l -> length l = 14%nat.
Proof.
  intros (k & _ & H). apply Permutation_length in H. rewrite length_fmap in H. exact H.
Qed.

(** X9.  On a sorted hand without flowers and seasons among its concealed
    tiles, [canWin] is true exactly when the concealed tiles are a pair
    and sets, or when there is no meld and they are seven pairs or the
    thirteen orphans. *)
Theorem canWin_iff (h : Hand.t) :
  noBonus (Hand.concealed h) ->
  (Hand.canWin (Hand.sort h) = true <->
   decomposes (Hand.concealed h)
   \/ (Hand.melds h = [] /\ sevenPairsShape (Hand.concealed h))
   \/ (Hand.melds h = [] /\ thirteenOrphansShape (Hand.concealed h))).
Proof.
  intros Hn. pose proof (sort_Permutation (Hand.concealed h)) as Hperm.
  assert (Hand._checkStandardWin (Tile.sort (Hand.concealed h)) = true
          <-> decomposes (Hand.concealed h)) as Hstd.
  { split.
    - intros Hwin. apply (decomposes_Permutation _ _ Hperm), checkStandardWin_sound, Hwin.
    - intros Hd. apply checkStandardWin_complete; [apply sort_valuesAscend, Hn|].
      apply (decomposes_Permutation (Hand.concealed h)); [symmetry; exact Hperm|exact Hd]. }
  unfold Hand.canWin. destruct h as [p c m f d]. cbn [Hand.sort Hand.set_concealed
    Hand.concealed Hand.melds Hand.playerIndex Hand.flowers Hand.discards] in *.
  set (c' := Tile.sort c) in *.
  assert (bool_decide (length m = 0%nat) = true <-> m = []) as Hm.
  { rewrite bool_decide_eq_true. split; [apply nil_length_inv|intros ->; reflexivity]. }
  split.
  - destruct (Hand._checkStandardWin c') eqn:Hs; [intros _; left; apply Hstd; reflexivity|].
    destruct (bool_decide (length m = 0%nat) && bool_decide (length c' = 14%nat)
              && Hand._checkSevenPairs c') eqn:H7.
    { intros _. right. left. apply andb_prop in H7 as [H7 Hc]. apply andb_prop in H7 as [Hm0 _].
      split; [apply Hm, Hm0|].
      apply (sevenPairsShape_Permutation c'); [exact Hperm|]. apply checkSevenPairs_shape, Hc. }
    destruct (bool_decide (length m = 0%nat) && bool_decide (length c' = 14%nat)
              && Hand._checkThirteenOrphans c') eqn:H13; [|discriminate].
    intros _. right. right. apply andb_prop in H13 as [H13 Hc].
    apply andb_prop in H13 as [Hm0 Hl]. apply bool_decide_eq_true_1 in Hl.
    split; [apply Hm, Hm0|].
    apply (thirteenOrphansShape_Permutation c'); [exact Hperm|].
    apply checkThirteenOrphans_shape; assumption.
  - intros [Hd|[[Hm0 H7]|[Hm0 H13]]].
    + rewrite (proj2 Hstd Hd). reflexivity.
    + destruct (Hand._checkStandardWin c'); [reflexivity|].
      apply (sevenPairsShape_Permutation _ c') in H7; [|symmetry; exact Hperm].
      destruct (sevenPairsShape_check _ H7) as [Hlen Hc].
      rewrite (proj2 Hm Hm0), Hlen, Hc. reflexivity.
    + destruct (Hand._checkStandardWin c'); [reflexivity|].
      apply (thirteenOrphansShape_Permutation _ c') in H13; [|symmetry; exact Hperm].
      pose proof (thirteenOrphansShape_length _ H13) as Hlen.
      destruct (thirteenOrphans_check c' H13) as (_ & _ & Hc).
      rewrite (proj2 Hm Hm0), Hlen. rewrite Hc.
      destruct (_ && Hand._checkSevenPairs c'); reflexivity.
Qed.

Lemma canWin_iff_witness :
  Hand.canWin (Hand.sort pairsHand) = true <->
  decomposes (Hand.concealed pairsHand)
  \/ (Hand.melds pairsHand = [] /\ sevenPairsShape (Hand.concealed pairsHand))
  \/ (Hand.melds pairsHand = [] /\ thirteenOrphansShape (Hand.concealed pairsHand)).
Proof. apply (canWin_iff pairsHand). no_bonus. Defined.

(** X10.  [getWinDecomposition] is [null] exactly when [canWin] is false,
    whatever the order of the tiles: the searches [_tryRemoveSets] and
    [_decompose] agree.  [Scoring.calculate] then returns no fan and
    an empty breakdown. *)
Theorem no_decomposition_iff (h : Hand.t) (ctx : Context.t) :
  (Hand.getWinDecomposition h = None <-> Hand.canWin h = false)
  /\ (Hand.canWin h = false ->
      Scoring.calculate h ctx = Some (ScoringResult.mk 0 [])).
Proof.
  assert (Hand.getWinDecomposition h = None <-> Hand.canWin h = false) as Hiff.
  { split.
    - intros Hnone. destruct (Hand.canWin h) eqn:Hwin; [|reflexivity].
      destruct (canWin_decomposes h Hwin) as [d Hd]. congruence.
    - unfold Hand.canWin, Hand.getWinDecomposition.
      destruct (Hand._checkStandardWin (Hand.concealed h)) eqn:Hs; [discriminate|].
      destruct (_ && Hand._checkSevenPairs _); [discriminate|].
      destruct (_ && Hand._checkThirteenOrphans _); [discriminate|]. intros _.
      pose proof (decompose_tryRemoveSets (S (length (Hand.concealed h)))
                    (groupByKey (Hand.concealed h)) (keysInOrder (Hand.concealed h))
                    (Hand.mkResult None [])) as E.
      cbn [Hand.pair] in E. rewrite bool_decide_eq_false_2 in E by (intros H; apply H; reflexivity).
      unfold Hand._checkStandardWin in Hs. rewrite Hs in E.
      destruct (Hand._decompose _ _ _ _) as [b r]. cbn [fst] in E. subst b. reflexivity. }
  split; [exact Hiff|]. intros Hwin. unfold Scoring.calculate.
  rewrite (proj2 Hiff Hwin). reflexivity.
Qed.

Lemma no_decomposition_iff_witness :
  Hand.getWinDecomposition kongHand = None
  /\ Scoring.calculate kongHand discardContext = Some (ScoringResult.mk 0 []).
Proof.
  destruct (no_decomposition_iff kongHand discardContext) as [Hiff Hcalc].
  split; [apply Hiff|apply Hcalc]; vm_compute; reflexivity.
Defined.

(** * Scoring *)

Lemma positive_app (b1 b2 : Scoring.Breakdown) :
  Forall (fun e => (1 <= snd e)%nat) b1 -> Forall (fun e => (1 <= snd e)%nat) b2 ->
  Forall (fun e => (1 <= snd e)%nat) (b1 ++ b2).
Proof. intros H1 H2. apply Forall_app. split; assumption. Qed.

Lemma positive_if (c : bool) (e : FanName * nat) :
  (1 <= snd e)%nat -> Forall (fun e => (1 <= snd e)%nat) (if c then [e] else []).
Proof. intros H. destruct c; repeat constructor. exact H. Qed.

Lemma positive_flat_map {A} (c : A -> bool) (e : A -> FanName * nat) l :
  (forall s, (1 <= snd (e s))%nat) ->
  Forall (fun e => (1 <= snd e)%nat) (flat_map (fun s => if c s then [e s] else []) l).
Proof.
  intros H. induction l as [|s l IH]; cbn [flat_map]; [constructor|].
  apply positive_app; [apply positive_if, H|exact IH].
Qed.

Lemma checkFlush_positive tiles :
  Forall (fun e => (1 <= snd e)%nat) (Scoring._checkFlush tiles).
Proof.
  destruct (checkFlush_cases tiles) as [-> | [-> | ->]]; repeat constructor; cbn; lia.
Qed.

Lemma checkFlowers_positive h ctx :
  Forall (fun e => (1 <= snd e)%nat) (Scoring._checkFlowers h ctx).
Proof.
  unfold Scoring._checkFlowers.
  repeat apply positive_app; apply positive_if; unfold MAX_FAN; cbn; lia.
Qed.

Lemma accumulate_positive h ctx p allSets allTiles :
  Forall (fun e => (1 <= snd e)%nat) (Scoring.accumulate h ctx p allSets allTiles).
Proof.
  unfold Scoring.accumulate.
  pose proof (checkFlowers_positive h ctx) as Hfl.
  generalize dependent (Scoring._checkFlowers h ctx). intros flowers Hfl.
  pose proof (checkFlush_positive allTiles) as Hflush.
  generalize dependent (Scoring._checkFlush allTiles). intros flush Hflush.
  repeat (apply positive_app;
          [first [ apply positive_if; unfold MAX_FAN; cbn; lia
                 | exact Hflush
                 | apply (positive_flat_map _ (fun s => (_, 1%nat))); intros; cbn; lia ]|]).
  exact Hfl.
Qed.

(** X11.  Whatever [Scoring.calculate] returns, its total is the sum of the
    fan of the breakdown lines, cut at 13, and no line is worth less than
    one fan. *)
Theorem breakdown_adds_up (h : Hand.t) (ctx : Context.t) (r : ScoringResult.t) :
  Scoring.calculate h ctx = Some r ->
  ScoringResult.totalFan r = Nat.min (Scoring.sumFan (ScoringResult.breakdown r)) MAX_FAN
  /\ Forall (fun e => (1 <= snd e)%nat) (ScoringResult.breakdown r).
Proof.
  unfold Scoring.calculate.
  destruct (Hand.getWinDecomposition h) as [[[] tiles|p sets melds]|].
  - intros [= <-]. unfold Scoring.sevenPairs.
    destruct (forallb Tile.isHonour tiles).
    + split; [reflexivity|]. repeat constructor; unfold MAX_FAN; cbn; lia.
    + destruct (Context.selfDrawn ctx); cbn [ScoringResult.totalFan ScoringResult.breakdown].
      * split.
        -- rewrite (sumFan_app _ [(FSelfDrawn, 1%nat)]).
           change (Scoring.sumFan [(FSelfDrawn, 1%nat)]) with 1%nat.
           rewrite Nat.add_1_r. reflexivity.
        -- repeat apply positive_app; try apply checkFlush_positive;
             repeat constructor; cbn; lia.
      * split; [reflexivity|].
        apply positive_app; [repeat constructor; cbn; lia|apply checkFlush_positive].
  - intros [= <-]. split; [reflexivity|]. repeat constructor; unfold MAX_FAN; cbn; lia.
  - unfold Scoring.standard. destruct (Scoring.allSetsOf sets h) as [allSets|]; [|discriminate].
    cbn [mbind option_bind].
    destruct (forallb _ _);
      [intros [= <-]; split; [reflexivity|repeat constructor; unfold MAX_FAN; cbn; lia]|].
    destruct (Scoring.nineGates _ _);
      [intros [= <-]; split; [reflexivity|repeat constructor; unfold MAX_FAN; cbn; lia]|].
    intros [= <-]. split; [reflexivity|apply accumulate_positive].
  - intros [= <-]. split; [reflexivity|constructor].
Qed.

Lemma breakdown_adds_up_witness :
  Scoring.calculate pairsHand discardContext = Some pairsScore
  /\ ScoringResult.totalFan pairsScore
     = Nat.min (Scoring.sumFan (ScoringResult.breakdown pairsScore)) MAX_FAN
  /\ Forall (fun e => (1 <= snd e)%nat) (ScoringResult.breakdown pairsScore).
Proof.
  assert (Scoring.calculate pairsHand discardContext = Some pairsScore) as E
    by (vm_compute; reflexivity).
  split; [exact E|]. apply (breakdown_adds_up pairsHand discardContext pairsScore E).
Defined.

(** X12.  [fanToPoints] never decreases with the fan, doubles with every fan
    up to ten, and pays 1024 from ten fan on: the limit of 13 fan pays
    what 10 fan pay.  No fan at all is still worth one point. *)
Theorem fanToPoints_table (a b : nat) :
  ((a <= b)%nat -> Scoring.fanToPoints a <= Scoring.fanToPoints b)
  /\ 1 <= Scoring.fanToPoints a <= 1024
  /\ ((a < 10)%nat -> Scoring.fanToPoints (S a) = 2 * Scoring.fanToPoints a)
  /\ ((10 <= a)%nat -> Scoring.fanToPoints a = 1024).
Proof.
  unfold Scoring.fanToPoints. repeat split.
  - intros Hab. apply Z.pow_le_mono_r; lia.
  - pose proof (Z.pow_pos_nonneg 2 (Z.of_nat (a `min` 10))). lia.
  - change 1024 with (2 ^ 10). apply Z.pow_le_mono_r; lia.
  - intros Ha. rewrite !Nat.min_l by lia. rewrite Nat2Z.inj_succ, Z.pow_succ_r by lia.
    reflexivity.
  - intros Ha. rewrite Nat.min_r by lia. reflexivity.
Qed.

Lemma fanToPoints_table_witness :
  Scoring.fanToPoints 3 <= Scoring.fanToPoints 5
  /\ Scoring.fanToPoints 4 = 2 * Scoring.fanToPoints 3
  /\ Scoring.fanToPoints 13 = 1024.
Proof.
  destruct (fanToPoints_table 3 5) as (Hmono & _ & Hdouble & _).
  destruct (fanToPoints_table 13 13) as (_ & _ & _ & Hcap).
  split; [apply Hmono; lia|]. split; [apply Hdouble; lia|apply Hcap; lia].
Defined.

(** ** Payment *)

(** X13.  After a win on a discard the discarder alone pays: the base points
    of the fan, twice that if the winner or the discarder is the dealer.
    The two other seats neither pay nor receive. *)
Theorem payment_on_discard (game : GameObj.t) (info : WinInfo.t) (f : Z) :
  seat (GameObj.winner game) ->
  GameObj.winInfo game = Some info -> WinInfo.selfDrawn info = false ->
  WinInfo.fromPlayer info = Some f -> seat f -> f <> GameObj.winner game ->
  let base := Scoring.fanToPoints (ScoringResult.totalFan (WinInfo.scoring info)) in
  let pay := if decide (GameObj.winner game = GameObj.dealerIndex game
                        \/ f = GameObj.dealerIndex game)
             then base * 2 else base in
  exists p, Scoring.calculatePayment game = Some p
    /\ PaymentInfo.responsible p = -1
    /\ at_ (PaymentInfo.deltas p) f = Some (Some (- pay))
    /\ at_ (PaymentInfo.deltas p) (GameObj.winner game) = Some (Some pay)
    /\ forall i, seat i -> i <> f -> i <> GameObj.winner game ->
         at_ (PaymentInfo.deltas p) i = Some (Some 0).
Proof.
  intros Hw Hinfo Hself Hfrom Hf Hne base pay.
  unfold Scoring.calculatePayment.
  rewrite decide_False by (unfold seat in Hw; lia).
  rewrite Hinfo. cbn [mbind option_bind]. rewrite Hself, Hfrom.
  fold base.
  assert ((if bool_decide (GameObj.winner game = GameObj.dealerIndex game)
              || bool_decide (Some f = Some (GameObj.dealerIndex game))
           then base * 2 else base) = pay) as ->.
  { subst pay.
    destruct (bool_decide_reflect (GameObj.winner game = GameObj.dealerIndex game)) as [E|N];
      cbn [orb]; [rewrite decide_True by (left; exact E); reflexivity|].
    destruct (bool_decide_reflect (Some f = Some (GameObj.dealerIndex game))) as [E|N'].
    - injection E as E. rewrite decide_True by (right; exact E). reflexivity.
    - rewrite decide_False; [reflexivity|]. intros [?|?]; [contradiction|]. apply N'. congruence. }
  eexists. split; [reflexivity|]. split; [reflexivity|].
  cbn [PaymentInfo.deltas]. clearbody pay.
  generalize dependent (GameObj.winner game). intros w Hw Hne.
  repeat split.
  - seats; try congruence; reflexivity.
  - seats; try congruence; reflexivity.
  - intros i Hi Hif Hiw. seats; try congruence; reflexivity.
Qed.

Lemma payment_on_discard_witness :
  exists p, Scoring.calculatePayment wonGame = Some p
    /\ PaymentInfo.responsible p = -1
    /\ at_ (PaymentInfo.deltas p) 3 = Some (Some (- 8))
    /\ at_ (PaymentInfo.deltas p) 0 = Some (Some 8)
    /\ forall i, seat i -> i <> 3 -> i <> GameObj.winner wonGame ->
         at_ (PaymentInfo.deltas p) i = Some (Some 0).
Proof.
  apply (payment_on_discard wonGame wonInfo 3).
  - vm_compute. split; [discriminate|reflexivity].
  - vm_compute. reflexivity.
  - reflexivity.
  - reflexivity.
  - vm_compute. split; [discriminate|reflexivity].
  - vm_compute. discriminate.
Defined.

Lemma no_melds_no_bao game winner hand :
  at_ (GameObj.hands game) winner = Some hand -> Hand.melds hand = [] ->
  Scoring.checkBaoPai game winner = Some (-1).
Proof.
  intros Hh Hm. unfold Scoring.checkBaoPai. rewrite Hh. cbn [mbind option_bind].
  rewrite Hm. reflexivity.
Qed.

(** X14.  After a self-drawn win for which [checkBaoPai] names nobody, as it
    does for a hand without melds, each of the three other seats pays the
    base points of the fan, twice that if it or the winner is the dealer:
    a winning dealer receives six times the base points, any other winner
    four times. *)
Theorem payment_on_self_draw (game : GameObj.t) (info : WinInfo.t) (hand : Hand.t) :
  seat (GameObj.winner game) -> seat (GameObj.dealerIndex game) ->
  GameObj.winInfo game = Some info -> WinInfo.selfDrawn info = true ->
  at_ (GameObj.hands game) (GameObj.winner game) = Some hand ->
  (Hand.melds hand = [] -> Scoring.checkBaoPai game (GameObj.winner game) = Some (-1))
  /\ (Scoring.checkBaoPai game (GameObj.winner game) = Some (-1) ->
      let base := Scoring.fanToPoints (ScoringResult.totalFan (WinInfo.scoring info)) in
      exists p, Scoring.calculatePayment game = Some p
        /\ PaymentInfo.responsible p = -1
        /\ (forall i, seat i -> i <> GameObj.winner game ->
              at_ (PaymentInfo.deltas p) i
              = Some (Some (- (if decide (GameObj.winner game = GameObj.dealerIndex game
                                          \/ i = GameObj.dealerIndex game)
                               then base * 2 else base))))
        /\ at_ (PaymentInfo.deltas p) (GameObj.winner game)
           = Some (Some (if decide (GameObj.winner game = GameObj.dealerIndex game)
                         then base * 6 else base * 4))).
Proof.
  intros Hw Hd Hinfo Hself Hhand. split; [apply no_melds_no_bao, Hhand|].
  intros Hbao base. unfold Scoring.calculatePayment.
  rewrite decide_False by (unfold seat in Hw; lia).
  rewrite Hinfo. cbn [mbind option_bind]. rewrite Hself, Hbao. cbn [mbind option_bind].
  rewrite decide_False by lia. fold base.
  eexists. split; [reflexivity|]. split; [reflexivity|].
  cbn [PaymentInfo.deltas foldl]. unfold Scoring.payLoser. clearbody base.
  generalize dependent (GameObj.winner game). generalize dependent (GameObj.dealerIndex game).
  intros d Hd w Hw _ _.
  split.
  - intros i Hi Hiw. seats; try congruence; cbv -[Z.mul Z.add Z.opp]; f_equal; f_equal; lia.
  - seats; cbv -[Z.mul Z.add Z.opp]; f_equal; f_equal; lia.
Qed.

Lemma payment_on_self_draw_witness :
  Scoring.checkBaoPai pairsWin 0 = Some (-1)
  /\ exists p, Scoring.calculatePayment pairsWin = Some p
       /\ PaymentInfo.deltas p = [Some 6144; Some (-2048); Some (-2048); Some (-2048)].
Proof.
  destruct (payment_on_self_draw pairsWin pairsInfo pairsHand)
    as [Hbao Hpay].
  - vm_compute. split; [discriminate|reflexivity].
  - vm_compute. split; [discriminate|reflexivity].
  - vm_compute. reflexivity.
  - reflexivity.
  - vm_compute. reflexivity.
  - split; [apply Hbao; reflexivity|].
    destruct Hpay as (p & Hp & _); [apply Hbao; reflexivity|].
    exists p. split; [exact Hp|].
    assert (Scoring.calculatePayment pairsWin
            = Some (PaymentInfo.mk [Some 6144; Some (-2048); Some (-2048); Some (-2048)] (-1))) as E
      by (vm_compute; reflexivity).
    rewrite E in Hp. injection Hp as <-. reflexivity.
Defined.

(** X15.  The seat [checkBaoPai] holds responsible is never the winner: it
    is the seat recorded as the feeder of one of the winner's melds, and
    a hand without melds has no responsible seat. *)
Theorem responsible_is_feeder (game : GameObj.t) (winner r : Z) (hand : Hand.t) :
  at_ (GameObj.hands game) winner = Some hand ->
  Scoring.checkBaoPai game winner = Some r ->
  (Hand.melds hand = [] -> r = -1)
  /\ (r = -1 \/ (r <> winner
                 /\ exists m, m ∈ Hand.melds hand /\ Meld.fromPlayer m = Some r)).
Proof.
  intros Hhand Hr. split.
  { intros Hm. rewrite (no_melds_no_bao _ _ _ Hhand Hm) in Hr. congruence. }
  revert Hr. unfold Scoring.checkBaoPai. rewrite Hhand. cbn [mbind option_bind].
  destruct (bool_decide (length (Hand.melds hand) = 0%nat)); [intros [= <-]; auto|].
  assert (forall ms, (forall m, m ∈ ms -> m ∈ Hand.melds hand) ->
            forall f, Scoring.feederOfLast ms winner = Some f ->
            Some f = Some r ->
            r = -1 \/ (r <> winner
                       /\ exists m, m ∈ Hand.melds hand /\ Meld.fromPlayer m = Some r)) as Hok.
  { intros ms Hsub f Hf [= <-]. right.
    apply feederOfLast_elem in Hf as (Hne & m & Hm & Hfrom). eauto. }
  bao_stage Hok. bao_stage Hok.
  destruct (Scoring.flushFeeder (Hand.melds hand) winner) as [flush|] eqn:Hflush;
    [|discriminate].
  cbn [mbind option_bind].
  destruct flush as [f|].
  { apply (Hok (Hand.melds hand)); [auto|].
    revert Hflush. unfold Scoring.flushFeeder.
    repeat match goal with
    | |- context [if ?c then _ else _] => destruct c; try discriminate
    | |- context [mbind _ ?o] => destruct o; cbn [mbind option_bind]; try discriminate
    end.
    intros [= ->]. reflexivity. }
  bao_stage Hok. intros [= <-]. auto.
Qed.

Lemma responsible_is_feeder_witness :
  Scoring.checkBaoPai dragonWin 0 = Some 2
  /\ 2 <> 0
  /\ exists m, m ∈ Hand.melds dragonHand /\ Meld.fromPlayer m = Some 2.
Proof.
  assert (Scoring.checkBaoPai dragonWin 0 = Some 2) as E by (vm_compute; reflexivity).
  split; [exact E|].
  destruct (responsible_is_feeder dragonWin 0 2 dragonHand) as [_ [H|H]].
  - vm_compute. reflexivity.
  - exact E.
  - discriminate H.
  - exact H.
Defined.

(** The deltas of a completed round are four numbers that sum to zero. *)
Lemma calculatePayment_zeroSum game :
  completedRound game ->
  exists info, Scoring.calculatePayment game = Some info
    /\ zeroSum (PaymentInfo.deltas info)
    /\ (GameObj.winner game < 0 ->
        PaymentInfo.deltas info = [Some 0; Some 0; Some 0; Some 0]).
Proof.
  intros Hround. unfold Scoring.calculatePayment.
  assert (zeroSum [Some 0; Some 0; Some 0; Some 0]) as Hz0.
  { exists 0, 0, 0, 0. split; [reflexivity|lia]. }
  destruct (decide (GameObj.winner game < 0)) as [Hdraw|Hwon]; [eauto|].
  destruct Hround as [?|(Hw & info & -> & Hinfo)]; [contradiction|].
  cbn [mbind option_bind].
  destruct (WinInfo.selfDrawn info).
  - destruct Hinfo as (hand & Hhand & Hwf & Hseats).
    destruct (checkBaoPai_seat game _ hand Hhand Hwf Hseats) as (resp & -> & Hresp).
    cbn [mbind option_bind].
    destruct (decide (resp >= 0)) as [Hbao|Hnone].
    + destruct Hresp as [->|[Hseat _]]; [lia|].
      eexists. split; [reflexivity|]. split; [|intros; lia].
      apply transfer_zeroSum; assumption.
    + eexists. split; [reflexivity|]. split; [|intros; lia].
      apply payLosers_zeroSum. assumption.
  - destruct Hinfo as (f & -> & Hf).
    eexists. split; [reflexivity|]. split; [|intros; lia].
    apply transfer_zeroSum; assumption.
Qed.

(** X16.  [_applyPayment] at the end of a round adds the four deltas to the
    four scores, so the sum of the scores stays what it was; it counts
    the round, and a drawn round leaves every score as it is. *)
Theorem applyPayment_moves_points (g : Game.t) (a b c d : Z) :
  completedRound g ->
  GameObj.scores g = [Some a; Some b; Some c; Some d] ->
  exists g' p a' b' c' d',
    Game._applyPayment g = Some g'
    /\ Scoring.calculatePayment g = Some p
    /\ GameObj.paymentInfo g' = Some p
    /\ PaymentInfo.deltas p = [Some (a' - a); Some (b' - b); Some (c' - c); Some (d' - d)]
    /\ GameObj.scores g' = [Some a'; Some b'; Some c'; Some d']
    /\ a' + b' + c' + d' = a + b + c + d
    /\ GameObj.totalRounds g' = GameObj.totalRounds g + 1
    /\ GameObj.hands g' = GameObj.hands g
    /\ (GameObj.winner g < 0 -> GameObj.scores g' = GameObj.scores g).
Proof.
  intros Hround Hscores.
  destruct (calculatePayment_zeroSum g Hround) as (p & Hp & (x & y & z & w & Hd & Hsum) & Hdraw).
  unfold Game._applyPayment. rewrite Hp. cbn [mbind option_bind].
  eexists _, p, (a + x), (b + y), (c + z), (d + w).
  split; [reflexivity|]. split; [reflexivity|]. split; [reflexivity|].
  rewrite Hd, Hscores. cbn.
  split; [repeat f_equal; lia|]. split; [reflexivity|]. split; [lia|].
  split; [reflexivity|]. split; [reflexivity|].
  intros Hneg. specialize (Hdraw Hneg). rewrite Hd in Hdraw.
  injection Hdraw as -> -> -> ->. repeat f_equal; lia.
Qed.

Lemma applyPayment_moves_points_witness :
  exists g', Game._applyPayment pairsUnpaid = Some g'
    /\ GameObj.scores g' = [Some 16144; Some 7952; Some 7952; Some 7952]
    /\ GameObj.totalRounds g' = 1.
Proof.
  destruct (applyPayment_moves_points pairsUnpaid 10000 10000 10000 10000)
    as (g' & p & a' & b' & c' & d' & Hg' & Hp & _ & Hd & Hs & _ & Hr & _).
  - right. split; [vm_compute; split; [discriminate|reflexivity]|].
    exists pairsInfo. split; [reflexivity|].
    exists pairsHand. split; [vm_compute; reflexivity|]. split; apply List.Forall_nil.
  - reflexivity.
  - exists g'. split; [exact Hg'|]. split; [|exact Hr].
    assert (Scoring.calculatePayment pairsUnpaid
            = Some (PaymentInfo.mk [Some 6144; Some (-2048); Some (-2048); Some (-2048)] (-1))) as E
      by (vm_compute; reflexivity).
    rewrite E in Hp. injection Hp as <-. cbn [PaymentInfo.deltas] in Hd.
    injection Hd as Ha Hb Hc Hdd. rewrite Hs. repeat f_equal; lia.
Defined.

(** * The wall *)

Lemma createAllTiles_ids : Tile.id <$> Tile.createAllTiles = seq 0 144.
Proof. vm_compute. reflexivity. Qed.

Lemma createAllTiles_keys k :
  occ k (Tile.key <$> Tile.createAllTiles) = copiesOf k.
Proof.
  assert (Forall (fun k' => bool_decide (copiesOf k' <> 0%nat) = true)
                 (Tile.key <$> Tile.createAllTiles)) as Hin.
  { apply Forall_forall. intros k' Hk'. apply bool_decide_eq_true.
    revert k' Hk'. apply Forall_forall. apply (bool_decide_unpack _). vm_compute. exact I. }
  destruct (decide (copiesOf k = 0%nat)) as [E|N].
  - rewrite E. destruct (Nat.eq_dec (occ k (Tile.key <$> Tile.createAllTiles)) 0%nat) as [|Hpos];
      [assumption|exfalso].
    assert (0 < occ k (Tile.key <$> Tile.createAllTiles))%nat as Hocc by lia.
    apply occ_pos in Hocc.
    rewrite Forall_forall in Hin. specialize (Hin k).
    rewrite bool_decide_eq_true in Hin. apply Hin; [|exact E].
    apply list_elem_of_In, Hocc.
  - destruct k as [s v]. unfold copiesOf in N.
    destruct s; destruct (decide _) as [Hv|]; try congruence;
      (assert (v = 1 \/ v = 2 \/ v = 3 \/ v = 4 \/ v = 5 \/ v = 6 \/ v = 7 \/ v = 8 \/ v = 9)
         as Hcases by lia;
       repeat (destruct Hcases as [->|Hcases]; [vm_compute; reflexivity|]);
       try (subst v; vm_compute; reflexivity); lia).
Qed.

(** X17.  Whatever the random source, [build] leaves the 144 tiles of the
    set, each once: 130 in the live wall and 14 in the dead wall, nothing
    drawn yet.  The tiles carry the ids 0 to 143; there are four of every
    suited tile, wind and dragon and one of every flower and season. *)
Theorem build_full_set (w0 : Wall.t) (r : RNG.t) (k : Key) :
  let w := fst (Wall.build w0 r) in
  Wall.tiles w ++ Wall.deadWall w ≡ₚ Tile.createAllTiles
  /\ length (Wall.tiles w) = 130%nat /\ length (Wall.deadWall w) = 14%nat
  /\ Wall.drawIndex w = 0%nat /\ Wall.remaining w = 130
  /\ Tile.id <$> Tile.createAllTiles = seq 0 144
  /\ distinctIds (Wall.tiles w ++ Wall.deadWall w)
  /\ occ k (Tile.key <$> (Wall.tiles w ++ Wall.deadWall w)) = copiesOf k.
Proof.
  intros w. destruct (build_spec w0 r) as (Hperm & Hlen & Hdead & Hidx). fold w in Hperm, Hlen, Hdead, Hidx.
  split; [exact Hperm|]. split; [exact Hlen|]. split; [exact Hdead|]. split; [exact Hidx|].
  split; [unfold Wall.remaining; rewrite Hlen, Hidx; reflexivity|].
  split; [exact createAllTiles_ids|]. split.
  - unfold distinctIds. rewrite Hperm, createAllTiles_ids. apply NoDup_ListNoDup, List.seq_NoDup.
  - rewrite <- createAllTiles_keys. unfold occ. apply Permutation_count_occ.
    apply fmap_Permutation, Hperm.
Qed.

Lemma draw_Some w x w' :
  Wall.draw w = (Some x, w') ->
  Wall.tiles w !! Wall.drawIndex w = Some x
  /\ w' = Wall.mk (Wall.tiles w) (Wall.deadWall w) (S (Wall.drawIndex w))
  /\ drop (Wall.drawIndex w) (Wall.tiles w) = x :: drop (Wall.drawIndex w') (Wall.tiles w').
Proof.
  unfold Wall.draw. destruct (Wall.tiles w !! Wall.drawIndex w) as [y|] eqn:E; [|discriminate].
  intros [= -> <-]. split; [reflexivity|]. split; [reflexivity|].
  cbn. apply drop_S in E. exact E.
Qed.

Lemma draw_None w w' :
  Wall.draw w = (None, w') ->
  w' = w /\ drop (Wall.drawIndex w) (Wall.tiles w) = [].
Proof.
  unfold Wall.draw. destruct (Wall.tiles w !! Wall.drawIndex w) as [y|] eqn:E; [discriminate|].
  intros [= <-]. split; [reflexivity|]. apply drop_ge, lookup_ge_None, E.
Qed.

Lemma last_removelast {A} (l : list A) x : list.last l = Some x -> l = removelast l ++ [x].
Proof.
  intros H. apply last_Some in H as [l' ->]. rewrite removelast_last. reflexivity.
Qed.

Lemma drawFromDeadWall_Some w x w' :
  Wall.drawFromDeadWall w = (Some x, w') ->
  w' = Wall.mk (Wall.tiles w) (removelast (Wall.deadWall w)) (Wall.drawIndex w)
  /\ Wall.deadWall w = Wall.deadWall w' ++ [x].
Proof.
  unfold Wall.drawFromDeadWall. destruct (list.last (Wall.deadWall w)) as [y|] eqn:E; [|discriminate].
  intros [= -> <-]. split; [reflexivity|]. cbn. apply last_removelast, E.
Qed.

Lemma drawFromDeadWall_None w w' :
  Wall.drawFromDeadWall w = (None, w') -> w' = w /\ Wall.deadWall w = [].
Proof.
  unfold Wall.drawFromDeadWall. destruct (list.last (Wall.deadWall w)) as [y|] eqn:E; [discriminate|].
  intros [= <-]. split; [reflexivity|]. apply last_None, E.
Qed.

Lemma draw_wallLeft w x w' : Wall.draw w = (Some x, w') -> wallLeft w ≡ₚ x :: wallLeft w'.
Proof.
  intros H. apply draw_Some in H as (_ & Hw & Hdrop). unfold wallLeft. rewrite Hdrop.
  subst w'. reflexivity.
Qed.

Lemma drawFromDeadWall_wallLeft w x w' :
  Wall.drawFromDeadWall w = (Some x, w') -> wallLeft w ≡ₚ x :: wallLeft w'.
Proof.
  intros H. apply drawFromDeadWall_Some in H as (Hw & Hdead). unfold wallLeft. rewrite Hdead.
  subst w'. cbn. rewrite app_assoc, <- Permutation_cons_append. reflexivity.
Qed.

Lemma drawReplacement_wallLeft w x w' :
  Game.drawReplacement w = (Some x, w') -> wallLeft w ≡ₚ x :: wallLeft w'.
Proof.
  unfold Game.drawReplacement.
  destruct (Wall.drawFromDeadWall w) as [[y|] w1] eqn:E.
  - intros [= -> ->]. apply drawFromDeadWall_wallLeft, E.
  - apply drawFromDeadWall_None in E as [-> _]. apply draw_wallLeft.
Qed.

Lemma drawReplacement_None w w' :
  Game.drawReplacement w = (None, w') -> w' = w /\ wallLeft w = [].
Proof.
  unfold Game.drawReplacement.
  destruct (Wall.drawFromDeadWall w) as [[y|] w1] eqn:E; [discriminate|].
  apply drawFromDeadWall_None in E as [-> Hdead].
  intros H. apply draw_None in H as [-> Hdrop]. split; [reflexivity|].
  unfold wallLeft. rewrite Hdrop, Hdead. reflexivity.
Qed.

(** * Flower bloom *)

Lemma tilesLeft_wallLeft w : Game.tilesLeft w = length (wallLeft w).
Proof. unfold Game.tilesLeft, wallLeft. rewrite length_app, length_drop. lia. Qed.

Lemma bloomed_refl hand w : bloomed hand w hand w.
Proof.
  split; [repeat split|]. split; [reflexivity|]. exists [].
  split; [constructor|]. split; [rewrite app_nil_r; reflexivity|reflexivity].
Qed.

Lemma bloomed_trans h1 w1 h2 w2 h3 w3 :
  bloomed h1 w1 h2 w2 -> bloomed h2 w2 h3 w3 -> bloomed h1 w1 h3 w3.
Proof.
  intros ((Hp1 & Hm1 & Hd1) & Hl1 & e1 & He1 & Hf1 & Hc1)
         ((Hp2 & Hm2 & Hd2) & Hl2 & e2 & He2 & Hf2 & Hc2).
  split; [repeat split; congruence|]. split; [congruence|].
  exists (e1 ++ e2). split; [apply Forall_app; split; assumption|]. split.
  - rewrite Hf2, Hf1, app_assoc. reflexivity.
  - rewrite Hc1.
    rewrite (Permutation_app_swap_app (Hand.concealed h2) e1), Hc2.
    rewrite (Permutation_app_swap_app e1 (Hand.concealed h3)), <- !app_assoc. reflexivity.
Qed.

Lemma bloomed_sort hand w hand' w' :
  bloomed hand w hand' w' -> bloomed hand w (Hand.sort hand') w'.
Proof.
  intros ((Hp & Hm & Hd) & Hl & e & He & Hf & Hc).
  split; [repeat split; assumption|]. split; [cbn; rewrite sort_length; exact Hl|].
  exists e. split; [exact He|]. split; [exact Hf|].
  cbn. rewrite sort_Permutation. exact Hc.
Qed.

Lemma bloomAt_bloomed i b hand w b' hand' w' :
  Game.bloomAt i (b, hand, w) = (b', hand', w') ->
  bloomed hand w hand' w'
  /\ (b' = false ->
      b = false /\ hand' = hand /\ w' = w
      /\ forall tile, Hand.concealed hand !! i = Some tile -> Tile.isBonus tile = true ->
           wallLeft w = []).
Proof.
  unfold Game.bloomAt.
  destruct (Hand.concealed hand !! i) as [tile|] eqn:Hi.
  2:{ intros [= <- <- <-]. split; [apply bloomed_refl|]. intros ->. repeat split. discriminate. }
  destruct (Tile.isBonus tile) eqn:Hb.
  2:{ intros [= <- <- <-]. split; [apply bloomed_refl|]. intros ->. repeat split.
      intros ? [= <-]. congruence. }
  destruct (Game.drawReplacement w) as [[x|] w1] eqn:Hx.
  2:{ intros [= <- <- <-]. split; [apply bloomed_refl|]. intros ->. repeat split.
      intros _ _ _. apply drawReplacement_None in Hx as [_ Hx]. exact Hx. }
  intros [= <- <- <-]. split; [|discriminate].
  apply drawReplacement_wallLeft in Hx.
  split; [repeat split|]. split.
  - cbn. rewrite length_app, length_delete by (eexists; exact Hi). cbn.
    apply lookup_lt_Some in Hi. lia.
  - exists [tile]. split; [repeat constructor; exact Hb|]. split.
    + cbn. rewrite sort_Permutation. reflexivity.
    + cbn. rewrite Hx. rewrite (delete_Permutation _ _ _ Hi) at 1.
      rewrite <- !app_assoc. cbn.
      rewrite <- !Permutation_middle. apply perm_swap.
Qed.

Lemma bloomPass_bloomed n : forall b hand w b' hand' w',
  Game.bloomPass n (b, hand, w) = (b', hand', w') ->
  bloomed hand w hand' w'
  /\ (b' = false ->
      b = false /\ hand' = hand /\ w' = w
      /\ forall i tile, (i < n)%nat -> Hand.concealed hand !! i = Some tile ->
           Tile.isBonus tile = true -> wallLeft w = []).
Proof.
  induction n as [|n IH]; intros b hand w b' hand' w'; cbn [Game.bloomPass].
  - intros [= <- <- <-]. split; [apply bloomed_refl|]. intros ->. repeat split. lia.
  - destruct (Game.bloomAt n (b, hand, w)) as [[b1 h1] w1] eqn:E1. intros E2.
    apply bloomAt_bloomed in E1 as [Hb1 Hf1]. apply IH in E2 as [Hb2 Hf2].
    split; [eapply bloomed_trans; eassumption|].
    intros Hb'. destruct (Hf2 Hb') as (-> & -> & -> & Hrest).
    destruct (Hf1 eq_refl) as (-> & -> & -> & Hn).
    repeat split. intros i tile Hi. destruct (decide (i = n)) as [->|]; [apply Hn|].
    apply Hrest. lia.
Qed.

Lemma bloomLoop_bloomed fuel : forall hand w hand' w',
  (Game.tilesLeft w < fuel)%nat ->
  Game.bloomLoop fuel hand w = (hand', w') ->
  bloomed hand w hand' w'
  /\ (noBonus (Hand.concealed hand') \/ wallLeft w' = []).
Proof.
  induction fuel as [|fuel IH]; intros hand w hand' w' Hfuel; [lia|].
  cbn [Game.bloomLoop].
  destruct (Game.bloomPass _ (false, hand, w)) as [[b1 h1] w1] eqn:E1.
  pose proof (bloomPass_tilesLeft _ _ _ _ _ _ _ E1) as [_ Hlt].
  apply bloomPass_bloomed in E1 as [Hb1 Hf1].
  destruct b1.
  - intros E2. destruct (Hlt eq_refl) as [?|Hlt']; [discriminate|].
    apply IH in E2 as [Hb2 Hdone]; [|lia].
    split; [eapply bloomed_trans; eassumption|exact Hdone].
  - intros [= <- <-]. split; [exact Hb1|].
    destruct (Hf1 eq_refl) as (_ & -> & -> & Hall).
    destruct (decide (wallLeft w = [])) as [|Hne]; [right; assumption|left].
    apply Forall_forall. intros x Hx.
    apply list_elem_of_In, list_elem_of_lookup in Hx as [i Hi].
    destruct (Tile.isBonus x) eqn:Hb; [|reflexivity].
    exfalso. apply Hne. apply (Hall i x); [|assumption ..].
    apply lookup_lt_Some in Hi. exact Hi.
Qed.

(** ** Counting tiles *)

Lemma count_occ_cons_app (a x : Tile.t) l :
  count_occ Tile.t_eq_dec (a :: l) x
  = (count_occ Tile.t_eq_dec [a] x + count_occ Tile.t_eq_dec l x)%nat.
Proof. cbn. destruct (Tile.t_eq_dec a x); reflexivity. Qed.

(** Permutations of tiles, settled by counting every tile. *)
Ltac perm_count :=
  let x := fresh "x" in
  apply (Permutation_count_occ Tile.t_eq_dec); intros x;
  repeat match goal with
  | H : ?l1 ≡ₚ ?l2 |- _ =>
    pose proof (proj1 (Permutation_count_occ Tile.t_eq_dec l1 l2) H x); clear H
  end;
  repeat first
    [ progress rewrite ?count_occ_app in *
    | match goal with
      | H : context [count_occ _ (_ :: ?l) _] |- _ =>
        lazymatch l with [] => fail | _ => rewrite (count_occ_cons_app _ _ l) in H end
      | |- context [count_occ _ (_ :: ?l) _] =>
        lazymatch l with [] => fail | _ => rewrite (count_occ_cons_app _ _ l) end
      end ];
  lia.

Lemma handAll_bloomed h w h' w' :
  bloomed h w h' w' -> handAll h' ++ wallLeft w' ≡ₚ handAll h ++ wallLeft w.
Proof.
  intros ((Hp & Hm & Hd) & Hl & e & He & Hf & Hc). unfold handAll. rewrite Hm, Hd.
  perm_count.
Qed.

Lemma at_split {A} (l : list A) p h :
  at_ l p = Some h ->
  exists l1 l2, l = l1 ++ h :: l2 /\ length l1 = Z.to_nat p /\ 0 <= p.
Proof.
  unfold at_. destruct (decide (p < 0)); [discriminate|]. intros H.
  apply list_elem_of_split_length in H as (l1 & l2 & -> & Hlen). exists l1, l2.
  split; [reflexivity|]. split; [symmetry; exact Hlen|lia].
Qed.

(** Replacing one hand and the wall by a hand and a wall with the same
    tiles keeps the tiles of the game. *)
Lemma allTiles_update g p h h' w' :
  at_ (GameObj.hands g) p = Some h ->
  handAll h' ++ wallLeft w' ≡ₚ handAll h ++ wallLeft (GameObj.wall g) ->
  allTiles (Game.setHand p h' (GameObj.set_wall w' g)) ≡ₚ allTiles g.
Proof.
  intros Hh Hperm. apply at_split in Hh as (l1 & l2 & Hl & Hlen & Hp).
  unfold allTiles, Game.setHand. cbn. rewrite Hl, <- Hlen.
  rewrite insert_app_r_alt, Nat.sub_diag by lia. cbn.
  rewrite !flat_map_app. cbn.
  generalize dependent (flat_map handAll l1). generalize dependent (flat_map handAll l2).
  intros. perm_count.
Qed.

Lemma at_setHand_other p q h g :
  q <> p -> 0 <= p -> at_ (GameObj.hands (Game.setHand p h g)) q = at_ (GameObj.hands g) q.
Proof.
  intros Hne Hp. unfold at_, Game.setHand. cbn. destruct (decide (q < 0)); [reflexivity|].
  apply list_lookup_insert_ne. lia.
Qed.

Lemma handleFlowerBloom_inv p g hand :
  at_ (GameObj.hands g) p = Some hand ->
  exists g' hand',
    Game._handleFlowerBloom p g = Some g'
    /\ at_ (GameObj.hands g') p = Some hand'
    /\ bloomed hand (GameObj.wall g) hand' (GameObj.wall g')
    /\ (noBonus (Hand.concealed hand') \/ wallLeft (GameObj.wall g') = [])
    /\ allTiles g' ≡ₚ allTiles g
    /\ (forall q, q <> p -> at_ (GameObj.hands g') q = at_ (GameObj.hands g) q)
    /\ (exists l, Hand.concealed hand' = Tile.sort l).
Proof.
  intros Hh. unfold Game._handleFlowerBloom. rewrite Hh. cbn [mbind option_bind].
  destruct (Game.bloomLoop _ hand (GameObj.wall g)) as [hand1 w1] eqn:E.
  apply bloomLoop_bloomed in E as [Hb Hdone]; [|lia].
  exists (Game.setHand p (Hand.sort hand1) (GameObj.set_wall w1 g)), (Hand.sort hand1).
  split; [reflexivity|]. split; [apply at_setHand; rewrite hands_set_wall, Hh; eauto|].
  split; [apply bloomed_sort, Hb|]. split.
  { destruct Hdone as [Hn|Hw]; [left|right; exact Hw].
    cbn. unfold noBonus. rewrite sort_Permutation. exact Hn. }
  split; [apply (allTiles_update g p hand); [exact Hh|]; apply handAll_bloomed, bloomed_sort, Hb|].
  split; [|exists (Hand.concealed hand1); reflexivity].
  intros q Hq. apply at_split in Hh as (_ & _ & _ & _ & Hp).
  rewrite at_setHand_other by assumption. reflexivity.
Qed.

(** X18.  A flower bloom moves flowers and seasons, and nothing else, from
    the concealed tiles of the seat to its bonus tiles and draws a
    replacement for each, so the hand keeps its size and the game its
    tiles.  It goes on until the hand holds no bonus tile, or until both
    walls are used up.  The other seats are not touched. *)
Theorem handleFlowerBloom_replaces (p : Z) (g : Game.t) (hand : Hand.t) :
  at_ (GameObj.hands g) p = Some hand ->
  exists g' hand',
    Game._handleFlowerBloom p g = Some g'
    /\ at_ (GameObj.hands g') p = Some hand'
    /\ bloomed hand (GameObj.wall g) hand' (GameObj.wall g')
    /\ (noBonus (Hand.concealed hand') \/ wallLeft (GameObj.wall g') = [])
    /\ allTiles g' ≡ₚ allTiles g
    /\ (forall q, q <> p -> at_ (GameObj.hands g') q = at_ (GameObj.hands g) q)
    /\ onlyTiles g g'.
Proof.
  intros Hh.
  destruct (handleFlowerBloom_inv p g hand Hh)
    as (g' & hand' & Hg' & Hat & Hb & Hdone & Hall & Hq & _).
  exists g', hand'. repeat (split; [assumption|]).
  destruct (handleFlowerBloom_ok p g) as (g2 & Hg2 & Honly); [rewrite Hh; eauto|].
  rewrite Hg' in Hg2. injection Hg2 as <-. exact Honly.
Qed.

Lemma handleFlowerBloom_replaces_witness :
  exists g' hand',
    Game._handleFlowerBloom 0 flowerGame = Some g'
    /\ at_ (GameObj.hands g') 0 = Some hand'
    /\ bloomed flowerHand (GameObj.wall flowerGame) hand' (GameObj.wall g')
    /\ (noBonus (Hand.concealed hand') \/ wallLeft (GameObj.wall g') = [])
    /\ allTiles g' ≡ₚ allTiles flowerGame
    /\ (forall q, q <> 0 -> at_ (GameObj.hands g') q = at_ (GameObj.hands flowerGame) q)
    /\ onlyTiles flowerGame g'.
Proof. apply (handleFlowerBloom_replaces 0 flowerGame flowerHand). reflexivity. Defined.

(** * Hand size repair *)

Lemma lowerTarget_spec m : forall t,
  (Game.lowerTarget m t <= t)%nat
  /\ ((Game.lowerTarget m t) `mod` 3 = m \/ Game.lowerTarget m t = 0)%nat
  /\ (forall u, Game.lowerTarget m t < u <= t -> u `mod` 3 <> m)%nat.
Proof.
  induction t as [|t (IH1 & IH2 & IH3)]; cbn [Game.lowerTarget].
  - split; [lia|]. split; [right; reflexivity|]. intros u Hu. lia.
  - destruct (decide _) as [E|N].
    + split; [lia|]. split; [left; exact E|]. intros u Hu. lia.
    + split; [lia|]. split; [exact IH2|]. intros u Hu.
      destruct (decide (u = S t)) as [->|]; [exact N|]. apply IH3. lia.
Qed.

Lemma handAll_addTile x h : handAll (Hand.addTile x h) ≡ₚ x :: handAll h.
Proof.
  unfold handAll. cbn. rewrite sort_Permutation, <- app_assoc. cbn.
  rewrite <- Permutation_middle. reflexivity.
Qed.

Lemma length_addTile x h :
  length (Hand.concealed (Hand.addTile x h)) = S (length (Hand.concealed h)).
Proof. cbn. rewrite sort_length, length_app. cbn. lia. Qed.

Lemma sameMelds_refl h : sameMelds h h.
Proof. repeat split. Qed.

Lemma sameMelds_trans h1 h2 h3 : sameMelds h1 h2 -> sameMelds h2 h3 -> sameMelds h1 h3.
Proof. intros (? & ? & ?) (? & ? & ?). repeat split; congruence. Qed.

(** The refilling loop: the hand grows to [target] tiles, or the live
    wall runs out first. *)
Lemma refill_spec fuel target p : forall g hand g',
  at_ (GameObj.hands g) p = Some hand ->
  (length (Hand.concealed hand) <= target)%nat ->
  (target - length (Hand.concealed hand) <= fuel)%nat ->
  Game.refill fuel target p g = Some g' ->
  exists hand', at_ (GameObj.hands g') p = Some hand'
    /\ allTiles g' ≡ₚ allTiles g
    /\ (forall q, q <> p -> at_ (GameObj.hands g') q = at_ (GameObj.hands g) q)
    /\ sameMelds hand hand'
    /\ (length (Hand.concealed hand) <= length (Hand.concealed hand') <= target)%nat
    /\ (length (Hand.concealed hand') = target
        \/ fst (Wall.draw (GameObj.wall g')) = None).
Proof.
  induction fuel as [|fuel IH]; intros g hand g' Hhand Hle Hfuel; cbn [Game.refill].
  - intros [= <-]. exists hand. split; [exact Hhand|]. split; [reflexivity|].
    split; [reflexivity|]. split; [apply sameMelds_refl|]. split; [lia|left; lia].
  - rewrite Hhand. cbn [mbind option_bind].
    destruct (decide _) as [Hlt|].
    2:{ intros [= <-]. exists hand. split; [exact Hhand|]. split; [reflexivity|].
        split; [reflexivity|]. split; [apply sameMelds_refl|]. split; [lia|left; lia]. }
    destruct (Wall.draw (GameObj.wall g)) as [[extra|] w] eqn:Hdraw.
    2:{ intros [= <-]. exists hand. split; [exact Hhand|]. split; [reflexivity|].
        split; [reflexivity|]. split; [apply sameMelds_refl|]. split; [lia|right].
        rewrite Hdraw. reflexivity. }
    set (g1 := Game.setHand p (Hand.addTile extra hand) (GameObj.set_wall w g)).
    assert (at_ (GameObj.hands g1) p = Some (Hand.addTile extra hand)) as H1.
    { apply at_setHand. rewrite hands_set_wall, Hhand. eauto. }
    assert (allTiles g1 ≡ₚ allTiles g) as Hall1.
    { apply (allTiles_update g p hand); [exact Hhand|].
      rewrite handAll_addTile. apply draw_wallLeft in Hdraw. perm_count. }
    assert (0 <= p) as Hp by (apply at_split in Hhand as (_ & _ & _ & _ & Hp); exact Hp).
    destruct (handleFlowerBloom_inv p g1 _ H1)
      as (g2 & hand2 & -> & H2 & ((Hpi & Hm & Hd) & Hlen & _) & _ & Hall2 & Hq2 & _).
    cbn [mbind option_bind]. intros Hg'.
    rewrite length_addTile in Hlen.
    apply (IH _ hand2) in Hg' as (hand' & Hat & Hall & Hq & Hsame & Hlen' & Hdone);
      [|exact H2|lia|lia].
    exists hand'. split; [exact Hat|]. split; [rewrite Hall, Hall2; exact Hall1|].
    split.
    { intros q Hne. rewrite Hq, Hq2 by assumption. subst g1.
      rewrite at_setHand_other by assumption. reflexivity. }
    split; [|split; [lia|exact Hdone]].
    eapply sameMelds_trans; [|exact Hsame]. repeat split; assumption.
Qed.

(** The popping loop: the hand is cut down to its first [target] tiles;
    the tiles cut off go to its own discard pile, the last one first. *)
Lemma popExcess_spec fuel target : forall hand,
  (length (Hand.concealed hand) - target <= fuel)%nat ->
  Game.popExcess fuel target hand
  = Hand.set_discards
      (Hand.discards hand ++ reverse (drop target (Hand.concealed hand)))
      (Hand.set_concealed (take target (Hand.concealed hand)) hand).
Proof.
  induction fuel as [|fuel IH]; intros hand Hfuel; cbn [Game.popExcess].
  - rewrite take_ge, drop_ge by lia. cbn. rewrite app_nil_r. destruct hand; reflexivity.
  - destruct (decide _) as [Hlt|Hge].
    2:{ rewrite take_ge, drop_ge by lia. cbn. rewrite app_nil_r. destruct hand; reflexivity. }
    destruct (list.last (Hand.concealed hand)) as [x|] eqn:Hlast.
    2:{ apply last_None in Hlast. rewrite Hlast in Hlt. cbn in Hlt. lia. }
    apply last_removelast in Hlast.
    destruct hand as [pi c ms fl ds]; cbn in *.
    remember (removelast c) as c' eqn:Hc'. clear Hc'. subst c.
    rewrite length_app in Hlt, Hfuel. cbn in Hlt, Hfuel.
    rewrite IH by (cbn; lia). cbn.
    rewrite take_app_le, drop_app_le by lia. rewrite reverse_app. cbn.
    rewrite <- app_assoc. reflexivity.
Qed.

Lemma allTiles_setHand g p h h' :
  at_ (GameObj.hands g) p = Some h -> handAll h' ≡ₚ handAll h ->
  allTiles (Game.setHand p h' g) ≡ₚ allTiles g.
Proof.
  intros Hh Hperm. apply (allTiles_update g p h h' (GameObj.wall g) Hh).
  rewrite Hperm. reflexivity.
Qed.

Lemma handAll_sort h : handAll (Hand.sort h) ≡ₚ handAll h.
Proof. unfold handAll. cbn. rewrite sort_Permutation. reflexivity. Qed.

Lemma handAll_cut target h :
  handAll (Hand.set_discards
             (Hand.discards h ++ reverse (drop target (Hand.concealed h)))
             (Hand.set_concealed (take target (Hand.concealed h)) h))
  ≡ₚ handAll h.
Proof.
  unfold handAll. cbn. rewrite reverse_Permutation.
  rewrite <- (take_drop target (Hand.concealed h)) at 3.
  generalize (take target (Hand.concealed h)) (drop target (Hand.concealed h)).
  intros. perm_count.
Qed.

(** The number of tiles [_validateHandSize] aims at is congruent to the
    expected remainder. *)
Lemma target_mod (m actual : nat) :
  (m < 3)%nat ->
  let target := Game.lowerTarget m actual in
  let target := if decide (target <= 0)%nat then m else target in
  (target `mod` 3 = m)%nat /\ (m <= actual -> target <= actual /\ actual - target < 3)%nat.
Proof.
  intros Hm. destruct (lowerTarget_spec m actual) as (Hle & Hmod & Hmax).
  cbv zeta. destruct (decide _) as [Hz|Hnz].
  - split; [apply Nat.mod_small, Hm|]. intros Hma. split; [exact Hma|].
    assert (Game.lowerTarget m actual = 0%nat) as Hz' by lia. rewrite Hz' in Hmax.
    destruct (decide (actual - m < 3)%nat) as [|Hbig]; [assumption|exfalso].
    apply (Hmax (m + 3)%nat); [lia|].
    rewrite <- (Nat.mod_small m 3 Hm) at 2.
    replace (m + 3)%nat with (m + 1 * 3)%nat by lia. apply Nat.Div0.mod_add.
  - destruct Hmod as [Hmod|]; [|lia]. split; [exact Hmod|]. intros _. split; [exact Hle|].
    destruct (decide (actual - Game.lowerTarget m actual < 3)%nat) as [|Hbig];
      [assumption|exfalso].
    apply (Hmax (Game.lowerTarget m actual + 3)%nat); [lia|].
    rewrite <- Hmod at 2.
    replace (Game.lowerTarget m actual + 3)%nat
      with (Game.lowerTarget m actual + 1 * 3)%nat by lia.
    apply Nat.Div0.mod_add.
Qed.

Lemma validateHandSize_inv p phase g hand :
  at_ (GameObj.hands g) p = Some hand ->
  let expected := match phase with Game.before_discard => 2%nat | Game.after_discard => 1%nat end in
  exists g' hand',
    Game._validateHandSize p phase g = Some g'
    /\ at_ (GameObj.hands g') p = Some hand'
    /\ allTiles g' ≡ₚ allTiles g
    /\ (forall q, q <> p -> at_ (GameObj.hands g') q = at_ (GameObj.hands g) q)
    /\ ((length (Hand.concealed hand)) `mod` 3 = expected -> g' = g)%nat
    /\ ((length (Hand.concealed hand')) `mod` 3 = expected
        \/ fst (Wall.draw (GameObj.wall g')) = None)%nat.
Proof.
  intros Hh expected. unfold Game._validateHandSize. rewrite Hh. cbn [mbind option_bind].
  fold expected.
  assert (expected < 3)%nat as Hm by (destruct phase; cbn; lia).
  assert (0 <= p) as Hp by (apply at_split in Hh as (_ & _ & _ & _ & Hp); exact Hp).
  destruct (decide _) as [E|N].
  { exists g, hand. repeat split; auto. }
  destruct (target_mod expected (length (Hand.concealed hand)) Hm) as [Hmod Hrange].
  cbv zeta in Hmod, Hrange.
  set (target := if decide (_ <= 0)%nat then _ else _) in *.
  destruct (decide (length (Hand.concealed hand) < target)%nat) as [Hlt|Hge].
  - destruct (refill_ok target target p g) as (g1 & Hg1 & _); [rewrite Hh; eauto|].
    rewrite Hg1. cbn [mbind option_bind].
    apply (refill_spec _ _ _ _ hand) in Hg1
      as (hand1 & Hat1 & Hall1 & Hq1 & _ & Hlen1 & Hdone1); [|exact Hh|lia|lia].
    rewrite Hat1. cbn [mbind option_bind].
    exists (Game.setHand p (Hand.sort hand1) g1), (Hand.sort hand1).
    split; [reflexivity|]. split; [apply at_setHand; rewrite Hat1; eauto|].
    split; [rewrite <- Hall1; apply (allTiles_setHand g1 p hand1); [exact Hat1|apply handAll_sort]|].
    split; [intros q Hq; rewrite at_setHand_other, Hq1 by assumption; reflexivity|].
    split; [intros E; contradiction|].
    destruct Hdone1 as [Hlen|Hnone]; [left|right; exact Hnone].
    cbn. rewrite sort_length, Hlen. exact Hmod.
  - destruct (decide (target < _)%nat) as [Hgt|Hle].
    + rewrite popExcess_spec by lia.
      eexists _, _. split; [reflexivity|]. split; [apply at_setHand; rewrite Hh; eauto|].
      split; [apply (allTiles_setHand g p hand); [exact Hh|apply handAll_cut]|].
      split; [intros q Hq; rewrite at_setHand_other by assumption; reflexivity|].
      split; [intros E; contradiction|]. left.
      cbn. rewrite length_take, Nat.min_l by lia. exact Hmod.
    + exists g, hand. split; [reflexivity|]. split; [exact Hh|]. split; [reflexivity|].
      split; [reflexivity|]. split; [reflexivity|]. left.
      replace (length (Hand.concealed hand)) with target by lia. exact Hmod.
Qed.

(** X19.  [_validateHandSize] loses no tile and touches no other seat.  A
    hand of the expected size (2 modulo 3 before a discard, 1 after) is
    left alone.  Any other hand is brought to that size unless the live
    wall runs out: a hand that is too long is cut down by at most two
    tiles, and the tiles cut off its end go to its own discard pile. *)
Theorem validateHandSize_repairs (p : Z) (phase : Game.Phase) (g : Game.t) (hand : Hand.t) :
  at_ (GameObj.hands g) p = Some hand ->
  let expected := match phase with Game.before_discard => 2%nat | Game.after_discard => 1%nat end in
  exists g' hand',
    Game._validateHandSize p phase g = Some g'
    /\ at_ (GameObj.hands g') p = Some hand'
    /\ allTiles g' ≡ₚ allTiles g
    /\ (forall q, q <> p -> at_ (GameObj.hands g') q = at_ (GameObj.hands g) q)
    /\ ((length (Hand.concealed hand)) `mod` 3 = expected -> g' = g)%nat
    /\ ((length (Hand.concealed hand')) `mod` 3 = expected
        \/ fst (Wall.draw (GameObj.wall g')) = None)%nat
    /\ ((expected <= length (Hand.concealed hand))%nat ->
        let n := length (Hand.concealed hand') in
        (length (Hand.concealed hand) - n < 3)%nat
        /\ GameObj.wall g' = GameObj.wall g
        /\ Hand.concealed hand' = take n (Hand.concealed hand)
        /\ Hand.discards hand'
           = Hand.discards hand ++ reverse (drop n (Hand.concealed hand))
        /\ Hand.melds hand' = Hand.melds hand /\ Hand.flowers hand' = Hand.flowers hand).
Proof.
  intros Hh expected.
  destruct (validateHandSize_inv p phase g hand Hh)
    as (g' & hand' & Hg' & Hat & Hall & Hq & Hsame & Hmod).
  fold expected in Hsame, Hmod.
  exists g', hand'. repeat (split; [assumption|]).
  intros Hlong n. subst n.
  assert (expected < 3)%nat as Hm by (destruct phase; cbn; lia).
  assert (g' = g /\ hand' = hand
          \/ exists target, (target <= length (Hand.concealed hand))%nat
               /\ (length (Hand.concealed hand) - target < 3)%nat
               /\ g' = Game.setHand p (Hand.set_discards
                         (Hand.discards hand ++ reverse (drop target (Hand.concealed hand)))
                         (Hand.set_concealed (take target (Hand.concealed hand)) hand)) g)
    as [[-> ->]|(target & Hle & Hlt & ->)].
  { revert Hg'. unfold Game._validateHandSize. rewrite Hh. cbn [mbind option_bind].
    fold expected. destruct (decide _) as [E|N].
    { intros [= <-]. left. split; [reflexivity|]. congruence. }
    destruct (target_mod expected (length (Hand.concealed hand)) Hm) as [_ Hrange].
    cbv zeta in Hrange. specialize (Hrange Hlong).
    set (target := if decide (_ <= 0)%nat then _ else _) in *.
    rewrite decide_False by lia.
    destruct (decide (target < _)%nat) as [Hgt|Hngt].
    - rewrite popExcess_spec by lia. intros [= <-]. right. exists target.
      split; [lia|]. split; [lia|reflexivity].
    - intros [= <-]. left. split; [reflexivity|]. congruence. }
  - rewrite Nat.sub_diag. split; [lia|]. split; [reflexivity|].
    rewrite take_ge, drop_ge by lia. cbn. rewrite app_nil_r. repeat split.
  - rewrite at_setHand in Hat by (rewrite Hh; eauto). injection Hat as <-. cbn.
    rewrite length_take, Nat.min_l by lia. split; [lia|]. repeat split.
Qed.

Lemma validateHandSize_repairs_witness :
  exists g' hand',
    Game._validateHandSize 0 Game.after_discard kongGame = Some g'
    /\ at_ (GameObj.hands g') 0 = Some hand'
    /\ length (Hand.concealed hand') = 13%nat
    /\ Hand.discards hand' = [Tile.mk WIND 1 108]
    /\ allTiles g' ≡ₚ allTiles kongGame.
Proof.
  destruct (validateHandSize_repairs 0 Game.after_discard kongGame kongHand)
    as (g' & hand' & Hg' & Hat & Hall & _ & _ & _ & _); [reflexivity|].
  exists g', hand'. split; [exact Hg'|]. split; [exact Hat|].
  assert (Game._validateHandSize 0 Game.after_discard kongGame
          = Some (Game.setHand 0 (Game.popExcess 14 13 kongHand) kongGame)) as E
    by (vm_compute; reflexivity).
  rewrite E in Hg'. injection Hg' as <-.
  assert (Some hand' = Some (Game.popExcess 14 13 kongHand)) as Eh
    by (rewrite <- Hat; reflexivity).
  injection Eh as ->.
  split; [reflexivity|]. split; [reflexivity|exact Hall].
Defined.

(** * The start of a round *)

Lemma dealTo_spec order : forall hands w hands' w',
  Wall.dealTo order hands w = Some (hands', w') ->
  length hands' = length hands
  /\ concat hands' ++ wallLeft w' ≡ₚ concat hands ++ wallLeft w
  /\ forall q h', at_ hands' q = Some h' ->
       exists h, at_ hands q = Some h
         /\ length h' = (length h + count_occ Z.eq_dec order q)%nat.
Proof.
  induction order as [|idx order IH]; intros hands w hands' w'; cbn [Wall.dealTo].
  - intros [= <- <-]. split; [reflexivity|]. split; [reflexivity|].
    intros q h' Hq. exists h'. split; [exact Hq|]. cbn. lia.
  - destruct (at_ hands idx) as [h0|] eqn:Hidx; [|discriminate]. cbn [mbind option_bind].
    destruct (Wall.draw w) as [[x|] w1] eqn:Hdraw; [|discriminate].
    intros H. apply IH in H as (Hlen & Hperm & Hq).
    rewrite length_alter in Hlen. split; [exact Hlen|].
    apply draw_wallLeft in Hdraw.
    apply at_split in Hidx as (l1 & l2 & Hl & Hl1 & Hidx0).
    assert (alter (fun h => h ++ [x]) (Z.to_nat idx) hands = l1 ++ (h0 ++ [x]) :: l2) as Halter.
    { rewrite Hl, <- Hl1. rewrite alter_app_r_alt, Nat.sub_diag by lia. reflexivity. }
    split.
    + rewrite Hperm, Halter, Hl, !concat_app. cbn.
      generalize (concat l1) (concat l2). intros. perm_count.
    + intros q h' Hh'. destruct (Hq q h' Hh') as (h & Hh & Hcount).
      revert Hh. unfold at_. destruct (decide (q < 0)); [discriminate|].
      cbn [count_occ]. destruct (decide (idx = q)) as [->|Hne].
      * rewrite list_lookup_alter, decide_True by reflexivity.
        destruct (hands !! Z.to_nat q) as [hq|]; cbn;
          [|intros Hnone; discriminate Hnone].
        intros [= <-]. exists hq. split; [reflexivity|].
        rewrite length_app in Hcount. cbn in Hcount.
        destruct (Z.eq_dec q q); [lia|contradiction].
      * rewrite list_lookup_alter_ne by lia. intros Hh. exists h. split; [exact Hh|].
        destruct (Z.eq_dec idx q); [contradiction|lia].
Qed.

Lemma dealOrder_count d q :
  seat d -> seat q ->
  count_occ Z.eq_dec (Wall.dealOrder d) q = (if decide (q = d) then 14%nat else 13%nat).
Proof. intros Hd Hq. seats; vm_compute; reflexivity. Qed.

Lemma filter_bonus_all l :
  Forall (fun x => Tile.isBonus x = true) l -> List.filter Tile.isBonus l = l.
Proof.
  induction 1 as [|x l Hx _ IH]; cbn; [reflexivity|]. rewrite Hx, IH. reflexivity.
Qed.

Lemma filter_length_le {A} (f : A -> bool) l : (length (List.filter f l) <= length l)%nat.
Proof. induction l as [|x l IH]; cbn; [lia|]. destruct (f x); cbn; lia. Qed.

Lemma filter_Permutation {A} (f : A -> bool) (l l' : list A) :
  l ≡ₚ l' -> List.filter f l ≡ₚ List.filter f l'.
Proof.
  induction 1 as [|x l l' _ IH|x y l|l l' l'' _ IH1 _ IH2]; cbn.
  - reflexivity.
  - destruct (f x); [constructor|]; exact IH.
  - destruct (f x), (f y); try reflexivity. apply perm_swap.
  - etransitivity; eassumption.
Qed.

Lemma roundStart_hands d g :
  roundStart d g -> exists h0 h1 h2 h3, GameObj.hands g = [h0; h1; h2; h3].
Proof.
  intros (Hlen & _). destruct (GameObj.hands g) as [|h0 [|h1 [|h2 [|h3 [|]]]]];
    try discriminate Hlen. eauto.
Qed.

(** Early in a round most of the wall is still there. *)
Lemma roundStart_wall d g :
  seat d -> roundStart d g -> (83 <= length (wallLeft (GameObj.wall g)))%nat.
Proof.
  intros Hd Hr. destruct (roundStart_hands d g Hr) as (h0 & h1 & h2 & h3 & Hh).
  destruct Hr as (_ & Hall & Hq). rewrite Hh in Hq.
  pose proof (Permutation_length Hall) as Hlen.
  pose proof (Permutation_length (filter_Permutation Tile.isBonus _ _ Hall)) as Hbonus.
  change (length Tile.createAllTiles) with 144%nat in Hlen.
  assert (length (List.filter Tile.isBonus Tile.createAllTiles) = 8%nat) as E
    by (vm_compute; reflexivity).
  rewrite E in Hbonus. clear E Hall.
  unfold allTiles in Hlen, Hbonus. rewrite Hh in Hlen, Hbonus. cbn [flat_map] in Hlen, Hbonus.
  rewrite app_nil_r in Hlen, Hbonus. unfold handAll in Hlen, Hbonus.
  destruct (Hq 0 h0 eq_refl) as (_ & L0 & M0 & D0 & F0).
  destruct (Hq 1 h1 eq_refl) as (_ & L1 & M1 & D1 & F1).
  destruct (Hq 2 h2 eq_refl) as (_ & L2 & M2 & D2 & F2).
  destruct (Hq 3 h3 eq_refl) as (_ & L3 & M3 & D3 & F3).
  rewrite M0, M1, M2, M3, D0, D1, D2, D3 in Hlen, Hbonus. cbn [flat_map] in Hlen, Hbonus.
  rewrite ?app_nil_r, ?app_nil_l in Hlen, Hbonus.
  rewrite !List.filter_app, !length_app in Hbonus. rewrite !length_app in Hlen.
  rewrite (filter_bonus_all _ F0), (filter_bonus_all _ F1), (filter_bonus_all _ F2),
    (filter_bonus_all _ F3) in Hbonus.
  rewrite L0, L1, L2, L3 in Hlen.
  assert ((if decide (0%Z = d) then 14 else 13) + (if decide (1%Z = d) then 14 else 13)
          + (if decide (2%Z = d) then 14 else 13) + (if decide (3%Z = d) then 14 else 13) = 53)%nat
    as Hsum by (seats; reflexivity).
  lia.
Qed.

Lemma bloom_roundStart d p g :
  seat d -> seat p -> roundStart d g ->
  exists g' h,
    Game._handleFlowerBloom p g = Some g'
    /\ roundStart d g' /\ onlyTiles g g'
    /\ at_ (GameObj.hands g') p = Some h /\ tidy h
    /\ (forall q, q <> p -> at_ (GameObj.hands g') q = at_ (GameObj.hands g) q).
Proof.
  intros Hd Hp Hr.
  assert (is_Some (at_ (GameObj.hands g) p)) as [hand Hh].
  { apply at_is_Some. destruct Hr as (-> & _). unfold seat in Hp. lia. }
  destruct (handleFlowerBloom_inv p g hand Hh)
    as (g' & h & Hg' & Hat & ((Hpi & Hm & Hds) & Hlen & e & He & Hf & _) & Hdone & Hall & Hq
        & l & Hl).
  destruct (handleFlowerBloom_ok p g) as (g2 & Hg2 & Honly); [rewrite Hh; eauto|].
  rewrite Hg' in Hg2. injection Hg2 as <-.
  assert (roundStart d g') as Hr'.
  { destruct Hr as (Hlen4 & Hperm & Hhands). split; [destruct Honly as [_ ->]; exact Hlen4|].
    split; [rewrite Hall; exact Hperm|]. intros q hq Hhq.
    destruct (decide (q = p)) as [->|Hne].
    - rewrite Hat in Hhq. injection Hhq as <-.
      destruct (Hhands p hand Hh) as (P & L & M & D & F).
      split; [congruence|]. split; [rewrite Hlen; exact L|]. split; [congruence|]. split; [congruence|].
      rewrite Hf. apply Forall_app. split; assumption.
    - rewrite Hq in Hhq by assumption. apply Hhands, Hhq. }
  exists g', h. split; [exact Hg'|]. split; [exact Hr'|]. split; [exact Honly|].
  split; [exact Hat|]. split; [|exact Hq].
  pose proof (roundStart_wall d g' Hd Hr') as Hwall.
  destruct Hdone as [Hn|Hw]; [|rewrite Hw in Hwall; cbn in Hwall; lia].
  split; [exact Hn|]. rewrite Hl. apply sort_sorted.
  unfold noBonus in *. rewrite <- (sort_Permutation l), <- Hl. exact Hn.
Qed.

Lemma forEach_bloom d (seatOf : Z -> Z) (l : list Z) : forall g (done : list Z),
  seat d -> (forall i, i ∈ l -> seat (seatOf i)) -> roundStart d g ->
  (forall q, q ∈ done -> exists h, at_ (GameObj.hands g) q = Some h /\ tidy h) ->
  exists g',
    Game.forEach l (fun i => Game._handleFlowerBloom (seatOf i)) g = Some g'
    /\ roundStart d g' /\ onlyTiles g g'
    /\ (forall q, q ∈ done \/ q ∈ seatOf <$> l ->
          exists h, at_ (GameObj.hands g') q = Some h /\ tidy h).
Proof.
  induction l as [|i l IH]; intros g done Hd Hseats Hr Hdone; cbn [Game.forEach].
  - exists g. split; [reflexivity|]. split; [exact Hr|]. split; [apply onlyTiles_refl|].
    intros q [Hq|Hq]; [apply Hdone, Hq|]. cbn in Hq. apply elem_of_nil in Hq. contradiction.
  - destruct (bloom_roundStart d (seatOf i) g Hd (Hseats i (list_elem_of_here _ _)) Hr)
      as (g1 & h & -> & Hr1 & Honly1 & Hat & Htidy & Hq1).
    cbn [mbind option_bind].
    destruct (IH g1 (seatOf i :: done) Hd) as (g' & Hg' & Hr' & Honly' & Hall); [|exact Hr1| |].
    + intros j Hj. apply Hseats. right. exact Hj.
    + intros q Hq. destruct (decide (q = seatOf i)) as [->|Hne]; [eauto|].
      apply elem_of_cons in Hq as [?|Hq]; [contradiction|].
      rewrite Hq1 by assumption. apply Hdone, Hq.
    + exists g'. split; [exact Hg'|]. split; [exact Hr'|].
      split; [eapply onlyTiles_trans; eassumption|].
      intros q Hq. apply Hall. rewrite elem_of_cons. cbn in Hq. rewrite elem_of_cons in Hq.
      tauto.
Qed.

(** Hands of the right size pass [_validateHandSize] untouched. *)
Lemma forEach_validate d (l : list Z) g :
  roundStart d g -> GameObj.dealerIndex g = d -> (forall i, i ∈ l -> seat i) ->
  Game.forEach l
    (fun i g => Game._validateHandSize i
                  (if decide (i = GameObj.dealerIndex g)
                   then Game.before_discard else Game.after_discard) g) g = Some g.
Proof.
  intros Hr Hd. induction l as [|i l IH]; intros Hseats; cbn [Game.forEach]; [reflexivity|].
  assert (is_Some (at_ (GameObj.hands g) i)) as [h Hh].
  { apply at_is_Some. destruct Hr as (-> & _).
    specialize (Hseats i (list_elem_of_here _ _)). unfold seat in Hseats. lia. }
  destruct (validateHandSize_inv i
              (if decide (i = GameObj.dealerIndex g)
               then Game.before_discard else Game.after_discard) g h Hh)
    as (g' & _ & -> & _ & _ & _ & Hsame & _).
  cbn [mbind option_bind]. rewrite Hsame.
  - apply IH. intros j Hj. apply Hseats. right. exact Hj.
  - destruct Hr as (_ & _ & Hhands). destruct (Hhands i h Hh) as (_ & -> & _).
    rewrite Hd. destruct (decide (i = d)); reflexivity.
Qed.

Lemma roundStart_ext d g g' :
  GameObj.hands g' = GameObj.hands g -> GameObj.wall g' = GameObj.wall g ->
  roundStart d g -> roundStart d g'.
Proof.
  intros Hh Hw (Hlen & Hall & Hq). unfold roundStart, allTiles in *. rewrite Hh, Hw.
  split; [exact Hlen|]. split; [exact Hall|exact Hq].
Qed.

Lemma dealt_roundStart d w dealt w1 g :
  seat d ->
  Wall.tiles w ++ Wall.deadWall w ≡ₚ Tile.createAllTiles -> Wall.drawIndex w = 0%nat ->
  Wall.deal d w = Some (dealt, w1) ->
  GameObj.hands g = zip_with Hand.setInitial dealt (Hand.new <$> [0; 1; 2; 3]) ->
  GameObj.wall g = w1 ->
  roundStart d g.
Proof.
  intros Hd Hperm Hidx Hdeal Hh Hw.
  apply dealTo_spec in Hdeal as (Hlen & Hcons & Hq).
  destruct dealt as [|a [|b [|c [|e [|]]]]]; try discriminate Hlen. cbn in Hh.
  assert (forall q x, at_ [a; b; c; e] q = Some x ->
            length x = (if decide (q = d) then 14%nat else 13%nat)) as Hlens.
  { intros q x Hx. pose proof (at_Some_range _ _ _ Hx) as Hrange. cbn in Hrange.
    destruct (Hq q x Hx) as (x0 & Hx0 & ->).
    rewrite dealOrder_count by (unfold seat; lia || assumption).
    assert (x0 = []) as ->; [|reflexivity].
    assert (q = 0 \/ q = 1 \/ q = 2 \/ q = 3) as Hcases by lia.
    destruct Hcases as [-> | [-> | [-> | ->]]]; vm_compute in Hx0; injection Hx0 as <-;
      reflexivity. }
  split; [rewrite Hh; reflexivity|]. split.
  - unfold allTiles. rewrite Hh, Hw. cbn [flat_map]. unfold handAll. cbn.
    rewrite !app_nil_r. rewrite !sort_Permutation.
    cbn in Hcons. rewrite app_nil_r in Hcons.
    rewrite <- Hperm. unfold wallLeft in Hcons at 2. rewrite Hidx in Hcons. cbn [drop] in Hcons.
    rewrite <- Hcons, <- !app_assoc. reflexivity.
  - intros q h Hat. rewrite Hh in Hat.
    pose proof (at_Some_range _ _ _ Hat) as Hrange. cbn in Hrange.
    assert (q = 0 \/ q = 1 \/ q = 2 \/ q = 3) as Hcases by lia.
    destruct Hcases as [-> | [-> | [-> | ->]]]; cbn in Hat; injection Hat as <-; cbn;
      rewrite sort_length;
      (split; [reflexivity|]); (split; [eapply Hlens; reflexivity|]);
      (split; [reflexivity|]); (split; [reflexivity|constructor]).
Qed.

Lemma startRound_inv g :
  seat (GameObj.dealerIndex g) ->
  exists g',
    Game.startRound g = Some g'
    /\ roundStart (GameObj.dealerIndex g) g'
    /\ (forall q h, at_ (GameObj.hands g') q = Some h -> tidy h)
    /\ GameObj.seatWinds g'
       = (fun i => (i - GameObj.dealerIndex g + 4) `rem` 4 + 1) <$> [0; 1; 2; 3]
    /\ GameObj.dealerIndex g' = GameObj.dealerIndex g
    /\ GameObj.currentPlayer g' = GameObj.dealerIndex g
    /\ GameObj.state g'
       = Some (if decide (GameObj.dealerIndex g = 0) then PLAYER_DISCARD else AI_TURN)
    /\ GameObj.lastDiscard g' = None /\ GameObj.winner g' = -1
    /\ GameObj.timers g' = GameObj.timers g
    /\ GameObj.scores g' = GameObj.scores g
    /\ GameObj.roundWind g' = GameObj.roundWind g
    /\ GameObj.roundNumber g' = GameObj.roundNumber g
    /\ GameObj.totalRounds g' = GameObj.totalRounds g.
Proof.
  intros Hseat. unfold Game.startRound.
  destruct (deal_ok Wall.new (GameObj.rng g) _ Hseat) as (dealt & w' & Hdeal & Hlen).
  destruct (build_spec Wall.new (GameObj.rng g)) as (Hperm & _ & _ & Hidx).
  pose proof (fun g0 => dealt_roundStart _ _ dealt w' g0 Hseat Hperm Hidx Hdeal) as Hstart.
  clear Hperm Hidx.
  destruct (Wall.build Wall.new (GameObj.rng g)) as [w r]. cbn [fst] in Hdeal, Hstart.
  destruct g. cbn [GameObj.dealerIndex GameObj.timers GameObj.scores GameObj.roundWind
    GameObj.roundNumber GameObj.totalRounds] in *.
  cbn [GameObj.set_rng GameObj.set_wall GameObj.set_hands GameObj.set_ai
       GameObj.set_seatWinds GameObj.wall GameObj.hands GameObj.dealerIndex
       GameObj.ai GameObj.state GameObj.currentPlayer GameObj.roundWind
       GameObj.roundNumber GameObj.seatWinds GameObj.lastDiscard
       GameObj.lastDiscardPlayer GameObj.turnCount GameObj.winner GameObj.winInfo
       GameObj.difficulty GameObj.minFan GameObj.pendingClaims GameObj._selfDrawn
       GameObj._isKongDraw GameObj._drawnTile GameObj.scores GameObj.totalRounds
       GameObj.maxRounds GameObj.paymentInfo GameObj.diceResults GameObj.diceRolled
       GameObj.timers GameObj.rng GameObj.heuristics].
  rewrite Hdeal. cbn [mbind option_bind].
  match goal with
  | |- context [Game.forEach _ _ ?g1] => set (g0 := g1)
  end.
  assert (roundStart dealerIndex g0) as Hr0 by (apply Hstart; reflexivity).
  destruct (forEach_bloom dealerIndex (fun i => (dealerIndex + i) `rem` 4) [0; 1; 2; 3] g0 []
              Hseat) as (g1 & -> & Hr1 & Honly1 & Htidy); [|exact Hr0| |].
  { intros i Hi. unfold seat in *.
    repeat (apply elem_of_cons in Hi as [->|Hi]);
      [| | | |apply elem_of_nil in Hi; contradiction];
      (split; [apply Z.rem_nonneg; lia|apply Z.rem_bound_pos; lia]). }
  { intros q Hq. apply elem_of_nil in Hq. contradiction. }
  cbn [mbind option_bind].
  pose proof (onlyTiles_dealer _ _ Honly1) as Hd1. change (GameObj.dealerIndex g0) with dealerIndex in Hd1.
  rewrite (forEach_validate dealerIndex [0; 1; 2; 3] g1 Hr1 Hd1).
  2:{ intros i Hi. unfold seat.
      repeat (apply elem_of_cons in Hi as [->|Hi]);
        [| | | |apply elem_of_nil in Hi; contradiction]; lia. }
  cbn [mbind option_bind].
  eexists. split; [reflexivity|].
  destruct Honly1 as [E1 L1]. destruct g1. cbn in Hd1, E1 |- *.
  injection E1 as -> -> -> -> -> -> -> -> -> -> -> -> -> -> -> -> -> -> -> -> -> -> -> -> -> -> ->.
  split; [eapply roundStart_ext; [| |exact Hr1]; reflexivity|].
  split.
  { intros q h Hq. pose proof (at_Some_range _ _ _ Hq) as Hrange.
    destruct Hr1 as (Hl4 & _). cbn in Hl4. rewrite Hl4 in Hrange.
    destruct (Htidy q) as (h' & Hh' & Ht); [|cbn in Hh'; congruence].
    right. unfold seat in Hseat.
    assert (q = 0 \/ q = 1 \/ q = 2 \/ q = 3) as Hq4 by lia.
    assert (dealerIndex = 0 \/ dealerIndex = 1 \/ dealerIndex = 2 \/ dealerIndex = 3) as Hd4 by lia.
    destruct Hd4 as [-> | [-> | [-> | ->]]]; destruct Hq4 as [-> | [-> | [-> | ->]]];
      apply (bool_decide_unpack _); vm_compute; exact I. }
  repeat split.
Qed.

(** X20.  With the dealer at one of the four seats, [startRound] leaves
    the 144 tiles of the set in the four hands and the two walls.  The
    dealer holds 14 concealed tiles and each other seat 13, in order and
    free of flowers and seasons, which lie replaced among the bonus
    tiles.  The dealer is East and moves first; the seat winds follow the
    seats round from the dealer. *)
Theorem startRound_deals (g : Game.t) :
  seat (GameObj.dealerIndex g) ->
  exists g',
    Game.startRound g = Some g'
    /\ roundStart (GameObj.dealerIndex g) g'
    /\ (forall q h, at_ (GameObj.hands g') q = Some h -> tidy h)
    /\ (forall q, seat q ->
          at_ (GameObj.seatWinds g') q = Some ((q - GameObj.dealerIndex g) `mod` 4 + 1))
    /\ GameObj.dealerIndex g' = GameObj.dealerIndex g
    /\ GameObj.currentPlayer g' = GameObj.dealerIndex g
    /\ GameObj.state g'
       = Some (if decide (GameObj.dealerIndex g = 0) then PLAYER_DISCARD else AI_TURN)
    /\ GameObj.lastDiscard g' = None /\ GameObj.winner g' = -1
    /\ GameObj.scores g' = GameObj.scores g.
Proof.
  intros Hseat.
  destruct (startRound_inv g Hseat)
    as (g' & Hg' & Hr & Htidy & Hwinds & Hd & Hcur & Hstate & Hlast & Hwin & _ & Hscores & _).
  exists g'. repeat (split; [assumption|]). split; [|repeat split; assumption].
  intros q Hq. rewrite Hwinds. unfold seat in Hseat, Hq.
  assert (q = 0 \/ q = 1 \/ q = 2 \/ q = 3) as Hq4 by lia.
  assert (GameObj.dealerIndex g = 0 \/ GameObj.dealerIndex g = 1
          \/ GameObj.dealerIndex g = 2 \/ GameObj.dealerIndex g = 3) as Hd4 by lia.
  destruct Hd4 as [-> | [-> | [-> | ->]]]; destruct Hq4 as [-> | [-> | [-> | ->]]];
    reflexivity.
Qed.

Lemma startRound_deals_witness :
  exists g',
    Game.startRound freshGame = Some g'
    /\ roundStart 0 g'
    /\ (forall q h, at_ (GameObj.hands g') q = Some h -> tidy h)
    /\ (forall q, seat q -> at_ (GameObj.seatWinds g') q = Some ((q - 0) `mod` 4 + 1))
    /\ GameObj.dealerIndex g' = 0
    /\ GameObj.currentPlayer g' = 0
    /\ GameObj.state g' = Some PLAYER_DISCARD
    /\ GameObj.lastDiscard g' = None /\ GameObj.winner g' = -1
    /\ GameObj.scores g' = GameObj.scores freshGame.
Proof. apply (startRound_deals freshGame). vm_compute. split; [discriminate|reflexivity]. Defined.

(** * From round to round *)

Lemma rollDice_rolled g : GameObj.diceRolled (Game.rollDice g) = true.
Proof.
  unfold Game.rollDice. destruct (GameObj.diceRolled g) eqn:E; [exact E|].
  destruct (Game.rollDie (GameObj.rng g)) as [d1 r1].
  destruct (Game.rollDie r1) as [d2 r2]. destruct (Game.rollDie r2) as [d3 r3].
  reflexivity.
Qed.

Lemma rollDice_fields g :
  GameObj.scores (Game.rollDice g) = GameObj.scores g
  /\ GameObj.roundWind (Game.rollDice g) = GameObj.roundWind g
  /\ GameObj.totalRounds (Game.rollDice g) = GameObj.totalRounds g.
Proof.
  unfold Game.rollDice. destruct (GameObj.diceRolled g); [repeat split|].
  destruct (Game.rollDie (GameObj.rng g)) as [? r1].
  destruct (Game.rollDie r1) as [? r2]. destruct (Game.rollDie r2) as [? r3].
  repeat split.
Qed.

Lemma set_dealerIndex_fields d g :
  GameObj.dealerIndex (GameObj.set_dealerIndex d g) = d
  /\ GameObj.scores (GameObj.set_dealerIndex d g) = GameObj.scores g
  /\ GameObj.roundWind (GameObj.set_dealerIndex d g) = GameObj.roundWind g
  /\ GameObj.totalRounds (GameObj.set_dealerIndex d g) = GameObj.totalRounds g.
Proof. repeat split. Qed.

(** X21.  A new game always gets its first round: the three dice of
    [rollDice] show 1 to 6 each and a second roll changes nothing;
    [confirmDice] then makes seat (sum - 1) mod 4 the dealer and deals a
    full round, with 10000 points for every seat and East as the round
    wind. *)
Theorem first_round (g : Game.t) :
  let g1 := Game.rollDice (Game.startGame g) in
  exists d1 d2 d3 g',
    GameObj.diceResults g1 = [d1; d2; d3]
    /\ 1 <= d1 <= 6 /\ 1 <= d2 <= 6 /\ 1 <= d3 <= 6
    /\ Game.rollDice g1 = g1
    /\ Game.confirmDice g1 = Some g'
    /\ GameObj.dealerIndex g' = (d1 + d2 + d3 - 1) `mod` 4
    /\ roundStart (GameObj.dealerIndex g') g'
    /\ GameObj.scores g' = [Some 10000; Some 10000; Some 10000; Some 10000]
    /\ GameObj.roundWind g' = WINDS.EAST
    /\ GameObj.totalRounds g' = 0.
Proof.
  intros g1.
  destruct (rollDice_range (Game.startGame g) eq_refl) as (d1 & d2 & d3 & Hdice & H1 & H2 & H3).
  fold g1 in Hdice. exists d1, d2, d3.
  assert (Game.rollDice g1 = g1) as Hagain.
  { unfold Game.rollDice at 1. unfold g1 at 1. rewrite rollDice_rolled. reflexivity. }
  rewrite confirmDice_startRound, Hdice. cbn [foldl].
  replace ((0 + d1 + d2 + d3 - 1) `rem` 4) with ((d1 + d2 + d3 - 1) `mod` 4)
    by (rewrite Z.rem_mod_nonneg by lia; f_equal; lia).
  set (d := (d1 + d2 + d3 - 1) `mod` 4).
  assert (seat d) as Hd by (apply Z.mod_pos_bound; lia).
  destruct (rollDice_fields (Game.startGame g)) as (E1 & E2 & E3). fold g1 in E1, E2, E3.
  clearbody g1.
  destruct (set_dealerIndex_fields d g1) as (F0 & F1 & F2 & F3).
  destruct (startRound_inv (GameObj.set_dealerIndex d g1))
    as (g' & Hg' & Hr & _ & _ & Hd' & _ & _ & _ & _ & _ & Hsc & Hrw & _ & Htr);
    [rewrite F0; exact Hd|].
  rewrite F0 in Hr, Hd'. rewrite F1, E1 in Hsc. rewrite F2, E2 in Hrw. rewrite F3, E3 in Htr.
  exists g'. split; [reflexivity|]. repeat (split; [assumption|]).
  split; [rewrite Hd'; exact Hr|]. split; [exact Hsc|]. split; [exact Hrw|exact Htr].
Qed.

Lemma gameOver_check g :
  existsb (fun s => match s with Some s => bool_decide (s <= 0) | None => false end)
          (GameObj.scores g)
  || bool_decide (GameObj.totalRounds g >= GameObj.maxRounds g) = true
  <-> gameOver g.
Proof.
  unfold gameOver. rewrite orb_true_iff, bool_decide_eq_true, existsb_exists.
  split; (intros [H|H]; [left|right; exact H]).
  - destruct H as ([s|] & Hin & Hs); [|discriminate]. exists s.
    split; [apply list_elem_of_In, Hin|]. apply bool_decide_eq_true in Hs. exact Hs.
  - destruct H as (s & Hin & Hs). exists (Some s).
    split; [apply list_elem_of_In, Hin|]. apply bool_decide_eq_true. exact Hs.
Qed.

Lemma set_round_fields d n w g :
  let g1 := GameObj.set_roundWind w (GameObj.set_roundNumber n (GameObj.set_dealerIndex d g)) in
  GameObj.dealerIndex g1 = d /\ GameObj.roundNumber g1 = n /\ GameObj.roundWind g1 = w.
Proof. repeat split. Qed.

(** X22.  [nextRound] ends the game when a score is at or below zero or
    the last round has been played.  Otherwise a dealer who has won deals
    again; after any other round, a drawn one included, the deal passes
    to the next seat.  With the fourth pass the round wind advances, and
    after North the game ends.  Every round it starts is dealt in
    full. *)
Theorem nextRound_rotation (g : Game.t) :
  seat (GameObj.dealerIndex g) ->
  (gameOver g -> Game.nextRound g = Some (GameObj.set_state (Some GAME_END) g))
  /\ (~ gameOver g ->
      let pass := bool_decide (GameObj.winner g <> GameObj.dealerIndex g) in
      let turn := pass && bool_decide (GameObj.roundNumber g + 1 >= 4) in
      exists g', Game.nextRound g = Some g'
        /\ GameObj.dealerIndex g'
           = (if pass then (GameObj.dealerIndex g + 1) `mod` 4 else GameObj.dealerIndex g)
        /\ GameObj.roundNumber g'
           = (if turn then 0 else if pass then GameObj.roundNumber g + 1
              else GameObj.roundNumber g)
        /\ if turn && bool_decide (GameObj.roundWind g >= WINDS.NORTH)
           then GameObj.state g' = Some GAME_END /\ GameObj.hands g' = GameObj.hands g
                /\ GameObj.roundWind g' = GameObj.roundWind g
           else roundStart (GameObj.dealerIndex g') g'
                /\ GameObj.roundWind g'
                   = (if turn then GameObj.roundWind g + 1 else GameObj.roundWind g)
                /\ GameObj.scores g' = GameObj.scores g).
Proof.
  intros Hseat. unfold Game.nextRound. split.
  { intros Hover. apply gameOver_check in Hover. rewrite Hover. reflexivity. }
  intros Hnot. rewrite <- gameOver_check in Hnot. apply not_true_is_false in Hnot.
  rewrite Hnot. cbv zeta.
  assert (forall g0, seat (GameObj.dealerIndex g0) ->
            exists g', Game.startRound g0 = Some g'
              /\ GameObj.dealerIndex g' = GameObj.dealerIndex g0
              /\ GameObj.roundNumber g' = GameObj.roundNumber g0
              /\ roundStart (GameObj.dealerIndex g') g'
              /\ GameObj.roundWind g' = GameObj.roundWind g0
              /\ GameObj.scores g' = GameObj.scores g0) as Hstart.
  { intros g0 H0. destruct (startRound_inv g0 H0)
      as (g' & Hg' & Hr & _ & _ & Hd' & _ & _ & _ & _ & _ & Hsc & Hrw & Hrn & _).
    exists g'. rewrite Hd'. split; [exact Hg'|]. split; [reflexivity|]. split; [exact Hrn|].
    split; [exact Hr|]. split; assumption. }
  assert (seat ((GameObj.dealerIndex g + 1) `rem` 4)
          /\ (GameObj.dealerIndex g + 1) `rem` 4 = (GameObj.dealerIndex g + 1) `mod` 4)
    as [Hnext Hrem].
  { unfold seat in *. rewrite Z.rem_mod_nonneg by lia.
    split; [apply Z.mod_pos_bound; lia|reflexivity]. }
  destruct (decide (GameObj.winner g = GameObj.dealerIndex g)) as [Hwin|Hlose].
  - rewrite bool_decide_eq_false_2 by (intros H; apply H, Hwin). cbn [andb].
    destruct (Hstart g Hseat) as (g' & -> & Hd & Hn & Hr & Hw & Hs).
    exists g'. split; [reflexivity|]. split; [exact Hd|]. split; [exact Hn|].
    split; [exact Hr|]. split; assumption.
  - rewrite (bool_decide_eq_true_2 _ Hlose). cbn [andb].
    set (d := (GameObj.dealerIndex g + 1) `rem` 4) in *.
    set (n := GameObj.roundNumber g + 1).
    change (GameObj.roundNumber (GameObj.set_roundNumber n (GameObj.set_dealerIndex d g)))
      with n.
    destruct (decide (n >= 4)) as [Hturn|Hstay].
    + rewrite (bool_decide_eq_true_2 _ Hturn).
      change (GameObj.roundWind (GameObj.set_roundNumber 0
                (GameObj.set_roundNumber n (GameObj.set_dealerIndex d g))))
        with (GameObj.roundWind g).
      destruct (decide (GameObj.roundWind g < WINDS.NORTH)) as [Hwind|Hlast].
      * rewrite bool_decide_eq_false_2 by lia.
        destruct (Hstart (GameObj.set_roundWind (GameObj.roundWind g + 1)
                    (GameObj.set_roundNumber 0
                       (GameObj.set_roundNumber n (GameObj.set_dealerIndex d g)))))
          as (g' & -> & Hd & Hn & Hr & Hw & Hs); [exact Hnext|].
        exists g'. split; [reflexivity|]. split; [rewrite Hd, <- Hrem; reflexivity|].
        split; [exact Hn|]. split; [exact Hr|]. split; [exact Hw|exact Hs].
      * rewrite bool_decide_eq_true_2 by lia.
        eexists. split; [reflexivity|]. rewrite <- Hrem. repeat split.
    + rewrite (bool_decide_eq_false_2 _ Hstay). cbn [andb].
      destruct (Hstart (GameObj.set_roundNumber n (GameObj.set_dealerIndex d g)))
        as (g' & -> & Hd & Hn & Hr & Hw & Hs); [exact Hnext|].
      exists g'. split; [reflexivity|]. split; [rewrite Hd, <- Hrem; reflexivity|].
      split; [exact Hn|]. split; [exact Hr|]. split; [exact Hw|exact Hs].
Qed.

Lemma nextRound_rotation_witness :
  Game.nextRound (GameObj.set_totalRounds 24 freshGame)
  = Some (GameObj.set_state (Some GAME_END) (GameObj.set_totalRounds 24 freshGame)).
Proof.
  destruct (nextRound_rotation (GameObj.set_totalRounds 24 freshGame)) as [H _].
  - vm_compute. split; [discriminate|reflexivity].
  - apply H. right. vm_compute. discriminate.
Defined.

(** * Tiles taken from the walls *)

Lemma drewInto_refl h w : drewInto [] h w h w.
Proof.
  split; [reflexivity|]. split; [reflexivity|]. split; [reflexivity|].
  exists []. split; [constructor|]. rewrite app_nil_r. reflexivity.
Qed.

Lemma drewInto_trans d1 d2 h1 w1 h2 w2 h3 w3 :
  drewInto d1 h1 w1 h2 w2 -> drewInto d2 h2 w2 h3 w3 ->
  drewInto (d1 ++ d2) h1 w1 h3 w3.
Proof.
  intros (Hw1 & Hh1 & Hm1 & e1 & He1 & Hf1) (Hw2 & Hh2 & Hm2 & e2 & He2 & Hf2).
  split; [rewrite Hw1, Hw2, app_assoc; reflexivity|].
  split; [rewrite Hh2, Hh1; perm_count|]. split; [congruence|].
  exists (e1 ++ e2). split; [apply Forall_app; split; assumption|].
  rewrite Hf2, Hf1, app_assoc. reflexivity.
Qed.

Lemma drewInto_sort d h w h' w' :
  drewInto d h w h' w' -> drewInto d h w (Hand.sort h') w'.
Proof.
  intros (Hw & Hh & Hm & e & He & Hf).
  split; [exact Hw|]. split; [rewrite handAll_sort; exact Hh|].
  split; [exact Hm|]. exists e. split; [exact He|exact Hf].
Qed.

Lemma drewInto_addTile x h w w' :
  wallLeft w ≡ₚ x :: wallLeft w' -> drewInto [x] h w (Hand.addTile x h) w'.
Proof.
  intros Hw. split; [exact Hw|]. split; [apply handAll_addTile|].
  split; [reflexivity|]. exists []. split; [constructor|].
  rewrite app_nil_r. reflexivity.
Qed.

Lemma bloomAt_drew i b hand w b' hand' w' :
  Game.bloomAt i (b, hand, w) = (b', hand', w') ->
  exists drawn, drewInto drawn hand w hand' w'.
Proof.
  unfold Game.bloomAt.
  destruct (Hand.concealed hand !! i) as [tile|] eqn:Hi.
  2:{ intros [= <- <- <-]. exists []. apply drewInto_refl. }
  destruct (Tile.isBonus tile) eqn:Hb.
  2:{ intros [= <- <- <-]. exists []. apply drewInto_refl. }
  destruct (Game.drawReplacement w) as [[x|] w1] eqn:Hx.
  2:{ intros [= <- <- <-]. exists []. apply drewInto_refl. }
  intros [= <- <- <-]. exists [x].
  apply drawReplacement_wallLeft in Hx. apply delete_Permutation in Hi.
  split; [exact Hx|]. split.
  { unfold handAll, Hand.addFlower. cbn. rewrite sort_Permutation.
    generalize dependent (flat_map Meld.tiles (Hand.melds hand)). intros.
    generalize dependent (delete i (Hand.concealed hand)). intros.
    clear Hx. perm_count. }
  split; [reflexivity|]. exists [tile]. split; [repeat constructor; exact Hb|].
  cbn. apply sort_Permutation.
Qed.

Lemma bloomPass_drew n : forall b hand w b' hand' w',
  Game.bloomPass n (b, hand, w) = (b', hand', w') ->
  exists drawn, drewInto drawn hand w hand' w'.
Proof.
  induction n as [|n IH]; intros b hand w b' hand' w'; cbn [Game.bloomPass].
  - intros [= <- <- <-]. exists []. apply drewInto_refl.
  - destruct (Game.bloomAt n (b, hand, w)) as [[b1 h1] w1] eqn:E1. intros E2.
    apply bloomAt_drew in E1 as [d1 H1]. apply IH in E2 as [d2 H2].
    exists (d1 ++ d2). eapply drewInto_trans; eassumption.
Qed.

Lemma bloomLoop_drew fuel : forall hand w hand' w',
  Game.bloomLoop fuel hand w = (hand', w') ->
  exists drawn, drewInto drawn hand w hand' w'.
Proof.
  induction fuel as [|fuel IH]; intros hand w hand' w'; cbn [Game.bloomLoop].
  - intros [= <- <-]. exists []. apply drewInto_refl.
  - destruct (Game.bloomPass _ (false, hand, w)) as [[b1 h1] w1] eqn:E1.
    apply bloomPass_drew in E1 as [d1 H1].
    destruct b1.
    + intros E2. apply IH in E2 as [d2 H2].
      exists (d1 ++ d2). eapply drewInto_trans; eassumption.
    + intros [= <- <-]. exists d1. exact H1.
Qed.

(** A flower bloom takes its replacements from the walls into the hand,
    and goes on until no bonus tile is left to replace. *)
Lemma handleFlowerBloom_drew p g hand g' :
  at_ (GameObj.hands g) p = Some hand ->
  Game._handleFlowerBloom p g = Some g' ->
  exists hand' drawn,
    at_ (GameObj.hands g') p = Some hand'
    /\ drewInto drawn hand (GameObj.wall g) hand' (GameObj.wall g')
    /\ bloomDone hand' (GameObj.wall g')
    /\ bloomed hand (GameObj.wall g) hand' (GameObj.wall g').
Proof.
  intros Hh Hg'.
  destruct (handleFlowerBloom_inv p g hand Hh)
    as (g2 & hand' & Hg2 & Hat & Hb & Hdone & _).
  rewrite Hg' in Hg2. injection Hg2 as <-.
  revert Hg' Hat. unfold Game._handleFlowerBloom. rewrite Hh. cbn [mbind option_bind].
  destruct (Game.bloomLoop _ hand (GameObj.wall g)) as [hand1 w1] eqn:E.
  apply bloomLoop_drew in E as [drawn Hd].
  intros [= <-] Hat. rewrite at_setHand in Hat by (rewrite hands_set_wall, Hh; eauto).
  injection Hat as <-.
  exists (Hand.sort hand1), drawn. split; [apply at_setHand; rewrite hands_set_wall, Hh; eauto|].
  split; [apply drewInto_sort, Hd|]. split; [exact Hdone|exact Hb].
Qed.

(** The refilling loop takes what it draws into the hand, and leaves the
    flowers bloomed if they were. *)
Lemma refill_drew fuel target p : forall g hand g',
  at_ (GameObj.hands g) p = Some hand ->
  Game.refill fuel target p g = Some g' ->
  exists hand' drawn,
    at_ (GameObj.hands g') p = Some hand'
    /\ drewInto drawn hand (GameObj.wall g) hand' (GameObj.wall g')
    /\ (bloomDone hand (GameObj.wall g) -> bloomDone hand' (GameObj.wall g')).
Proof.
  induction fuel as [|fuel IH]; intros g hand g' Hhand; cbn [Game.refill].
  - intros [= <-]. exists hand, []. split; [exact Hhand|].
    split; [apply drewInto_refl|auto].
  - rewrite Hhand. cbn [mbind option_bind].
    destruct (decide _) as [Hlt|].
    2:{ intros [= <-]. exists hand, []. split; [exact Hhand|].
        split; [apply drewInto_refl|auto]. }
    destruct (Wall.draw (GameObj.wall g)) as [[extra|] w] eqn:Hdraw.
    2:{ intros [= <-]. exists hand, []. split; [exact Hhand|].
        split; [apply drewInto_refl|auto]. }
    set (g1 := Game.setHand p (Hand.addTile extra hand) (GameObj.set_wall w g)).
    assert (at_ (GameObj.hands g1) p = Some (Hand.addTile extra hand)) as H1.
    { apply at_setHand. rewrite hands_set_wall, Hhand. eauto. }
    destruct (Game._handleFlowerBloom p g1) as [g2|] eqn:Hg2; [|discriminate].
    cbn [mbind option_bind]. intros Hg'.
    destruct (handleFlowerBloom_drew p g1 _ g2 H1 Hg2) as (hand2 & d2 & H2 & Hd2 & Hdone2 & _).
    destruct (IH _ hand2 _ H2 Hg') as (hand' & d3 & Hat & Hd3 & Hdone3).
    exists hand', ([extra] ++ d2 ++ d3). split; [exact Hat|]. split; [|auto].
    eapply drewInto_trans; [apply drewInto_addTile, draw_wallLeft, Hdraw|].
    eapply drewInto_trans; [exact Hd2|exact Hd3].
Qed.

Lemma noBonus_take n l : noBonus l -> noBonus (take n l).
Proof. unfold noBonus. apply Forall_take. Qed.

(** [_validateHandSize] takes what it draws into the hand, keeps the
    melds, and leaves the flowers bloomed if they were. *)
Lemma validateHandSize_drew p phase g hand g' :
  at_ (GameObj.hands g) p = Some hand ->
  Game._validateHandSize p phase g = Some g' ->
  exists hand' drawn,
    at_ (GameObj.hands g') p = Some hand'
    /\ drewInto drawn hand (GameObj.wall g) hand' (GameObj.wall g')
    /\ (bloomDone hand (GameObj.wall g) -> bloomDone hand' (GameObj.wall g')).
Proof.
  intros Hh. unfold Game._validateHandSize. rewrite Hh. cbn [mbind option_bind].
  destruct (decide _) as [E|N].
  { intros [= <-]. exists hand, []. split; [exact Hh|]. split; [apply drewInto_refl|auto]. }
  set (target := if decide (_ <= 0)%nat then _ else _) in *.
  destruct (decide (length (Hand.concealed hand) < target)%nat) as [Hlt|Hge].
  - destruct (Game.refill target target p g) as [g1|] eqn:Hg1; [|discriminate].
    cbn [mbind option_bind].
    destruct (refill_drew _ _ _ _ hand _ Hh Hg1) as (hand1 & d & Hat1 & Hd & Hdone).
    rewrite Hat1. cbn [mbind option_bind]. intros [= <-].
    exists (Hand.sort hand1), d. split; [apply at_setHand; rewrite Hat1; eauto|].
    split; [apply drewInto_sort, Hd|].
    intros H0. destruct (Hdone H0) as [Hn|Hw]; [left|right; exact Hw].
    cbn. unfold noBonus. rewrite sort_Permutation. exact Hn.
  - destruct (decide (target < _)%nat) as [Hgt|Hle].
    + rewrite popExcess_spec by lia. intros [= <-].
      eexists _, []. split; [apply at_setHand; rewrite Hh; eauto|].
      split.
      * split; [reflexivity|]. split; [apply handAll_cut|]. split; [reflexivity|].
        exists []. split; [constructor|]. cbn. rewrite app_nil_r. reflexivity.
      * intros [Hn|Hw]; [left|right; exact Hw]. cbn. apply noBonus_take, Hn.
    + intros [= <-]. exists hand, []. split; [exact Hh|].
      split; [apply drewInto_refl|auto].
Qed.

(** * The human player's draw *)

Lemma remaining_draw w :
  (Wall.remaining w <= 0 -> Wall.draw w = (None, w))
  /\ (0 < Wall.remaining w -> exists tile,
        Wall.tiles w !! Wall.drawIndex w = Some tile
        /\ Wall.draw w = (Some tile, Wall.mk (Wall.tiles w) (Wall.deadWall w) (S (Wall.drawIndex w)))).
Proof.
  unfold Wall.remaining, Wall.draw. split; intros H.
  - rewrite (proj2 (lookup_ge_None _ _)) by lia. reflexivity.
  - destruct (lookup_lt_is_Some_2 (Wall.tiles w) (Wall.drawIndex w)) as [tile E]; [lia|].
    exists tile. rewrite E. split; reflexivity.
Qed.

(** X23.  In PLAYER_TURN, [playerDraw] on an exhausted live wall ends the
    round as a draw: no winner, [ROUND_END], the round counted, no score
    changed.  Otherwise seat 0 takes the next tile of the live wall and
    flowers bloom: that tile and the replacements drawn have left the
    walls and are among the tiles of seat 0, whose melds are the same and
    whose new bonus tiles are flowers and seasons, and no flower or season
    is left among its concealed tiles unless both walls are used up.  The
    state is PLAYER_DISCARD, no tile of the game is lost and the other
    seats are untouched.  A hand of 13 tiles, or of any size of remainder
    1 modulo 3, has grown by one and is the bloom of the hand with the
    drawn tile added. *)
Theorem playerDraw_draws (g : Game.t) (hand : Hand.t) :
  GameObj.state g = Some PLAYER_TURN ->
  at_ (GameObj.hands g) 0 = Some hand ->
  (Wall.remaining (GameObj.wall g) <= 0 ->
   exists g', Game.playerDraw g = Some (false, g')
     /\ GameObj.state g' = Some ROUND_END
     /\ GameObj.winner g' = -1 /\ GameObj.winInfo g' = None
     /\ GameObj.hands g' = GameObj.hands g /\ GameObj.wall g' = GameObj.wall g
     /\ GameObj.totalRounds g' = GameObj.totalRounds g + 1
     /\ (forall a b c d, GameObj.scores g = [Some a; Some b; Some c; Some d] ->
           GameObj.scores g' = GameObj.scores g))
  /\ (0 < Wall.remaining (GameObj.wall g) ->
      exists tile g' hand',
        Wall.tiles (GameObj.wall g) !! Wall.drawIndex (GameObj.wall g) = Some tile
        /\ Game.playerDraw g = Some (true, g')
        /\ GameObj.state g' = Some PLAYER_DISCARD
        /\ allTiles g' ≡ₚ allTiles g
        /\ at_ (GameObj.hands g') 0 = Some hand'
        /\ (forall q, q <> 0 -> at_ (GameObj.hands g') q = at_ (GameObj.hands g) q)
        /\ GameObj._drawnTile g' = (if Tile.isBonus tile then None else Some tile)
        /\ GameObj._selfDrawn g' = true
        /\ ((length (Hand.concealed hand) `mod` 3 = 1)%nat ->
            length (Hand.concealed hand') = S (length (Hand.concealed hand)))
        /\ (exists drawn,
              drewInto (tile :: drawn) hand (GameObj.wall g) hand' (GameObj.wall g'))
        /\ bloomDone hand' (GameObj.wall g')
        /\ ((length (Hand.concealed hand) `mod` 3 = 1)%nat ->
            bloomed (Hand.addTile tile hand) (afterDraw (GameObj.wall g))
                    hand' (GameObj.wall g'))).
Proof.
  intros Hstate Hh. unfold Game.playerDraw. rewrite Hstate.
  rewrite bool_decide_eq_true_2 by reflexivity. cbn [negb].
  destruct (remaining_draw (GameObj.wall g)) as [Hempty Hdraw]. split.
  - intros Hrem. rewrite (Hempty Hrem).
    unfold Game._handleDraw, Game._applyPayment, Scoring.calculatePayment.
    cbn [GameObj.winner GameObj.set_winner GameObj.set_winInfo GameObj.set_state].
    rewrite decide_True by lia. cbn [mbind option_bind].
    eexists. split; [reflexivity|]. repeat (split; [reflexivity|]).
    intros a b c d Hsc. cbn. rewrite Hsc. cbn. rewrite !Z.add_0_r. reflexivity.
  - intros Hrem. destruct (Hdraw Hrem) as (tile & Htile & Hd). rewrite Hd, Hh.
    cbn [mbind option_bind]. fold (afterDraw (GameObj.wall g)) in *.
    set (w := afterDraw _) in *.
    set (g1 := Game.setHand 0 (Hand.addTile tile hand) (GameObj.set_wall w g)).
    assert (at_ (GameObj.hands g1) 0 = Some (Hand.addTile tile hand)) as H1.
    { apply at_setHand. rewrite hands_set_wall, Hh. eauto. }
    assert (allTiles g1 ≡ₚ allTiles g) as Hall1.
    { apply (allTiles_update g 0 hand); [exact Hh|].
      rewrite handAll_addTile. apply draw_wallLeft in Hd. perm_count. }
    destruct (handleFlowerBloom_inv 0 g1 _ H1)
      as (g2 & hand2 & Hg2 & H2 & (_ & Hlen2 & _) & _ & Hall2 & Hq2 & _).
    destruct (handleFlowerBloom_drew 0 g1 _ g2 H1 Hg2)
      as (hand2' & d2 & H2' & Hdrew2 & Hdone2 & Hbloom2).
    rewrite H2 in H2'. injection H2' as <-.
    rewrite Hg2. cbn [mbind option_bind].
    set (g3 := GameObj.set__isKongDraw false _).
    assert (GameObj.hands g3 = GameObj.hands g2) as Hh3 by reflexivity.
    assert (GameObj.wall g3 = GameObj.wall g2) as Hw3 by reflexivity.
    assert (allTiles g3 = allTiles g2) as Hall3 by reflexivity.
    assert (at_ (GameObj.hands g3) 0 = Some hand2) as H3 by (rewrite Hh3; exact H2).
    destruct (validateHandSize_inv 0 Game.before_discard g3 hand2 H3)
      as (g4 & hand4 & Hg4 & H4 & Hall4 & Hq4 & Hsame & _).
    destruct (validateHandSize_drew 0 Game.before_discard g3 hand2 g4 H3 Hg4)
      as (hand4' & d4 & H4' & Hdrew4 & Hdone4).
    rewrite H4 in H4'. injection H4' as <-.
    rewrite Hg4. cbn [mbind option_bind].
    exists tile, (GameObj.set_state (Some PLAYER_DISCARD) g4), hand4.
    split; [exact Htile|]. split; [reflexivity|]. split; [reflexivity|].
    split; [change (allTiles g4 ≡ₚ allTiles g); rewrite Hall4, Hall3, Hall2; exact Hall1|].
    split; [exact H4|].
    split.
    { intros q Hq. change (at_ (GameObj.hands g4) q = at_ (GameObj.hands g) q).
      rewrite Hq4, Hh3, Hq2 by assumption. subst g1.
      rewrite at_setHand_other by (assumption || lia). reflexivity. }
    rewrite length_addTile in Hlen2.
    assert ((length (Hand.concealed hand) `mod` 3 = 1)%nat -> g4 = g3) as Hsame'.
    { intros Hmod. apply Hsame. rewrite Hlen2.
      rewrite <- Nat.add_1_r, <- Nat.Div0.add_mod_idemp_l, Hmod. reflexivity. }
    destruct (validateHandSize_ok 0 Game.before_discard g3) as (g5 & Hg5 & [Honly _]);
      [rewrite H3; eauto|].
    rewrite Hg4 in Hg5. injection Hg5 as <-.
    split; [rewrite Honly; reflexivity|]. split; [rewrite Honly; reflexivity|].
    split.
    { intros Hmod. pose proof H4 as H4c. rewrite (Hsame' Hmod), H3 in H4c.
      injection H4c as <-. exact Hlen2. }
    split.
    { exists (d2 ++ d4).
      change (drewInto ([tile] ++ d2 ++ d4) hand (GameObj.wall g) hand4 (GameObj.wall g4)).
      eapply drewInto_trans; [apply (drewInto_addTile tile hand (GameObj.wall g) w),
                                draw_wallLeft, Hd|].
      eapply drewInto_trans; [exact Hdrew2|]. rewrite <- Hw3. exact Hdrew4. }
    split; [apply Hdone4; rewrite Hw3; exact Hdone2|].
    intros Hmod. pose proof H4 as H4c. rewrite (Hsame' Hmod), H3 in H4c.
    injection H4c as <-.
    change (bloomed (Hand.addTile tile hand) w hand2 (GameObj.wall g4)).
    rewrite (Hsame' Hmod), Hw3. exact Hbloom2.
Qed.

Lemma playerDraw_draws_witness :
  exists tile g' hand',
    Game.playerDraw flowerDrawGame = Some (true, g')
    /\ at_ (GameObj.hands g') 0 = Some hand'
    /\ (exists drawn,
          drewInto (tile :: drawn) fourTiles (GameObj.wall flowerDrawGame)
                   hand' (GameObj.wall g'))
    /\ bloomDone hand' (GameObj.wall g')
    /\ tile = Tile.mk FLOWER 1 136
    /\ Hand.flowers hand' = [Tile.mk FLOWER 1 136]
    /\ Hand.concealed hand'
       = [Tile.mk WAN 1 0; Tile.mk WAN 2 1; Tile.mk WAN 3 2; Tile.mk WAN 4 3;
          Tile.mk TUNG 2 40].
Proof.
  destruct (playerDraw_draws flowerDrawGame fourTiles) as [_ H]; [reflexivity|reflexivity|].
  destruct H as (tile & g' & hand' & Ht & Hg & _ & _ & Hat & _ & _ & _ & _ & Hd & Hb & _);
    [vm_compute; reflexivity|].
  assert (Game.playerDraw flowerDrawGame = Some (true, flowerDrawn)) as E
    by (vm_compute; reflexivity).
  assert (Some tile = Some (Tile.mk FLOWER 1 136)) as Et by (rewrite <- Ht; reflexivity).
  injection Et as Et.
  assert (Some (true, g') = Some (true, flowerDrawn)) as Eg by (rewrite <- Hg; exact E).
  injection Eg as Eg.
  exists tile, g', hand'. split; [exact Hg|]. split; [exact Hat|].
  split; [exact Hd|]. split; [exact Hb|]. split; [exact Et|].
  assert (Some hand' = at_ (GameObj.hands flowerDrawn) 0) as Eh
    by (rewrite <- Eg, Hat; reflexivity).
  injection Eh as Eh. rewrite Eh. split; reflexivity.
Defined.

(** * Probing a hand with a tile *)

Lemma notAfter_before a b : notAfter a b -> Tile.before b a = false.
Proof.
  intros (ka & kb & Ha & Hb & Hle). rewrite (before_false b a ka kb Hb Ha).
  apply bool_decide_eq_false_2. lia.
Qed.

(** On tiles in order, [sort()] changes nothing. *)
Lemma sort_sorted_id l : StronglySorted notAfter l -> Tile.sort l = l.
Proof.
  induction 1 as [|x l Hs IH Hall]; cbn [Tile.sort]; [reflexivity|].
  rewrite IH. destruct l as [|y l']; [reflexivity|]. cbn [Tile.insert].
  apply list.Forall_cons in Hall as [Hxy _]. rewrite (notAfter_before _ _ Hxy). reflexivity.
Qed.

Lemma removeFirst_insert (p : Tile.t -> bool) y l :
  p y = false -> Tile.isBonus y = false -> noBonus l -> StronglySorted notAfter l ->
  removeFirst p (Tile.insert y l) = Tile.insert y (removeFirst p l).
Proof.
  intros Hy Hby Hl Hs. destruct (noBonus_sortKey y Hby) as [ky Hky].
  induction l as [|z l IH]; cbn [Tile.insert removeFirst]; [rewrite Hy; reflexivity|].
  apply list.Forall_cons in Hl as [Hz Hl]. destruct (noBonus_sortKey z Hz) as [kz Hkz].
  apply StronglySorted_inv in Hs as [Hs Hall].
  destruct (Tile.before z y) eqn:Hzy; cbn [removeFirst].
  - destruct (p z); [reflexivity|]. cbn [Tile.insert]. rewrite Hzy, (IH Hl Hs). reflexivity.
  - rewrite Hy. destruct (p z); cbn [Tile.insert]; [|rewrite Hzy; reflexivity].
    destruct l as [|u l']; [reflexivity|]. cbn [Tile.insert].
    apply list.Forall_cons in Hall as [(kz' & ku & E1 & E2 & Hle) _].
    rewrite (before_false z y ky kz Hkz Hky) in Hzy. apply bool_decide_eq_false_1 in Hzy.
    rewrite (before_false u y ky ku E2 Hky).
    rewrite bool_decide_eq_false_2; [reflexivity|]. rewrite Hkz in E1. injection E1 as <-. lia.
Qed.

(** Pushing a tile, sorting, and taking the tile out again by its id
    leaves the sorted tiles. *)
Lemma removeFirst_sort_snoc tile l :
  Tile.isBonus tile = false -> noBonus l -> Tile.id tile ∉ Tile.id <$> l ->
  removeFirst (fun x => bool_decide (Tile.id x = Tile.id tile)) (Tile.sort (l ++ [tile]))
  = Tile.sort l.
Proof.
  intros Hb Hl Hid. induction l as [|y l IH]; cbn [app Tile.sort Tile.insert removeFirst].
  - rewrite bool_decide_eq_true_2 by reflexivity. reflexivity.
  - apply list.Forall_cons in Hl as [Hy Hl].
    cbn in Hid. rewrite elem_of_cons in Hid.
    rewrite removeFirst_insert.
    + rewrite IH; [reflexivity|exact Hl|tauto].
    + apply bool_decide_eq_false_2. intros E. apply Hid. left. symmetry. exact E.
    + exact Hy.
    + unfold noBonus. rewrite sort_Permutation. apply Forall_app. split; [exact Hl|].
      repeat constructor. exact Hb.
    + apply sort_sorted. apply Forall_app. split; [exact Hl|]. repeat constructor. exact Hb.
Qed.

Lemma probe_unchanged tile h :
  tidy h -> Tile.isBonus tile = false ->
  Tile.id tile ∉ Tile.id <$> Hand.concealed h ->
  Hand.removeTile tile (Hand.addTile tile h) = h.
Proof.
  intros [Hn Hs] Hb Hid. unfold Hand.removeTile, Hand.addTile, Hand.sort. cbn.
  rewrite removeFirst_sort_snoc by assumption. rewrite sort_sorted_id by exact Hs.
  destruct h; reflexivity.
Qed.

Lemma canWinWith_spec hand tile ctx :
  tidy hand -> Tile.isBonus tile = false ->
  Tile.id tile ∉ Tile.id <$> Hand.concealed hand ->
  wellFormedMelds hand ->
  exists b, AI._canWinWith hand tile ctx = Some (b, hand)
    /\ (b = true <-> probeWins hand tile ctx).
Proof.
  intros Ht Hb Hid Hwf. unfold AI._canWinWith, probeWins.
  rewrite probe_unchanged by assumption.
  destruct (Hand.canWin (Hand.addTile tile hand)) eqn:Hwin; cbn [negb].
  2:{ exists false. split; [reflexivity|]. split; [discriminate|]. intros [H _]. discriminate H. }
  fold (probeContext ctx).
  destruct (calculate_total (Hand.addTile tile hand) (probeContext ctx)) as [sc Hsc]; [exact Hwf|].
  rewrite Hsc. cbn [mbind option_bind]. rewrite probe_unchanged by assumption.
  eexists. split; [reflexivity|]. unfold Scoring.meetsMinimum. rewrite bool_decide_eq_true.
  split.
  - intros Hmin. split; [reflexivity|]. exists sc. split; [reflexivity|exact Hmin].
  - intros (_ & sc' & [= <-] & Hmin). exact Hmin.
Qed.

(** X24.  An AI seat asked about a discard puts the tile into its hand to
    test it and takes it out again: a hand in order is handed back as it
    was.  The test is that of [_canWinWith]: the completed hand wins and
    reaches the minimum fan when scored with the two winds of the context
    and none of its flags.  The flags are not read, so a fan for
    self-draw, last tile or kong draw that the context of the game would
    give does not count.  At every difficulty the seat claims a win
    whenever that test succeeds.  The Easy seat claims a win only then;
    otherwise it claims nothing but a pung, and that only when it holds
    two tiles like the discard.  A Medium or Hard seat whose test fails
    claims a kong whenever it holds three tiles like the discard. *)
Theorem decideClaim_sound (difficulty : DIFFICULTY) (heur : Heuristics.t) (hand : Hand.t)
    (tile : Tile.t) (canChow : bool) (ctx : Context.t) (r : RNG.t) :
  tidy hand -> Tile.isBonus tile = false ->
  Tile.id tile ∉ Tile.id <$> Hand.concealed hand ->
  wellFormedMelds hand ->
  (forall ctx',
     Context.seatWind ctx' = Context.seatWind ctx ->
     Context.roundWind ctx' = Context.roundWind ctx ->
     Context.minFan ctx' = Context.minFan ctx ->
     AI._canWinWith hand tile ctx' = AI._canWinWith hand tile ctx)
  /\ exists claim r',
    AI.decideClaim difficulty heur hand tile canChow ctx r = Some (claim, hand, r')
    /\ (probeWins hand tile ctx -> claim = Some win /\ r' = r)
    /\ (difficulty = EASY ->
        (claim = Some win -> probeWins hand tile ctx)
        /\ (claim = Some pung -> Hand.canPung tile hand = true)
        /\ claim <> Some kong /\ claim <> Some chow)
    /\ (difficulty <> EASY -> ~ probeWins hand tile ctx ->
        Hand.canKongFromDiscard tile hand = true -> claim = Some kong).
Proof.
  intros Ht Hb Hid Hwf. split.
  { intros ctx' H1 H2 H3. unfold AI._canWinWith. rewrite H1, H2, H3. reflexivity. }
  destruct (canWinWith_spec hand tile ctx Ht Hb Hid Hwf) as (b & Hprobe & Hiff).
  unfold AI.decideClaim, AI._claimEasy, AI._claimMedium, AI._claimHard.
  rewrite Hprobe. cbn [mbind option_bind].
  destruct b.
  { assert (probeWins hand tile ctx) as Hyes by (apply Hiff; reflexivity).
    destruct difficulty; (eexists _, _; split; [reflexivity|]);
      (split; [intros _; split; reflexivity|]);
      (split; [|intros _ Hno; contradiction]); try discriminate.
    intros _. split; [intros _; exact Hyes|]. repeat split; discriminate. }
  assert (~ probeWins hand tile ctx) as Hno by (intros H; apply Hiff in H; discriminate H).
  destruct difficulty.
  - destruct (Hand.canPung tile hand) eqn:Hpung.
    + destruct (RNG.randomBelowHalf r) as [[] r1];
        (eexists _, _; split; [reflexivity|]); (split; [intros H; contradiction|]);
        (split; [|intros H; contradiction]);
        intros _; repeat split; try discriminate; auto.
    + eexists _, _. split; [reflexivity|]. split; [intros H; contradiction|].
      split; [|intros H; contradiction].
      intros _. repeat split; discriminate.
  - destruct (Hand.canKongFromDiscard tile hand).
    + eexists _, _. split; [reflexivity|]. split; [intros H; contradiction|].
      split; [discriminate|reflexivity].
    + destruct (Heuristics.claimMediumRest heur hand tile canChow ctx r) as [c r1].
      eexists _, _. split; [reflexivity|]. split; [intros H; contradiction|].
      split; discriminate.
  - destruct (Hand.canKongFromDiscard tile hand).
    + eexists _, _. split; [reflexivity|]. split; [intros H; contradiction|].
      split; [discriminate|reflexivity].
    + destruct (Heuristics.claimHardRest heur hand tile canChow ctx r) as [c r1].
      eexists _, _. split; [reflexivity|]. split; [intros H; contradiction|].
      split; discriminate.
Qed.

Lemma decideClaim_sound_witness :
  Hand.canWin (Hand.addTile sok2 plainHand) = true
  /\ ScoringResult.totalFan <$> Scoring.calculate (Hand.addTile sok2 plainHand) lastTileContext
     = Some 1%nat
  /\ ~ probeWins plainHand sok2 lastTileContext
  /\ exists claim r',
       AI.decideClaim EASY noHeuristics plainHand sok2 true lastTileContext (RNG.mk source 0)
       = Some (claim, plainHand, r')
       /\ claim = None.
Proof.
  assert (~ probeWins plainHand sok2 lastTileContext) as Hno.
  { intros (_ & sc & Hsc & Hmin).
    assert (Some sc = Some (ScoringResult.mk 0 [])) as E by (rewrite <- Hsc; reflexivity).
    injection E as ->. vm_compute in Hmin. apply Hmin. reflexivity. }
  split; [reflexivity|]. split; [reflexivity|]. split; [exact Hno|].
  destruct (decideClaim_sound EASY noHeuristics plainHand sok2 true lastTileContext
              (RNG.mk source 0)) as [_ (claim & r' & Hd & _ & Heasy & _)].
  - split; [no_bonus|in_order].
  - reflexivity.
  - apply (bool_decide_unpack _). vm_compute. exact I.
  - repeat constructor. discriminate.
  - exists claim, r'. split; [exact Hd|].
    destruct (Heasy eq_refl) as (Hwin & Hpung & Hkong & Hchow).
    destruct claim as [[]|]; try reflexivity; try contradiction.
    + exfalso. apply Hno, Hwin. reflexivity.
    + specialize (Hpung eq_refl). vm_compute in Hpung. discriminate Hpung.
Defined.

(** * The Easy discard *)

Lemma randomInt_lt k r : (0 < k)%nat -> (fst (RNG.randomInt k r) < k)%nat.
Proof.
  intros Hk. unfold RNG.randomInt, RNG.random. cbn [fst].
  set (u := RNG.source r (RNG.pos r) `mod` RNG.DEN).
  assert (0 <= u < RNG.DEN) as Hu by (apply Z.mod_pos_bound; reflexivity).
  assert (0 <= u * Z.of_nat k / RNG.DEN < Z.of_nat k) as Hq.
  { split.
    - apply Z.div_pos; [lia|reflexivity].
    - apply Z.div_lt_upper_bound; [reflexivity|]. nia. }
  lia.
Qed.

(** X25.  The Easy seat discards a tile of its own hand, whatever the
    random source: the tile moves from its concealed tiles to its discard
    pile and becomes [lastDiscard]; no tile of the game is lost and no
    other seat is touched. *)
Theorem easy_discards_own_tile (p : Z) (g : Game.t) (hand : Hand.t) :
  at_ (GameObj.hands g) p = Some hand ->
  at_ (GameObj.ai g) (p - 1) = Some EASY ->
  Hand.concealed hand <> [] -> distinctIds (Hand.concealed hand) ->
  exists tile g',
    Game.aiDiscard p g = Some (tile, g')
    /\ tile ∈ Hand.concealed hand
    /\ at_ (GameObj.hands g') p = Some (Hand.discard tile hand)
    /\ Hand.concealed hand ≡ₚ tile :: Hand.concealed (Hand.discard tile hand)
    /\ Hand.discards (Hand.discard tile hand) = Hand.discards hand ++ [tile]
    /\ GameObj.lastDiscard g' = Some tile /\ GameObj.lastDiscardPlayer g' = p
    /\ allTiles g' ≡ₚ allTiles g
    /\ (forall q, q <> p -> at_ (GameObj.hands g') q = at_ (GameObj.hands g) q).
Proof.
  intros Hh Hai Hne Hids. unfold Game.aiDiscard. rewrite Hh, Hai. cbn [mbind option_bind].
  unfold AI.chooseDiscard, AI._discardEasy.
  pose proof (randomInt_lt (length (Hand.concealed hand)) (GameObj.rng g)) as Hlt.
  destruct (RNG.randomInt _ (GameObj.rng g)) as [idx r1]. cbn [fst] in Hlt.
  destruct (lookup_lt_is_Some_2 (Hand.concealed hand) idx) as [tile Htile].
  { apply Hlt. destruct (Hand.concealed hand); [contradiction|cbn; lia]. }
  rewrite Htile. cbn [mbind option_bind].
  assert (tile ∈ Hand.concealed hand) as Hin by (eapply list_elem_of_lookup_2; exact Htile).
  pose proof (removeFirst_id tile _ Hin Hids) as Hperm.
  assert (0 <= p) as Hp by (apply at_split in Hh as (_ & _ & _ & _ & Hp); exact Hp).
  eexists tile, _. split; [reflexivity|]. split; [exact Hin|].
  split; [apply at_setHand; cbn; rewrite Hh; eauto|].
  split; [exact Hperm|]. split; [reflexivity|]. split; [reflexivity|]. split; [reflexivity|].
  split.
  - apply (allTiles_setHand (GameObj.set_rng r1 g) p hand); [exact Hh|].
    unfold handAll, Hand.discard. cbn.
    generalize dependent (removeFirst (fun x => bool_decide (Tile.id x = Tile.id tile))
                            (Hand.concealed hand)).
    intros. perm_count.
  - intros q Hq. apply (at_setHand_other p q _ (GameObj.set_rng r1 g)); assumption.
Qed.

Lemma easy_discards_own_tile_witness :
  exists tile g',
    Game.aiDiscard 1 easyGame = Some (tile, g')
    /\ tile ∈ Hand.concealed kongHand
    /\ GameObj.lastDiscard g' = Some tile /\ GameObj.lastDiscardPlayer g' = 1
    /\ allTiles g' ≡ₚ allTiles easyGame.
Proof.
  destruct (easy_discards_own_tile 1 easyGame (Hand.mk 1 (Hand.concealed kongHand) [] [] []))
    as (tile & g' & H1 & H2 & _ & _ & _ & H3 & H4 & H5 & _).
  - reflexivity.
  - reflexivity.
  - discriminate.
  - apply (bool_decide_unpack _). vm_compute. exact I.
  - exists tile, g'. repeat split; assumption.
Defined.

(** * Claims *)

Lemma setHand_same p h g : at_ (GameObj.hands g) p = Some h -> Game.setHand p h g = g.
Proof.
  unfold at_, Game.setHand. destruct (decide (p < 0)); [discriminate|]. intros H.
  rewrite list_insert_id by exact H. destruct g; reflexivity.
Qed.

Lemma claimAt_human tile from g hand best bp :
  seat from -> from <> 0 ->
  at_ (GameObj.hands g) 0 = Some hand ->
  tidy hand -> Tile.isBonus tile = false ->
  Tile.id tile ∉ Tile.id <$> Hand.concealed hand ->
  wellFormedMelds hand ->
  offers g hand tile from <> [] ->
  Game.claimAt tile from 0 (best, bp, g)
  = Some (inl (GameObj.set_state (Some CLAIMING)
                 (GameObj.set_pendingClaims (offers g hand tile from) g))).
Proof.
  intros Hfrom Hne Hh Ht Hb Hid Hwf Hoffers.
  unfold Game.claimAt.
  rewrite decide_False by (intros E; apply Hne; symmetry; exact E).
  rewrite Hh. cbn [mbind option_bind]. rewrite decide_True by reflexivity.
  rewrite probe_unchanged by assumption.
  rewrite (setHand_same 0 hand g Hh).
  assert (bool_decide ((from + 1) `rem` 4 = 0) = bool_decide (from = 3)) as ->.
  { apply bool_decide_ext. unfold seat in Hfrom.
    assert (from = 1 \/ from = 2 \/ from = 3) as Hc by lia.
    destruct Hc as [-> | [-> | ->]]; split; intros H; try reflexivity;
      try discriminate H; vm_compute in H; discriminate H. }
  assert (bool_decide (0 < length (Hand.canChow tile hand))%nat
          = bool_decide (Hand.canChow tile hand <> [])) as ->.
  { apply bool_decide_ext. destruct (Hand.canChow tile hand); cbn; [|split; [discriminate|lia]].
    split; [lia|intros H; contradiction]. }
  revert Hoffers. unfold offers.
  destruct (Hand.canWin (Hand.addTile tile hand)) eqn:Hwin; cbn [andb].
  - destruct (calculate_total (Hand.addTile tile hand)
                (Context.set_selfDrawn false (Game.getContext 0 g))) as [sc Hsc]; [exact Hwf|].
    rewrite Hsc. cbn [mbind option_bind].
    intros Hoffers. rewrite bool_decide_eq_true_2; [reflexivity|].
    destruct (_ ++ _); [contradiction|cbn; lia].
  - cbn [mbind option_bind].
    intros Hoffers. rewrite bool_decide_eq_true_2; [reflexivity|].
    destruct (_ ++ _); [contradiction|cbn; lia].
Qed.

(** X26.  Seat 0 is asked first about a discard of another seat.  If it
    can do anything with the tile, the game waits in CLAIMING with exactly
    the moves it can make: win with the minimum fan, kong with three like
    tiles, pung with two, chow only on the discard of seat 3.  No AI seat
    is asked, even one that could win on the tile. *)
Theorem human_asked_first (tile : Tile.t) (from : Z) (g : Game.t) (hand : Hand.t) :
  seat from -> from <> 0 ->
  at_ (GameObj.hands g) 0 = Some hand ->
  tidy hand -> Tile.isBonus tile = false ->
  Tile.id tile ∉ Tile.id <$> Hand.concealed hand ->
  wellFormedMelds hand ->
  offers g hand tile from <> [] ->
  Game._processClaims tile from g
  = Some (GameObj.set_state (Some CLAIMING)
            (GameObj.set_pendingClaims (offers g hand tile from) g)).
Proof.
  intros Hfrom Hne Hh Ht Hb Hid Hwf Hoffers.
  unfold Game._processClaims. cbn [Game.claimLoop].
  rewrite (claimAt_human tile from g hand) by assumption. reflexivity.
Qed.

Lemma human_asked_first_witness :
  offers kongGame kongHand wan2 3 = [chow]
  /\ Game._processClaims wan2 3 kongGame
     = Some (GameObj.set_state (Some CLAIMING) (GameObj.set_pendingClaims [chow] kongGame)).
Proof.
  assert (offers kongGame kongHand wan2 3 = [chow]) as E by (vm_compute; reflexivity).
  split; [exact E|]. rewrite <- E.
  apply (human_asked_first wan2 3 kongGame kongHand).
  - unfold seat. lia.
  - discriminate.
  - reflexivity.
  - split; [no_bonus|in_order].
  - reflexivity.
  - apply (bool_decide_unpack _). vm_compute. exact I.
  - apply List.Forall_nil.
  - rewrite E. discriminate.
Defined.

(** * Kongs from the hand *)

Lemma countByKey_keyCount k h : Hand.countByKey k h = keyCount k (Hand.concealed h).
Proof. reflexivity. Qed.

Lemma getAddedKongs_from_elem h k : forall ms keys,
  Hand.getAddedKongs_from h ms = Some keys -> k ∈ keys ->
  (1 <= Hand.countByKey k h)%nat
  /\ exists m t0, m ∈ ms /\ Meld.type m = PUNG /\ head (Meld.tiles m) = Some t0
       /\ Tile.key t0 = k.
Proof.
  induction ms as [|m ms IH]; intros keys; cbn [Hand.getAddedKongs_from].
  - intros [= <-] Hk. apply elem_of_nil in Hk. contradiction.
  - destruct (decide (Meld.type m = PUNG)) as [Hty|Hty].
    + destruct (head (Meld.tiles m)) as [t0|] eqn:Hhead; [|discriminate].
      cbn [mbind option_bind].
      destruct (Hand.getAddedKongs_from h ms) as [rest|]; [|discriminate].
      cbn [mbind option_bind]. intros [= <-] Hk.
      destruct (bool_decide_reflect (1 <= Hand.countByKey (Tile.key t0) h)%nat) as [Hc|Hc].
      * apply elem_of_cons in Hk as [->|Hk].
        -- split; [exact Hc|]. exists m, t0. repeat split; try assumption. left.
        -- destruct (IH rest eq_refl Hk) as (Hc' & m' & t' & Hm' & H').
           split; [exact Hc'|]. exists m', t'. split; [right; exact Hm'|exact H'].
      * destruct (IH rest eq_refl Hk) as (Hc' & m' & t' & Hm' & H').
        split; [exact Hc'|]. exists m', t'. split; [right; exact Hm'|exact H'].
    + intros Hrest Hk. destruct (IH keys Hrest Hk) as (Hc' & m' & t' & Hm' & H').
      split; [exact Hc'|]. exists m', t'. split; [right; exact Hm'|exact H'].
Qed.

Lemma getAddedKongs_from_total h ms :
  Forall (fun m => Meld.tiles m <> []) ms -> is_Some (Hand.getAddedKongs_from h ms).
Proof.
  induction 1 as [|m ms Hm _ IH]; cbn [Hand.getAddedKongs_from]; [eauto|].
  destruct IH as [rest ->]. destruct (decide _); [|eauto].
  destruct (Meld.tiles m); [contradiction|]. cbn. eauto.
Qed.

(** [findPung] finds the first pung meld of the key. *)
Lemma findPung_spec h k : forall ms keys i,
  Hand.getAddedKongs_from h ms = Some keys ->
  (exists m t0, m ∈ ms /\ Meld.type m = PUNG /\ head (Meld.tiles m) = Some t0
     /\ Tile.key t0 = k) ->
  exists l1 m l2 t0,
    ms = l1 ++ m :: l2 /\ Hand.findPung k ms i = Some (Some (i + length l1)%nat)
    /\ Meld.type m = PUNG /\ head (Meld.tiles m) = Some t0 /\ Tile.key t0 = k.
Proof.
  induction ms as [|m ms IH]; intros keys i; cbn [Hand.getAddedKongs_from Hand.findPung].
  - intros _ (m & t0 & Hm & _). apply elem_of_nil in Hm. contradiction.
  - intros Hkeys (m' & t' & Hm' & Hty' & Hhead' & Hkey').
    assert (is_Some (Hand.getAddedKongs_from h ms) ->
              m' ∈ ms ->
              exists l1 m0 l2 t0,
                m :: ms = l1 ++ m0 :: l2
                /\ Hand.findPung k ms (S i) = Some (Some (i + length l1)%nat)
                /\ Meld.type m0 = PUNG /\ head (Meld.tiles m0) = Some t0 /\ Tile.key t0 = k)
      as Hrest.
    { intros [keys' Hk'] Hin.
      destruct (IH keys' (S i) Hk') as (l1 & m0 & l2 & t0 & -> & E & H0).
      - exists m', t'. repeat split; assumption.
      - exists (m :: l1), m0, l2, t0. split; [reflexivity|]. split; [|exact H0].
        rewrite E. cbn [length]. do 2 f_equal. lia. }
    destruct (decide (Meld.type m = PUNG)) as [Hty|Hty].
    + destruct (head (Meld.tiles m)) as [t0|] eqn:Hhead; [|discriminate].
      cbn [mbind option_bind] in *.
      destruct (Hand.getAddedKongs_from h ms) as [rest|] eqn:Hr; [|discriminate].
      destruct (decide (Tile.key t0 = k)) as [Hk|Hk].
      * exists [], m, ms, t0. cbn. rewrite Nat.add_0_r. repeat split; assumption.
      * apply Hrest; [eauto|].
        apply elem_of_cons in Hm' as [->|Hm']; [|exact Hm']. congruence.
    + apply Hrest; [eauto|].
      apply elem_of_cons in Hm' as [->|Hm']; [contradiction|exact Hm'].
Qed.

(** X27.  [getConcealedKongs] lists, each once, the keys of which the
    hand holds exactly four concealed tiles.  [getAddedKongs] lists only
    keys of which the hand holds a tile and has made a pung, and
    [doKongAdded] for such a key moves one tile of the key from the
    concealed tiles into the first pung of the key, which becomes an added
    kong; nothing else changes. *)
Theorem kongs_from_hand (h : Hand.t) (k : Key) :
  (k ∈ Hand.getConcealedKongs h <-> Hand.countByKey k h = 4%nat)
  /\ NoDup (Hand.getConcealedKongs h)
  /\ (wellFormedMelds h -> is_Some (Hand.getAddedKongs h))
  /\ (forall keys, Hand.getAddedKongs h = Some keys -> k ∈ keys ->
      exists h' l1 m l2 x,
        Hand.doKongAdded k h = Some h'
        /\ Hand.melds h = l1 ++ m :: l2 /\ Meld.type m = PUNG
        /\ Tile.key <$> head (Meld.tiles m) = Some k
        /\ Hand.melds h'
           = l1 ++ Meld.mk KONG_ADDED (Meld.tiles m ++ [x]) (Meld.fromPlayer m) :: l2
        /\ Tile.key x = k
        /\ Hand.concealed h ≡ₚ x :: Hand.concealed h'
        /\ sameRest h h').
Proof.
  split; [|split; [|split]].
  - unfold Hand.getConcealedKongs. rewrite list_elem_of_In, filter_In, <- list_elem_of_In.
    rewrite keysInOrder_elem, bool_decide_eq_true, countByKey_keyCount, <- groupByKey_total.
    rewrite <- keyCount_pos, <- groupByKey_total. unfold lookup_total, map_lookup_total.
    destruct (groupByKey (Hand.concealed h) !! k) as [n|]; cbn.
    + split; [intros [_ [= ->]]; reflexivity|intros ->; split; [lia|reflexivity]].
    + split; [intros [_ [=]]|discriminate].
  - unfold Hand.getConcealedKongs. apply NoDup_ListNoDup, List.NoDup_filter, NoDup_ListNoDup.
    apply keysInOrder_NoDup.
  - apply getAddedKongs_from_total.
  - intros keys Hkeys Hk. unfold Hand.getAddedKongs in Hkeys.
    destruct (getAddedKongs_from_elem h k _ _ Hkeys Hk) as (Hc & Hex).
    destruct (findPung_spec h k _ keys 0%nat Hkeys Hex)
      as (l1 & m & l2 & t0 & Hms & Hfind & Hty & Hhead & Hkey).
    unfold Hand.doKongAdded. rewrite Hfind. cbn [mbind option_bind].
    destruct (removeTileByKey_found k h) as (x & h' & Hrm & Hx); [lia|].
    rewrite Hrm. apply removeTileByKey_Some in Hrm as (_ & Hperm & _ & Hm & Hrest).
    eexists _, l1, m, l2, x. split; [reflexivity|]. split; [exact Hms|].
    split; [exact Hty|]. split; [rewrite Hhead; cbn; congruence|].
    split.
    { cbn. rewrite Hm, Hms. rewrite alter_app_r_alt, Nat.sub_diag by lia. reflexivity. }
    split; [exact Hx|]. split; [exact Hperm|]. exact Hrest.
Qed.

Lemma kongs_from_hand_witness :
  (WAN, 1) ∈ Hand.getConcealedKongs kongHand
  /\ is_Some (Hand.getAddedKongs dragonHand).
Proof.
  split.
  - destruct (kongs_from_hand kongHand (WAN, 1)) as [H _]. apply H. reflexivity.
  - destruct (kongs_from_hand dragonHand (WAN, 1)) as (_ & _ & H & _). apply H.
    repeat (apply List.Forall_cons; [discriminate|]). apply List.Forall_nil.
Defined.

(** * Claiming a discard for a meld *)

Lemma takeByKeys_conserve keys : forall acc h,
  let r := Hand.takeByKeys keys acc h in
  fst r ++ Hand.concealed (snd r) ≡ₚ acc ++ Hand.concealed h
  /\ Hand.melds (snd r) = Hand.melds h /\ sameRest h (snd r).
Proof.
  induction keys as [|key keys IH]; intros acc h; cbn [Hand.takeByKeys].
  - cbn. split; [reflexivity|]. repeat split.
  - destruct (Hand.removeTileByKey key h) as [[x|] h'] eqn:Hr.
    + apply removeTileByKey_Some in Hr as (_ & Hperm & _ & Hm & Hrest).
      destruct (IH (acc ++ [x]) h') as (E1 & E2 & E3). cbv zeta.
      split; [rewrite E1, Hperm, <- app_assoc; cbn; reflexivity|].
      split; [congruence|]. eapply sameRest_trans; eassumption.
    + apply removeTileByKey_None in Hr as [-> _]. apply IH.
Qed.

Lemma handAll_meld ty keys tile h f :
  let r := Hand.takeByKeys keys [tile] h in
  (forall l, f l ≡ₚ l) ->
  handAll (Hand.pushMeld ty (f (fst r)) (snd r)) ≡ₚ tile :: handAll h.
Proof.
  intros r Hf. destruct (takeByKeys_conserve keys [tile] h) as (Hperm & Hm & (_ & Hfl & Hd)).
  fold r in Hperm, Hm, Hfl, Hd. unfold handAll, Hand.pushMeld. cbn.
  rewrite Hm, Hfl, Hd, flat_map_app. cbn. rewrite app_nil_r, Hf.
  generalize dependent (flat_map Meld.tiles (Hand.melds h)). intros.
  cbn in Hperm. perm_count.
Qed.

Lemma handAll_setLastFromPlayer p h : handAll (Game.setLastFromPlayer p h) = handAll h.
Proof.
  unfold handAll, Game.setLastFromPlayer. cbn. do 2 f_equal.
  generalize (length (Hand.melds h) - 1)%nat. intros i.
  revert i. induction (Hand.melds h) as [|m ms IH]; intros [|i]; cbn; try reflexivity.
  rewrite IH. reflexivity.
Qed.

Lemma handAll_claimed action tile combo h :
  action <> win ->
  handAll (match action with
           | kong => Hand.doKongExposed tile h
           | pung => Hand.doPung tile h
           | _ => Hand.doChow tile combo h
           end) ≡ₚ tile :: handAll h.
Proof.
  intros Hne. destruct action; [contradiction| | |].
  - unfold Hand.doKongExposed.
    pose proof (handAll_meld KONG_EXPOSED (replicate 3 (Tile.key tile)) tile h id) as H.
    destruct (Hand.takeByKeys _ _ _). apply H. reflexivity.
  - unfold Hand.doPung.
    pose proof (handAll_meld PUNG (replicate 2 (Tile.key tile)) tile h id) as H.
    destruct (Hand.takeByKeys _ _ _). apply H. reflexivity.
  - unfold Hand.doChow.
    pose proof (handAll_meld CHOW combo tile h Tile.sort) as H.
    destruct (Hand.takeByKeys _ _ _). apply H. apply sort_Permutation.
Qed.

Lemma allTiles_gain g p h h' w' extra :
  at_ (GameObj.hands g) p = Some h ->
  handAll h' ++ wallLeft w' ≡ₚ extra ++ handAll h ++ wallLeft (GameObj.wall g) ->
  allTiles (Game.setHand p h' (GameObj.set_wall w' g)) ≡ₚ extra ++ allTiles g.
Proof.
  intros Hh Hperm. apply at_split in Hh as (l1 & l2 & Hl & Hlen & Hp).
  unfold allTiles, Game.setHand. cbn. rewrite Hl, <- Hlen.
  rewrite insert_app_r_alt, Nat.sub_diag by lia. cbn.
  rewrite !flat_map_app. cbn.
  generalize dependent (flat_map handAll l1). generalize dependent (flat_map handAll l2).
  intros. perm_count.
Qed.

Lemma onlyTiles_fields g g' :
  onlyTiles g g' ->
  GameObj.lastDiscardPlayer g' = GameObj.lastDiscardPlayer g
  /\ GameObj.state g' = GameObj.state g.
Proof. intros [-> _]. destruct g; split; reflexivity. Qed.

(** The replacement draw after a kong keeps the tiles of the game. *)
Lemma kongReplacement_inv g hand :
  at_ (GameObj.hands g) 0 = Some hand ->
  exists g', Game.kongReplacement g = Some g'
    /\ allTiles g' ≡ₚ allTiles g
    /\ is_Some (at_ (GameObj.hands g') 0)
    /\ (forall q, q <> 0 -> at_ (GameObj.hands g') q = at_ (GameObj.hands g) q)
    /\ GameObj.lastDiscardPlayer g' = GameObj.lastDiscardPlayer g
    /\ GameObj.state g' = GameObj.state g.
Proof.
  intros Hh. unfold Game.kongReplacement.
  destruct (Wall.drawFromDeadWall (GameObj.wall g)) as [[x|] w] eqn:Hd.
  2:{ exists g. split; [reflexivity|]. split; [reflexivity|]. split; [rewrite Hh; eauto|].
      repeat split. }
  rewrite Hh. cbn [mbind option_bind].
  set (g1 := Game.setHand 0 (Hand.addTile x hand) (GameObj.set_wall w g)).
  assert (at_ (GameObj.hands g1) 0 = Some (Hand.addTile x hand)) as H1.
  { apply at_setHand. rewrite hands_set_wall, Hh. eauto. }
  assert (allTiles g1 ≡ₚ allTiles g) as Hall1.
  { apply (allTiles_update g 0 hand); [exact Hh|].
    rewrite handAll_addTile. apply drawFromDeadWall_wallLeft in Hd. perm_count. }
  destruct (handleFlowerBloom_inv 0 g1 _ H1) as (g2 & hand2 & Hg2 & H2 & _ & _ & Hall2 & Hq2 & _).
  destruct (handleFlowerBloom_ok 0 g1) as (g3 & Hg3 & Honly); [rewrite H1; eauto|].
  rewrite Hg2 in Hg3. injection Hg3 as <-. rewrite Hg2. cbn [mbind option_bind].
  destruct (onlyTiles_fields _ _ Honly) as [Hl Hs].
  eexists. split; [reflexivity|].
  split; [change (allTiles g2 ≡ₚ allTiles g); rewrite Hall2; exact Hall1|].
  split; [change (is_Some (at_ (GameObj.hands g2) 0)); rewrite H2; eauto|].
  split.
  { intros q Hq. change (at_ (GameObj.hands g2) q = at_ (GameObj.hands g) q).
    rewrite Hq2 by assumption. subst g1. rewrite at_setHand_other by (assumption || lia).
    reflexivity. }
  split; [exact Hl|exact Hs].
Qed.

(** The tiles [takeByKeys] collects are put behind those it was given,
    and come from the concealed tiles. *)
Lemma takeByKeys_taken keys : forall acc h,
  let r := Hand.takeByKeys keys acc h in
  exists taken, fst r = acc ++ taken
    /\ Hand.concealed h ≡ₚ taken ++ Hand.concealed (snd r)
    /\ Hand.melds (snd r) = Hand.melds h /\ sameRest h (snd r).
Proof.
  induction keys as [|key keys IH]; intros acc h; cbn [Hand.takeByKeys].
  - exists []. cbn. rewrite app_nil_r. split; [reflexivity|]. split; [reflexivity|].
    repeat split.
  - destruct (Hand.removeTileByKey key h) as [[x|] h'] eqn:Hr.
    + apply removeTileByKey_Some in Hr as (_ & Hperm & _ & Hm & Hrest).
      destruct (IH (acc ++ [x]) h') as (taken & E1 & E2 & E3 & E4). cbv zeta.
      exists (x :: taken). split; [rewrite E1, <- app_assoc; reflexivity|].
      split; [rewrite Hperm, E2; reflexivity|].
      split; [congruence|]. eapply sameRest_trans; eassumption.
    + apply removeTileByKey_None in Hr as [-> _]. apply IH.
Qed.

(** The hand right after a claim for a meld: the new meld is the last
    one, names the discarder, and is made of the discard and of concealed
    tiles. *)
Lemma claimed_meld action tile combo from h :
  action <> win ->
  let h' := Game.setLastFromPlayer from
              (match action with
               | kong => Hand.doKongExposed tile h
               | pung => Hand.doPung tile h
               | _ => Hand.doChow tile combo h
               end) in
  exists m taken,
    Hand.melds h' = Hand.melds h ++ [m]
    /\ Meld.type m = claimType action
    /\ Meld.fromPlayer m = Some from
    /\ Meld.tiles m ≡ₚ tile :: taken
    /\ Hand.concealed h ≡ₚ taken ++ Hand.concealed h'.
Proof.
  intros Hne.
  assert (forall ty keys (f : list Tile.t -> list Tile.t),
            (forall l, f l ≡ₚ l) ->
            let r := Hand.takeByKeys keys [tile] h in
            let h' := Game.setLastFromPlayer from (Hand.pushMeld ty (f (fst r)) (snd r)) in
            exists m taken,
              Hand.melds h' = Hand.melds h ++ [m]
              /\ Meld.type m = ty /\ Meld.fromPlayer m = Some from
              /\ Meld.tiles m ≡ₚ tile :: taken
              /\ Hand.concealed h ≡ₚ taken ++ Hand.concealed h') as Hgen.
  { intros ty keys f Hf r h'.
    destruct (takeByKeys_taken keys [tile] h) as (taken & E1 & E2 & E3 & _).
    fold r in E1, E2, E3.
    exists (Meld.mk ty (f (fst r)) (Some from)), taken.
    split.
    { subst h'. unfold Game.setLastFromPlayer, Hand.pushMeld. cbn.
      rewrite E3, length_app. cbn.
      rewrite alter_app_r_alt by lia.
      replace (length (Hand.melds h) + 1 - 1 - length (Hand.melds h))%nat with 0%nat by lia.
      reflexivity. }
    split; [reflexivity|]. split; [reflexivity|].
    split; [cbn; rewrite Hf, E1; reflexivity|exact E2]. }
  destruct action; [contradiction| | |]; cbn [claimType].
  - unfold Hand.doKongExposed.
    pose proof (Hgen KONG_EXPOSED (replicate 3 (Tile.key tile)) id (fun l => reflexivity _)) as H.
    cbv zeta in H. destruct (Hand.takeByKeys _ _ _). exact H.
  - unfold Hand.doPung.
    pose proof (Hgen PUNG (replicate 2 (Tile.key tile)) id (fun l => reflexivity _)) as H.
    cbv zeta in H. destruct (Hand.takeByKeys _ _ _). exact H.
  - unfold Hand.doChow.
    pose proof (Hgen CHOW combo Tile.sort sort_Permutation) as H.
    cbv zeta in H. destruct (Hand.takeByKeys _ _ _). exact H.
Qed.

(** The replacement draw after a kong takes what it draws into the hand
    of seat 0. *)
Lemma kongReplacement_drew g hand g' :
  at_ (GameObj.hands g) 0 = Some hand ->
  Game.kongReplacement g = Some g' ->
  exists hand' drawn,
    at_ (GameObj.hands g') 0 = Some hand'
    /\ drewInto drawn hand (GameObj.wall g) hand' (GameObj.wall g').
Proof.
  intros Hh. unfold Game.kongReplacement.
  destruct (Wall.drawFromDeadWall (GameObj.wall g)) as [[x|] w] eqn:Hd.
  2:{ intros [= <-]. exists hand, []. split; [exact Hh|apply drewInto_refl]. }
  rewrite Hh. cbn [mbind option_bind].
  set (g1 := Game.setHand 0 (Hand.addTile x hand) (GameObj.set_wall w g)).
  assert (at_ (GameObj.hands g1) 0 = Some (Hand.addTile x hand)) as H1.
  { apply at_setHand. rewrite hands_set_wall, Hh. eauto. }
  destruct (Game._handleFlowerBloom 0 g1) as [g2|] eqn:Hg2; [|discriminate].
  cbn [mbind option_bind]. intros [= <-].
  destruct (handleFlowerBloom_drew 0 g1 _ g2 H1 Hg2) as (hand2 & d2 & H2 & Hd2 & _).
  exists hand2, ([x] ++ d2). split; [exact H2|].
  eapply drewInto_trans; [apply drewInto_addTile, drawFromDeadWall_wallLeft, Hd|exact Hd2].
Qed.

(** X28.  Claiming the last discard for a pung, a chow or a kong moves the
    tile from the discarder's pile into a new meld of seat 0: the game
    keeps its tiles, the discarder's pile has lost the tile, and seat 0 is
    to discard.  The hand of seat 0 has one meld more, its last: it has
    the type claimed, names the discarder, and is made of the discard and
    of tiles that were concealed in the hand.  The hand holds its former
    tiles, the discard, and what it has drawn from the walls since. *)
Theorem playerClaim_meld_keeps_tiles (action : Action) (chowCombo : list Key) (g : Game.t)
    (tile : Tile.t) (hand dh : Hand.t) :
  action <> win ->
  GameObj.lastDiscard g = Some tile ->
  at_ (GameObj.hands g) 0 = Some hand ->
  GameObj.lastDiscardPlayer g <> 0 ->
  at_ (GameObj.hands g) (GameObj.lastDiscardPlayer g) = Some dh ->
  tile ∈ Hand.discards dh -> distinctIds (Hand.discards dh) ->
  exists g',
    Game.playerClaim action chowCombo g = Some g'
    /\ allTiles g' ≡ₚ allTiles g
    /\ GameObj.state g' = Some PLAYER_DISCARD
    /\ at_ (GameObj.hands g') (GameObj.lastDiscardPlayer g) = Some (Game.removeDiscard tile dh)
    /\ Hand.discards dh ≡ₚ tile :: Hand.discards (Game.removeDiscard tile dh)
    /\ exists hand' m taken drawn,
         at_ (GameObj.hands g') 0 = Some hand'
         /\ Hand.melds hand' = Hand.melds hand ++ [m]
         /\ Meld.type m = claimType action
         /\ Meld.fromPlayer m = Some (GameObj.lastDiscardPlayer g)
         /\ Meld.tiles m ≡ₚ tile :: taken
         /\ taken ⊆+ Hand.concealed hand
         /\ wallLeft (GameObj.wall g) ≡ₚ drawn ++ wallLeft (GameObj.wall g')
         /\ handAll hand' ≡ₚ tile :: drawn ++ handAll hand.
Proof.
  intros Hact Htile Hh Hfrom Hdh Hin Hids.
  unfold Game.playerClaim. rewrite Htile, Hh. cbn [mbind option_bind].
  rewrite decide_False by exact Hact.
  set (from := GameObj.lastDiscardPlayer g) in *.
  set (hand' := Game.setLastFromPlayer from
                  (match action with
                   | kong => Hand.doKongExposed tile hand
                   | pung => Hand.doPung tile hand
                   | _ => Hand.doChow tile chowCombo hand
                   end)).
  destruct (claimed_meld action tile chowCombo from hand Hact)
    as (m & taken & Hmelds & Hty & Hfp & Hm & Htaken).
  fold hand' in Hmelds, Htaken.
  assert (handAll hand' ≡ₚ tile :: handAll hand) as HhandA.
  { subst hand'. rewrite handAll_setLastFromPlayer, handAll_claimed by exact Hact. reflexivity. }
  assert (allTiles (Game.setHand 0 hand' g) ≡ₚ tile :: allTiles g) as HallA.
  { apply (allTiles_gain g 0 hand hand' (GameObj.wall g) [tile] Hh).
    rewrite HhandA. reflexivity. }
  assert (at_ (GameObj.hands (Game.setHand 0 hand' g)) 0 = Some hand') as HatA.
  { apply at_setHand. rewrite Hh. eauto. }
  assert (exists g1 h1 d1, Game.claimMeld action tile chowCombo hand g = Some g1
            /\ allTiles g1 ≡ₚ tile :: allTiles g
            /\ at_ (GameObj.hands g1) 0 = Some h1
            /\ drewInto d1 hand' (GameObj.wall g) h1 (GameObj.wall g1)
            /\ (forall q, q <> 0 -> at_ (GameObj.hands g1) q = at_ (GameObj.hands g) q)
            /\ GameObj.lastDiscardPlayer g1 = from
            /\ GameObj.state g1 = Some PLAYER_DISCARD)
    as (g1 & h1 & d1 & -> & Hall1 & Hh1 & Hdrew1 & Hq1 & Hfrom1 & Hstate1).
  { unfold Game.claimMeld. destruct action; [contradiction| | |].
    - destruct (kongReplacement_inv (Game.setHand 0 hand' g) hand' HatA)
        as (g1 & Hg1 & Hall & _ & Hq & Hl & _).
      destruct (kongReplacement_drew _ hand' g1 HatA Hg1) as (h1 & d1 & Hh1 & Hd1).
      fold from. fold hand'. rewrite Hg1. cbn [mbind option_bind].
      eexists _, h1, d1. split; [reflexivity|].
      split; [change (allTiles g1 ≡ₚ tile :: allTiles g); rewrite Hall; exact HallA|].
      split; [exact Hh1|]. split; [exact Hd1|]. split; [|split; [exact Hl|reflexivity]].
      intros q Hq0. change (at_ (GameObj.hands g1) q = at_ (GameObj.hands g) q).
      rewrite Hq by assumption. apply at_setHand_other; [assumption|lia].
    - eexists _, hand', []. split; [reflexivity|]. fold from. fold hand'.
      split; [exact HallA|]. split; [exact HatA|]. split; [apply drewInto_refl|].
      split; [|split; reflexivity].
      intros q Hq0. apply (at_setHand_other 0 q hand' g); [assumption|lia].
    - eexists _, hand', []. split; [reflexivity|]. fold from. fold hand'.
      split; [exact HallA|]. split; [exact HatA|]. split; [apply drewInto_refl|].
      split; [|split; reflexivity].
      intros q Hq0. apply (at_setHand_other 0 q hand' g); [assumption|lia]. }
  cbn [mbind option_bind]. rewrite Hfrom1, (Hq1 from Hfrom), Hdh. cbn [mbind option_bind].
  pose proof (removeFirst_id tile _ Hin Hids) as Hpile.
  set (g2 := Game.setHand from (Game.removeDiscard tile dh) g1).
  assert (at_ (GameObj.hands g1) from = Some dh) as Hdh1 by (rewrite (Hq1 from Hfrom); exact Hdh).
  assert (0 <= from) as Hfrom0 by (apply at_split in Hdh as (_ & _ & _ & _ & Hp); exact Hp).
  assert (tile :: allTiles g2 ≡ₚ allTiles g1) as Hall2.
  { symmetry. apply at_split in Hdh1 as (l1 & l2 & Hl & Hlen & _).
    unfold g2, allTiles, Game.setHand. cbn. rewrite Hl, <- Hlen.
    rewrite insert_app_r_alt, Nat.sub_diag by lia. cbn. rewrite !flat_map_app. cbn.
    set (A := flat_map handAll l1). set (B := flat_map handAll l2). clearbody A B.
    unfold handAll, Game.removeDiscard. cbn.
    clear HallA Hall1 HhandA Htaken Hm. destruct Hdrew1 as [_ _]. perm_count. }
  assert (at_ (GameObj.hands g2) 0 = Some h1) as Hh2.
  { unfold g2. rewrite at_setHand_other by (assumption || lia). exact Hh1. }
  destruct (validateHandSize_inv 0 Game.before_discard g2 h1 Hh2)
    as (g' & h' & Hg' & Hat' & Hall' & Hq' & _).
  destruct (validateHandSize_drew 0 Game.before_discard g2 h1 g' Hh2 Hg')
    as (h'' & d2 & Hat'' & Hdrew2 & _).
  rewrite Hat' in Hat''. injection Hat'' as <-.
  destruct (validateHandSize_ok 0 Game.before_discard g2) as (g3 & Hg3 & Honly);
    [rewrite Hh2; eauto|].
  rewrite Hg' in Hg3. injection Hg3 as <-.
  exists g'. split; [exact Hg'|]. split.
  { apply (Permutation_cons_inv (a := tile)). rewrite <- Hall1, <- Hall2, Hall'. reflexivity. }
  split; [rewrite (proj2 (onlyTiles_fields _ _ Honly)); exact Hstate1|].
  split; [rewrite Hq' by exact Hfrom; unfold g2; apply at_setHand; rewrite Hdh1; eauto|].
  split; [exact Hpile|].
  assert (GameObj.wall g2 = GameObj.wall g1) as Hw2 by reflexivity.
  rewrite Hw2 in Hdrew2.
  destruct (drewInto_trans _ _ _ _ _ _ _ _ Hdrew1 Hdrew2) as (Hwall & Hhand & Hmeld & _).
  exists h', m, taken, (d1 ++ d2). split; [exact Hat'|].
  split; [rewrite Hmeld; exact Hmelds|]. split; [exact Hty|]. split; [exact Hfp|].
  split; [exact Hm|]. split; [rewrite Htaken; apply submseteq_inserts_r; reflexivity|].
  split; [exact Hwall|].
  rewrite Hhand, HhandA. clear. perm_count.
Qed.

Lemma playerClaim_meld_keeps_tiles_witness :
  exists g' hand' m,
    Game.playerClaim chow [(WAN, 1); (WAN, 3)] claimGame = Some g'
    /\ allTiles g' ≡ₚ allTiles claimGame
    /\ GameObj.state g' = Some PLAYER_DISCARD
    /\ at_ (GameObj.hands g') 3 = Some (Hand.new 3)
    /\ at_ (GameObj.hands g') 0 = Some hand'
    /\ Hand.melds hand' = Hand.melds kongHand ++ [m]
    /\ Meld.type m = CHOW /\ Meld.fromPlayer m = Some 3
    /\ wan2 ∈ Meld.tiles m.
Proof.
  destruct (playerClaim_meld_keeps_tiles chow [(WAN, 1); (WAN, 3)] claimGame wan2 kongHand
              (Hand.mk 3 [] [] [] [wan2]))
    as (g' & H1 & H2 & H3 & H4 & _ & hand' & m & taken & drawn & H5 & H6 & H7 & H8 & H9 & _).
  - discriminate.
  - reflexivity.
  - reflexivity.
  - vm_compute. discriminate.
  - reflexivity.
  - apply (bool_decide_unpack _). vm_compute. exact I.
  - apply (bool_decide_unpack _). vm_compute. exact I.
  - exists g', hand', m. repeat (split; [assumption|]).
    rewrite H9. left.
Defined.
